(* ===== verification/_CoqProject ===== *)
-Q . S2P
Prelude.v
Words.v
Hash.v
Text.v
Chain.v
ChainSpec.v
Cache.v
Net.v
Queue.v
Backend.v
BeLibs.v
BeLibsSpec.v
Server.v
Parse.v
ParseSpec.v
DbLoop.v
DbSpec.v
Transport.v
Tcp.v
TcpSpec.v
System.v
Progress.v
Settings.v
NetLoop.v
Log.v
Main.v
Client.v
ClientSpec.v
ClientSelect.v
ClientTcp.v
Host.v
HostTcp.v
Cluster.v
StatsTool.v
Walk.v
Crowd.v
CrowdSpec.v
TestPrograms.v
TestSpec.v
TestRuns.v
ClientRobust.v
Dict.v
Python.v
NmdbPy.v
PythonSpec.v
Session.v
Ruby.v
RubySpec.v
