(* ===== verification/Prelude.v ===== *)
(** * nmdb: a verification development

    nmdb is a network server for a key-value database with a cache in front of
    it (src/nmdb), a client library (src/libnmdb), its modules for Python and Ruby
    (src/bindings), a tool that shows a server's statistics (src/utils) and
    programs that time the library (src/tests/c). The server is one process with
    two threads. The first waits in libevent's loop for messages (TIPC, TCP, UDP,
    SCTP) and signals; a message is parsed and handled against the cache at
    once, and what concerns the database is put in a queue. The second takes
    the entries of the queue one by one, runs them against the backend and, for
    requests that want to wait, replies. The client library spreads keys over
    servers, encodes requests and decodes replies.

    ** How C is modelled

    A C function is a computation [M S A] (this file) on explicit state, and
    [None] is undefined behaviour: an access outside a block, a use after a
    release, a second release, a NULL dereference, a division by zero. So every
    theorem of the form [f (Mem s a) = Some (r, ...)] also says that [f] is
    memory safe and ends. Owned blocks are [cptr]; the allocator [alloc] may
    refuse any call of [malloc]; most theorems ask for one that never does
    ([never_fails]), and the error paths have their own. [wp m Q s] is the total
    correctness that the proofs work with, and [wp_simpl] runs straight-line
    code. Integers are [Z], with [w16], [w32], [w64], [s32], [s64] written
    wherever C wraps or converts; bytes are [byte].

    ** Files, and the code they model

    - Words, Hash, Text: netutils.c and accesses to words in buffers; hash.h;
      what the code uses of strtoll, snprintf and inet_pton.
    - Chain, ChainSpec, Cache: cache.h and cache.c. A [cchain] is the fixed
      array of entries with its first and last pointers (indices into it); its
      abstraction is a list, most recent first ([chain_rep]); a [cache] is a
      table of chains, abstractly a list of buckets ([cache_is]).
    - Net, Queue: net-const.h, req.h, stats.h, stats.c, common.h; queue.h and
      queue.c. Queue entries live in a store by address; [queue_is] gives the
      list of what they hold.
    - Backend, BeLibs, BeLibsSpec: be.h, be.c and be-null.c; be-bdb.c,
      be-qdbm.c, be-tc.c, be-tdb.c, be-leveldb.c. [DbOps] is struct db_conn,
      [DbLaws] what the database thread relies on; a class for each library
      holds its calls, and its [*Laws] what its documentation says of them.
    - Server, Parse, ParseSpec: parse.c. [server] holds the process' globals
      and the replies so far; ParseSpec splits a handler into [decode] and
      [handle] on the abstract state [astate].
    - DbLoop, DbSpec: dbloop.c. [system] is the server with the database and
      the stop flag; [a_process] is the specification of one queue entry.
    - Transport, Tcp, TcpSpec: udp.c, tipc.c, sctp.c; tcp.c.
    - System, Progress: the two threads together, as interleavings of [event]s;
      also the signal handlers of net.c that change the state.
    - Settings, NetLoop, Log, Main: main.c's command line; net.c with the init
      and close functions of the transports and their stubs; log.c; main.
    - Client, ClientSpec, ClientSelect, ClientTcp, ClientRobust: libnmdb.
      [Kernel] is what the library asks of the system, [MapService] what it
      expects of a server, [DgramService] and [StreamService] the same seen from
      the datagrams and from the bytes of a connection; [SaneKernel] is all that
      ClientRobust expects.
    - Host, HostTcp: a client and a server joined by UDP and by TCP; Cluster: a
      client and several servers; Walk: a client that walks the keys, with
      [DbWalk] for the backends that list them and [KeyOrder] for the servers;
      StatsTool: nmdb-stats.c.
    - Crowd, CrowdSpec: many clients of one server. A [crowd] is the server's
      process and its clients, each with the library and a socket; its [step]s
      are a client that makes a call, a datagram that arrives, a round of the
      database loop and a client that gets its reply, in any order.
    - TestPrograms, TestSpec, TestRuns: tests/c. A program is an [exc]
      computation, [raise] being an early return of its [main]; TestSpec proves
      each against any [MapService], TestRuns runs them as processes against the
      server of Host.
    - Python, NmdbPy, PythonSpec: nmdb_ll.c and nmdb.py. [pyenv] is the
      interpreter as the module sees it (lock, exception, objects), the class
      [Python] what it calls; a Python function is an [exc] computation (this
      file). Session: a Python program against the server. Ruby, RubySpec:
      nmdb_ll.c and nmdb.rb of the Ruby module, in the same way. Dict: when a
      map on a server stands for a dictionary of objects, for both.

    ** What the theorems show

    - Composition. [System.server_linearizable]: every interleaving of messages,
      signals and database rounds answers as one map would, request by request
      in order of arrival, although the database lags behind the cache.
      [Main.main_serves] is the same for the process from its command line to
      its return. [Host.end_to_end] is the same seen by a client, through the
      encoded bytes, [HostTcp.tcp_end_to_end] over TCP, however the bytes are
      cut, and [Session.python_end_to_end] by a Python program;
      [Walk.walk_end_to_end]: walking the keys gives each once;
      [Cluster.cluster_end_to_end]: a group of servers, among which the client
      spreads the keys, is one map. [CrowdSpec.crowd_linearizable]: many clients
      of one server, whose calls overlap in any way, use one map in the order in
      which their datagrams arrive. [StatsTool.stats_tool_shows]: the counters
      from the server to the screen. [TestRuns.tests_pass]: the programs of
      tests/c end with 0 and print the right misses and counters.
    - Refinement. [Cache.cache_runs_refine], [ParseSpec.parse_message_refines],
      [DbSpec.process_op_refines], [ClientSpec.client_refines_map],
      [RubySpec.ruby_refines_dict] and [BeLibsSpec.backends_implement_map]: each component against its
      specification; the clients' proofs only use the classes [DbLaws],
      [MapService], [ClusterService] and [StatsService], which Backend,
      BeLibsSpec, Host, HostTcp, Cluster and StatsTool discharge.
    - Invariants and progress. [System.event_preserves_inv] for the whole server,
      [ParseSpec.parse_message_safe] for arbitrary bytes that the server gets,
      [ClientRobust.client_robust] for what the client gets,
      [PythonSpec.python_contract] for what the interpreter passes and expects,
      [Progress.requests_are_answered], [CrowdSpec.crowd_finishes] (every client
      gets to the end of its program), [Progress.reply_bounds],
      [DbSpec.db_loop_drains], [Cache.cache_free_no_leak],
      [Queue.queue_free_releases_all], [BeLibsSpec.wrappers_give_back].
    - Protocol. [ParseSpec.decode_encode], [Transport.dgram_recv_request],
      [Transport.dgram_send_wire], [TcpSpec.tcp_reassembly],
      [TcpSpec.tcp_send_complete], [ClientTcp.client_tcp_exchange].
    - Start and stop. [Settings.load_settings_spec] and its neighbours,
      [NetLoop.net_loop_spec], [NetLoop.transport_init_spec],
      [Main.main_startup_errors].
    - Where the code fails. Messages that get past the checks of parse.c
      ([ParseSpec.parse_incr_wrap] and the lemmas next to it), two TCP messages
      in one segment ([TcpSpec.tcp_pipelining_broken]), a table of no chains
      ([Cache.small_cache_divides_by_zero]), a log line longer than its buffer
      ([Main.long_db_path_overrun]), a reply shorter than the field it announces
      ([ClientRobust.short_reply_overrun]), test programs out of memory
      ([TestRuns.tests_no_memory]), and the slips of the bindings
      ([PythonSpec.incr_lost], [PythonSpec.cache_cas_undefined_name],
      [PythonSpec.db_new_leaks], [RubySpec.ruby_incr_alias],
      [RubySpec.ruby_null_connection]). Theorems about what works state the
      conditions that exclude these.

    ** Fuel

    Loops over pointers get fuel from what they walk over: one more than the
    entries of a chain ([free_walk], [find_loop]) or of the queue's store
    ([queue_free]); [srecv_loop] and [ssend_loop] get one round for each byte,
    since each round that goes on moves at least one; the sum of the checksum
    is folded three times, where two are enough for 32 bits. Out of fuel is
    [ub], so a theorem that the result is [Some] also says that the fuel
    suffices. [db_loop] runs on the list of the ends of its waits, the
    environment's choice; [db_loop_drains] and [server_linearizable] say how
    many are enough.

    ** What is not modelled, and why

    - The kernel, libevent, pthreads and the database libraries: parameters,
      scripts of results, or tables, with what is assumed of them stated. The
      queue's mutex makes its operations atomic: an execution interleaves whole
      handler calls and whole rounds of the database thread. The occurrence
      that leaves the event loop stands for the moment it is left.
    - Log lines of the handlers, the time in front of a line, help texts.
    - The interpreters of Python and Ruby: parameters, with what the code
      relies on as [PythonLaws] and [RubyLaws]. One thread of the interpreter is
      modelled; the references that keep objects alive are not counted. The
      start of the Python module under Python 2 is left out.
    - The bindings for D, Haskell, newLISP and Scheme (declarations and one line
      for each call), and the scripts of src/tests (Python programs with random
      input, and shell).
    - Datagrams that the network loses, doubles or reorders for one client: the
      library has no answer to them, and waits. The variants of the test programs
      that use the cache only, whose misses depend on the cache's size.
    - The functions of hash.h under [#if 0]; big-endian hosts. *)

From stdpp Require Export base tactics list option decidable numbers gmap.
From coqutil Require Export Byte Word.LittleEndianList.
From Stdlib Require Export ZArith Lia.

#[global] Open Scope Z_scope.

(** The kernel's byte type; [byte.unsigned] and [byte.of_Z] convert. *)
Abbreviation bytes := (list byte).

#[export] Instance byte_eq_decision : EqDecision byte := Byte.byte_eq_dec.

(** ** A state monad whose failure is undefined behaviour

    A C function is a computation [M S A]: from a state it yields [None] when
    the C code would have undefined behaviour (an invalid dereference, an
    access out of a block's bounds, a double free, a division by zero) or
    never ends, and a result with the new state otherwise. *)

Definition M (S A : Type) : Type := S → option (A * S).

#[export] Instance M_ret S : MRet (M S) := λ A a s, Some (a, s).
#[export] Instance M_bind S : MBind (M S) := λ A B f m s,
  match m s with
  | Some (a, s') => f a s'
  | None => None
  end.

Definition ub {S A} : M S A := λ _, None.
Definition gets {S A} (f : S → A) : M S A := λ s, Some (f s, s).
Definition modify {S} (f : S → S) : M S () := λ s, Some (tt, f s).

(** Lifts a partial value: [None] is undefined behaviour. *)
Definition lift_opt {S A} (o : option A) : M S A := λ s, (λ a, (a, s)) <$> o.

(** [wp m Q s]: from [s], [m] is defined and ends in a state and with a
    result that satisfy [Q] (total correctness). *)
Definition wp {S A} (m : M S A) (Q : A → S → Prop) (s : S) : Prop :=
  match m s with
  | Some (a, s') => Q a s'
  | None => False
  end.

Section wp.
Context {S : Type}.

Lemma wp_ret {A} (a : A) (Q : A → S → Prop) s : wp (mret a) Q s ↔ Q a s.
Proof. done. Qed.

Lemma wp_bind {A B} (m : M S A) (k : A → M S B) (Q : B → S → Prop) s :
  wp (m ≫= k) Q s ↔ wp m (λ a, wp (k a) Q) s.
Proof. unfold wp, mbind, M_bind. by destruct (m s) as [[]|]. Qed.

Lemma wp_ub {A} (Q : A → S → Prop) s : wp ub Q s ↔ False.
Proof. done. Qed.

Lemma wp_gets {A} (f : S → A) (Q : A → S → Prop) s : wp (gets f) Q s ↔ Q (f s) s.
Proof. done. Qed.

Lemma wp_modify (f : S → S) (Q : () → S → Prop) s : wp (modify f) Q s ↔ Q tt (f s).
Proof. done. Qed.

Lemma wp_lift_opt {A} (o : option A) (Q : A → S → Prop) s :
  wp (lift_opt o) Q s ↔ ∃ a, o = Some a ∧ Q a s.
Proof. unfold wp, lift_opt. destruct o; naive_solver. Qed.

Lemma wp_lift_some {A} (a : A) (Q : A → S → Prop) s :
  wp (lift_opt (Some a)) Q s ↔ Q a s.
Proof. done. Qed.

Lemma wp_mono {A} (m : M S A) (Q Q' : A → S → Prop) s :
  wp m Q s → (∀ a s', Q a s' → Q' a s') → wp m Q' s.
Proof. unfold wp. destruct (m s) as [[]|]; auto. Qed.

Lemma wp_and_when {A} (m : M S A) (P : Prop) (Q Q' : A → S → Prop) s :
  wp m Q s → (P → wp m Q' s) → wp m (λ a s', Q a s' ∧ (P → Q' a s')) s.
Proof. unfold wp. destruct (m s) as [[]|]; auto. Qed.

Lemma wp_exec {A} (m : M S A) (Q : A → S → Prop) s :
  wp m Q s ↔ ∃ a s', m s = Some (a, s') ∧ Q a s'.
Proof. unfold wp. destruct (m s) as [[]|]; naive_solver. Qed.

Lemma wp_eq {A} (m : M S A) a s' s :
  wp m (λ r t, r = a ∧ t = s') s ↔ m s = Some (a, s').
Proof. unfold wp. destruct (m s) as [[]|]; naive_solver. Qed.
End wp.

(** ** Computations that may raise an exception *)

Definition exc (S X A : Type) : Type := M S (A + X).

#[export] Instance exc_ret {S X} : MRet (exc S X) := λ A a s, Some (inl a, s).
#[export] Instance exc_bind {S X} : MBind (exc S X) := λ A B f m s,
  match m s with
  | Some (inl a, s') => f a s'
  | Some (inr e, s') => Some (inr e, s')
  | None => None
  end.

Definition raise {S X A} (e : X) : exc S X A := λ s, Some (inr e, s).
Definition of_sum {S X A} (r : A + X) : exc S X A := λ s, Some (r, s).

(** A computation that raises nothing. *)
Definition lifted {S X A} (m : M S A) : exc S X A := λ s,
  match m s with Some (a, s') => Some (inl a, s') | None => None end.

(** [try: m] [except: h], the handler taking the exception. *)
Definition try_except {S X A} (m : exc S X A) (h : X → exc S X A) : exc S X A := λ s,
  match m s with
  | Some (inr e, s') => h e s'
  | r => r
  end.

Section exc.
Context {S X : Type}.

Lemma wp_exc_ret {A} (x : A) (Q : A + X → S → Prop) s : wp (mret (M := exc S X) x) Q s ↔ Q (inl x) s.
Proof. done. Qed.

Lemma wp_exc_bind {A B} (m : exc S X A) (k : A → exc S X B) (Q : B + X → S → Prop) s :
  wp (mbind (M := exc S X) k m) Q s ↔
  wp m (λ r s, match r with inl x => wp (k x) Q s | inr e => Q (inr e) s end) s.
Proof. unfold wp, mbind, exc_bind. by destruct (m s) as [[[] ]|]. Qed.

Lemma wp_raise {A} e (Q : A + X → S → Prop) s : wp (raise e) Q s ↔ Q (inr e) s.
Proof. done. Qed.

Lemma wp_of_sum {A} r (Q : A + X → S → Prop) s : wp (of_sum r) Q s ↔ Q r s.
Proof. done. Qed.

Lemma wp_lifted {A} (m : M S A) (Q : A + X → S → Prop) s : wp (lifted m) Q s ↔ wp m (λ x, Q (inl x)) s.
Proof. unfold wp, lifted. by destruct (m s) as [[]|]. Qed.

Lemma wp_try_except {A} (m : exc S X A) h (Q : A + X → S → Prop) s :
  wp (try_except m h) Q s ↔
  wp m (λ r s, match r with inl x => Q (inl x) s | inr e => wp (h e) Q s end) s.
Proof. unfold wp, try_except. by destruct (m s) as [[[] ]|]. Qed.
End exc.

#[global] Opaque wp.

(** ** C memory: owned blocks and the allocator *)

(** A pointer field that owns its block. A freed block leaves [Dangling]
    behind, so a later use or a second [free] is undefined. *)
Inductive cptr :=
  | Null
  | Block (b : bytes)
  | Dangling.

#[export] Instance cptr_eq_decision : EqDecision cptr.
Proof. solve_decision. Defined.

(** The allocator: whether the n-th call of [malloc] succeeds, the number of
    calls so far, and the content of a fresh block (indeterminate in C: an
    arbitrary byte, that no theorem fixes). *)
Record alloc := Alloc { al_ok : nat → bool; al_next : nat; al_junk : byte }.

(** The state of a component, with the allocator beside it. *)
Record mem (T : Type) := Mem { obj : T; heap : alloc }.
Arguments Mem {T} _ _.
Arguments obj {T} _.
Arguments heap {T} _.

Abbreviation MT T := (M (mem T)).

Definition al_tick (a : alloc) : alloc := Alloc (al_ok a) (S (al_next a)) (al_junk a).

(** [malloc(n)]: [Null] when the allocator refuses, else a fresh block. *)
Definition malloc {T} (n : Z) : MT T cptr := λ s,
  let a := heap s in
  Some (if al_ok a (al_next a)
        then Block (replicate (Z.to_nat n) (al_junk a)) else Null,
        Mem (obj s) (al_tick a)).

(** [free(p)]: what the pointer is afterwards. *)
Definition free {S} (p : cptr) : M S cptr :=
  match p with
  | Null => mret Null
  | Block _ => mret Dangling
  | Dangling => ub
  end.

(** The block a pointer points to; a dereference of NULL or of a freed
    block is undefined. *)
Definition deref {S} (p : cptr) : M S bytes :=
  match p with
  | Block b => mret b
  | _ => ub
  end.

(** [in_block b n]: the first [n] bytes of [b] can be accessed. *)
Definition in_block (b : bytes) (n : Z) : bool :=
  bool_decide (0 ≤ n ≤ Z.of_nat (length b)).

(** [memcpy(dst, src, n)] on the blocks from [dst] and [src] on. *)
Definition memcpy {S} (dst src : bytes) (n : Z) : M S bytes :=
  if in_block dst n && in_block src n
  then mret (take (Z.to_nat n) src ++ drop (Z.to_nat n) dst)
  else ub.

(** [memcmp(a, b, n) == 0] *)
Definition memeq {S} (a b : bytes) (n : Z) : M S bool :=
  if in_block a n && in_block b n
  then mret (bool_decide (take (Z.to_nat n) a = take (Z.to_nat n) b))
  else ub.

(** [b[i]] *)
Definition byte_at {S} (b : bytes) (i : Z) : M S byte :=
  if bool_decide (0 ≤ i < Z.of_nat (length b)) then lift_opt (b !! Z.to_nat i) else ub.

Definition get_obj {T} : MT T T := gets obj.
Definition mod_obj {T} (f : T → T) : MT T () := modify (λ s, Mem (f (obj s)) (heap s)).

(** Runs a computation on a part of the state: [g] reads the part ([None]
    when it does not exist: undefined) and [p] writes it back. *)
Definition zoom {T U A} (g : T → option U) (p : U → T → T) (m : MT U A) : MT T A :=
  λ s, match g (obj s) with
       | None => None
       | Some u =>
           match m (Mem u (heap s)) with
           | None => None
           | Some (a, s') => Some (a, Mem (p (obj s') (obj s)) (heap s'))
           end
       end.

(** The allocator never refuses. *)
Definition never_fails (a : alloc) : Prop := ∀ n, al_ok a n = true.

Section mem_wp.
Context {T : Type}.

Lemma wp_malloc n (Q : cptr → mem T → Prop) x a :
  never_fails a →
  Q (Block (replicate (Z.to_nat n) (al_junk a))) (Mem x (al_tick a)) →
  wp (malloc n) Q (Mem x a).
Proof. intros Ha HQ. apply wp_exec. unfold malloc; cbn. rewrite Ha. eauto. Qed.

Lemma wp_malloc_null n (Q : cptr → mem T → Prop) x a :
  al_ok a (al_next a) = false →
  Q Null (Mem x (al_tick a)) →
  wp (malloc n) Q (Mem x a).
Proof. intros Ha HQ. apply wp_exec. unfold malloc; cbn. rewrite Ha. eauto. Qed.

Lemma wp_get_obj (Q : T → mem T → Prop) x a :
  wp get_obj Q (Mem x a) ↔ Q x (Mem x a).
Proof. done. Qed.

Lemma wp_mod_obj f (Q : () → mem T → Prop) x a :
  wp (mod_obj f) Q (Mem x a) ↔ Q tt (Mem (f x) a).
Proof. done. Qed.

Lemma wp_zoom {U A} (g : T → option U) p (m : MT U A) (Q : A → mem T → Prop) x a u :
  g x = Some u →
  wp (zoom g p m) Q (Mem x a) ↔
  wp m (λ r s, Q r (Mem (p (obj s) x) (heap s))) (Mem u a).
Proof.
  intros Hg. rewrite !wp_exec. unfold zoom; cbn. rewrite Hg.
  destruct (m (Mem u a)) as [[]|]; naive_solver.
Qed.
End mem_wp.

Lemma never_fails_tick a : never_fails a → never_fails (al_tick a).
Proof. done. Qed.

Lemma in_block_true b n : 0 ≤ n → n ≤ Z.of_nat (length b) → in_block b n = true.
Proof. intros. unfold in_block. by apply bool_decide_eq_true. Qed.

Lemma in_block_spec b n : in_block b n = true ↔ 0 ≤ n ≤ Z.of_nat (length b).
Proof. unfold in_block. apply bool_decide_eq_true. Qed.

Section block_wp.
Context {S : Type}.

Lemma wp_memcpy dst src n (Q : bytes → S → Prop) s :
  0 ≤ n → n ≤ Z.of_nat (length dst) → n ≤ Z.of_nat (length src) →
  Q (take (Z.to_nat n) src ++ drop (Z.to_nat n) dst) s →
  wp (memcpy dst src n) Q s.
Proof. intros ??? HQ. unfold memcpy. by rewrite !in_block_true. Qed.

(** Filling a whole block leaves exactly the source's bytes. *)
Lemma wp_memcpy_full dst src n (Q : bytes → S → Prop) s :
  0 ≤ n → n ≤ Z.of_nat (length src) → length dst = Z.to_nat n →
  Q (take (Z.to_nat n) src) s → wp (memcpy dst src n) Q s.
Proof.
  intros ?? Hl HQ. apply wp_memcpy; try lia.
  by rewrite (drop_ge dst) by lia; rewrite app_nil_r.
Qed.

Lemma wp_memeq a b n (Q : bool → S → Prop) s :
  0 ≤ n → n ≤ Z.of_nat (length a) → n ≤ Z.of_nat (length b) →
  Q (bool_decide (take (Z.to_nat n) a = take (Z.to_nat n) b)) s →
  wp (memeq a b n) Q s.
Proof. intros ??? HQ. unfold memeq. by rewrite !in_block_true. Qed.

Lemma wp_byte_at b i c (Q : byte → S → Prop) s :
  0 ≤ i → b !! Z.to_nat i = Some c → Q c s → wp (byte_at b i) Q s.
Proof.
  intros Hi Hc HQ. apply lookup_lt_Some in Hc as Hl. unfold byte_at.
  rewrite bool_decide_true by lia. by rewrite Hc.
Qed.
End block_wp.

(** ** Automation *)

Create HintDb nmdb.
Create Rewrite HintDb wp.
#[export] Hint Resolve never_fails_tick : nmdb.
#[export] Hint Rewrite @wp_bind @wp_ret @wp_gets @wp_modify @wp_ub
  @wp_get_obj @wp_mod_obj @wp_lift_some
  @wp_exc_bind @wp_exc_ret @wp_raise @wp_of_sum @wp_lifted @wp_try_except : wp.

(** Runs the computation of the goal as far as its structure goes. *)
Ltac wp_simpl :=
  repeat first [ progress cbn [obj heap] | progress autorewrite with wp ].

(** ** Lists *)

Section lists.
Context {A : Type}.

Lemma take_app_full (l k : list A) n : n = length l → take n (l ++ k) = l.
Proof. intros ->. apply take_app_length. Qed.

Lemma drop_app_full (l k : list A) n : n = length l → drop n (l ++ k) = k.
Proof. intros ->. apply drop_app_length. Qed.
End lists.
