(* ===== verification/Words.v ===== *)
(** * Machine words and byte order

    The host is little-endian (the code itself says "FIXME: little endian-only"
    in [nmdb/parse.c]); a word of w bits is a [Z] in [0, 2^w), and every
    operation that can leave the range wraps explicitly. [netutils.c]'s
    [ntohll]/[htonll] are modelled here, with the accesses to words in buffers
    that parse.c, tcp.c and the library do with pointer casts. *)

From S2P Require Import Prelude.

Definition w16 (z : Z) : Z := z mod 2 ^ 16.
Definition w32 (z : Z) : Z := z mod 2 ^ 32.
Definition w64 (z : Z) : Z := z mod 2 ^ 64.

(** The largest [size_t], what [-1] converts to. *)
Definition SIZE_MAX : Z := 2 ^ 64 - 1.

(** The value of a two's complement [int64_t]. *)
Definition s64 (z : Z) : Z := (z + 2 ^ 63) mod 2 ^ 64 - 2 ^ 63.
Definition INT64_MIN : Z := - 2 ^ 63.
Definition INT64_MAX : Z := 2 ^ 63 - 1.

(** The bytes of an n-byte word in memory (little-endian), and back. *)
Definition store_le (n : nat) (z : Z) : bytes := le_split n z.
Definition load_le (n : nat) (b : bytes) : Z := le_combine (take n b).

(** [*(uintN_t * ) (b + off)]: undefined past the end of the region. *)
Definition load {S} (n : nat) (b : bytes) (off : Z) : M S Z :=
  if bool_decide (0 ≤ off) && in_block b (off + Z.of_nat n)
  then mret (load_le n (drop (Z.to_nat off) b))
  else ub.

(** [htons], [htonl] on a little-endian host: the bytes of the word reversed.
    [ntohs] and [ntohl] are the same functions. *)
Definition htons (x : Z) : Z := le_combine (rev (le_split 2 x)).
Definition htonl (x : Z) : Z := le_combine (rev (le_split 4 x)).
Abbreviation ntohs := htons (only parsing).
Abbreviation ntohl := htonl (only parsing).

(** The byte-order test both functions of netutils.c do: 1 on a big-endian
    host, -1 on a little-endian one. *)
Definition endianness : Z := if htonl 1 =? 1 then 1 else -1.

Definition ntohll (x : Z) : Z :=
  if endianness =? 1 then x
  else Z.lor (ntohl (Z.land (Z.shiftr x 32) 0xFFFFFFFF))
             (w64 (Z.shiftl (ntohl (Z.land x 0xFFFFFFFF)) 32)).

Definition htonll (x : Z) : Z :=
  if endianness =? 1 then x
  else Z.lor (htonl (Z.land (Z.shiftr x 32) 0xFFFFFFFF))
             (w64 (Z.shiftl (htonl (Z.land x 0xFFFFFFFF)) 32)).

(** The reference: a word's big-endian bytes, and the word they denote. *)
Definition be_split (n : nat) (z : Z) : bytes := rev (le_split n z).
Definition be_combine (b : bytes) : Z := le_combine (rev b).

(** ** Ranges *)

Lemma w64_range z : 0 ≤ w64 z < 2 ^ 64.
Proof. apply Z.mod_pos_bound. lia. Qed.

Lemma w32_range z : 0 ≤ w32 z < 2 ^ 32.
Proof. apply Z.mod_pos_bound. lia. Qed.

Lemma w64_small z : 0 ≤ z < 2 ^ 64 → w64 z = z.
Proof. apply Z.mod_small. Qed.

Lemma w32_small z : 0 ≤ z < 2 ^ 32 → w32 z = z.
Proof. apply Z.mod_small. Qed.

Lemma s64_range z : INT64_MIN ≤ s64 z ≤ INT64_MAX.
Proof.
  unfold s64, INT64_MIN, INT64_MAX.
  pose proof (Z.mod_pos_bound (z + 2 ^ 63) (2 ^ 64) ltac:(lia)). lia.
Qed.

Lemma s64_small z : INT64_MIN ≤ z ≤ INT64_MAX → s64 z = z.
Proof.
  unfold s64, INT64_MIN, INT64_MAX. intros. rewrite Z.mod_small; lia.
Qed.

Lemma s64_w64 z : s64 (w64 z) = s64 z.
Proof. unfold s64, w64. by rewrite Z.add_mod_idemp_l by lia. Qed.

Lemma w64_s64 z : w64 (s64 z) = w64 z.
Proof.
  unfold s64, w64. rewrite Zminus_mod, Z.mod_mod by lia.
  rewrite <-Zminus_mod. f_equal. lia.
Qed.

(** ** Byte order *)

Lemma length_be_split n z : length (be_split n z) = n.
Proof. unfold be_split. by rewrite length_rev, length_le_split. Qed.

Lemma be_combine_split n z : be_combine (be_split n z) = z mod 2 ^ (Z.of_nat n * 8).
Proof. unfold be_combine, be_split. rewrite rev_involutive. apply le_combine_split. Qed.

Lemma be_split_combine b : be_split (length b) (be_combine b) = b.
Proof.
  unfold be_combine, be_split. rewrite <-(length_rev b), split_le_combine.
  apply rev_involutive.
Qed.

Lemma be_combine_bound b : 0 ≤ be_combine b < 2 ^ (8 * Z.of_nat (length b)).
Proof. unfold be_combine. rewrite <-(length_rev b). apply le_combine_bound. Qed.

(** A word read from memory and passed through [ntohl] is the big-endian
    value of its bytes; stored after [htonl], a word is its big-endian bytes. *)
Lemma ntohl_le_combine b : length b = 4%nat → ntohl (le_combine b) = be_combine b.
Proof. intros Hb. unfold htonl. rewrite <-Hb, split_le_combine. done. Qed.

Lemma ntohs_le_combine b : length b = 2%nat → ntohs (le_combine b) = be_combine b.
Proof. intros Hb. unfold htons. rewrite <-Hb, split_le_combine. done. Qed.

Lemma split_combine_rev n z : le_split n (le_combine (rev (le_split n z))) = be_split n z.
Proof.
  rewrite <-(length_le_split n z) at 1. rewrite <-length_rev. apply split_le_combine.
Qed.

Lemma le_split_htonl z : le_split 4 (htonl z) = be_split 4 z.
Proof. apply split_combine_rev. Qed.

Lemma le_split_htons z : le_split 2 (htons z) = be_split 2 z.
Proof. apply split_combine_rev. Qed.

Lemma htonl_range z : 0 ≤ htonl z < 2 ^ 32.
Proof. unfold htonl. pose proof (le_combine_bound (rev (le_split 4 z))) as H.
  by rewrite length_rev, length_le_split in H. Qed.

Lemma htonl_htonl z : 0 ≤ z < 2 ^ 32 → ntohl (htonl z) = z.
Proof.
  intros Hz. unfold htonl at 1. rewrite le_split_htonl. unfold be_split.
  rewrite rev_involutive, le_combine_split. by apply Z.mod_small.
Qed.

Lemma le_split_app n m z :
  le_split (n + m) z = le_split n z ++ le_split m (Z.shiftr z (8 * Z.of_nat n)).
Proof.
  revert z; induction n as [|n IH]; intros z.
  { by rewrite Z.shiftr_0_r. }
  cbn [Nat.add le_split app]. unfold le_split in *; fold le_split in *. cbn.
  f_equal. rewrite IH. f_equal. rewrite Z.shiftr_shiftr by lia. f_equal. f_equal. lia.
Qed.

Lemma le_split_land n z m :
  m = Z.ones (8 * Z.of_nat n) → le_split n (Z.land z m) = le_split n z.
Proof.
  intros ->. rewrite Z.land_ones by lia.
  rewrite (le_split_mod z). f_equal. f_equal. f_equal. lia.
Qed.

Lemma byteswap64 x :
  Z.lor (htonl (Z.land (Z.shiftr x 32) 0xFFFFFFFF))
        (w64 (Z.shiftl (htonl (Z.land x 0xFFFFFFFF)) 32))
  = le_combine (be_split 8 x).
Proof.
  unfold be_split. change 8%nat with (4 + 4)%nat. rewrite le_split_app, rev_app_distr.
  rewrite le_combine_app, length_rev, length_le_split.
  unfold htonl at 1 2. rewrite !(le_split_land 4) by done.
  f_equal. rewrite w64_small; [done|].
  pose proof (le_combine_bound (rev (le_split 4 x))) as H.
  rewrite length_rev, length_le_split in H. rewrite Z.shiftl_mul_pow2 by lia.
  change (2 ^ (8 * Z.of_nat 4)) with (2 ^ 32) in H. lia.
Qed.

Lemma endianness_le : endianness = -1.
Proof. reflexivity. Qed.

Lemma htonll_eq x : htonll x = le_combine (be_split 8 x).
Proof. unfold htonll. rewrite endianness_le. apply byteswap64. Qed.

Lemma ntohll_eq x : ntohll x = le_combine (be_split 8 x).
Proof. unfold ntohll. rewrite endianness_le. apply byteswap64. Qed.

Lemma le_split_htonll z : le_split 8 (htonll z) = be_split 8 z.
Proof. rewrite htonll_eq. apply split_combine_rev. Qed.

Lemma ntohll_le_combine b : length b = 8%nat → ntohll (le_combine b) = be_combine b.
Proof.
  intros Hb. rewrite ntohll_eq. unfold be_split. rewrite <-Hb, split_le_combine. done.
Qed.

Lemma htonll_range x : 0 ≤ htonll x < 2 ^ 64.
Proof.
  rewrite htonll_eq. pose proof (le_combine_bound (be_split 8 x)) as H.
  by rewrite length_be_split in H.
Qed.

Lemma ntohll_htonll_small x : 0 ≤ x < 2 ^ 64 → ntohll (htonll x) = x.
Proof.
  intros Hx. rewrite ntohll_eq. unfold be_split. rewrite le_split_htonll. unfold be_split.
  rewrite rev_involutive, le_combine_split. by apply Z.mod_small.
Qed.

(** ** Access to words in a buffer *)

Section load.
Context {S : Type}.

Lemma wp_load n b off (Q : Z → S → Prop) s :
  0 ≤ off → off + Z.of_nat n ≤ Z.of_nat (length b) →
  Q (le_combine (take n (drop (Z.to_nat off) b))) s → wp (load n b off) Q s.
Proof.
  intros ?? HQ. unfold load. rewrite bool_decide_true by done.
  rewrite in_block_true by lia. apply wp_ret, HQ.
Qed.

Lemma wp_load_at n p w t off (Q : Z → S → Prop) s :
  off = Z.of_nat (length p) → length w = n →
  Q (le_combine w) s → wp (load n (p ++ w ++ t) off) Q s.
Proof.
  intros -> Hw HQ. apply wp_load; rewrite ?length_app; [lia..|].
  rewrite Nat2Z.id, drop_app_length, take_app_full by done. done.
Qed.

(** Outside the region, the access is undefined. *)
Lemma load_oob n b off (s : S) :
  Z.of_nat (length b) < off + Z.of_nat n → load n b off s = None.
Proof.
  intros ?. unfold load, in_block. rewrite (bool_decide_false (_ ∧ _)) by lia.
  by rewrite andb_false_r.
Qed.
End load.

(** ** Properties *)

(** [htonll] is the byte reversal of the 64-bit word (its bytes in memory are
    the big-endian bytes of the value), and [ntohll] undoes it: a counter or an
    increment sent by one side is the value the other side reads. *)
Theorem htonll_roundtrip (x : Z) (Hx : 0 ≤ x < 2 ^ 64) :
  store_le 8 (htonll x) = be_split 8 x ∧
  ntohll (htonll x) = x ∧ 0 ≤ htonll x < 2 ^ 64.
Proof.
  split_and!; [apply le_split_htonll | by apply ntohll_htonll_small | apply htonll_range..].
Qed.

Lemma htonll_roundtrip_witness :
  store_le 8 (htonll 0x0102030405060708) = be_split 8 0x0102030405060708 ∧
  ntohll (htonll 0x0102030405060708) = 0x0102030405060708 ∧
  0 ≤ htonll 0x0102030405060708 < 2 ^ 64.
Proof. apply (htonll_roundtrip 0x0102030405060708). lia. Defined.
