(* ===== verification/Hash.v ===== *)
(** * The cache's hash function (nmdb/hash.h)

    [murmurhash2] with its 32-bit wrap-around, its loop on 4-byte words (read
    little-endian, as the cast in the code does on the hosts it runs on) and
    its fall-through switch on the last bytes. The functions that hash.h
    disables with [#if 0] are not compiled and are not modelled. *)

From S2P Require Import Prelude Words.

Definition mm_m : Z := 0x5bd1e995.
Definition mm_r : Z := 24.
Definition mm_seed : Z := 0x34a4b627.

(** [k *= m; k ^= k >> r; k *= m] *)
Definition mm_mix (k : Z) : Z :=
  let k := w32 (k * mm_m) in
  let k := Z.lxor k (Z.shiftr k mm_r) in
  w32 (k * mm_m).

(** The loop: mixes 4 bytes at a time; what is left are the last 0 to 3. *)
Fixpoint mm_loop (h : Z) (key : bytes) : Z * bytes :=
  match key with
  | b0 :: b1 :: b2 :: b3 :: key' =>
      let k := load_le 4 [b0; b1; b2; b3] in
      mm_loop (Z.lxor (w32 (h * mm_m)) (mm_mix k)) key'
  | _ => (h, key)
  end.

(** The switch on the remaining length, each case falling into the next. *)
Definition mm_tail (h : Z) (key : bytes) : Z :=
  match key with
  | [b0; b1; b2] =>
      let h := Z.lxor h (Z.shiftl (byte.unsigned b2) 16) in
      let h := Z.lxor h (Z.shiftl (byte.unsigned b1) 8) in
      let h := Z.lxor h (byte.unsigned b0) in
      w32 (h * mm_m)
  | [b0; b1] =>
      let h := Z.lxor h (Z.shiftl (byte.unsigned b1) 8) in
      let h := Z.lxor h (byte.unsigned b0) in
      w32 (h * mm_m)
  | [b0] => w32 (Z.lxor h (byte.unsigned b0) * mm_m)
  | _ => h
  end.

(** The last mixes. *)
Definition mm_final (h : Z) : Z :=
  let h := Z.lxor h (Z.shiftr h 13) in
  let h := w32 (h * mm_m) in
  Z.lxor h (Z.shiftr h 15).

Definition murmurhash2 (key : bytes) : Z :=
  let h := w32 (Z.lxor mm_seed (Z.of_nat (length key))) in
  let '(h, key) := mm_loop h key in
  mm_final (mm_tail h key).

(** [hash(k, s)] on the memory from [k] on: reads [s] bytes. *)
Definition hash {S} (k : bytes) (s : Z) : M S Z :=
  if in_block k s then mret (murmurhash2 (take (Z.to_nat s) k)) else ub.

(** ** Ranges *)

Lemma lxor_range n a b : 0 ≤ n → 0 ≤ a < 2 ^ n → 0 ≤ b < 2 ^ n → 0 ≤ Z.lxor a b < 2 ^ n.
Proof.
  intros Hn Ha Hb. split; [apply Z.lxor_nonneg; lia|].
  destruct (decide (Z.lxor a b = 0)) as [->|Hne]; [lia|].
  assert (0 ≤ Z.lxor a b) by (apply Z.lxor_nonneg; lia).
  apply Z.log2_lt_pow2; [lia|].
  eapply Z.le_lt_trans; [apply Z.log2_lxor; lia|].
  destruct (decide (n = 0)) as [->|]; [|apply Z.max_lub_lt].
  - exfalso. replace a with 0 in * by lia. replace b with 0 in * by lia. done.
  - destruct (decide (a = 0)) as [->|]; [change (Z.log2 0) with 0; lia|].
    apply Z.log2_lt_pow2; lia.
  - destruct (decide (b = 0)) as [->|]; [change (Z.log2 0) with 0; lia|].
    apply Z.log2_lt_pow2; lia.
Qed.

Lemma shiftr_range n a k : 0 ≤ k → 0 ≤ a < 2 ^ n → 0 ≤ Z.shiftr a k < 2 ^ n.
Proof.
  intros Hk Ha. split; [apply Z.shiftr_nonneg; lia|].
  rewrite Z.shiftr_div_pow2 by done. eapply Z.le_lt_trans; [|apply Ha].
  apply Z.div_le_upper_bound; [lia|]. pose proof (Z.pow_pos_nonneg 2 k). nia.
Qed.

Lemma xorshift_range r h : 0 ≤ r → 0 ≤ h < 2 ^ 32 → 0 ≤ Z.lxor h (Z.shiftr h r) < 2 ^ 32.
Proof. intros. apply lxor_range; [lia|done|]. by apply shiftr_range. Qed.

Lemma mm_mix_range k : 0 ≤ mm_mix k < 2 ^ 32.
Proof. apply w32_range. Qed.

Lemma mm_loop_range h key : 0 ≤ h < 2 ^ 32 → 0 ≤ (mm_loop h key).1 < 2 ^ 32.
Proof.
  revert h. induction key as [key IH] using (induction_ltof1 _ (@length byte)).
  intros h Hh. destruct key as [|b0 [|b1 [|b2 [|b3 key]]]]; [done..|].
  cbn [mm_loop]. apply IH; [unfold ltof; cbn; lia|].
  apply lxor_range; [lia|apply w32_range|apply mm_mix_range].
Qed.

Lemma mm_tail_range h key : 0 ≤ h < 2 ^ 32 → 0 ≤ mm_tail h key < 2 ^ 32.
Proof.
  intros Hh. destruct key as [|b0 [|b1 [|b2 [|b3 key]]]]; try done; apply w32_range.
Qed.

Lemma mm_final_range h : 0 ≤ h < 2 ^ 32 → 0 ≤ mm_final h < 2 ^ 32.
Proof. intros. apply xorshift_range; [lia|]. apply w32_range. Qed.

Lemma murmurhash2_range key : 0 ≤ murmurhash2 key < 2 ^ 32.
Proof.
  unfold murmurhash2. pose proof (mm_loop_range (w32 (Z.lxor mm_seed (Z.of_nat (length key)))) key
    (w32_range _)) as H. destruct (mm_loop _ key) as [h t]. by apply mm_final_range, mm_tail_range.
Qed.

Lemma wp_hash {S} k s (Q : Z → S → Prop) st :
  0 ≤ s → s ≤ Z.of_nat (length k) →
  Q (murmurhash2 (take (Z.to_nat s) k)) st → wp (hash k s) Q st.
Proof. intros ?? HQ. unfold hash. by rewrite in_block_true. Qed.

(** ** Every step of the hash is injective *)

(** [x ^ (x >> r)] loses nothing. *)
Lemma xorshift_inj r x y :
  0 < r → 0 ≤ x → 0 ≤ y →
  Z.lxor x (Z.shiftr x r) = Z.lxor y (Z.shiftr y r) → x = y.
Proof.
  intros Hr Hx Hy H. apply Z.lxor_eq. set (d := Z.lxor x y).
  assert (0 ≤ d) by (apply Z.lxor_nonneg; lia).
  assert (d = Z.shiftr d r) as Hd.
  { apply Z.lxor_eq. unfold d. rewrite Z.shiftr_lxor.
    rewrite Z.lxor_assoc, (Z.lxor_comm y), <-!Z.lxor_assoc.
    rewrite H, !Z.lxor_assoc, Z.lxor_comm, !Z.lxor_assoc.
    rewrite Z.lxor_nilpotent, Z.lxor_0_r. apply Z.lxor_nilpotent. }
  destruct (decide (d = 0)) as [|Hne]; [done|].
  rewrite Z.shiftr_div_pow2 in Hd by lia.
  pose proof (Z.pow_gt_1 2 r). pose proof (Z.div_lt d (2 ^ r)). lia.
Qed.

(** The multiplier is odd, so it has an inverse modulo 2^32. *)
Lemma mul_m_inj x y :
  0 ≤ x < 2 ^ 32 → 0 ≤ y < 2 ^ 32 → w32 (x * mm_m) = w32 (y * mm_m) → x = y.
Proof.
  intros Hx Hy H. apply (f_equal (λ z, w32 (z * 0xe59b19bd))) in H.
  unfold w32 in H. rewrite !Z.mul_mod_idemp_l, <-!Z.mul_assoc in H by lia.
  rewrite <-(Z.mul_mod_idemp_r x), <-(Z.mul_mod_idemp_r y) in H by lia.
  change ((mm_m * 0xe59b19bd) mod 2 ^ 32) with 1 in H.
  rewrite !Z.mul_1_r, !Z.mod_small in H; lia.
Qed.

Lemma lxor_inj_r a x y : Z.lxor a x = Z.lxor a y → x = y.
Proof.
  intros H. apply (f_equal (Z.lxor a)) in H.
  by rewrite <-!Z.lxor_assoc, Z.lxor_nilpotent, !Z.lxor_0_l in H.
Qed.

Lemma lxor_inj_l a x y : Z.lxor x a = Z.lxor y a → x = y.
Proof. rewrite !(Z.lxor_comm _ a). apply lxor_inj_r. Qed.

Lemma mm_mix_inj x y :
  0 ≤ x < 2 ^ 32 → 0 ≤ y < 2 ^ 32 → mm_mix x = mm_mix y → x = y.
Proof.
  intros Hx Hy H. unfold mm_mix in H.
  pose proof (w32_range (x * mm_m)). pose proof (w32_range (y * mm_m)).
  apply mul_m_inj in H; [|apply xorshift_range; done..].
  apply xorshift_inj in H; [|unfold mm_r; lia..].
  by apply mul_m_inj in H.
Qed.

Lemma mm_final_inj x y :
  0 ≤ x < 2 ^ 32 → 0 ≤ y < 2 ^ 32 → mm_final x = mm_final y → x = y.
Proof.
  intros Hx Hy H. unfold mm_final in H.
  apply xorshift_inj in H; [|lia|apply w32_range..].
  apply mul_m_inj in H; [|apply xorshift_range; lia..].
  apply xorshift_inj in H; lia.
Qed.

Lemma mm_tail_inj x y t :
  0 ≤ x < 2 ^ 32 → 0 ≤ y < 2 ^ 32 → mm_tail x t = mm_tail y t → x = y.
Proof.
  intros Hx Hy H.
  assert (∀ b : byte, 0 ≤ byte.unsigned b < 2 ^ 32) as Hb0.
  { intros b. pose proof (byte.unsigned_range b). lia. }
  assert (∀ (b : byte) k, 0 ≤ k ≤ 16 → 0 ≤ Z.shiftl (byte.unsigned b) k < 2 ^ 32) as Hbk.
  { intros b k Hk. pose proof (byte.unsigned_range b). rewrite Z.shiftl_mul_pow2 by lia.
    pose proof (Z.pow_le_mono_r 2 k 16). pose proof (Z.pow_pos_nonneg 2 k). nia. }
  destruct t as [|b0 [|b1 [|b2 [|b3 t]]]]; try done; cbn [mm_tail] in H;
    apply mul_m_inj in H; repeat (apply lxor_range; [lia| |]); eauto using Z.le_refl;
    try (apply Hbk; lia); repeat apply lxor_inj_l in H; done.
Qed.

Lemma mm_loop_inj x y key :
  0 ≤ x < 2 ^ 32 → 0 ≤ y < 2 ^ 32 → (mm_loop x key).1 = (mm_loop y key).1 → x = y.
Proof.
  revert x y. induction key as [key IH] using (induction_ltof1 _ (@length byte)).
  intros x y Hx Hy. destruct key as [|b0 [|b1 [|b2 [|b3 key]]]]; [done..|].
  cbn [mm_loop]. intros H. apply IH in H.
  - apply lxor_inj_l in H. by apply mul_m_inj in H.
  - unfold ltof; cbn; lia.
  - apply lxor_range; [lia|apply w32_range|apply mm_mix_range].
  - apply lxor_range; [lia|apply w32_range|apply mm_mix_range].
Qed.

Lemma mm_loop_rest h h' key : (mm_loop h key).2 = (mm_loop h' key).2.
Proof.
  revert h h'. induction key as [key IH] using (induction_ltof1 _ (@length byte)).
  intros h h'. destruct key as [|b0 [|b1 [|b2 [|b3 key]]]]; [done..|].
  cbn [mm_loop]. apply IH. unfold ltof; cbn; lia.
Qed.

(** A prefix of whole words is consumed before the rest. *)
Lemma mm_loop_app n h p s :
  length p = (4 * n)%nat → mm_loop h (p ++ s) = mm_loop (mm_loop h p).1 s.
Proof.
  revert h p; induction n as [|n IH]; intros h p Hp.
  - destruct p; [done|cbn in Hp; lia].
  - destruct p as [|b0 [|b1 [|b2 [|b3 p]]]]; cbn in Hp; try lia.
    cbn [app mm_loop]. apply IH. lia.
Qed.

(** Two keys of the same length that differ in one aligned 4-byte word have
    different hashes: every mixing step of murmurhash2 is a bijection of the
    32-bit words. *)
Theorem murmurhash2_separates (n : nat) (p w w' s : bytes)
  (Hp : length p = (4 * n)%nat) (Hw : length w = 4%nat) (Hw' : length w' = 4%nat)
  (Hne : w ≠ w') :
  murmurhash2 (p ++ w ++ s) ≠ murmurhash2 (p ++ w' ++ s).
Proof.
  unfold murmurhash2. rewrite !length_app, Hw, Hw'.
  rewrite (mm_loop_app n _ p (w ++ s)), (mm_loop_app n _ p (w' ++ s)) by done.
  set (h := mm_loop _ p).
  destruct w as [|a0 [|a1 [|a2 [|a3 [|]]]]], w' as [|c0 [|c1 [|c2 [|c3 [|]]]]]; try done.
  cbn [app mm_loop]. set (x := Z.lxor (w32 (h.1 * mm_m)) (mm_mix (load_le 4 [a0; a1; a2; a3]))).
  set (y := Z.lxor (w32 (h.1 * mm_m)) (mm_mix (load_le 4 [c0; c1; c2; c3]))).
  assert (0 ≤ x < 2 ^ 32) by (apply lxor_range; [lia|apply w32_range|apply mm_mix_range]).
  assert (0 ≤ y < 2 ^ 32) by (apply lxor_range; [lia|apply w32_range|apply mm_mix_range]).
  pose proof (mm_loop_rest x y s) as Hr. pose proof (mm_loop_inj x y s) as Hi.
  pose proof (mm_loop_range x s) as Rx. pose proof (mm_loop_range y s) as Ry.
  destruct (mm_loop x s) as [hx tx], (mm_loop y s) as [hy ty]; cbn in *; subst ty.
  intros E. apply mm_final_inj in E; [|apply mm_tail_range; auto..].
  apply mm_tail_inj in E; [|by auto..].
  specialize (Hi ltac:(done) ltac:(done) E). apply lxor_inj_r in Hi.
  apply mm_mix_inj in Hi; 
    [|exact (le_combine_bound [a0; a1; a2; a3])|exact (le_combine_bound [c0; c1; c2; c3])].
  apply Hne. by apply (le_combine_inj [_; _; _; _] [_; _; _; _]) in Hi.
Qed.

Lemma murmurhash2_separates_witness :
  murmurhash2 ([] ++ [Byte.x61; Byte.x62; Byte.x63; Byte.x64] ++ [Byte.x65]) ≠
  murmurhash2 ([] ++ [Byte.x61; Byte.x62; Byte.x63; Byte.x65] ++ [Byte.x65]).
Proof. apply (murmurhash2_separates 0); [reflexivity..|discriminate]. Defined.
