(* ===== verification/Text.v ===== *)
(** * Numbers as text: the C library functions the increments use

    [cache_incr] (nmdb/cache.c) and the increment of [process_op]
    (nmdb/dbloop.c) read a value with [strtoll(val, NULL, 10)] and write it
    back with [snprintf(val, vsize, "%23lld", ...)]. Both belong to the C
    library; what the server uses of them is defined here: [strtoll] skips
    white space, takes a sign and decimal digits, and saturates at the bounds
    of [long long]; the format pads with blanks to 23 characters. Also here:
    [inet_pton], which reads the addresses of servers. *)

From S2P Require Import Prelude Words.

Abbreviation NUL := Byte.x00.

(** The C string at the start of a block: the bytes before the first NUL;
    without one, reading it would run past the block. *)
Fixpoint c_string {S} (b : bytes) : M S bytes :=
  match b with
  | [] => ub
  | c :: b' => if decide (c = NUL) then mret [] else s ← c_string b'; mret (c :: s)
  end.

Definition is_space (c : byte) : bool :=
  let v := byte.unsigned c in (v =? 32) || ((9 <=? v) && (v <=? 13)).

Definition digit_val (c : byte) : option Z :=
  let v := byte.unsigned c - 48 in
  if (0 <=? v) && (v <=? 9) then Some v else None.

Fixpoint skip_space (s : bytes) : bytes :=
  match s with
  | c :: s' => if is_space c then skip_space s' else s
  | [] => []
  end.

Fixpoint read_digits (acc : Z) (s : bytes) : Z :=
  match s with
  | c :: s' =>
      match digit_val c with
      | Some d => read_digits (acc * 10 + d) s'
      | None => acc
      end
  | [] => acc
  end.

Definition clamp64 (z : Z) : Z := Z.max INT64_MIN (Z.min INT64_MAX z).

(** [strtoll(s, NULL, 10)] *)
Definition strtoll (s : bytes) : Z :=
  match skip_space s with
  | Byte.x2d :: s' => clamp64 (- read_digits 0 s')
  | Byte.x2b :: s' => clamp64 (read_digits 0 s')
  | s' => clamp64 (read_digits 0 s')
  end.

(** Decimal digits, least significant first; 20 digits are enough for any
    magnitude below 10^20, which covers [long long]. *)
Fixpoint digits_rev (fuel : nat) (n : Z) : bytes :=
  match fuel with
  | O => []
  | S f => byte.of_Z (48 + n mod 10) :: (if n <? 10 then [] else digits_rev f (n / 10))
  end.

Definition decimal (n : Z) : bytes := rev (digits_rev 20 n).

(** ["%lld"], then ["%23lld"]. *)
Definition fmt_lld (x : Z) : bytes :=
  if x <? 0 then Byte.x2d :: decimal (- x) else decimal x.
Definition fmt_23lld (x : Z) : bytes :=
  replicate (23 - length (fmt_lld x)) Byte.x20 ++ fmt_lld x.

(** [snprintf(blk, size, "%23lld", x)]: at most [size - 1] characters and a
    NUL, over the start of the block. *)
Definition snprintf_23lld {S} (blk : bytes) (size x : Z) : M S bytes :=
  if decide (size = 0) then mret blk else
  let out := take (Z.to_nat (size - 1)) (fmt_23lld x) ++ [NUL] in
  memcpy blk out (Z.of_nat (length out)).

(** ** inet_pton, of the C library

    Four decimal numbers up to 255 without leading zeros. [cur]: the number
    that is being read. *)
Fixpoint pton (s : bytes) (cur : option Z) (done : list Z) : option (list Z) :=
  match s with
  | [] =>
      match cur with
      | Some v => if decide (length done = 3%nat) then Some (done ++ [v]) else None
      | None => None
      end
  | c :: s =>
      match digit_val c with
      | Some d =>
          match cur with
          | Some v => if (v =? 0) || (255 <? v * 10 + d) then None else pton s (Some (v * 10 + d)) done
          | None => pton s (Some d) done
          end
      | None =>
          match cur with
          | Some v =>
              if decide (c = Byte.x2e ∧ length done ≠ 3%nat) then pton s None (done ++ [v]) else None
          | None => None
          end
      end
  end.

(** The address as the host loads it from memory. *)
Definition inet_pton (s : bytes) : option Z := (le_combine ∘ fmap byte.of_Z) <$> pton s None [].

(** ** Lemmas *)

(** ** Reading back what was written *)

Lemma digit_val_of n : 0 ≤ n < 10 → digit_val (byte.of_Z (48 + n)) = Some n.
Proof.
  intros Hn. unfold digit_val. rewrite byte.unsigned_of_Z. unfold byte.wrap.
  rewrite Z.mod_small by lia.
  replace (48 + n - 48) with n by lia.
  by rewrite (proj2 (Z.leb_le 0 n)), (proj2 (Z.leb_le n 9)) by lia.
Qed.

Lemma read_digits_snoc acc s d :
  Forall (λ c, is_Some (digit_val c)) s → 0 ≤ d < 10 →
  read_digits acc (s ++ [byte.of_Z (48 + d)]) = read_digits acc s * 10 + d.
Proof.
  intros Hs Hd. revert acc. induction Hs as [|c s [v Hv] Hs IH]; intros acc; cbn.
  - by rewrite digit_val_of.
  - rewrite Hv. apply IH.
Qed.

Lemma digits_rev_ok fuel n :
  0 ≤ n → Forall (λ c, is_Some (digit_val c)) (digits_rev fuel n).
Proof.
  revert n. induction fuel as [|f IH]; intros n Hn; cbn [digits_rev]; constructor.
  - rewrite digit_val_of by (apply Z.mod_pos_bound; lia). eauto.
  - case_match; [constructor|]. apply IH. apply Z.div_pos; lia.
Qed.

Lemma read_digits_decimal fuel n :
  0 ≤ n < 10 ^ Z.of_nat fuel → read_digits 0 (rev (digits_rev fuel n)) = n.
Proof.
  revert n. induction fuel as [|f IH]; intros n Hn; cbn [digits_rev rev].
  { cbn in Hn. cbn. lia. }
  pose proof (Z.mod_pos_bound n 10 ltac:(lia)) as Hm.
  pose proof (Z.div_mod n 10 ltac:(lia)) as Hd.
  destruct (n <? 10) eqn:E.
  - apply Z.ltb_lt in E. cbn. rewrite digit_val_of by done.
    rewrite Z.mod_small; lia.
  - apply Z.ltb_ge in E. rewrite read_digits_snoc; [| |done].
    + rewrite IH; [lia|]. rewrite Nat2Z.inj_succ, Z.pow_succ_r in Hn by lia.
      split; [apply Z.div_pos; lia|apply Z.div_lt_upper_bound; lia].
    + apply Forall_rev, digits_rev_ok, Z.div_pos; lia.
Qed.

Lemma digits_rev_length fuel n k :
  0 ≤ n < 10 ^ Z.of_nat (S k) → (length (digits_rev fuel n) ≤ S k)%nat.
Proof.
  revert n k. induction fuel as [|f IH]; intros n k Hn; cbn [digits_rev length]; [lia|].
  destruct (n <? 10) eqn:E; cbn; [lia|]. apply Z.ltb_ge in E.
  destruct k as [|k]; [cbn in Hn; lia|]. apply le_n_S, IH.
  rewrite (Nat2Z.inj_succ (S k)), Z.pow_succ_r in Hn by lia.
  split; [apply Z.div_pos; lia|apply Z.div_lt_upper_bound; lia].
Qed.

Lemma skip_space_pad n s :
  skip_space (replicate n Byte.x20 ++ s) = skip_space s.
Proof. by induction n. Qed.

Lemma digit_cases c : is_Some (digit_val c) → is_space c = false ∧ c ≠ Byte.x2d ∧ c ≠ Byte.x2b.
Proof. intros [v Hv]. by destruct c. Qed.

(** A text that starts with a digit has no sign. *)
Lemma strtoll_digit c s :
  is_Some (digit_val c) → strtoll (c :: s) = clamp64 (read_digits 0 (c :: s)).
Proof.
  intros Hc. destruct (digit_cases c Hc) as (Hsp & H1 & H2).
  unfold strtoll. cbn [skip_space]. rewrite Hsp. by destruct c.
Qed.

Lemma decimal_head n : 0 ≤ n → ∃ c s, decimal n = c :: s ∧ is_Some (digit_val c).
Proof.
  intros Hn. unfold decimal.
  pose proof (digits_rev_ok 20 n Hn) as H. apply Forall_rev in H.
  destruct (rev (digits_rev 20 n)) as [|c s] eqn:E.
  - apply (f_equal (@length _)) in E. rewrite length_rev in E. by cbn in E.
  - inversion H; subst; eauto.
Qed.

Lemma clamp64_id x : INT64_MIN ≤ x ≤ INT64_MAX → clamp64 x = x.
Proof. unfold clamp64. lia. Qed.

Lemma clamp64_range x : INT64_MIN ≤ clamp64 x ≤ INT64_MAX.
Proof. unfold clamp64, INT64_MIN, INT64_MAX. lia. Qed.

Lemma strtoll_range s : INT64_MIN ≤ strtoll s ≤ INT64_MAX.
Proof. unfold strtoll. repeat case_match; apply clamp64_range. Qed.

Lemma strtoll_fmt x :
  INT64_MIN ≤ x ≤ INT64_MAX → strtoll (fmt_23lld x) = x.
Proof.
  intros Hx. unfold fmt_23lld, strtoll. rewrite skip_space_pad. fold (strtoll (fmt_lld x)).
  unfold fmt_lld. unfold INT64_MIN, INT64_MAX in Hx. destruct (x <? 0) eqn:E.
  - apply Z.ltb_lt in E. unfold strtoll; cbn [skip_space is_space].
    change (is_space Byte.x2d) with false. cbn iota.
    unfold decimal. rewrite read_digits_decimal by (cbn; lia).
    rewrite clamp64_id; unfold INT64_MIN, INT64_MAX; lia.
  - apply Z.ltb_ge in E. destruct (decimal_head x) as (c & s & Hd & Hc); [done|].
    rewrite Hd, strtoll_digit, <-Hd by done. unfold decimal.
    rewrite read_digits_decimal by (cbn; lia).
    rewrite clamp64_id; unfold INT64_MIN, INT64_MAX; lia.
Qed.

Lemma fmt_lld_length x : INT64_MIN ≤ x ≤ INT64_MAX → (length (fmt_lld x) ≤ 20)%nat.
Proof.
  unfold INT64_MIN, INT64_MAX, fmt_lld, decimal. intros Hx.
  case_match; cbn [length]; rewrite length_rev.
  - apply le_n_S, (digits_rev_length _ _ 18). apply Z.ltb_lt in H. cbn. lia.
  - etrans; [apply (digits_rev_length _ _ 18)|lia]. apply Z.ltb_ge in H. cbn. lia.
Qed.

Lemma fmt_23lld_length x : INT64_MIN ≤ x ≤ INT64_MAX → length (fmt_23lld x) = 23%nat.
Proof.
  intros Hx. apply fmt_lld_length in Hx. unfold fmt_23lld.
  rewrite length_app, length_replicate. lia.
Qed.

(** The text has no NUL, so as a C string it ends where it should. *)
Lemma digit_not_nul c : is_Some (digit_val c) → c ≠ NUL.
Proof. intros [v Hv] ->. done. Qed.

Lemma fmt_23lld_no_nul x : INT64_MIN ≤ x ≤ INT64_MAX → NUL ∉ fmt_23lld x.
Proof.
  intros Hx Hin. unfold fmt_23lld in Hin. apply elem_of_app in Hin as [Hin|Hin].
  { by apply elem_of_replicate in Hin as [? _]. }
  unfold INT64_MIN, INT64_MAX in Hx.
  assert (∀ n, 0 ≤ n → NUL ∉ decimal n) as Hd.
  { intros n Hn H. unfold decimal in H. rewrite rev_alt in H.
    change (NUL ∈ reverse (digits_rev 20 n)) in H. rewrite elem_of_reverse in H.
    pose proof (digits_rev_ok 20 n Hn) as Hf.
    rewrite Forall_forall in Hf. exact (digit_not_nul NUL (Hf NUL H) eq_refl). }
  unfold fmt_lld in Hin. case_match.
  - apply Z.ltb_lt in H. apply elem_of_cons in Hin as [?|Hin]; [done|].
    apply (Hd (-x)); [lia|done].
  - apply Z.ltb_ge in H. by apply (Hd x) in Hin.
Qed.

Section text_wp.
Context {S : Type}.

Lemma c_string_app s t (st : S) : NUL ∉ s → c_string (s ++ (NUL :: t)) st = Some (s, st).
Proof.
  induction s as [|c s IH]; intros Hs; cbn; [done|].
  apply not_elem_of_cons in Hs as [Hc Hs]. rewrite decide_False by done.
  unfold mbind, M_bind. by rewrite IH.
Qed.

(** A block that ends in a NUL holds a C string. *)
Lemma c_string_defined b (st : S) :
  NUL ∈ b → ∃ s t, b = s ++ (NUL :: t) ∧ (NUL ∉ s) ∧ c_string b st = Some (s, st).
Proof.
  intros H. apply list_elem_of_split_l in H as (s & t & -> & Hs).
  exists s, t. split; [done|]. split; [done|]. by apply c_string_app.
Qed.

(** At least 24 bytes: the text, the NUL, and what was there behind it. *)
Lemma wp_snprintf_23lld_in blk size x (Q : bytes → S → Prop) st :
  INT64_MIN ≤ x ≤ INT64_MAX → 24 ≤ size → 24 ≤ Z.of_nat (length blk) →
  Q (fmt_23lld x ++ (NUL :: drop 24 blk)) st → wp (snprintf_23lld blk size x) Q st.
Proof.
  intros Hx Hs Hl HQ. pose proof (fmt_23lld_length x Hx) as H23.
  unfold snprintf_23lld. rewrite decide_False by lia.
  rewrite (take_ge (fmt_23lld x)) by lia.
  assert (length (fmt_23lld x ++ [NUL]) = 24%nat) as E by (rewrite length_app, H23; done).
  rewrite E. apply wp_memcpy; [lia..|]. change (Z.to_nat (Z.of_nat 24)) with 24%nat.
  rewrite take_ge by lia. by rewrite <-app_assoc.
Qed.

Lemma wp_snprintf_23lld blk size x (Q : bytes → S → Prop) st :
  INT64_MIN ≤ x ≤ INT64_MAX → 24 ≤ size → size = Z.of_nat (length blk) →
  Q (fmt_23lld x ++ (NUL :: drop 24 blk)) st → wp (snprintf_23lld blk size x) Q st.
Proof. intros ? ? -> ?. by apply wp_snprintf_23lld_in. Qed.
End text_wp.

(** ** What an increment computes

    The value of a block that ends in a NUL, its increment and the block that
    replaces it: the 23 characters, the NUL, and what a longer block held
    after them. *)

Fixpoint upto_nul (b : bytes) : bytes :=
  match b with
  | [] => []
  | c :: b => if decide (c = NUL) then [] else c :: upto_nul b
  end.

Definition ends_nul (v : bytes) : bool := bool_decide (last v = Some NUL).
Definition incr_num (v : bytes) (n : Z) : Z := s64 (strtoll (upto_nul v) + n).
Definition incr_block (v : bytes) (n : Z) : bytes :=
  fmt_23lld (incr_num v n) ++ (NUL :: drop 24 v).

(** The block as a part of the buffer it is computed in. *)
Lemma take_incr_block v n tl :
  take (Nat.max 24 (length v)) (fmt_23lld (incr_num v n) ++ (NUL :: drop 24 (v ++ tl))) =
  incr_block v n.
Proof.
  unfold incr_block. pose proof (fmt_23lld_length (incr_num v n) (s64_range _)) as H.
  rewrite (cons_middle NUL), (cons_middle NUL (fmt_23lld _)), !(assoc_L (++)).
  assert (length (fmt_23lld (incr_num v n) ++ [NUL]) = 24%nat) as H24
    by (rewrite length_app, H; done).
  rewrite take_app, H24. rewrite (take_ge (_ ++ [NUL])) by lia. f_equal.
  destruct (decide (24 ≤ length v)%nat).
  - rewrite drop_app_le by done. rewrite take_app_le by (rewrite length_drop; lia).
    rewrite take_ge; [done|]. rewrite length_drop. lia.
  - rewrite Nat.max_l by lia. rewrite Nat.sub_diag, take_0. by rewrite drop_ge by lia.
Qed.

Lemma incr_num_range v n : INT64_MIN ≤ incr_num v n ≤ INT64_MAX.
Proof. apply s64_range. Qed.

Lemma length_incr_block v n :
  length (incr_block v n) = Nat.max 24 (length v).
Proof.
  unfold incr_block. rewrite length_app, fmt_23lld_length by apply incr_num_range.
  cbn [length]. rewrite length_drop. lia.
Qed.

Lemma upto_nul_app s t : NUL ∉ s → upto_nul (s ++ (NUL :: t)) = s.
Proof.
  induction s as [|c s IH]; intros H; cbn; [done|].
  apply not_elem_of_cons in H as [Hc H]. rewrite decide_False by done. by rewrite IH.
Qed.

Lemma last_incr_block v n : ends_nul v = true → ends_nul (incr_block v n) = true.
Proof.
  unfold ends_nul, incr_block. rewrite !bool_decide_eq_true. intros H.
  rewrite last_app. destruct (drop 24 v) as [|c t] eqn:E; [done|].
  rewrite last_cons. rewrite <-(take_drop 24 v), E, last_app in H. by destruct (last (c :: t)).
Qed.

(** Reading an incremented block gives the number it was set to. *)
Lemma strtoll_incr_block v n : strtoll (upto_nul (incr_block v n)) = incr_num v n.
Proof.
  pose proof (incr_num_range v n). unfold incr_block.
  rewrite upto_nul_app by by apply fmt_23lld_no_nul. by apply strtoll_fmt.
Qed.

Section incr_wp.
Context {S : Type}.

Lemma wp_c_string v (Q : bytes → S → Prop) st :
  ends_nul v = true → Q (upto_nul v) st → wp (c_string v) Q st.
Proof.
  intros H HQ. apply bool_decide_eq_true in H.
  destruct (c_string_defined v st) as (s & t & -> & Hs & Hst).
  { by apply last_Some_elem_of. }
  apply wp_exec. exists s, st. by rewrite upto_nul_app in HQ by done.
Qed.

(** The string at the start of a buffer, and the last byte of the value in it. *)
Lemma wp_c_string_in v tl (Q : bytes → S → Prop) st :
  ends_nul v = true → Q (upto_nul v) st → wp (c_string (v ++ tl)) Q st.
Proof.
  intros H HQ. apply bool_decide_eq_true in H.
  destruct (c_string_defined v st) as (s & t & -> & Hs & _).
  { by apply last_Some_elem_of. }
  apply wp_exec. exists s, st. rewrite upto_nul_app in HQ by done. split; [|done].
  rewrite <-app_assoc. by apply (c_string_app s (t ++ tl)).
Qed.

Lemma wp_last_byte_in v tl (Q : byte → S → Prop) st c :
  last v = Some c → Z.of_nat (length v) < 2 ^ 64 → Q c st →
  wp (byte_at (v ++ tl) (w64 (Z.of_nat (length v) - 1))) Q st.
Proof.
  intros Hv Hl HQ. assert (length v ≠ 0%nat) by (by destruct v).
  rewrite w64_small by lia. apply (wp_byte_at _ _ c); [lia| |done].
  rewrite last_lookup in Hv. apply lookup_app_l_Some.
  by replace (Z.to_nat _) with (Nat.pred (length v)) by lia.
Qed.

Lemma wp_last_byte v (Q : byte → S → Prop) st c :
  last v = Some c → Z.of_nat (length v) < 2 ^ 64 → Q c st →
  wp (byte_at v (w64 (Z.of_nat (length v) - 1))) Q st.
Proof.
  intros Hv Hl HQ. assert (length v ≠ 0%nat) by (by destruct v).
  rewrite w64_small by lia. apply (wp_byte_at _ _ c); [lia| |done].
  rewrite last_lookup in Hv. by replace (Z.to_nat _) with (Nat.pred (length v)) by lia.
Qed.
End incr_wp.

(** What [snprintf] writes for a 64-bit value is what [strtoll] reads back:
    23 characters and no NUL inside, so a counter survives any number of
    increments. *)
Theorem strtoll_snprintf (x : Z) (Hx : INT64_MIN ≤ x ≤ INT64_MAX) :
  strtoll (fmt_23lld x) = x ∧ length (fmt_23lld x) = 23%nat ∧ NUL ∉ fmt_23lld x.
Proof.
  split_and!; [by apply strtoll_fmt|by apply fmt_23lld_length|by apply fmt_23lld_no_nul].
Qed.

Lemma strtoll_snprintf_witness :
  strtoll (fmt_23lld (-42)) = -42 ∧ length (fmt_23lld (-42)) = 23%nat ∧
  NUL ∉ fmt_23lld (-42).
Proof. apply (strtoll_snprintf (-42)). vm_compute. split; discriminate. Defined.
