(* ===== verification/Chain.v ===== *)
(** * One chain of the cache (nmdb/cache.h, nmdb/cache.c)

    A chain is a fixed array of [CHAINLEN] entries linked into a doubly linked
    list through pointers to elements of the array, as [struct cache_chain]
    has it: a pointer to an entry is the entry's index, NULL is [None]. The
    key and the value of an entry are blocks that it owns. Every function of
    cache.c that works inside a chain is translated here, with its
    allocations, its early returns and its error paths. *)

From S2P Require Import Prelude Words Text.

Definition CHAINLEN : nat := 4.

(** [struct cache_entry] *)
Record centry := CEntry {
  e_key : cptr;
  e_val : cptr;
  e_ksize : Z;
  e_vsize : Z;
  e_prev : option nat;
  e_next : option nat;
}.

(** [struct cache_chain] *)
Record cchain := CChain {
  c_len : Z;
  c_entries : list centry;
  c_first : option nat;
  c_last : option nat;
}.

(** Assignments to a field of an entry. *)
Definition with_key (k : cptr) (e : centry) : centry :=
  CEntry k (e_val e) (e_ksize e) (e_vsize e) (e_prev e) (e_next e).
Definition with_val (v : cptr) (e : centry) : centry :=
  CEntry (e_key e) v (e_ksize e) (e_vsize e) (e_prev e) (e_next e).
Definition with_ksize (n : Z) (e : centry) : centry :=
  CEntry (e_key e) (e_val e) n (e_vsize e) (e_prev e) (e_next e).
Definition with_vsize (n : Z) (e : centry) : centry :=
  CEntry (e_key e) (e_val e) (e_ksize e) n (e_prev e) (e_next e).
Definition with_prev (p : option nat) (e : centry) : centry :=
  CEntry (e_key e) (e_val e) (e_ksize e) (e_vsize e) p (e_next e).
Definition with_next (p : option nat) (e : centry) : centry :=
  CEntry (e_key e) (e_val e) (e_ksize e) (e_vsize e) (e_prev e) p.

(** Assignments to a field of the chain. *)
Definition set_len (n : Z) (c : cchain) : cchain :=
  CChain n (c_entries c) (c_first c) (c_last c).
Definition set_entries (es : list centry) (c : cchain) : cchain :=
  CChain (c_len c) es (c_first c) (c_last c).
Definition set_first (p : option nat) (c : cchain) : cchain :=
  CChain (c_len c) (c_entries c) p (c_last c).
Definition set_last (p : option nat) (c : cchain) : cchain :=
  CChain (c_len c) (c_entries c) (c_first c) p.

(** [*p] and [p->field = ...]: NULL is undefined. *)
Definition entry_at (p : option nat) : MT cchain centry :=
  c ← get_obj; i ← lift_opt p; lift_opt (c_entries c !! i).
Definition upd_entry (p : option nat) (f : centry → centry) : MT cchain () :=
  e ← entry_at p;
  i ← lift_opt p;
  mod_obj (λ c, set_entries (<[i := f e]> (c_entries c)) c).

(** An entry [cache_create] marks as unused. *)
Definition unused_entry : centry := CEntry Null Null SIZE_MAX SIZE_MAX None None.

(** The chain [cache_create] initialises. *)
Definition chain_init : cchain :=
  CChain 0 (replicate CHAINLEN unused_entry) None None.

(** The first unused entry of the array. *)
Fixpoint alloc_loop (es : list centry) (i : nat) : option nat :=
  match es with
  | [] => None
  | e :: es => if e_ksize e =? SIZE_MAX then Some i else alloc_loop es (S i)
  end.
Definition alloc_entry : MT cchain (option nat) :=
  c ← get_obj; mret (alloc_loop (take CHAINLEN (c_entries c)) 0).

Definition free_entry (p : option nat) : MT cchain () :=
  upd_entry p (λ e, CEntry Null Null SIZE_MAX SIZE_MAX (e_prev e) (e_next e)).

(** [free(e->key)], [free(e->val)] *)
Definition free_key (p : option nat) : MT cchain () :=
  e ← entry_at p; k ← free (e_key e); upd_entry p (with_key k).
Definition free_val (p : option nat) : MT cchain () :=
  e ← entry_at p; v ← free (e_val e); upd_entry p (with_val v).

(** The loop of [find_in_chain], which follows [next]. A well-formed chain
    has at most [CHAINLEN] links; running out of fuel is a loop that never
    ends. *)
Fixpoint find_loop (fuel : nat) (e : option nat) (key : bytes) (ksize : Z)
    : MT cchain (option nat) :=
  match fuel with
  | O => ub
  | S fuel =>
      match e with
      | None => mret None
      | Some _ =>
          en ← entry_at e;
          if negb (ksize =? e_ksize en) then find_loop fuel (e_next en) key ksize
          else
            ekey ← deref (e_key en);
            same ← memeq key ekey ksize;
            if same : bool then mret e else find_loop fuel (e_next en) key ksize
      end
  end.

Definition find_in_chain (key : bytes) (ksize : Z) : MT cchain (option nat) :=
  c ← get_obj; find_loop (S (length (c_entries c))) (c_first c) key ksize.

(** [p = malloc(size)] followed by the copy of [src] into it: the new pointer,
    NULL when the allocation fails. *)
Definition dup_block {T} (src : bytes) (size : Z) : MT T cptr :=
  p ← malloc size;
  match p with
  | Null => mret Null
  | _ => blk ← deref p; blk ← memcpy blk src size; mret (Block blk)
  end.

(** [new_entry]: when the key's allocation fails the code calls [free(new)]
    on an element of the table's array, which [malloc] never returned:
    undefined. *)
Definition new_entry (key : bytes) (ksize : Z) (val : bytes) (vsize : Z)
    : MT cchain (option nat) :=
  new ← alloc_entry;
  match new with
  | None => mret None
  | Some _ =>
      upd_entry new (with_ksize ksize);;
      upd_entry new (with_vsize vsize);;
      k ← dup_block key ksize;
      upd_entry new (with_key k);;
      match k with
      | Null => ub
      | _ =>
          v ← dup_block val vsize;
          upd_entry new (with_val v);;
          match v with
          | Null => free_key new;; free_entry new;; mret None
          | _ =>
              upd_entry new (with_prev None);;
              upd_entry new (with_next None);;
              mret new
          end
      end
  end.

(** The error label of [insert_in_full_chain]. *)
Definition insert_error (e : option nat) : MT cchain Z :=
  en ← entry_at e;
  mod_obj (set_last (e_prev en));;
  upd_entry (e_prev en) (with_next None);;
  free_key e;;
  free_val e;;
  free_entry e;;
  mret (-1).

(** [if (size == old) memcpy(...) else { free; malloc; memcpy }], for the key
    and for the value of the entry that is reused; [false]: goto error. *)
Definition refill_key (e : option nat) (key : bytes) (ksize : Z) : MT cchain bool :=
  en ← entry_at e;
  if ksize =? e_ksize en then
    blk ← deref (e_key en);
    blk ← memcpy blk key ksize;
    upd_entry e (with_key (Block blk));; mret true
  else
    free_key e;;
    k ← dup_block key ksize;
    upd_entry e (with_key k);;
    match k with
    | Null => mret false
    | _ => upd_entry e (with_ksize ksize);; mret true
    end.

Definition refill_val (e : option nat) (val : bytes) (vsize : Z) : MT cchain bool :=
  en ← entry_at e;
  if vsize =? e_vsize en then
    blk ← deref (e_val en);
    blk ← memcpy blk val vsize;
    upd_entry e (with_val (Block blk));; mret true
  else
    free_val e;;
    v ← dup_block val vsize;
    upd_entry e (with_val v);;
    match v with
    | Null => mret false
    | _ => upd_entry e (with_vsize vsize);; mret true
    end.

(** [e->prev = NULL; e->next = c->first; c->first->prev = e; c->first = e] *)
Definition push_front (e : option nat) : MT cchain () :=
  upd_entry e (with_prev None);;
  c ← get_obj;
  upd_entry e (with_next (c_first c));;
  upd_entry (c_first c) (with_prev e);;
  mod_obj (set_first e).

(** [e->prev->next = e->next; if (e->next != NULL) e->next->prev = e->prev] *)
Definition splice_out (en : centry) : MT cchain () :=
  upd_entry (e_prev en) (with_next (e_next en));;
  match e_next en with
  | Some _ => upd_entry (e_next en) (with_prev (e_prev en))
  | None => mret tt
  end.

(** Moving the entry from the last to the first position. *)
Definition rotate_last (e : option nat) : MT cchain () :=
  en ← entry_at e;
  mod_obj (set_last (e_prev en));;
  c ← get_obj;
  upd_entry (c_last c) (with_next None);;
  push_front e.

Definition insert_in_full_chain (key : bytes) (ksize : Z) (val : bytes) (vsize : Z)
    : MT cchain Z :=
  c ← get_obj;
  let e := c_last c in
  ok ← refill_key e key ksize;
  if negb ok then insert_error e else
  ok ← refill_val e val vsize;
  if negb ok then insert_error e else
  rotate_last e;;
  mret 0.

(** The part of [cache_set] for a key that is not in the chain. *)
Definition set_miss (key : bytes) (ksize : Z) (val : bytes) (vsize : Z) : MT cchain Z :=
  c ← get_obj;
  if c_len c =? Z.of_nat CHAINLEN then
    rv ← insert_in_full_chain key ksize val vsize;
    mret (if rv =? 0 then 0 else -1)
  else
    new ← new_entry key ksize val vsize;
    match new with
    | None => mret (-1)
    | Some _ =>
        if c_len c =? 0 then
          mod_obj (set_first new);; mod_obj (set_last new);; mod_obj (set_len 1);;
          mret 0
        else if c_len c <? Z.of_nat CHAINLEN then
          c ← get_obj;
          upd_entry new (with_next (c_first c));;
          upd_entry (c_first c) (with_prev new);;
          mod_obj (set_first new);;
          mod_obj (λ c, set_len (w64 (c_len c + 1)) c);;
          mret 0
        else mret 0
    end.

(** Promotion of an entry to the top of the list, "if necessary". *)
Definition promote (e : option nat) : MT cchain () :=
  c ← get_obj;
  if bool_decide (c_first c = e) then mret tt else
  en ← entry_at e;
  (if bool_decide (c_last c = e) then mod_obj (set_last (e_prev en)) else mret tt);;
  splice_out en;;
  push_front e.

(** The part of [cache_set] for a key that is in the chain, at entry [e]. *)
Definition set_hit (e : option nat) (val : bytes) (vsize : Z) : MT cchain Z :=
  en ← entry_at e;
  if vsize =? e_vsize en then
    blk ← deref (e_val en);
    blk ← memcpy blk val vsize;
    upd_entry e (with_val (Block blk));;
    promote e;; mret 0
  else
    v ← malloc vsize;
    match v with
    | Null => mret (-1)
    | _ =>
        free_val e;;
        upd_entry e (with_val v);;
        upd_entry e (with_vsize vsize);;
        blk ← deref v;
        blk ← memcpy blk val vsize;
        upd_entry e (with_val (Block blk));;
        promote e;; mret 0
    end.

Definition chain_set (key : bytes) (ksize : Z) (val : bytes) (vsize : Z) : MT cchain Z :=
  e ← find_in_chain key ksize;
  match e with
  | None => set_miss key ksize val vsize
  | Some _ => set_hit e val vsize
  end.

(** Taking the entry [e], whose fields are [en], out of the list: [first], the
    neighbours and [last]. *)
Definition unlink (e : option nat) (en : centry) : MT cchain () :=
  c ← get_obj;
  (if bool_decide (c_first c = e) then
     mod_obj (set_first (e_next en));;
     match e_next en with
     | Some _ => upd_entry (e_next en) (with_prev None)
     | None => mret tt
     end
   else splice_out en);;
  (if bool_decide (c_last c = e) then mod_obj (set_last (e_prev en)) else mret tt).

(** [cache_del], after the chain has been selected. *)
Definition chain_del (key : bytes) (ksize : Z) : MT cchain Z :=
  e ← find_in_chain key ksize;
  match e with
  | None => mret 0
  | Some _ =>
      en ← entry_at e;
      unlink e en;;
      free_key e;;
      free_val e;;
      free_entry e;;
      mod_obj (λ c, set_len (w64 (c_len c - 1)) c);;
      mret 1
  end.

(** [cache_get], after the chain has been selected: the return value, [*val]
    and [*vsize]. *)
Definition chain_get (key : bytes) (ksize : Z) : MT cchain (Z * cptr * Z) :=
  e ← find_in_chain key ksize;
  match e with
  | None => mret (0, Null, 0)
  | Some _ => en ← entry_at e; mret (1, e_val en, e_vsize en)
  end.

(** [cache_cas], after the chain has been selected. *)
Definition chain_cas (key : bytes) (ksize : Z) (oldval : bytes) (ovsize : Z)
    (newval : bytes) (nvsize : Z) : MT cchain Z :=
  e ← find_in_chain key ksize;
  match e with
  | None => mret (-2)
  | Some _ =>
      en ← entry_at e;
      if negb (e_vsize en =? ovsize) then mret (-1) else
      val ← deref (e_val en);
      same ← memeq val oldval ovsize;
      if negb same then mret (-1) else
      if ovsize =? nvsize then
        blk ← memcpy val newval nvsize;
        upd_entry e (with_val (Block blk));; mret 0
      else
        buf ← dup_block newval nvsize;
        match buf with
        | Null => mret (-3)
        | _ =>
            free_val e;;
            upd_entry e (with_val buf);;
            upd_entry e (with_vsize nvsize);;
            mret 0
        end
  end.

(** [cache_incr], after the chain has been selected: the return value and
    [*newval]. C leaves an overflow of the sum undefined; it is taken here as
    the two's complement wrap-around of the hosts the server runs on. *)
Definition chain_incr (key : bytes) (ksize increment : Z) : MT cchain (Z * option Z) :=
  e ← find_in_chain key ksize;
  match e with
  | None => mret (-1, None)
  | Some _ =>
      en ← entry_at e;
      match e_val en with
      | Null => mret (-2, None)
      | _ =>
          val ← deref (e_val en);
          let vsize := e_vsize en in
          last ← byte_at val (w64 (vsize - 1));
          if negb (bool_decide (last = NUL)) then mret (-2, None) else
          str ← c_string val;
          let intval := s64 (strtoll str + increment) in
          if vsize <? 24 then
            nv ← malloc 24;
            match nv with
            | Null => mret (-3, None)
            | _ =>
                free_val e;;
                upd_entry e (with_val nv);;
                upd_entry e (with_vsize 24);;
                blk ← deref nv;
                blk ← snprintf_23lld blk 24 intval;
                upd_entry e (with_val (Block blk));;
                mret (0, Some intval)
            end
          else
            blk ← snprintf_23lld val vsize intval;
            upd_entry e (with_val (Block blk));;
            mret (0, Some intval)
      end
  end.
