(* ===== verification/ChainSpec.v ===== *)
(** * What a chain represents

    [chain_rep c xs]: the chain [c] is the doubly linked list of the entries
    [xs], most recently used first, each at a slot of the array with its key
    and value; every other slot is unused. The functions of Chain.v are proved
    against the list operations on [xs]. *)

From S2P Require Import Prelude Words Text Chain.

Abbreviation kv := (bytes * bytes)%type.
Abbreviation node := (nat * kv)%type.

Definition first_of (xs : list node) (nx : option nat) : option nat :=
  match xs with [] => nx | x :: _ => Some x.1 end.

Fixpoint last_of (pv : option nat) (xs : list node) : option nat :=
  match xs with [] => pv | x :: xs => last_of (Some x.1) xs end.

(** The entry holds the key and the value. *)
Definition live (e : centry) (x : kv) : Prop :=
  e_key e = Block x.1 ∧ e_val e = Block x.2 ∧
  e_ksize e = Z.of_nat (length x.1) ∧ e_vsize e = Z.of_nat (length x.2).

(** The entries of [xs] are linked, with [pv] before and [nx] after. *)
Fixpoint dseg (es : list centry) (pv : option nat) (xs : list node) (nx : option nat) : Prop :=
  match xs with
  | [] => True
  | (i, x) :: xs =>
      ∃ e, es !! i = Some e ∧ live e x ∧ e_prev e = pv ∧ e_next e = first_of xs nx ∧
           dseg es (Some i) xs nx
  end.

(** An unused entry owns nothing. *)
Definition unused (e : centry) : Prop :=
  e_ksize e = SIZE_MAX ∧ e_key e = Null ∧ e_val e = Null.

(** The slots outside [sl] are unused. *)
Definition unused_off (es : list centry) (sl : list nat) : Prop :=
  ∀ i e, es !! i = Some e → i ∉ sl → unused e.

Definition key_ok (k : bytes) : Prop := Z.of_nat (length k) < SIZE_MAX.

Record chain_rep (c : cchain) (xs : list node) : Prop := ChainRep {
  cr_size : length (c_entries c) = CHAINLEN;
  cr_len : c_len c = Z.of_nat (length xs);
  cr_slots : NoDup xs.*1;
  cr_keys : NoDup xs.*2.*1;
  cr_kok : Forall key_ok xs.*2.*1;
  cr_first : c_first c = first_of xs None;
  cr_last : c_last c = last_of None xs;
  cr_seg : dseg (c_entries c) None xs None;
  cr_unused : unused_off (c_entries c) xs.*1;
}.

(** ** Segments *)

Lemma dseg_app es pv xs ys nx :
  dseg es pv (xs ++ ys) nx ↔
  dseg es pv xs (first_of ys nx) ∧ dseg es (last_of pv xs) ys nx.
Proof.
  revert pv. induction xs as [|[i x] xs IH]; intros pv; cbn; [naive_solver|].
  setoid_rewrite IH. destruct xs as [|[j y] xs]; cbn; naive_solver.
Qed.

Lemma last_of_app pv xs ys : last_of pv (xs ++ ys) = last_of (last_of pv xs) ys.
Proof. revert pv. induction xs; intros; cbn; auto. Qed.

Lemma last_of_snoc pv xs x : last_of pv (xs ++ [x]) = Some x.1.
Proof. by rewrite last_of_app. Qed.

Lemma first_of_app xs ys nx : first_of (xs ++ ys) nx = first_of xs (first_of ys nx).
Proof. by destruct xs. Qed.

Lemma last_of_cons_ne pv pv' x xs : last_of pv (x :: xs) = last_of pv' (x :: xs).
Proof. done. Qed.

Lemma dseg_lookup es pv xs nx i x :
  dseg es pv xs nx → (i, x) ∈ xs → ∃ e, es !! i = Some e ∧ live e x.
Proof.
  revert pv. induction xs as [|[j y] xs IH]; intros pv H Hin; [by apply not_elem_of_nil in Hin|].
  destruct H as (e & He & Hl & _ & _ & H). apply elem_of_cons in Hin as [[= -> ->]|Hin]; eauto.
Qed.

(** Frame: a write outside the segment. *)
Lemma dseg_frame es pv xs nx i e :
  i ∉ xs.*1 → dseg es pv xs nx → dseg (<[i := e]> es) pv xs nx.
Proof.
  revert pv. induction xs as [|[j y] xs IH]; intros pv Hi H; [done|].
  cbn in Hi. apply not_elem_of_cons in Hi as [Hij Hi].
  destruct H as (e' & He & H). exists e'. rewrite list_lookup_insert_ne by done.
  naive_solver.
Qed.

(** Writes that keep an entry's data and one link. *)
Definition same_data (e e' : centry) : Prop :=
  e_key e' = e_key e ∧ e_val e' = e_val e ∧ e_ksize e' = e_ksize e ∧ e_vsize e' = e_vsize e.

Lemma live_same e e' x : same_data e e' → live e x → live e' x.
Proof. unfold same_data, live. naive_solver congruence. Qed.

Lemma dseg_head es pv i x xs nx pv' e e' :
  i ∉ xs.*1 → es !! i = Some e → live e' x → e_prev e' = pv' → e_next e' = e_next e →
  dseg es pv ((i, x) :: xs) nx → dseg (<[i := e']> es) pv' ((i, x) :: xs) nx.
Proof.
  intros Hi He Hd Hp Hn (e0 & He0 & Hl & Hp0 & Hn0 & H). simplify_eq.
  exists e'. rewrite list_lookup_insert_eq by (by eapply lookup_lt_Some).
  split_and!; [done..|congruence|by apply dseg_frame].
Qed.

(** The link after the segment's last entry. *)
Lemma dseg_last es pv xs i x nx nx' e e' :
  i ∉ xs.*1 → es !! i = Some e → live e' x → e_prev e' = e_prev e → e_next e' = nx' →
  dseg es pv (xs ++ [(i, x)]) nx → dseg (<[i := e']> es) pv (xs ++ [(i, x)]) nx'.
Proof.
  intros Hi He Hd Hp Hn. rewrite !dseg_app. cbn. intros (H1 & e0 & He0 & Hl & Hp0 & Hn0 & _).
  simplify_eq. split; [by apply dseg_frame|].
  exists e'. rewrite list_lookup_insert_eq by (by eapply lookup_lt_Some).
  split_and!; [done..|congruence|done|done].
Qed.

(** Data written in place. *)
Lemma dseg_data es pv xs i x y ys nx e e' :
  NoDup (xs.*1 ++ i :: ys.*1) → es !! i = Some e → live e' y →
  e_prev e' = e_prev e → e_next e' = e_next e →
  dseg es pv (xs ++ (i, x) :: ys) nx → dseg (<[i := e']> es) pv (xs ++ (i, y) :: ys) nx.
Proof.
  intros Hnd He Hl Hp Hn. rewrite !dseg_app. intros [H1 H2].
  apply NoDup_app in Hnd as (_ & Hx & Hy). apply NoDup_cons in Hy as [Hy _].
  split.
  - apply dseg_frame; [|done]. intros Hin. apply (Hx i Hin). by left.
  - destruct H2 as (e0 & He0 & Hl0 & Hp0 & Hn0 & H2). simplify_eq. exists e'.
    rewrite list_lookup_insert_eq by (by eapply lookup_lt_Some).
    split_and!; [done..|congruence|congruence|by apply dseg_frame].
Qed.

Lemma unused_insert es sl i e :
  i ∈ sl → unused_off es sl → unused_off (<[i := e]> es) sl.
Proof.
  intros Hi H j e' Hj Hn. destruct (decide (i = j)) as [->|Hne]; [done|].
  rewrite list_lookup_insert_ne in Hj by done. eauto.
Qed.

Lemma unused_drop es sl i e :
  unused e → unused_off es (i :: sl) → unused_off (<[i := e]> es) sl.
Proof.
  intros He H j e' Hj Hn. apply list_lookup_insert_Some in Hj as [(-> & <- & _)|[Hne Hj]]; [done|].
  apply (H j); [done|]. by apply not_elem_of_cons.
Qed.

Lemma unused_perm es sl sl' : (∀ i, i ∈ sl → i ∈ sl') → unused_off es sl → unused_off es sl'.
Proof. unfold unused_off. eauto. Qed.

(** ** Running the accesses *)

Section access.
Context (a : alloc) (c : cchain).

Lemma wp_entry_at i e (Q : centry → mem cchain → Prop) :
  c_entries c !! i = Some e → Q e (Mem c a) → wp (entry_at (Some i)) Q (Mem c a).
Proof. intros He HQ. unfold entry_at. wp_simpl. by rewrite He. Qed.

Lemma wp_upd_entry i e f (Q : () → mem cchain → Prop) :
  c_entries c !! i = Some e →
  Q tt (Mem (set_entries (<[i := f e]> (c_entries c)) c) a) →
  wp (upd_entry (Some i) f) Q (Mem c a).
Proof.
  intros He HQ. unfold upd_entry. wp_simpl. apply (wp_entry_at _ e); [done|]. by wp_simpl.
Qed.

Lemma wp_free_key i e b (Q : () → mem cchain → Prop) :
  c_entries c !! i = Some e → e_key e = Block b →
  Q tt (Mem (set_entries (<[i := with_key Dangling e]> (c_entries c)) c) a) →
  wp (free_key (Some i)) Q (Mem c a).
Proof.
  intros He Hb HQ. unfold free_key. wp_simpl. apply (wp_entry_at _ e); [done|].
  rewrite Hb. cbn [free]. wp_simpl. by apply (wp_upd_entry _ e).
Qed.

Lemma wp_free_val i e b (Q : () → mem cchain → Prop) :
  c_entries c !! i = Some e → e_val e = Block b →
  Q tt (Mem (set_entries (<[i := with_val Dangling e]> (c_entries c)) c) a) →
  wp (free_val (Some i)) Q (Mem c a).
Proof.
  intros He Hb HQ. unfold free_val. wp_simpl. apply (wp_entry_at _ e); [done|].
  rewrite Hb. cbn [free]. wp_simpl. by apply (wp_upd_entry _ e).
Qed.
End access.

(** ** Looking a key up *)

(** The slot of a key in the list. *)
Fixpoint slot_of (k : bytes) (xs : list node) : option nat :=
  match xs with
  | [] => None
  | (i, x) :: xs => if decide (k = x.1) then Some i else slot_of k xs
  end.

Lemma slot_of_none k xs : slot_of k xs = None ↔ k ∉ xs.*2.*1.
Proof.
  induction xs as [|[i x] xs IH]; cbn; [split; [intros _; apply not_elem_of_nil|done]|].
  rewrite not_elem_of_cons. case_decide; naive_solver.
Qed.

Lemma slot_of_some k xs i :
  slot_of k xs = Some i → ∃ v xs1 xs2, xs = xs1 ++ (i, (k, v)) :: xs2 ∧ k ∉ xs1.*2.*1.
Proof.
  induction xs as [|[j [k' v']] xs IH]; cbn; [done|]. case_decide as Hk.
  - intros [= ->]. subst. exists v', [], xs. split; [done|apply not_elem_of_nil].
  - intros (v & xs1 & xs2 & -> & Hn)%IH. exists v, ((j, (k', v')) :: xs1), xs2.
    split; [done|]. cbn. by apply not_elem_of_cons.
Qed.

(** [key] and [ksize] denote the key [k]. *)
Definition denotes (p : bytes) (n : Z) (k : bytes) : Prop :=
  0 ≤ n ≤ Z.of_nat (length p) ∧ take (Z.to_nat n) p = k.

Lemma denotes_length p n k : denotes p n k → Z.of_nat (length k) = n.
Proof. intros [? <-]. rewrite length_take. lia. Qed.

Lemma denotes_nat p n k : denotes p n k → length k = Z.to_nat n.
Proof. intros H. apply denotes_length in H. lia. Qed.

Lemma denotes_self b : denotes b (Z.of_nat (length b)) b.
Proof. split; [lia|]. by rewrite Nat2Z.id, firstn_all. Qed.

Lemma denotes_app b t : denotes (b ++ t) (Z.of_nat (length b)) b.
Proof. split; [rewrite length_app; lia|]. by rewrite Nat2Z.id, take_app_length. Qed.

Lemma find_loop_spec fuel c a key ksize k pv xs (Q : option nat → mem cchain → Prop) :
  denotes key ksize k → dseg (c_entries c) pv xs None → (length xs < fuel)%nat →
  Q (slot_of k xs) (Mem c a) →
  wp (find_loop fuel (first_of xs None) key ksize) Q (Mem c a).
Proof.
  intros Hk. revert fuel pv. induction xs as [|[i x] xs IH]; intros fuel pv Hs Hf HQ.
  - destruct fuel; cbn in *; [lia|]. by wp_simpl.
  - destruct fuel as [|fuel]; cbn [length] in Hf; [lia|]. cbn [first_of find_loop fst].
    destruct Hs as (e & He & (Hlk & Hlv & Hks & Hvs) & Hp & Hn & Hs).
    wp_simpl. apply (wp_entry_at _ _ _ e); [done|].
    pose proof (denotes_length _ _ _ Hk) as Hkl.
    cbn [slot_of] in HQ. rewrite Hn.
    destruct (ksize =? e_ksize e) eqn:E; cbn [negb].
    + apply Z.eqb_eq in E. rewrite Hlk. cbn [deref]. wp_simpl. destruct Hk as [Hr Hk].
      apply wp_memeq; [lia..|].
      rewrite Hk. rewrite (take_ge x.1) by lia. case_bool_decide as Hd.
      * rewrite decide_True in HQ by done. by wp_simpl.
      * rewrite decide_False in HQ by done. eapply IH; [done|lia|done].
    + apply Z.eqb_neq in E. rewrite !decide_False in HQ by (intros ->; lia).
      eapply IH; [done|lia|done].
Qed.

Lemma rep_length c xs : chain_rep c xs → (length xs ≤ CHAINLEN)%nat.
Proof.
  intros [Hs _ Hnd _ _ _ _ Hseg _]. rewrite <-Hs.
  assert (xs.*1 ⊆+ seq 0 (length (c_entries c))) as Hsub.
  { apply NoDup_submseteq; [done|]. intros i Hi. apply elem_of_seq.
    apply list_elem_of_fmap in Hi as ([j x] & -> & Hin).
    destruct (dseg_lookup _ _ _ _ _ _ Hseg Hin) as (e & He & _).
    apply lookup_lt_Some in He. cbn. lia. }
  apply submseteq_length in Hsub. by rewrite length_fmap, length_seq in Hsub.
Qed.

Lemma find_in_chain_spec c a xs key ksize k (Q : option nat → mem cchain → Prop) :
  chain_rep c xs → denotes key ksize k →
  Q (slot_of k xs) (Mem c a) →
  wp (find_in_chain key ksize) Q (Mem c a).
Proof.
  intros Hc Hk HQ. unfold find_in_chain. wp_simpl. pose proof (rep_length _ _ Hc) as Hl.
  rewrite (cr_first _ _ Hc). eapply find_loop_spec; [done|apply Hc| |done].
  rewrite (cr_size _ _ Hc). unfold CHAINLEN in *. lia.
Qed.

(** ** Relinking *)

(** The two arrays agree outside the slots [sl]. *)
Definition agree_off (es es' : list centry) (sl : list nat) : Prop :=
  length es' = length es ∧ ∀ j, j ∉ sl → es' !! j = es !! j.

Lemma agree_refl es sl : agree_off es es sl.
Proof. done. Qed.

Lemma agree_insert es es' sl i e :
  i ∈ sl → agree_off es es' sl → agree_off es (<[i := e]> es') sl.
Proof.
  intros Hi [Hl H]. split; [by rewrite length_insert|]. intros j Hj.
  rewrite list_lookup_insert_ne; [auto|]. by intros ->.
Qed.

Lemma agree_unused es es' sl : agree_off es es' sl → unused_off es sl → unused_off es' sl.
Proof. intros [_ H] Hu i e Hi Hn. rewrite H in Hi by done. eauto. Qed.

#[local] Hint Resolve agree_refl agree_insert : nmdb.

Lemma fst_app (xs ys : list node) : (xs ++ ys).*1 = xs.*1 ++ ys.*1.
Proof. apply fmap_app. Qed.

(** An entry whose links are set goes before the first one. *)
Lemma dseg_push es e f y xs i x ef :
  NoDup (i :: ((f, y) :: xs).*1) → es !! i = Some e → live e x → e_prev e = None →
  e_next e = Some f → es !! f = Some ef → dseg es None ((f, y) :: xs) None →
  dseg (<[f := with_prev (Some i) ef]> es) None ((i, x) :: (f, y) :: xs) None.
Proof.
  intros Hnd He Hl Hp Hn Hef Hd. apply NoDup_cons in Hnd as [Hi Hnd].
  apply not_elem_of_cons in Hi as [Hif Hi]. apply NoDup_cons in Hnd as [Hfn Hnd].
  exists e. rewrite list_lookup_insert_ne by done. split_and!; [done..|].
  eapply (dseg_head _ None _ _ _ _ _ ef); try done.
  destruct (dseg_lookup _ _ _ _ f y Hd ltac:(by left)) as (ef' & Hef' & Hlf). by simplify_eq.
Qed.

Lemma wp_push_front c a xs i x e (Q : () → mem cchain → Prop) :
  c_first c = first_of xs None → xs ≠ [] → NoDup (i :: xs.*1) →
  c_entries c !! i = Some e → live e x → dseg (c_entries c) None xs None →
  (∀ es', agree_off (c_entries c) es' (i :: xs.*1) →
     dseg es' None ((i, x) :: xs) None →
     Q tt (Mem (CChain (c_len c) es' (Some i) (c_last c)) a)) →
  wp (push_front (Some i)) Q (Mem c a).
Proof.
  intros Hf Hne Hnd He Hl Hs HQ. destruct xs as [|[f y] xs]; [done|].
  apply NoDup_cons in Hnd as [Hi Hnd]. cbn in Hi, Hnd, Hf.
  pose proof (lookup_lt_Some _ _ _ He) as Hlt.
  unfold push_front. wp_simpl. apply (wp_upd_entry _ _ _ e); [done|]. wp_simpl.
  apply (wp_upd_entry _ _ _ (with_prev None e)); [by apply list_lookup_insert_eq|].
  wp_simpl. cbn. rewrite Hf, list_insert_insert_eq.
  set (e' := with_next (Some f) (with_prev None e)).
  assert (dseg (<[i:=e']> (c_entries c)) None ((f, y) :: xs) None) as Hs' by by apply dseg_frame.
  destruct (dseg_lookup _ _ _ _ f y Hs' ltac:(by left)) as (ef & Hef & Hlf).
  apply (wp_upd_entry _ _ _ ef); [done|]. wp_simpl. cbn.
  apply HQ.
  - apply agree_insert; [right; by left|]. apply agree_insert; [by left|done].
  - apply (dseg_push _ e'); try done; [by apply NoDup_cons|by apply list_lookup_insert_eq].
Qed.

Lemma wp_splice_out c a xs p y i x ys e (Q : () → mem cchain → Prop) :
  NoDup (xs ++ (p, y) :: (i, x) :: ys).*1 →
  c_entries c !! i = Some e →
  dseg (c_entries c) None (xs ++ (p, y) :: (i, x) :: ys) None →
  (∀ es', agree_off (c_entries c) es' (xs ++ (p, y) :: ys).*1 →
     dseg es' None (xs ++ (p, y) :: ys) None →
     Q tt (Mem (set_entries es' c) a)) →
  wp (splice_out e) Q (Mem c a).
Proof.
  intros Hnd He Hs HQ.
  rewrite fst_app in Hnd. cbn in Hnd. apply NoDup_app in Hnd as (Hn1 & Hn2 & Hn3).
  apply NoDup_cons in Hn3 as [Hp Hn3]. apply NoDup_cons in Hn3 as [Hi Hn3].
  apply not_elem_of_cons in Hp as [Hpi Hp].
  assert (p ∉ xs.*1) as Hpx by (intros H; apply (Hn2 _ H); by left).
  replace (xs ++ (p, y) :: (i, x) :: ys) with ((xs ++ [(p, y)]) ++ (i, x) :: ys) in Hs
    by by rewrite <-app_assoc.
  apply dseg_app in Hs as [Hs1 Hs2]. rewrite last_of_snoc in Hs2.
  destruct Hs2 as (e0 & He0 & Hl & Hpv & Hnx & Hs2). simplify_eq.
  unfold splice_out. rewrite Hpv, Hnx. cbn [fst]. wp_simpl.
  destruct (dseg_lookup _ _ _ _ p y Hs1 ltac:(set_solver)) as (ep & Hep & Hlp).
  apply (wp_upd_entry _ _ _ ep); [done|].
  set (es1 := <[p:=with_next (first_of ys None) ep]> (c_entries c)).
  assert (dseg es1 None (xs ++ [(p, y)]) (first_of ys None)) as Hd1
    by by eapply (dseg_last _ _ _ _ _ _ _ ep).
  assert (agree_off (c_entries c) es1 (xs ++ (p, y) :: ys).*1) as Ha.
  { apply agree_insert; [|done]. rewrite fst_app. set_solver. }
  assert (xs ++ (p, y) :: ys = (xs ++ [(p, y)]) ++ ys) as Exs by by rewrite <-app_assoc.
  destruct ys as [|[b z] ys]; cbn [first_of fst] in *.
  - wp_simpl. apply HQ; [done|]. rewrite Exs. by apply dseg_app.
  - assert (dseg es1 (Some i) ((b, z) :: ys) None) as Hd2 by by apply dseg_frame.
    destruct (dseg_lookup _ _ _ _ b z Hd2 ltac:(by left)) as (eb & Heb & Hlb).
    apply (wp_upd_entry _ _ _ eb); [done|]. apply HQ.
    + apply agree_insert; [|done]. rewrite fst_app. set_solver.
    + rewrite Exs. apply dseg_app. rewrite last_of_snoc. apply NoDup_cons in Hn3 as [Hb Hn3].
      split.
      * apply dseg_frame; [|done]. rewrite fst_app. cbn. intros [H|H]%elem_of_app.
        -- apply (Hn2 _ H). by do 2 right; left.
        -- apply list_elem_of_singleton in H as ->. apply Hp. by left.
      * by eapply (dseg_head _ (Some i) _ _ _ _ _ eb).
Qed.

(** ** Rebuilding the invariant *)

Lemma snd_app (xs ys : list node) : (xs ++ ys).*2 = xs.*2 ++ ys.*2.
Proof. apply fmap_app. Qed.

(** Reordering the entries keeps what does not depend on the order. *)
Lemma rep_reorder c xs ys es f l :
  chain_rep c xs → xs ≡ₚ ys → agree_off (c_entries c) es xs.*1 →
  dseg es None ys None → f = first_of ys None → l = last_of None ys →
  chain_rep (CChain (c_len c) es f l) ys.
Proof.
  intros [Hs Hl Hn Hk Hko Hf Hla Hd Hu] Hp Ha Hd' -> ->. split; cbn; try done.
  - by rewrite (proj1 Ha).
  - by rewrite <-Hp.
  - by rewrite <-Hp.
  - by rewrite <-Hp.
  - by rewrite <-Hp.
  - eapply unused_perm; [|by eapply agree_unused]. intros i. by rewrite Hp.
Qed.

Lemma last_of_ne pv pv' xs : xs ≠ [] → last_of pv xs = last_of pv' xs.
Proof. by destruct xs. Qed.

(** Where the list ends tells whether [i] is its last entry. *)
Lemma last_of_mid pv xs i x ys :
  NoDup (i :: ys.*1) → last_of pv (xs ++ (i, x) :: ys) = Some i ↔ ys = [].
Proof.
  intros Hnd. rewrite last_of_app. cbn. split; [|by intros ->].
  destruct ys as [|y ys] using rev_ind; [done|]. rewrite last_of_snoc. intros [= E].
  exfalso. apply NoDup_cons in Hnd as [Hi _]. apply Hi. rewrite fst_app, <-E. set_solver.
Qed.

Lemma first_of_mid xs i x ys :
  NoDup (xs.*1 ++ [i]) → first_of (xs ++ (i, x) :: ys) None = Some i ↔ xs = [].
Proof.
  intros Hnd. destruct xs as [|[j y] xs]; cbn; [done|]. split; [|done]. intros [= ->].
  exfalso. cbn in Hnd. apply NoDup_cons in Hnd as [Hi _]. apply Hi. set_solver.
Qed.

Lemma nodup_mid (xs : list node) i x ys :
  NoDup (xs ++ (i, x) :: ys).*1 → NoDup (i :: ys.*1) ∧ NoDup (xs.*1 ++ [i]) ∧
  NoDup (i :: (xs ++ ys).*1).
Proof.
  rewrite !fst_app; cbn. intros H. split_and!.
  - by apply NoDup_app in H as (_ & _ & ?).
  - rewrite cons_middle, (assoc_L (++)) in H. by apply NoDup_app in H as (? & _ & _).
  - by rewrite Permutation_middle.
Qed.

Lemma wp_promote c a xs i x ys (Q : () → mem cchain → Prop) :
  chain_rep c (xs ++ (i, x) :: ys) →
  (∀ c', chain_rep c' ((i, x) :: xs ++ ys) → Q tt (Mem c' a)) →
  wp (promote (Some i)) Q (Mem c a).
Proof.
  intros Hc HQ. pose proof Hc as [_ _ Hnd _ _ Hf Hl Hd _].
  destruct (nodup_mid _ _ _ _ Hnd) as (Hy & Hx & Hxy).
  unfold promote. wp_simpl. case_bool_decide as Hfi.
  { wp_simpl. rewrite Hf, first_of_mid in Hfi by done. subst xs. by apply HQ. }
  destruct (dseg_lookup _ _ _ _ i x Hd ltac:(set_solver)) as (e & He & Hle).
  wp_simpl. apply (wp_entry_at _ _ _ e); [done|].
  destruct xs as [|[p y] xs _] using rev_ind; [by rewrite Hf in Hfi|].
  rewrite <-app_assoc in Hd, Hnd, Hc, Hl. cbn in Hd, Hnd, Hc, Hl.
  assert (e_prev e = Some p) as Hpv.
  { replace (xs ++ (p, y) :: (i, x) :: ys) with ((xs ++ [(p, y)]) ++ (i, x) :: ys) in Hd
      by by rewrite <-app_assoc.
    apply dseg_app in Hd as [_ Hd]. rewrite last_of_snoc in Hd.
    destruct Hd as (e0 & He0 & _ & Hp0 & _). rewrite He in He0. by injection He0 as <-. }
  set (zs := xs ++ (p, y) :: ys).
  assert ((xs ++ [(p, y)]) ++ ys = zs) as Ez by by rewrite <-app_assoc.
  rewrite Ez in Hxy, HQ.
  set (l' := if bool_decide (c_last c = Some i) then Some p else c_last c).
  assert (l' = last_of None ((i, x) :: zs)) as Hl'.
  { unfold l'. rewrite Hl. unfold zs. rewrite !last_of_app. cbn.
    pose proof (last_of_mid (Some p) [] i x ys Hy) as Hm. cbn in Hm.
    rewrite last_of_app; cbn. destruct ys; case_bool_decide; naive_solver. }
  assert (∀ Q' : () → mem cchain → Prop, Q' tt (Mem (set_last l' c) a) →
    wp (if bool_decide (c_last c = Some i) then mod_obj (set_last (e_prev e)) else mret tt)
      Q' (Mem c a)) as Hstep.
  { intros Q' HQ'. unfold l' in HQ'. rewrite Hpv. case_bool_decide; wp_simpl; [done|].
    by destruct c. }
  wp_simpl. apply Hstep. wp_simpl.
  eapply (wp_splice_out _ _ xs p y i x ys); [done..|].
  intros es Ha Hes. wp_simpl.
  assert (e = e ∧ es !! i = Some e) as [_ Hei].
  { split; [done|]. rewrite (proj2 Ha i); [done|]. by apply NoDup_cons in Hxy as [? _]. }
  eapply (wp_push_front _ _ zs i x e); cbn; [|by destruct xs|done..|].
  { rewrite Hf. unfold zs. by destruct xs. }
  intros es' Ha' Hes'. apply HQ.
  eapply (rep_reorder c (xs ++ (p, y) :: (i, x) :: ys)); [done| | |done..].
  - unfold zs. by solve_Permutation.
  - destruct Ha as [Hla Ha], Ha' as [Hla' Ha']. cbn in *. split; [congruence|].
    intros j Hj. rewrite Ha', Ha; [done|..];
      intros Hin; apply Hj; revert Hin; unfold zs; rewrite ?fst_app; set_solver.
Qed.

(** ** Writing values *)

Section dup.
Context {T : Type} (x : T) (a : alloc).

Lemma wp_dup_block src n b (Q : cptr → mem T → Prop) :
  never_fails a → denotes src n b → Q (Block b) (Mem x (al_tick a)) →
  wp (dup_block src n) Q (Mem x a).
Proof.
  intros Ha [Hr Hb] HQ. unfold dup_block. wp_simpl. apply wp_malloc; [done|].
  cbn [deref]. wp_simpl. apply wp_memcpy_full; [lia..| |].
  - by rewrite length_replicate.
  - wp_simpl. by rewrite Hb.
Qed.

Lemma wp_dup_null src n (Q : cptr → mem T → Prop) :
  al_ok a (al_next a) = false → Q Null (Mem x (al_tick a)) →
  wp (dup_block src n) Q (Mem x a).
Proof.
  intros Ha HQ. unfold dup_block. wp_simpl. apply wp_malloc_null; [done|]. by wp_simpl.
Qed.
End dup.

(** Overwriting an entry's key and value keeps the links. *)
Lemma rep_write c xs i x y ys e e' :
  chain_rep c (xs ++ (i, x) :: ys) → y.1 ∉ (xs ++ ys).*2.*1 → key_ok y.1 →
  c_entries c !! i = Some e → live e' y → e_prev e' = e_prev e → e_next e' = e_next e →
  chain_rep (set_entries (<[i := e']> (c_entries c)) c) (xs ++ (i, y) :: ys).
Proof.
  intros [Hs Hl Hn Hk Hko Hf Hla Hd Hu] Hyk Hyo He Hl' Hp Hx.
  assert ((xs ++ (i, y) :: ys).*1 = (xs ++ (i, x) :: ys).*1) as E1 by by rewrite !fst_app.
  assert (∀ z : kv, (xs ++ (i, z) :: ys).*2.*1 ≡ₚ z.1 :: (xs ++ ys).*2.*1) as E2.
  { intros z. by rewrite <-Permutation_middle. }
  rewrite E2 in Hk, Hko. apply NoDup_cons in Hk as [_ Hk]. apply Forall_cons in Hko as [_ Hko].
  split; cbn; rewrite ?E1, ?E2; try done.
  - by rewrite length_insert.
  - by rewrite Hl, !length_app.
  - by apply NoDup_cons.
  - by constructor.
  - rewrite Hf. by destruct xs.
  - by rewrite Hla, !last_of_app.
  - eapply dseg_data; try done. by rewrite fst_app in Hn.
  - apply unused_insert; [|done]. rewrite fst_app. set_solver.
Qed.

Lemma rep_mid_key c xs i k v ys :
  chain_rep c (xs ++ (i, (k, v)) :: ys) →
  (k ∉ (xs ++ ys).*2.*1) ∧ key_ok k.
Proof.
  intros [_ _ _ Hk Hko _ _ _ _]. rewrite <-Permutation_middle in Hk, Hko. cbn in Hk, Hko.
  apply NoDup_cons in Hk as [Hk _]. by apply Forall_cons in Hko as [Hko _].
Qed.

Lemma rep_data c xs i k v v' ys e e' :
  chain_rep c (xs ++ (i, (k, v)) :: ys) → c_entries c !! i = Some e → live e' (k, v') →
  e_prev e' = e_prev e → e_next e' = e_next e →
  chain_rep (set_entries (<[i := e']> (c_entries c)) c) (xs ++ (i, (k, v')) :: ys).
Proof.
  intros Hc. destruct (rep_mid_key _ _ _ _ _ _ Hc) as [Hk Hko]. intros.
  by eapply rep_write.
Qed.

Lemma rep_lookup c xs i x ys :
  chain_rep c (xs ++ (i, x) :: ys) → ∃ e, c_entries c !! i = Some e ∧ live e x.
Proof. intros Hc. eapply dseg_lookup; [apply Hc|set_solver]. Qed.

Lemma set_entries_twice es es' c : set_entries es (set_entries es' c) = set_entries es c.
Proof. done. Qed.

Lemma rep_entries_lt c i e : c_entries c !! i = Some e → (i < length (c_entries c))%nat.
Proof. apply lookup_lt_Some. Qed.

(** Runs a write to slot [i] whose content is known, and folds successive
    writes to the same slot. *)
Ltac wp_write e :=
  apply (wp_upd_entry _ _ _ e);
  [first [done | apply list_lookup_insert_eq; first [done | by eapply rep_entries_lt]]|];
  wp_simpl; cbn [c_entries set_entries];
  rewrite ?list_insert_insert_eq, ?set_entries_twice.

Lemma wp_set_hit c a xs i k v0 ys val vsize v (Q : Z → mem cchain → Prop) :
  never_fails a →
  chain_rep c (xs ++ (i, (k, v0)) :: ys) → denotes val vsize v →
  (∀ c' a', never_fails a' → chain_rep c' ((i, (k, v)) :: xs ++ ys) → Q 0 (Mem c' a')) →
  wp (set_hit (Some i) val vsize) Q (Mem c a).
Proof.
  intros Ha Hc Hv HQ. destruct (rep_lookup _ _ _ _ _ Hc) as (e & He & Hle).
  pose proof Hle as (Hek & Hev & Heks & Hevs). cbn in Hek, Hev, Heks, Hevs.
  pose proof (denotes_length _ _ _ Hv) as Hvl. destruct Hv as [Hvr Hvt].
  unfold set_hit. wp_simpl. apply (wp_entry_at _ _ _ e); [done|].
  destruct (vsize =? e_vsize e) eqn:E.
  - apply Z.eqb_eq in E. rewrite Hev. cbn [deref]. wp_simpl.
    apply wp_memcpy_full; [lia..|]. wp_simpl. rewrite Hvt. wp_write e.
    eapply wp_promote; [|intros; wp_simpl; by eapply HQ].
    eapply rep_data; try done; repeat split; cbn; try done; lia.
  - apply Z.eqb_neq in E. wp_simpl. apply wp_malloc; [done|]. cbn iota.
    wp_simpl. eapply wp_free_val; [done..|]. wp_simpl. cbn [c_entries set_entries].
    wp_write (with_val Dangling e).
    set (junk := Block _). wp_write (with_val junk e).
    unfold junk at 1. cbn [deref]. wp_simpl. apply wp_memcpy_full; [lia..| |].
    { by rewrite length_replicate. }
    wp_simpl. rewrite Hvt. wp_write (with_vsize vsize (with_val junk e)).
    eapply wp_promote; [|intros; wp_simpl; eapply HQ; [|done]; by auto with nmdb].
    eapply rep_data; try done; repeat split; cbn; try done; lia.
Qed.

Lemma set_hit_oom c a xs i k v0 ys val vsize :
  al_ok a (al_next a) = false → chain_rep c (xs ++ (i, (k, v0)) :: ys) →
  vsize ≠ Z.of_nat (length v0) →
  wp (set_hit (Some i) val vsize) (λ r s, r = -1 ∧ s = Mem c (al_tick a)) (Mem c a).
Proof.
  intros Ha Hc Hv. destruct (rep_lookup _ _ _ _ _ Hc) as (e & He & Hle).
  destruct Hle as (Hek & Hev & Heks & Hevs). cbn in Hevs.
  unfold set_hit. wp_simpl. apply (wp_entry_at _ _ _ e); [done|].
  rewrite (proj2 (Z.eqb_neq vsize (e_vsize e))) by lia. wp_simpl.
  apply wp_malloc_null; [done|]. by wp_simpl.
Qed.

(** ** Inserting *)

Lemma alloc_loop_some es n i :
  alloc_loop es n = Some i →
  ∃ e, (n ≤ i)%nat ∧ es !! (i - n)%nat = Some e ∧ e_ksize e = SIZE_MAX.
Proof.
  revert n. induction es as [|e es IH]; intros n; cbn; [done|].
  destruct (e_ksize e =? SIZE_MAX) eqn:E.
  - intros [= ->]. exists e. rewrite Nat.sub_diag. split_and!; [done..|by apply Z.eqb_eq].
  - intros (e' & Hle & He & Hk)%IH. exists e'. split_and!; [lia| |done].
    by replace (i - n)%nat with (S (i - S n)) by lia.
Qed.

Lemma alloc_loop_none es n e i :
  alloc_loop es n = None → es !! i = Some e → e_ksize e ≠ SIZE_MAX.
Proof.
  revert n i. induction es as [|e0 es IH]; intros n i; cbn; [done|].
  destruct (e_ksize e0 =? SIZE_MAX) eqn:E; [done|]. apply Z.eqb_neq in E.
  intros Hn. destruct i as [|i]; cbn; [by intros [= ->]|by eapply IH].
Qed.

Lemma rep_key_lt c xs i k v :
  chain_rep c xs → (i, (k, v)) ∈ xs → Z.of_nat (length k) < SIZE_MAX.
Proof.
  intros Hc Hin. pose proof (cr_kok _ _ Hc) as H. rewrite Forall_forall in H.
  apply H. apply list_elem_of_fmap. exists (k, v). split; [done|].
  apply list_elem_of_fmap. by exists (i, (k, v)).
Qed.

(** A chain with a free place has an unused slot, and [alloc_entry] finds
    one. *)
Lemma wp_alloc_entry c a xs (Q : option nat → mem cchain → Prop) :
  chain_rep c xs → (length xs < CHAINLEN)%nat →
  (∀ i e, c_entries c !! i = Some e → i ∉ xs.*1 → Q (Some i) (Mem c a)) →
  wp alloc_entry Q (Mem c a).
Proof.
  intros Hc Hlen HQ. unfold alloc_entry. wp_simpl.
  rewrite take_ge by (rewrite (cr_size _ _ Hc); done).
  destruct (alloc_loop (c_entries c) 0) as [i|] eqn:E.
  - apply alloc_loop_some in E as (e & _ & He & Hk). rewrite Nat.sub_0_r in He.
    apply (HQ i e); [done|]. intros ([j [k v]] & -> & Hin)%list_elem_of_fmap.
    pose proof (rep_key_lt _ _ _ _ _ Hc Hin).
    destruct (dseg_lookup _ _ _ _ _ _ (cr_seg _ _ Hc) Hin) as (e' & He' & Hl). cbn in He.
    destruct Hl as (_ & _ & Hl & _). cbn in Hl. simplify_eq. lia.
  - exfalso. assert (seq 0 CHAINLEN ⊆+ xs.*1) as Hsub.
    { apply NoDup_submseteq; [apply NoDup_seq|]. intros j Hj. apply elem_of_seq in Hj.
      destruct (lookup_lt_is_Some_2 (c_entries c) j) as [e He];
        [rewrite (cr_size _ _ Hc); lia|].
      destruct (decide (j ∈ xs.*1)) as [|Hn]; [done|].
      destruct (cr_unused _ _ Hc _ _ He Hn) as [Hm _].
      by pose proof (alloc_loop_none _ _ _ _ E He). }
    apply submseteq_length in Hsub. rewrite length_seq, length_fmap in Hsub. lia.
Qed.

(** The entry [new_entry] builds. *)
Definition fresh_entry (k v : bytes) : centry :=
  CEntry (Block k) (Block v) (Z.of_nat (length k)) (Z.of_nat (length v)) None None.

Lemma wp_new_entry c a xs key ksize k val vsize v (Q : option nat → mem cchain → Prop) :
  never_fails a → chain_rep c xs → (length xs < CHAINLEN)%nat →
  denotes key ksize k → denotes val vsize v →
  (∀ i a', never_fails a' → i ∉ xs.*1 → (i < length (c_entries c))%nat →
     Q (Some i) (Mem (set_entries (<[i := fresh_entry k v]> (c_entries c)) c) a')) →
  wp (new_entry key ksize val vsize) Q (Mem c a).
Proof.
  intros Ha Hc Hlen Hk Hv HQ. unfold new_entry. wp_simpl.
  apply (wp_alloc_entry _ _ xs); [done..|]. intros i e He Hi. cbn iota.
  wp_simpl. wp_write e. wp_write (with_ksize ksize e).
  apply (wp_dup_block _ _ _ _ k); [done..|]. wp_simpl.
  wp_write (with_vsize vsize (with_ksize ksize e)). cbn iota. wp_simpl.
  apply (wp_dup_block _ _ _ _ v); [by auto with nmdb|done|]. wp_simpl.
  set (e1 := with_key (Block k) (with_vsize vsize (with_ksize ksize e))).
  wp_write e1. cbn iota. wp_simpl. wp_write (with_val (Block v) e1).
  wp_write (with_prev None (with_val (Block v) e1)).
  replace (with_next None (with_prev None (with_val (Block v) e1))) with (fresh_entry k v).
  - apply HQ; [by auto with nmdb|done|by eapply rep_entries_lt].
  - unfold fresh_entry, with_next; cbn. by rewrite (denotes_length _ _ _ Hk), (denotes_length _ _ _ Hv).
Qed.

(** Adding an entry at the front, at an unused slot. *)
Lemma rep_insert c xs i k v es :
  chain_rep c xs → (length xs < CHAINLEN)%nat → i ∉ xs.*1 → k ∉ xs.*2.*1 → key_ok k →
  agree_off (c_entries c) es (i :: xs.*1) → dseg es None ((i, (k, v)) :: xs) None →
  chain_rep (CChain (c_len c + 1) es (Some i) (last_of None ((i, (k, v)) :: xs)))
    ((i, (k, v)) :: xs).
Proof.
  intros [Hs Hl Hn Hk Hko Hf Hla Hd Hu] Hlen Hi Hkn Hkk Ha Hd'. split; cbn; try done.
  - by rewrite (proj1 Ha).
  - rewrite Hl. lia.
  - by apply NoDup_cons.
  - by apply NoDup_cons.
  - by constructor.
  - eapply agree_unused; [done|]. eapply unused_perm; [|done]. intros j Hj. by right.
Qed.

Lemma rep_last_cons c xs y : chain_rep c xs → xs ≠ [] → last_of None (y :: xs) = c_last c.
Proof. intros Hc Hne. rewrite (cr_last _ _ Hc). by destruct xs. Qed.

Lemma wp_set_miss_free c a xs key ksize k val vsize v (Q : Z → mem cchain → Prop) :
  never_fails a → chain_rep c xs → (length xs < CHAINLEN)%nat →
  denotes key ksize k → denotes val vsize v → key_ok k → k ∉ xs.*2.*1 →
  (∀ i c' a', never_fails a' → chain_rep c' ((i, (k, v)) :: xs) → Q 0 (Mem c' a')) →
  wp (set_miss key ksize val vsize) Q (Mem c a).
Proof.
  intros Ha Hc Hlen Hk Hv Hkk Hkn HQ. pose proof (cr_len _ _ Hc) as Hcl.
  unfold set_miss. wp_simpl. rewrite (proj2 (Z.eqb_neq _ _)) by lia. wp_simpl.
  apply (wp_new_entry _ _ xs _ _ k _ _ v); [done..|]. intros i a' Ha' Hi Hil. cbn iota.
  assert (agree_off (c_entries c) (<[i:=fresh_entry k v]> (c_entries c)) (i :: xs.*1)) as Hag.
  { apply agree_insert; [by left|done]. }
  destruct (c_len c =? 0) eqn:E0.
  - apply Z.eqb_eq in E0. wp_simpl. destruct xs; [|cbn in Hcl; lia]. eapply HQ; [done|].
    pose proof (rep_insert c [] i k v _ Hc Hlen Hi Hkn Hkk Hag) as H.
    rewrite E0 in H. apply H. exists (fresh_entry k v).
    rewrite list_lookup_insert_eq by done. done.
  - apply Z.eqb_neq in E0. rewrite (proj2 (Z.ltb_lt _ _)) by lia. wp_simpl.
    cbn [c_first set_entries]. rewrite (cr_first _ _ Hc).
    destruct xs as [|[f y] xs]; [cbn in Hcl; lia|]. cbn [first_of fst].
    wp_write (fresh_entry k v).
    set (e' := with_next (Some f) (fresh_entry k v)).
    pose proof (cr_seg _ _ Hc) as Hd. pose proof (cr_slots _ _ Hc) as Hnd.
    apply (dseg_frame _ _ _ _ i e') in Hd; [|done].
    destruct (dseg_lookup _ _ _ _ f y Hd ltac:(by left)) as (ef & Hef & Hlf).
    wp_write ef. cbn [c_len set_first set_entries].
    rewrite w64_small by (unfold CHAINLEN in Hlen; cbn in *; lia).
    eapply HQ; [done|]. unfold set_len, set_first, set_entries.
    cbn [c_len c_entries c_first c_last]. rewrite <-(rep_last_cons _ _ (i, (k, v)) Hc) by done.
    apply (rep_insert c ((f, y) :: xs) i k v _ Hc Hlen Hi Hkn Hkk).
    + apply agree_insert; [right; by left|]. apply agree_insert; [by left|done].
    + apply (dseg_push _ e'); try done; [by apply NoDup_cons|by apply list_lookup_insert_eq].
Qed.

(** ** Reusing the last entry of a full chain *)

Lemma wp_refill_key c a i e key ksize k0 v0 k (Q : bool → mem cchain → Prop) :
  never_fails a → c_entries c !! i = Some e → live e (k0, v0) → denotes key ksize k →
  (∀ a' e', never_fails a' → live e' (k, v0) → e_prev e' = e_prev e → e_next e' = e_next e →
     Q true (Mem (set_entries (<[i := e']> (c_entries c)) c) a')) →
  wp (refill_key (Some i) key ksize) Q (Mem c a).
Proof.
  intros Ha He (Hek & Hev & Heks & Hevs) Hk HQ. cbn in Hek, Hev, Heks, Hevs.
  pose proof (denotes_length _ _ _ Hk) as Hkl.
  unfold refill_key. wp_simpl. apply (wp_entry_at _ _ _ e); [done|].
  destruct (ksize =? e_ksize e) eqn:E.
  - apply Z.eqb_eq in E. destruct Hk as [Hr Ht]. rewrite Hek. cbn [deref]. wp_simpl.
    apply wp_memcpy_full; [lia..|]. wp_simpl. rewrite Ht. wp_write e.
    apply HQ; [done| |done..]. repeat split; cbn; try done; lia.
  - wp_simpl. eapply wp_free_key; [done..|]. wp_simpl. apply (wp_dup_block _ _ _ _ k); [done..|].
    wp_simpl. wp_write (with_key Dangling e). cbn iota. wp_simpl.
    wp_write (with_key (Block k) (with_key Dangling e)).
    apply HQ; [by auto with nmdb| |done..]. repeat split; cbn; try done; lia.
Qed.

Lemma wp_refill_val c a i e val vsize k v0 v (Q : bool → mem cchain → Prop) :
  never_fails a → c_entries c !! i = Some e → live e (k, v0) → denotes val vsize v →
  (∀ a' e', never_fails a' → live e' (k, v) → e_prev e' = e_prev e → e_next e' = e_next e →
     Q true (Mem (set_entries (<[i := e']> (c_entries c)) c) a')) →
  wp (refill_val (Some i) val vsize) Q (Mem c a).
Proof.
  intros Ha He (Hek & Hev & Heks & Hevs) Hv HQ. cbn in Hek, Hev, Heks, Hevs.
  pose proof (denotes_length _ _ _ Hv) as Hvl.
  unfold refill_val. wp_simpl. apply (wp_entry_at _ _ _ e); [done|].
  destruct (vsize =? e_vsize e) eqn:E.
  - apply Z.eqb_eq in E. destruct Hv as [Hr Ht]. rewrite Hev. cbn [deref]. wp_simpl.
    apply wp_memcpy_full; [lia..|]. wp_simpl. rewrite Ht. wp_write e.
    apply HQ; [done| |done..]. repeat split; cbn; try done; lia.
  - wp_simpl. eapply wp_free_val; [done..|]. wp_simpl. apply (wp_dup_block _ _ _ _ v); [done..|].
    wp_simpl. wp_write (with_val Dangling e). cbn iota. wp_simpl.
    wp_write (with_val (Block v) (with_val Dangling e)).
    apply HQ; [by auto with nmdb| |done..]. repeat split; cbn; try done; lia.
Qed.

Lemma wp_rotate_last c a xs p y i x (Q : () → mem cchain → Prop) :
  chain_rep c (xs ++ [(p, y); (i, x)]) →
  (∀ c', chain_rep c' ((i, x) :: xs ++ [(p, y)]) → Q tt (Mem c' a)) →
  wp (rotate_last (Some i)) Q (Mem c a).
Proof.
  intros Hc HQ. pose proof Hc as [_ _ Hnd _ _ Hf Hl Hd _].
  rewrite cons_middle, (assoc_L (++)) in Hnd, Hd, Hf, Hl.
  apply dseg_app in Hd as [Hd1 Hd2]. rewrite last_of_snoc in Hd2.
  destruct Hd2 as (e & He & Hle & Hp & Hn & _). cbn [first_of fst] in *.
  rewrite fst_app in Hnd. apply NoDup_app in Hnd as (Hnd & Hni & _).
  assert (i ∉ (xs ++ [(p, y)]).*1) as Hi by (intros H; apply (Hni i H); by left).
  rewrite first_of_app in Hf.
  unfold rotate_last. wp_simpl. apply (wp_entry_at _ _ _ e); [done|]. wp_simpl.
  cbn [c_last set_last]. rewrite Hp.
  destruct (dseg_lookup _ _ _ _ p y Hd1 ltac:(set_solver)) as (ep & Hep & Hlp).
  apply (wp_upd_entry _ _ _ ep); [done|]. cbn [c_entries set_last].
  eapply (wp_push_front _ _ (xs ++ [(p, y)]) i x e); cbn [c_first c_entries set_entries set_last].
  - rewrite Hf, first_of_app. by destruct xs.
  - by destruct xs.
  - by apply NoDup_cons.
  - rewrite list_lookup_insert_ne; [done|]. intros ->. apply Hi. rewrite fst_app. set_solver.
  - done.
  - eapply (dseg_last _ _ _ _ _ _ _ ep); try done. rewrite fst_app in Hnd.
    apply NoDup_app in Hnd as (_ & Hx & _). intros H. apply (Hx _ H). by left.
  - intros es Ha Hes. apply HQ.
    eapply (rep_reorder c (xs ++ [(p, y); (i, x)])); [done| | |done|done|].
    + by solve_Permutation.
    + destruct Ha as [Hla Ha]. rewrite length_insert in Hla. split; [done|]. intros j Hj.
      rewrite fst_app in Hj. rewrite Ha by (rewrite fst_app; set_solver).
      apply list_lookup_insert_ne. set_solver.
    + cbn. by rewrite last_of_snoc.
Qed.

(** ** The abstract chain: a list of (key, value), most recently used first *)

Fixpoint assoc (k : bytes) (l : list kv) : option bytes :=
  match l with
  | [] => None
  | x :: l => if decide (k = x.1) then Some x.2 else assoc k l
  end.

Definition without (k : bytes) (l : list kv) : list kv := filter (λ x, x.1 ≠ k) l.

(** The LRU discipline: the new binding first, at most [CHAINLEN] of them. *)
Definition lru_set (k v : bytes) (l : list kv) : list kv :=
  take CHAINLEN ((k, v) :: without k l).

(** A value replaced in place. *)
Definition lru_put (k v : bytes) (l : list kv) : list kv :=
  (λ x, if decide (x.1 = k) then (k, v) else x) <$> l.

Definition chain_is (c : cchain) (l : list kv) : Prop := ∃ xs, chain_rep c xs ∧ xs.*2 = l.

Lemma without_notin k l : k ∉ l.*1 → without k l = l.
Proof.
  intros H. unfold without. induction l as [|x l IH]; [done|].
  cbn in H. apply not_elem_of_cons in H as [Hx H].
  rewrite filter_cons_True by done. by rewrite IH.
Qed.

Lemma without_mid k v xs ys : k ∉ (xs ++ ys).*1 → without k (xs ++ (k, v) :: ys) = xs ++ ys.
Proof.
  intros H. unfold without. rewrite filter_app, filter_cons_False by (cbn; naive_solver).
  rewrite <-filter_app. by apply without_notin.
Qed.

Lemma lru_put_notin k v l : k ∉ l.*1 → lru_put k v l = l.
Proof.
  intros H. unfold lru_put. induction l as [|x l IH]; [done|].
  cbn in H. apply not_elem_of_cons in H as [Hx H].
  cbn. rewrite decide_False by done. by rewrite IH.
Qed.

Lemma lru_put_mid k v v' xs ys :
  k ∉ (xs ++ ys).*1 → lru_put k v' (xs ++ (k, v) :: ys) = xs ++ (k, v') :: ys.
Proof.
  rewrite fmap_app. intros H. apply not_elem_of_app in H as [H1 H2].
  unfold lru_put. rewrite fmap_app. cbn. rewrite decide_True by done.
  fold (lru_put k v' xs) (lru_put k v' ys). by rewrite !lru_put_notin.
Qed.

Lemma assoc_mid k v xs ys : k ∉ xs.*1 → assoc k (xs ++ (k, v) :: ys) = Some v.
Proof.
  intros H. induction xs as [|x xs IH]; cbn in *; [by rewrite decide_True|].
  apply not_elem_of_cons in H as [Hx H]. rewrite decide_False by done. auto.
Qed.

Lemma assoc_none k l : assoc k l = None ↔ k ∉ l.*1.
Proof.
  induction l as [|x l IH]; cbn; [split; [intros _; apply not_elem_of_nil|done]|].
  rewrite not_elem_of_cons. case_decide; naive_solver.
Qed.

(** How looking a key up in a chain ends, with the shape of the list. *)
Lemma find_spec c a l key ksize k (Q : option nat → mem cchain → Prop) :
  chain_is c l → denotes key ksize k →
  (∀ xs, chain_rep c xs → l = xs.*2 → assoc k l = None → k ∉ xs.*2.*1 → Q None (Mem c a)) →
  (∀ i v xs ys, chain_rep c (xs ++ (i, (k, v)) :: ys) → l = xs.*2 ++ (k, v) :: ys.*2 →
     assoc k l = Some v → k ∉ (xs.*2 ++ ys.*2).*1 → Q (Some i) (Mem c a)) →
  wp (find_in_chain key ksize) Q (Mem c a).
Proof.
  intros (xs & Hc & <-) Hk H1 H2. eapply find_in_chain_spec; [done..|].
  destruct (slot_of k xs) as [i|] eqn:E.
  - apply slot_of_some in E as (v & xs1 & xs2 & -> & Hn). rewrite snd_app in *.
    destruct (rep_mid_key _ _ _ _ _ _ Hc) as [Hn' _]. rewrite snd_app in Hn'.
    apply (H2 i v xs1 xs2); [done..|by apply assoc_mid|done].
  - apply slot_of_none in E. apply (H1 xs); [done..|by apply assoc_none|done].
Qed.

Lemma chain_is_length c l : chain_is c l → (length l ≤ CHAINLEN)%nat.
Proof. intros (xs & Hc & <-). rewrite length_fmap. by eapply rep_length. Qed.

Lemma chain_is_nodup c l : chain_is c l → NoDup l.*1.
Proof. intros (xs & Hc & <-). apply Hc. Qed.

Lemma wp_insert_in_full_chain c a xs key ksize k val vsize v (Q : Z → mem cchain → Prop) :
  never_fails a → chain_rep c xs → length xs = CHAINLEN →
  denotes key ksize k → denotes val vsize v → key_ok k → k ∉ xs.*2.*1 →
  (∀ c' a', never_fails a' → chain_is c' (lru_set k v xs.*2) → Q 0 (Mem c' a')) →
  wp (insert_in_full_chain key ksize val vsize) Q (Mem c a).
Proof.
  intros Ha Hc Hlen Hk Hv Hkk Hkn HQ.
  assert (∃ ys p y i x, xs = ys ++ [(p, y); (i, x)] ∧ length ys = 2%nat) as
    (ys & p & y & i & [k0 v0] & -> & Hys).
  { destruct xs as [|x0 [|x1 [|[p y] [|[i x] [|]]]]]; try done. by exists [x0; x1], p, y, i, x. }
  pose proof Hc as Hc'. rewrite cons_middle, (assoc_L (++)) in Hc'.
  destruct (rep_lookup _ _ _ _ _ Hc') as (e & He & Hle).
  unfold insert_in_full_chain. wp_simpl.
  rewrite (cr_last _ _ Hc'), last_of_snoc. cbn [fst].
  eapply (wp_refill_key _ _ _ e _ _ k0 v0 k); [done..|].
  intros a1 e1 Ha1 Hl1 Hp1 Hn1. cbn [negb]. wp_simpl.
  pose proof (rep_entries_lt _ _ _ He) as Hlt.
  eapply (wp_refill_val _ _ _ e1 _ _ k v0 v); [done|by apply list_lookup_insert_eq|done..|].
  intros a2 e2 Ha2 Hl2 Hp2 Hn2. cbn [negb]. wp_simpl. cbn [c_entries set_entries].
  rewrite list_insert_insert_eq, set_entries_twice.
  eapply (wp_rotate_last _ _ ys p y i (k, v)).
  - rewrite cons_middle, (assoc_L (++)).
    eapply (rep_write _ _ i (k0, v0) (k, v) []); try done; try congruence.
    rewrite app_nil_r. intros H. apply Hkn. revert H. rewrite !snd_app, !fmap_app.
    set_solver.
  - intros c'' Hc''. wp_simpl. apply HQ; [done|]. eexists; split; [done|].
    unfold lru_set. rewrite without_notin by done.
    destruct ys as [|y0 [|y1 [|]]]; done.
Qed.

Lemma wp_chain_set c a l key ksize k val vsize v (Q : Z → mem cchain → Prop) :
  never_fails a → chain_is c l → denotes key ksize k → denotes val vsize v → key_ok k →
  (∀ c' a', never_fails a' → chain_is c' (lru_set k v l) → Q 0 (Mem c' a')) →
  wp (chain_set key ksize val vsize) Q (Mem c a).
Proof.
  intros Ha Hl Hk Hv Hkk HQ. pose proof (chain_is_length _ _ Hl) as Hlen.
  unfold chain_set. wp_simpl. eapply (find_spec _ _ _ _ _ k); [done..| |].
  - intros xs Hc -> _ Hn. cbn iota. rewrite length_fmap in Hlen.
    destruct (decide (length xs = CHAINLEN)) as [Hfull|Hfree].
    + unfold set_miss. wp_simpl. rewrite (cr_len _ _ Hc), Hfull.
      rewrite (proj2 (Z.eqb_eq _ _)) by done. wp_simpl.
      by eapply (wp_insert_in_full_chain _ _ xs _ _ k _ _ v).
    + eapply (wp_set_miss_free _ _ xs _ _ k _ _ v); [done|done|lia|done..|].
      intros i c' a' Ha' Hc'. apply HQ; [done|]. eexists; split; [done|].
      unfold lru_set. rewrite without_notin by done. rewrite take_ge; [done|].
      cbn. rewrite length_fmap. lia.
  - intros i v0 xs ys Hc -> _ Hn. cbn iota.
    eapply (wp_set_hit _ _ xs i k v0 ys _ _ v); [done..|].
    intros c' a' Ha' Hc'. apply HQ; [done|]. eexists; split; [done|].
    unfold lru_set. rewrite without_mid by done. rewrite take_ge.
    + cbn. by rewrite snd_app.
    + rewrite length_app in Hlen. cbn in *. rewrite length_app. lia.
Qed.

(** ** Deleting *)

Lemma rep_remove c xs i x ys es e' :
  chain_rep c (xs ++ (i, x) :: ys) → agree_off (c_entries c) es (xs ++ ys).*1 →
  dseg es None (xs ++ ys) None → unused e' →
  chain_rep (CChain (c_len c - 1) (<[i := e']> es) (first_of (xs ++ ys) None)
    (last_of None (xs ++ ys))) (xs ++ ys).
Proof.
  intros [Hs Hl Hn Hk Hko Hf Hla Hd Hu] Ha Hd' He'.
  destruct (nodup_mid _ _ _ _ Hn) as (_ & _ & Hi).
  rewrite <-Permutation_middle in Hk, Hko. cbn in Hk, Hko.
  apply NoDup_cons in Hk as [_ Hk]. apply Forall_cons in Hko as [_ Hko].
  apply NoDup_cons in Hi as [Hi Hnd]. split; cbn; try done.
  - by rewrite length_insert, (proj1 Ha).
  - rewrite Hl, !length_app. cbn. lia.
  - by apply dseg_frame.
  - apply unused_drop; [done|]. intros j e Hj Hjn.
    apply not_elem_of_cons in Hjn as [Hji Hjn]. rewrite (proj2 Ha) in Hj by done.
    apply (Hu j); [done|]. rewrite fst_app in *. cbn. set_solver.
Qed.

Lemma first_of_ne xs i nx : i ∉ xs.*1 → nx ≠ Some i → first_of xs nx ≠ Some i.
Proof.
  destruct xs as [|[j x] xs]; cbn; [done|]. intros Hi _ [= ->]. apply Hi. by left.
Qed.

Lemma wp_unlink c a xs i x ys e (Q : () → mem cchain → Prop) :
  chain_rep c (xs ++ (i, x) :: ys) → c_entries c !! i = Some e →
  (∀ es, agree_off (c_entries c) es (xs ++ ys).*1 → dseg es None (xs ++ ys) None →
     Q tt (Mem (CChain (c_len c) es (first_of (xs ++ ys) None) (last_of None (xs ++ ys))) a)) →
  wp (unlink (Some i) e) Q (Mem c a).
Proof.
  intros Hc He HQ. pose proof Hc as [_ _ Hnd _ _ Hf Hl Hd _].
  destruct (nodup_mid _ _ _ _ Hnd) as (Hy & Hx & Hxy).
  pose proof Hd as Hd0. apply dseg_app in Hd0 as [Hd1 (e0 & He0 & Hle & Hp & Hn & Hd2)].
  rewrite He in He0. injection He0 as <-.
  assert (∀ c0 (Q' : () → mem cchain → Prop), c_last c0 = c_last c →
    Q' tt (Mem (set_last (last_of None (xs ++ ys)) c0) a) →
    wp (if bool_decide (c_last c = Some i) then mod_obj (set_last (e_prev e)) else mret tt)
      Q' (Mem c0 a)) as Hlast.
  { intros c0 Q' Hc0 HQ'. rewrite Hl. case_bool_decide as E; wp_simpl.
    - rewrite last_of_mid in E by done. subst ys. rewrite app_nil_r in HQ'. by rewrite Hp.
    - rewrite last_of_mid in E by done.
      replace (last_of None (xs ++ ys)) with (c_last c0) in HQ'; [by destruct c0|].
      rewrite Hc0, Hl, !last_of_app. cbn. by apply last_of_ne. }
  unfold unlink. wp_simpl. rewrite Hf.
  destruct (decide (first_of (xs ++ (i, x) :: ys) None = Some i)) as [Hfi|Hfi];
    [rewrite (bool_decide_true (first_of _ _ = _)) by done
    |rewrite (bool_decide_false (first_of _ _ = _)) by done].
  - rewrite first_of_mid in Hfi by done. subst xs. cbn [app last_of] in *. wp_simpl.
    rewrite Hn. destruct ys as [|[b z] ys]; cbn [first_of fst] in *.
    + wp_simpl. apply Hlast; [done|]. by apply (HQ (c_entries c)).
    + destruct (dseg_lookup _ _ _ _ b z Hd2 ltac:(by left)) as (eb & Heb & Hlb).
      apply (wp_upd_entry _ _ _ eb); [done|]. apply Hlast; [done|].
      apply NoDup_cons in Hy as [Hi Hy]. apply NoDup_cons in Hy as [Hb Hy].
      apply (HQ (<[b := with_prev None eb]> (c_entries c))).
      * apply agree_insert; [by left|done].
      * by eapply (dseg_head _ (Some i) _ _ _ _ _ eb).
  - destruct xs as [|[p y] xs _] using rev_ind; [done|].
    rewrite <-app_assoc in Hd, Hnd. cbn in Hd, Hnd.
    assert ((xs ++ [(p, y)]) ++ ys = xs ++ (p, y) :: ys) as Ez by by rewrite <-app_assoc.
    wp_simpl. eapply (wp_splice_out _ _ xs p y i x ys); [done..|].
    intros es Ha Hes. apply Hlast; [done|]. rewrite Ez in *.
    replace (first_of (xs ++ (p, y) :: ys) None) with (c_first c) in HQ
      by by rewrite Hf, !first_of_app; destruct xs.
    by apply HQ.
Qed.

(** Freeing what the entry owns and marking it unused. *)
Lemma wp_release {A} c a i e b1 b2 (m : MT cchain A) (Q : A → mem cchain → Prop) :
  c_entries c !! i = Some e → e_key e = Block b1 → e_val e = Block b2 →
  (∀ e', unused e' →
     wp m Q (Mem (set_entries (<[i := e']> (c_entries c)) c) a)) →
  wp (free_key (Some i);; free_val (Some i);; free_entry (Some i);; m) Q (Mem c a).
Proof.
  intros He H1 H2 HQ. pose proof (rep_entries_lt _ _ _ He).
  wp_simpl. eapply wp_free_key; [done..|]. wp_simpl.
  eapply wp_free_val; [by apply list_lookup_insert_eq|done|]. wp_simpl.
  cbn [c_entries set_entries]. rewrite ?list_insert_insert_eq, ?set_entries_twice.
  unfold free_entry. eapply wp_upd_entry; [by apply list_lookup_insert_eq|].
  cbn [c_entries set_entries]. rewrite ?list_insert_insert_eq, ?set_entries_twice.
  by apply HQ.
Qed.

Lemma wp_chain_del c a l key ksize k (Q : Z → mem cchain → Prop) :
  chain_is c l → denotes key ksize k →
  (∀ c', chain_is c' (without k l) →
     Q (match assoc k l with Some _ => 1 | None => 0 end) (Mem c' a)) →
  wp (chain_del key ksize) Q (Mem c a).
Proof.
  intros Hl Hk HQ. pose proof (chain_is_length _ _ Hl) as Hlen.
  unfold chain_del. wp_simpl. eapply (find_spec _ _ _ _ _ k); [done..| |].
  - intros xs Hc -> E Hn. rewrite E in HQ. cbn iota. wp_simpl. apply HQ.
    rewrite without_notin by done. by exists xs.
  - intros i v xs ys Hc -> E Hn. rewrite E in HQ. cbn iota.
    destruct (rep_lookup _ _ _ _ _ Hc) as (e & He & Hle). pose proof Hle as (Hek & Hev & _).
    wp_simpl. apply (wp_entry_at _ _ _ e); [done|].
    apply wp_bind. eapply (wp_unlink _ _ xs i (k, v) ys e); [done..|]. intros es Ha Hes.
    assert (es !! i = Some e) as Hei.
    { rewrite (proj2 Ha); [done|]. pose proof (cr_slots _ _ Hc) as Hs.
      apply nodup_mid in Hs as (_ & _ & Hs). by apply NoDup_cons in Hs as [? _]. }
    eapply wp_release; [exact Hei|done..|]. intros e' He'. wp_simpl.
    apply HQ. exists (xs ++ ys). rewrite without_mid by done. split; [|by rewrite snd_app].
    cbn [c_len set_len set_entries c_entries c_first c_last].
    rewrite w64_small.
    + by eapply rep_remove.
    + rewrite (cr_len _ _ Hc). rewrite length_app in *. cbn in *.
      rewrite !length_fmap in Hlen. unfold CHAINLEN in Hlen. lia.
Qed.

Lemma wp_chain_get c a l key ksize k (Q : Z * cptr * Z → mem cchain → Prop) :
  chain_is c l → denotes key ksize k →
  Q (match assoc k l with Some v => (1, Block v, Z.of_nat (length v)) | None => (0, Null, 0) end)
    (Mem c a) →
  wp (chain_get key ksize) Q (Mem c a).
Proof.
  intros Hl Hk HQ. unfold chain_get. wp_simpl. eapply (find_spec _ _ _ _ _ k); [done..| |].
  - intros xs Hc -> E Hn. rewrite E in HQ. by wp_simpl.
  - intros i v xs ys Hc -> E Hn. rewrite E in HQ. cbn iota.
    destruct (rep_lookup _ _ _ _ _ Hc) as (e & He & Hle). destruct Hle as (_ & Hev & _ & Hvs).
    wp_simpl. apply (wp_entry_at _ _ _ e); [done|]. wp_simpl. by rewrite Hev, Hvs.
Qed.

(** ** Compare-and-swap *)

Lemma put_is c xs i k v v' ys e e' :
  chain_rep c (xs ++ (i, (k, v)) :: ys) → k ∉ (xs.*2 ++ ys.*2).*1 →
  c_entries c !! i = Some e → live e' (k, v') →
  e_prev e' = e_prev e → e_next e' = e_next e →
  chain_is (set_entries (<[i := e']> (c_entries c)) c) (lru_put k v' (xs.*2 ++ (k, v) :: ys.*2)).
Proof.
  intros Hc Hn He Hl Hp Hx. eexists. split; [by eapply rep_data|].
  rewrite lru_put_mid by done. by rewrite snd_app.
Qed.

(** What [cache_cas] returns for a key with value [v]. *)
Definition cas_result (v : option bytes) (old : bytes) : Z :=
  match v with
  | None => -2
  | Some v => if decide (v = old) then 0 else -1
  end.

Definition cas_chain (k old new : bytes) (l : list kv) : list kv :=
  match assoc k l with
  | Some v => if decide (v = old) then lru_put k new l else l
  | None => l
  end.

Lemma wp_chain_cas c a l key ksize k oldval ovsize old newval nvsize new
    (Q : Z → mem cchain → Prop) :
  never_fails a → chain_is c l → denotes key ksize k → denotes oldval ovsize old →
  denotes newval nvsize new →
  (∀ c' a', never_fails a' → chain_is c' (cas_chain k old new l) →
     Q (cas_result (assoc k l) old) (Mem c' a')) →
  wp (chain_cas key ksize oldval ovsize newval nvsize) Q (Mem c a).
Proof.
  intros Ha Hl Hk Ho Hw HQ. unfold cas_chain in HQ.
  unfold chain_cas. wp_simpl. eapply (find_spec _ _ _ _ _ k); [done..| |].
  { intros xs Hc -> E Hn. rewrite E in HQ. cbn iota. wp_simpl. by apply HQ. }
  intros i v xs ys Hc El E Hn. rewrite E in HQ. cbn iota. cbn [cas_result] in HQ.
  destruct (rep_lookup _ _ _ _ _ Hc) as (e & He & Hle).
  pose proof Hle as (Hek & Hev & Heks & Hevs). cbn in Hek, Hev, Heks, Hevs.
  wp_simpl. apply (wp_entry_at _ _ _ e); [done|].
  pose proof (denotes_length _ _ _ Ho) as Hol. pose proof (denotes_length _ _ _ Hw) as Hwl.
  destruct Ho as [Hor Hot].
  destruct (e_vsize e =? ovsize) eqn:E1; cbn [negb].
  2:{ apply Z.eqb_neq in E1. wp_simpl. rewrite !decide_False in HQ by (intros ->; lia).
      by apply HQ. }
  apply Z.eqb_eq in E1. rewrite Hev. cbn [deref]. wp_simpl.
  apply wp_memeq; [lia..|]. rewrite Hot, (take_ge v) by lia.
  case_bool_decide as Hvo; cbn [negb].
  2:{ wp_simpl. rewrite !decide_False in HQ by done. by apply HQ. }
  rewrite !decide_True, El in HQ by done. destruct (ovsize =? nvsize) eqn:E2.
  - apply Z.eqb_eq in E2. wp_simpl. destruct Hw as [Hwr Hwt].
    apply wp_memcpy_full; [lia..|]. wp_simpl. rewrite Hwt. wp_write e.
    apply HQ; [done|]. eapply put_is; try done; repeat split; cbn; try done; lia.
  - wp_simpl. apply (wp_dup_block _ _ _ _ new); [done..|]. cbn iota. wp_simpl.
    eapply wp_free_val; [done..|]. wp_simpl. cbn [c_entries set_entries].
    wp_write (with_val Dangling e). wp_write (with_val (Block new) (with_val Dangling e)).
    apply HQ; [by auto with nmdb|]. eapply put_is; try done; repeat split; cbn; try done; lia.
Qed.

(** ** Increment *)

(** What [cache_incr] returns for a key with value [v], and the chain after
    it. The empty value is left out: the code reads the byte before it. *)
Definition incr_result (v : option bytes) (n : Z) : Z * option Z :=
  match v with
  | None => (-1, None)
  | Some v => if ends_nul v then (0, Some (incr_num v n)) else (-2, None)
  end.

Definition incr_chain (k : bytes) (n : Z) (l : list kv) : list kv :=
  match assoc k l with
  | Some v => if ends_nul v then lru_put k (incr_block v n) l else l
  | None => l
  end.

Definition incr_defined (v : option bytes) : Prop :=
  match v with
  | Some v => v ≠ [] ∧ Z.of_nat (length v) < 2 ^ 64
  | None => True
  end.

Lemma wp_chain_incr c a l key ksize k n (Q : Z * option Z → mem cchain → Prop) :
  never_fails a → chain_is c l → denotes key ksize k → incr_defined (assoc k l) →
  (∀ c' a', never_fails a' → chain_is c' (incr_chain k n l) →
     Q (incr_result (assoc k l) n) (Mem c' a')) →
  wp (chain_incr key ksize n) Q (Mem c a).
Proof.
  intros Ha Hl Hk Hdef HQ. unfold incr_chain in HQ.
  unfold chain_incr. wp_simpl. eapply (find_spec _ _ _ _ _ k); [done..| |].
  { intros xs Hc -> E Hn. rewrite E in HQ. cbn iota. wp_simpl. by apply HQ. }
  intros i v xs ys Hc El E Hn. rewrite E in HQ, Hdef. cbn iota. cbn [incr_result] in HQ.
  destruct Hdef as [Hne Hlt].
  destruct (rep_lookup _ _ _ _ _ Hc) as (e & He & Hle).
  pose proof Hle as (Hek & Hev & Heks & Hevs). cbn in Hek, Hev, Heks, Hevs.
  wp_simpl. apply (wp_entry_at _ _ _ e); [done|]. rewrite Hev. cbn [deref]. wp_simpl.
  destruct (last v) as [z|] eqn:Elast; [|by apply last_None in Elast].
  rewrite Hevs. apply (wp_last_byte _ _ _ z); [done..|].
  assert (ends_nul v = bool_decide (z = NUL)) as En.
  { unfold ends_nul. rewrite Elast. apply bool_decide_ext. naive_solver. }
  rewrite En in HQ. case_bool_decide as Hz; cbn [negb]; [|by wp_simpl; apply HQ].
  wp_simpl. apply wp_c_string; [by rewrite En|]. fold (incr_num v n).
  rewrite El in HQ.
  pose proof (incr_num_range v n) as Hr. destruct (Z.of_nat (length v) <? 24) eqn:E24.
  - apply Z.ltb_lt in E24. wp_simpl. apply wp_malloc; [done|]. cbn iota. wp_simpl.
    eapply wp_free_val; [done..|]. wp_simpl. cbn [c_entries set_entries].
    wp_write (with_val Dangling e).
    set (junk := Block _). wp_write (with_val junk e).
    unfold junk at 1. cbn [deref]. wp_simpl.
    apply wp_snprintf_23lld; [done|lia|by rewrite length_replicate|].
    wp_simpl. wp_write (with_vsize 24 (with_val junk e)).
    rewrite drop_ge by (rewrite length_replicate; lia).
    apply HQ; [by auto with nmdb|]. eapply put_is; try done.
    unfold live; cbn. split_and!; [done| |done|].
    + unfold incr_block. by rewrite (drop_ge v) by lia.
    + rewrite length_incr_block. lia.
  - apply Z.ltb_ge in E24. wp_simpl.
    apply wp_snprintf_23lld; [done|lia|done|]. wp_simpl. wp_write e.
    apply HQ; [done|]. eapply put_is; try done.
    unfold live; cbn. split_and!; [done..|]. rewrite Hevs.
    rewrite length_incr_block. lia.
Qed.
