(* ===== verification/Cache.v ===== *)
(** * The cache: a table of chains (nmdb/cache.h, nmdb/cache.c)

    [struct cache] and the operations the server calls: each hashes the key,
    selects the chain and runs the chain-level function of Chain.v on it. The
    abstract cache is a list of buckets, each a list of (key, value) in order
    of recency; [cache_is] relates the two, and every operation is proved to
    refine the abstract one. *)

From S2P Require Import Prelude Words Hash Text Chain ChainSpec.

(** [struct cache] *)
Record cache := Cache {
  numobjs : Z;
  flags : Z;
  hashlen : Z;
  table : list cchain;
}.

Definition set_table (t : list cchain) (cd : cache) : cache :=
  Cache (numobjs cd) (flags cd) (hashlen cd) t.

(** [sizeof(struct cache)] and [sizeof(struct cache_chain)] on a 64-bit host. *)
Definition SIZEOF_CACHE : Z := 32.
Definition SIZEOF_CHAIN : Z := 216.

(** The initialisation loop writes [hashlen] chains into the table's block. *)
Definition init_table {S} (blk : bytes) (n : Z) : M S (list cchain) :=
  if in_block blk (SIZEOF_CHAIN * n) then mret (replicate (Z.to_nat n) chain_init) else ub.

Definition cache_create (n fl : Z) : MT () (option cache) :=
  cd ← malloc SIZEOF_CACHE;
  match cd with
  | Null => mret None
  | _ =>
      let hl := n / Z.of_nat CHAINLEN in
      t ← malloc (w64 (SIZEOF_CHAIN * hl));
      match t with
      | Null => free cd;; mret None
      | _ => blk ← deref t; tb ← init_table blk hl; mret (Some (Cache n fl hl tb))
      end
  end.

(** The inner loop of [cache_free]: [n] is the entry's [next], read before the
    key and the value are freed. *)
Fixpoint free_walk (fuel : nat) (e : option nat) : MT cchain () :=
  match fuel with
  | O => ub
  | S fuel =>
      match e with
      | None => mret tt
      | Some _ =>
          en ← entry_at e;
          free_key e;; free_val e;;
          free_walk fuel (e_next en)
      end
  end.

Definition chain_free : MT cchain () :=
  c ← get_obj; free_walk (S (length (c_entries c))) (c_first c).

(** [c = cd->table + h], then work on that chain. *)
Definition at_chain {A} (h : Z) (m : MT cchain A) : MT cache A :=
  zoom (λ cd, table cd !! Z.to_nat h)
       (λ c cd, set_table (<[Z.to_nat h := c]> (table cd)) cd) m.

Fixpoint free_chains (n : nat) (i : Z) : MT cache () :=
  match n with
  | O => mret tt
  | S n => at_chain i chain_free;; free_chains n (i + 1)
  end.

(** [cache_free]; the state keeps what the table's block held when it was
    released. *)
Definition cache_free : MT cache Z :=
  cd ← get_obj; free_chains (Z.to_nat (hashlen cd)) 0;; mret 1.

(** [h = hash(key, ksize) % cd->hashlen], a [uint32_t]; a table of length 0
    divides by zero. *)
Definition bucket (key : bytes) (ksize : Z) : MT cache Z :=
  h ← hash key ksize;
  cd ← get_obj;
  if hashlen cd =? 0 then ub else mret (w32 (h mod hashlen cd)).

Definition cache_get (key : bytes) (ksize : Z) : MT cache (Z * cptr * Z) :=
  h ← bucket key ksize; at_chain h (chain_get key ksize).

Definition cache_set (key : bytes) (ksize : Z) (val : bytes) (vsize : Z) : MT cache Z :=
  h ← bucket key ksize; at_chain h (chain_set key ksize val vsize).

Definition cache_del (key : bytes) (ksize : Z) : MT cache Z :=
  h ← bucket key ksize; at_chain h (chain_del key ksize).

Definition cache_cas (key : bytes) (ksize : Z) (oldval : bytes) (ovsize : Z)
    (newval : bytes) (nvsize : Z) : MT cache Z :=
  h ← bucket key ksize; at_chain h (chain_cas key ksize oldval ovsize newval nvsize).

Definition cache_incr (key : bytes) (ksize increment : Z) : MT cache (Z * option Z) :=
  h ← bucket key ksize; at_chain h (chain_incr key ksize increment).

(** ** The abstract cache *)

Abbreviation acache := (list (list kv)).

Definition slot (n : nat) (k : bytes) : nat := Z.to_nat (murmurhash2 k mod Z.of_nat n).

Definition a_lookup (k : bytes) (bs : acache) : option bytes :=
  bs !! slot (length bs) k ≫= assoc k.
Definition a_on (k : bytes) (f : list kv → list kv) (bs : acache) : acache :=
  alter f (slot (length bs) k) bs.
Definition a_set (k v : bytes) (bs : acache) : acache := a_on k (lru_set k v) bs.
Definition a_del (k : bytes) (bs : acache) : acache := a_on k (without k) bs.
Definition a_cas (k old new : bytes) (bs : acache) : acache := a_on k (cas_chain k old new) bs.
Definition a_incr (k : bytes) (n : Z) (bs : acache) : acache := a_on k (incr_chain k n) bs.

(** Every key is in the bucket its hash selects. *)
Definition placed (bs : acache) : Prop :=
  ∀ i l k, bs !! i = Some l → k ∈ l.*1 → slot (length bs) k = i.

Record cache_is (cd : cache) (bs : acache) : Prop := CacheIs {
  ci_hashlen : hashlen cd = Z.of_nat (length bs);
  ci_numobjs : hashlen cd = numobjs cd / Z.of_nat CHAINLEN;
  ci_pos : (0 < length bs)%nat;
  ci_small : Z.of_nat (length bs) * Z.of_nat CHAINLEN < 2 ^ 64;
  ci_chains : Forall2 chain_is (table cd) bs;
  ci_placed : placed bs;
}.

Lemma slot_lt n k : (0 < n)%nat → (slot n k < n)%nat.
Proof.
  intros Hn. unfold slot.
  pose proof (Z.mod_pos_bound (murmurhash2 k) (Z.of_nat n) ltac:(lia)). lia.
Qed.

(** The keys of a list operation that only concerns the key [k]. *)
Definition keys_within (f : list kv → list kv) (k : bytes) : Prop :=
  ∀ l k', k' ∈ (f l).*1 → k' = k ∨ k' ∈ l.*1.

Lemma placed_on k f bs : keys_within f k → placed bs → placed (a_on k f bs).
Proof.
  intros Hf Hp i l k' Hi Hk. unfold a_on in *. rewrite length_alter.
  rewrite list_lookup_alter in Hi. case_decide as E; [|by eapply Hp].
  apply fmap_Some in Hi as (l0 & Hl0 & ->).
  destruct (Hf _ _ Hk) as [->|Hk']; [done|]. rewrite <-E. by eapply Hp.
Qed.

Lemma lru_set_keys k v : keys_within (lru_set k v) k.
Proof.
  intros l k' H. unfold lru_set in H. rewrite fmap_take in H.
  apply elem_of_take in H as (i & H & _). apply list_elem_of_lookup_2 in H. cbn in H. apply elem_of_cons in H as [->|H]; [by left|right].
  apply list_elem_of_fmap in H as (x & -> & Hx). apply list_elem_of_filter in Hx as [_ Hx].
  by apply list_elem_of_fmap_2.
Qed.

Lemma without_keys k : keys_within (without k) k.
Proof.
  intros l k' H. right. apply list_elem_of_fmap in H as (x & -> & Hx).
  apply list_elem_of_filter in Hx as [_ Hx]. by apply list_elem_of_fmap_2.
Qed.

Lemma lru_put_keys k v : keys_within (lru_put k v) k.
Proof.
  intros l k' H. apply list_elem_of_fmap in H as (x & -> & Hx).
  apply list_elem_of_fmap in Hx as (y & -> & Hy).
  case_decide as E; cbn; [by left|right]. by apply list_elem_of_fmap_2.
Qed.

Lemma cas_chain_keys k old new : keys_within (cas_chain k old new) k.
Proof.
  intros l k' H. unfold cas_chain in H. repeat case_match; try by right.
  by eapply lru_put_keys.
Qed.

Lemma incr_chain_keys k n : keys_within (incr_chain k n) k.
Proof.
  intros l k' H. unfold incr_chain in H. repeat case_match; try by right.
  by eapply lru_put_keys.
Qed.

#[export] Hint Resolve lru_set_keys without_keys lru_put_keys cas_chain_keys
  incr_chain_keys : nmdb.

(** ** Refinement, one operation at a time *)

Section refine.
Context (cd : cache) (a : alloc) (bs : acache) (Hcd : cache_is cd bs).
Context (key : bytes) (ksize : Z) (k : bytes) (Hk : denotes key ksize k).

Lemma table_length : length (table cd) = length bs.
Proof. eapply Forall2_length, Hcd. Qed.

(** The table after an operation on the chain of [k]. *)
Definition table_after (c : cchain) : cache :=
  set_table (<[slot (length bs) k := c]> (table cd)) cd.

Lemma cache_is_on c l f :
  bs !! slot (length bs) k = Some l → chain_is c (f l) → keys_within f k →
  cache_is (table_after c) (a_on k f bs).
Proof.
  intros Hl Hc Hf. destruct Hcd as [Hh Hno Hpos Hsm Hch Hp].
  split; cbn; unfold a_on; rewrite ?length_alter; try done; [|by apply placed_on].
  replace (alter f _ bs) with (<[slot (length bs) k := f l]> bs); [by apply Forall2_insert|].
  rewrite (list_insert_alter bs). apply list_alter_ext; [|done].
  intros l' Hl'. by simplify_eq.
Qed.

Lemma wp_at_key {A} (m : MT cchain A) (Q : A → mem cache → Prop) :
  (∀ c l, table cd !! slot (length bs) k = Some c → chain_is c l →
     bs !! slot (length bs) k = Some l → a_lookup k bs = assoc k l →
     wp m (λ r s, Q r (Mem (table_after (obj s)) (heap s))) (Mem c a)) →
  wp (h ← bucket key ksize; at_chain h m) Q (Mem cd a).
Proof.
  intros H. destruct (Hcd) as [Hh _ Hpos Hsm Hch _]. destruct Hk as [Hr Ht].
  unfold bucket. wp_simpl. apply wp_hash; [lia..|]. wp_simpl. rewrite Ht, Hh.
  rewrite (proj2 (Z.eqb_neq _ _)) by lia. wp_simpl.
  pose proof (Z.mod_pos_bound (murmurhash2 k) (Z.of_nat (length bs)) ltac:(lia)).
  pose proof (Z.mod_le (murmurhash2 k) (Z.of_nat (length bs))
    (proj1 (murmurhash2_range k)) ltac:(lia)) as Hle.
  pose proof (murmurhash2_range k) as Hrg.
  rewrite w32_small by lia. fold (slot (length bs) k).
  pose proof (slot_lt _ k Hpos) as Hlt.
  destruct (lookup_lt_is_Some_2 bs (slot (length bs) k) Hlt) as [l Hl].
  destruct (Forall2_lookup_r _ _ _ _ _ Hch Hl) as (c & Hc & Hcl).
  unfold at_chain. rewrite (wp_zoom _ _ _ _ _ _ c); [|done].
  eapply wp_mono; [apply (H c l); [done..|]|].
  - unfold a_lookup. by rewrite Hl.
  - intros r s' HQ. exact HQ.
Qed.

Lemma wp_cache_get (Q : Z * cptr * Z → mem cache → Prop) :
  Q (match a_lookup k bs with
     | Some v => (1, Block v, Z.of_nat (length v))
     | None => (0, Null, 0)
     end) (Mem cd a) →
  wp (cache_get key ksize) Q (Mem cd a).
Proof.
  intros HQ. apply wp_at_key. intros c l Hc Hcl Hl E. rewrite E in HQ.
  eapply wp_chain_get; [done..|]. unfold table_after; cbn.
  rewrite list_insert_id by done. by destruct cd.
Qed.

Lemma wp_cache_set val vsize v (Q : Z → mem cache → Prop) :
  never_fails a → key_ok k → denotes val vsize v →
  (∀ cd' a', never_fails a' → cache_is cd' (a_set k v bs) → Q 0 (Mem cd' a')) →
  wp (cache_set key ksize val vsize) Q (Mem cd a).
Proof.
  intros Ha Hkk Hv HQ. apply wp_at_key. intros c l Hc Hcl Hl _.
  eapply wp_chain_set; [done..|]. intros c' a' Ha' Hc'.
  apply HQ; [done|]. eapply cache_is_on; eauto with nmdb.
Qed.

Lemma wp_cache_del (Q : Z → mem cache → Prop) :
  (∀ cd', cache_is cd' (a_del k bs) →
     Q (match a_lookup k bs with Some _ => 1 | None => 0 end) (Mem cd' a)) →
  wp (cache_del key ksize) Q (Mem cd a).
Proof.
  intros HQ. apply wp_at_key. intros c l Hc Hcl Hl E. rewrite E in HQ.
  eapply wp_chain_del; [done..|]. intros c' Hc'.
  apply HQ. eapply cache_is_on; eauto with nmdb.
Qed.

Lemma wp_cache_cas oldval ovsize old newval nvsize new (Q : Z → mem cache → Prop) :
  never_fails a → denotes oldval ovsize old → denotes newval nvsize new →
  (∀ cd' a', never_fails a' → cache_is cd' (a_cas k old new bs) →
     Q (cas_result (a_lookup k bs) old) (Mem cd' a')) →
  wp (cache_cas key ksize oldval ovsize newval nvsize) Q (Mem cd a).
Proof.
  intros Ha Ho Hn HQ. apply wp_at_key. intros c l Hc Hcl Hl E. rewrite E in HQ.
  eapply wp_chain_cas; [done..|]. intros c' a' Ha' Hc'.
  apply HQ; [done|]. eapply cache_is_on; eauto with nmdb.
Qed.

Lemma wp_cache_incr n (Q : Z * option Z → mem cache → Prop) :
  never_fails a → incr_defined (a_lookup k bs) →
  (∀ cd' a', never_fails a' → cache_is cd' (a_incr k n bs) →
     Q (incr_result (a_lookup k bs) n) (Mem cd' a')) →
  wp (cache_incr key ksize n) Q (Mem cd a).
Proof.
  intros Ha Hd HQ. apply wp_at_key. intros c l Hc Hcl Hl E. rewrite E in HQ, Hd.
  eapply wp_chain_incr; [done..|]. intros c' a' Ha' Hc'.
  apply HQ; [done|]. eapply cache_is_on; eauto with nmdb.
Qed.
End refine.

(** ** What the abstract operations compute *)

Lemma assoc_without_ne k k' l : k' ≠ k → assoc k' (without k l) = assoc k' l.
Proof.
  intros Hne. unfold without. induction l as [|x l IH]; [done|]. cbn [assoc].
  destruct (decide (x.1 = k)) as [E|E].
  - rewrite filter_cons_False by naive_solver. rewrite IH.
    rewrite (decide_False (P := k' = x.1)) by congruence. done.
  - rewrite filter_cons_True by done. cbn [assoc]. by case_decide.
Qed.

Lemma assoc_without k l : assoc k (without k l) = None.
Proof.
  apply assoc_none. intros H. apply list_elem_of_fmap in H as (x & -> & H).
  by apply list_elem_of_filter in H as [H _].
Qed.

Lemma assoc_take n k l : assoc k (take n l) = assoc k l ∨ assoc k (take n l) = None.
Proof.
  revert n. induction l as [|x l IH]; intros [|n]; cbn; auto.
  case_decide; auto.
Qed.

Lemma assoc_lru_set k v l : assoc k (lru_set k v l) = Some v.
Proof. unfold lru_set, CHAINLEN. cbn. by rewrite decide_True. Qed.

Lemma assoc_lru_set_ne k k' v l :
  k' ≠ k → assoc k' (lru_set k v l) = assoc k' l ∨
  (assoc k' (lru_set k v l) = None ∧ length l ≥ CHAINLEN).
Proof.
  intros Hne. unfold lru_set.
  destruct (decide (length l < CHAINLEN)%nat) as [Hl|Hl].
  - left. rewrite take_ge.
    + cbn [assoc fst]. rewrite decide_False by done. by apply assoc_without_ne.
    + cbn [length]. pose proof (length_filter (λ x : kv, x.1 ≠ k) l). unfold without. lia.
  - destruct (assoc_take CHAINLEN k' ((k, v) :: without k l)) as [E|E]; rewrite E.
    + left. cbn [assoc fst]. rewrite decide_False by done. by apply assoc_without_ne.
    + right. split; [done|lia].
Qed.

Lemma assoc_lru_put k k' v l :
  assoc k' (lru_put k v l) =
  if decide (k' = k) then (λ _, v) <$> assoc k' l else assoc k' l.
Proof.
  unfold lru_put. induction l as [|x l IH]; cbn [assoc]; [by case_decide|].
  cbn. rewrite IH. destruct (decide (x.1 = k)) as [<-|E]; cbn [fst snd]; repeat case_decide; naive_solver.
Qed.

Lemma a_lookup_on k k' f bs :
  (∀ l, k' ≠ k → assoc k' (f l) = assoc k' l) →
  a_lookup k' (a_on k f bs) =
  if decide (k' = k) then bs !! slot (length bs) k ≫= (λ l, assoc k (f l)) else a_lookup k' bs.
Proof.
  intros Hf. unfold a_lookup, a_on. rewrite length_alter, list_lookup_alter.
  case_decide as E; case_decide as E2; subst; try done.
  - destruct (bs !! _); done.
  - rewrite E. destruct (bs !! slot (length bs) k') as [l|] eqn:El; cbn; [|done]. by apply Hf.
Qed.

Lemma bucket_total k (bs : acache) : (0 < length bs)%nat → is_Some (bs !! slot (length bs) k).
Proof. intros. by apply lookup_lt_is_Some_2, slot_lt. Qed.

Lemma a_lookup_set k v bs : (0 < length bs)%nat → a_lookup k (a_set k v bs) = Some v.
Proof.
  intros Hpos. unfold a_lookup, a_set, a_on. rewrite length_alter, list_lookup_alter_eq.
  destruct (bucket_total k bs Hpos) as [l ->]. cbn. apply assoc_lru_set.
Qed.

(** Another key keeps its value, or goes with the eviction of its full chain. *)
Lemma a_lookup_set_ne k k' v bs :
  k' ≠ k → a_lookup k' (a_set k v bs) = a_lookup k' bs ∨
  (a_lookup k' (a_set k v bs) = None ∧ slot (length bs) k' = slot (length bs) k ∧
   ∃ l, bs !! slot (length bs) k = Some l ∧ (CHAINLEN ≤ length l)%nat).
Proof.
  intros Hne. unfold a_lookup, a_set, a_on. rewrite length_alter, list_lookup_alter.
  case_decide as E; [|by left]. rewrite <-E.
  destruct (bs !! slot (length bs) k) as [l|] eqn:El; [|by left].
  cbn [fmap option_fmap option_map mbind option_bind].
  destruct (assoc_lru_set_ne k k' v l Hne) as [->|[-> Hl]]; [by left|right].
  split_and!; [done|done|]. eauto.
Qed.

Lemma a_lookup_del k k' bs :
  a_lookup k' (a_del k bs) = if decide (k' = k) then None else a_lookup k' bs.
Proof.
  unfold a_del. rewrite a_lookup_on; [|intros; by apply assoc_without_ne].
  case_decide; [|done]. destruct (bs !! _); [cbn; apply assoc_without|done].
Qed.

Lemma a_lookup_cas k k' old new bs :
  a_lookup k' (a_cas k old new bs) =
  if decide (k' = k ∧ a_lookup k bs = Some old) then Some new else a_lookup k' bs.
Proof.
  unfold a_cas. rewrite a_lookup_on.
  - destruct (decide (k' = k)) as [->|]; [|by rewrite decide_False by naive_solver].
    destruct (decide (k = k ∧ a_lookup k bs = Some old)) as [[_ H]|H]; unfold a_lookup in H |- *;
      destruct (bs !! _) as [l|]; cbn in H |- *; try done; unfold cas_chain.
    + by rewrite H, decide_True, assoc_lru_put, decide_True, H.
    + destruct (assoc k l) as [v|] eqn:Ev; [|done]. rewrite decide_False by naive_solver. done.
  - intros l Hne. unfold cas_chain. repeat case_match; try done.
    by rewrite assoc_lru_put, decide_False.
Qed.

Lemma a_lookup_incr k k' n bs :
  a_lookup k' (a_incr k n bs) =
  if decide (k' = k)
  then (λ v, if ends_nul v then incr_block v n else v) <$> a_lookup k bs
  else a_lookup k' bs.
Proof.
  unfold a_incr. rewrite a_lookup_on.
  - destruct (decide (k' = k)) as [->|]; [|done]. unfold a_lookup.
    destruct (bs !! _) as [l|] eqn:El; cbn; [|done].
    unfold incr_chain. destruct (assoc k l) as [v|] eqn:Ev; cbn.
    + case_match; [|done]. by rewrite assoc_lru_put, decide_True, Ev.
    + done.
  - intros l Hne. unfold incr_chain. repeat case_match; try done.
    by rewrite assoc_lru_put, decide_False.
Qed.

(** ** Creation and destruction *)

Lemma chain_init_is : chain_is chain_init [].
Proof.
  exists []. split; [|done]. split; try done; try by constructor.
  - intros i e He _. cbn in He. apply list_elem_of_lookup_2 in He.
    by repeat (apply elem_of_cons in He as [->|He]; [done|]); apply not_elem_of_nil in He.
Qed.

Definition empty_cache (n : nat) : acache := replicate n [].

Lemma cache_is_empty n fl :
  Z.of_nat CHAINLEN ≤ n → n < 2 ^ 64 →
  cache_is (Cache n fl (n / Z.of_nat CHAINLEN) (replicate (Z.to_nat (n / Z.of_nat CHAINLEN)) chain_init))
    (empty_cache (Z.to_nat (n / Z.of_nat CHAINLEN))).
Proof.
  intros Hn Hm. unfold CHAINLEN in *. 
  pose proof (Z.div_le_lower_bound n 4 1 ltac:(lia) ltac:(lia)).
  pose proof (Z.mul_div_le n 4 ltac:(lia)).
  split; cbn [hashlen numobjs table]; unfold empty_cache, CHAINLEN; rewrite ?length_replicate; try done; try lia.
  - apply Forall2_replicate, chain_init_is.
  - intros i l k Hi Hk. apply lookup_replicate in Hi as [-> _]. by apply not_elem_of_nil in Hk.
Qed.

Lemma wp_cache_create n fl a (Q : option cache → mem () → Prop) :
  never_fails a → Z.of_nat CHAINLEN ≤ n → SIZEOF_CHAIN * (n / Z.of_nat CHAINLEN) < 2 ^ 64 → n < 2 ^ 64 →
  (∀ cd a', never_fails a' → numobjs cd = n → cache_is cd (empty_cache (Z.to_nat (n / Z.of_nat CHAINLEN))) →
     Q (Some cd) (Mem tt a')) →
  wp (cache_create n fl) Q (Mem tt a).
Proof.
  intros Ha Hn Hs Hm HQ. unfold cache_create. wp_simpl.
  apply wp_malloc; [done|]. cbn iota. wp_simpl.
  apply wp_malloc; [done|]. cbn iota. cbn [deref]. wp_simpl.
  assert (0 ≤ n / Z.of_nat CHAINLEN) by (apply Z.div_pos; unfold CHAINLEN in *; lia).
  rewrite w64_small by (unfold SIZEOF_CHAIN in *; lia).
  unfold init_table. rewrite in_block_true; [|unfold SIZEOF_CHAIN in *; lia|].
  2:{ rewrite length_replicate. unfold SIZEOF_CHAIN in *; lia. }
  wp_simpl. apply HQ; [done..|]. by apply cache_is_empty.
Qed.

(** An entry, and a chain, that owns no block any more. *)
Definition owns_nothing (e : centry) : Prop :=
  (∀ b, e_key e ≠ Block b) ∧ (∀ b, e_val e ≠ Block b).
Definition released (c : cchain) : Prop :=
  ∀ i e, c_entries c !! i = Some e → owns_nothing e.

Lemma wp_free_walk fuel c a pv xs (Q : () → mem cchain → Prop) :
  dseg (c_entries c) pv xs None → NoDup xs.*1 →
  (∀ i e, c_entries c !! i = Some e → i ∉ xs.*1 → owns_nothing e) →
  (length xs < fuel)%nat →
  (∀ c', released c' → Q tt (Mem c' a)) →
  wp (free_walk fuel (first_of xs None)) Q (Mem c a).
Proof.
  revert fuel c pv. induction xs as [|[i x] xs IH]; intros fuel c pv Hd Hnd Ho Hf HQ;
    (destruct fuel as [|fuel]; [cbn in Hf; lia|]); cbn [first_of free_walk fst].
  { wp_simpl. apply HQ. intros j e He. apply (Ho j e He). apply not_elem_of_nil. }
  destruct Hd as (e & He & (Hek & Hev & _) & _ & Hn & Hd).
  apply NoDup_cons in Hnd as [Hi Hnd]. pose proof (rep_entries_lt _ _ _ He).
  wp_simpl. apply (wp_entry_at _ _ _ e); [done|]. wp_simpl.
  eapply wp_free_key; [done..|]. wp_simpl.
  eapply wp_free_val; [by apply list_lookup_insert_eq|done|]. wp_simpl.
  rewrite Hn. cbn [c_entries set_entries].
  rewrite list_insert_insert_eq, set_entries_twice.
  apply (IH _ _ (Some i)); [by apply dseg_frame|done| |cbn in Hf; lia|done].
  cbn [c_entries set_entries]. intros j e' Hj Hjx.
  apply list_lookup_insert_Some in Hj as [(-> & <- & _)|[Hne Hj]]; [by split|].
  apply (Ho j e' Hj). cbn. by apply not_elem_of_cons.
Qed.

Lemma wp_chain_free c a l (Q : () → mem cchain → Prop) :
  chain_is c l → (∀ c', released c' → Q tt (Mem c' a)) → wp chain_free Q (Mem c a).
Proof.
  intros (xs & Hc & <-) HQ. unfold chain_free. wp_simpl. rewrite (cr_first _ _ Hc).
  pose proof (rep_length _ _ Hc). eapply wp_free_walk; [apply Hc..| | |done].
  - intros i e He Hi. destruct (cr_unused _ _ Hc i e He Hi) as (_ & Hk & Hv).
    by split; rewrite ?Hk, ?Hv.
  - rewrite (cr_size _ _ Hc). lia.
Qed.

Lemma wp_free_chains n cd a done rest bs (Q : () → mem cache → Prop) :
  table cd = done ++ rest → Forall released done → Forall2 chain_is rest bs →
  n = length rest →
  (∀ cd', Forall released (table cd') → Q tt (Mem cd' a)) →
  wp (free_chains n (Z.of_nat (length done))) Q (Mem cd a).
Proof.
  revert cd done rest bs. induction n as [|n IH]; intros cd dn rest bs Ht Hd Hr Hn HQ.
  - destruct rest; [|done]. cbn [free_chains]. wp_simpl. apply HQ. by rewrite Ht, app_nil_r.
  - destruct Hr as [|c l rest bs Hc Hr]; [done|]. cbn [free_chains length] in *.
    unfold at_chain. wp_simpl. rewrite Nat2Z.id.
    rewrite (wp_zoom _ _ _ _ _ _ c); [|by rewrite Ht, list_lookup_middle].
    eapply wp_chain_free; [done|]. intros c' Hc'. wp_simpl.
    replace (Z.of_nat (length dn) + 1) with (Z.of_nat (length (dn ++ [c'])))
      by (rewrite length_app; cbn; lia).
    apply (IH _ _ rest bs); [|by apply Forall_app; auto|done|lia|done].
    cbn. rewrite Ht, insert_app_r_alt by lia. rewrite Nat.sub_diag. cbn.
    by rewrite <-app_assoc.
Qed.

Lemma wp_cache_free cd a bs (Q : Z → mem cache → Prop) :
  cache_is cd bs → (∀ cd', Forall released (table cd') → Q 1 (Mem cd' a)) →
  wp cache_free Q (Mem cd a).
Proof.
  intros [Hh _ _ _ Hch _] HQ. unfold cache_free. wp_simpl. rewrite Hh, Nat2Z.id.
  change 0 with (Z.of_nat (length (@nil cchain))).
  eapply (wp_free_chains _ _ _ [] (table cd) bs); try done.
  by rewrite (Forall2_length _ _ _ Hch).
Qed.

(** ** Runs: any sequence of operations on a new cache *)

Inductive cop :=
  | CGet (k : bytes)
  | CSet (k v : bytes)
  | CDel (k : bytes)
  | CCas (k old new : bytes)
  | CIncr (k : bytes) (n : Z).

Inductive cres :=
  | RGet (v : option bytes)
  | RCode (rv : Z)
  | RIncr (r : Z * option Z).

Abbreviation len b := (Z.of_nat (length b)).

(** The operation as the server calls it, and the abstract operation. *)
Definition run_op (o : cop) : MT cache cres :=
  match o with
  | CGet k =>
      r ← cache_get k (len k);
      mret (RGet (match r with (_, Block b, n) => Some (take (Z.to_nat n) b) | _ => None end))
  | CSet k v => r ← cache_set k (len k) v (len v); mret (RCode r)
  | CDel k => r ← cache_del k (len k); mret (RCode r)
  | CCas k old new => r ← cache_cas k (len k) old (len old) new (len new); mret (RCode r)
  | CIncr k n => r ← cache_incr k (len k) n; mret (RIncr r)
  end.

Definition a_op (o : cop) (bs : acache) : cres * acache :=
  match o with
  | CGet k => (RGet (a_lookup k bs), bs)
  | CSet k v => (RCode 0, a_set k v bs)
  | CDel k => (RCode (match a_lookup k bs with Some _ => 1 | None => 0 end), a_del k bs)
  | CCas k old new => (RCode (cas_result (a_lookup k bs) old), a_cas k old new bs)
  | CIncr k n => (RIncr (incr_result (a_lookup k bs) n), a_incr k n bs)
  end.

Fixpoint run_ops (os : list cop) : MT cache (list cres) :=
  match os with
  | [] => mret []
  | o :: os => r ← run_op o; rs ← run_ops os; mret (r :: rs)
  end.

Fixpoint a_ops (os : list cop) (bs : acache) : list cres * acache :=
  match os with
  | [] => ([], bs)
  | o :: os => let '(r, bs) := a_op o bs in let '(rs, bs) := a_ops os bs in (r :: rs, bs)
  end.

(** Sizes that fit a [size_t], and no empty value: [cache_incr] on an empty
    value reads the byte before it. *)
Definition val_ok (v : bytes) : Prop := v ≠ [] ∧ Z.of_nat (length v) < 2 ^ 64.
Definition op_ok (o : cop) : Prop :=
  match o with
  | CSet k v => key_ok k ∧ val_ok v
  | CCas k old new => val_ok new
  | _ => True
  end.

Definition vals_ok (bs : acache) : Prop := ∀ k v, a_lookup k bs = Some v → val_ok v.

Lemma val_ok_incr v n : val_ok v → val_ok (incr_block v n).
Proof.
  intros [Hv Hl]. split.
  - intros H. apply (f_equal length) in H. rewrite length_incr_block in H. cbn in H. lia.
  - rewrite length_incr_block. lia.
Qed.

Lemma a_op_vals_ok o bs : (0 < length bs)%nat → op_ok o → vals_ok bs → vals_ok (a_op o bs).2.
Proof.
  intros Hpos Ho Hv. destruct o as [k|k v|k|k old new|k n]; cbn in *; intros k' v' H.
  - by eapply Hv.
  - destruct (decide (k' = k)) as [->|Hne].
    + rewrite a_lookup_set in H by done. simplify_eq. apply Ho.
    + destruct (a_lookup_set_ne k k' v bs Hne) as [E|[E _]]; rewrite E in H; [by eapply Hv|done].
  - rewrite a_lookup_del in H. case_decide; [done|]. by eapply Hv.
  - rewrite a_lookup_cas in H. case_decide; [by simplify_eq|]. by eapply Hv.
  - rewrite a_lookup_incr in H. case_decide; [|by eapply Hv].
    apply fmap_Some in H as (v0 & H & ->). apply Hv in H. case_match; [|done].
    by apply val_ok_incr.
Qed.

Lemma wp_run_op o cd a bs (Q : cres → mem cache → Prop) :
  never_fails a → cache_is cd bs → vals_ok bs → op_ok o →
  (∀ cd' a', never_fails a' → cache_is cd' (a_op o bs).2 → Q (a_op o bs).1 (Mem cd' a')) →
  wp (run_op o) Q (Mem cd a).
Proof.
  intros Ha Hcd Hv Ho HQ. destruct o as [k|k v|k|k old new|k n]; cbn [run_op]; wp_simpl.
  - eapply wp_cache_get; [done|apply denotes_self|]. cbn in HQ. wp_simpl.
    destruct (a_lookup k bs) as [v|]; [|by apply HQ].
    rewrite Nat2Z.id, firstn_all. by apply HQ.
  - eapply wp_cache_set; [done|apply denotes_self|done|apply Ho|apply denotes_self|].
    intros. wp_simpl. by apply HQ.
  - eapply wp_cache_del; [done|apply denotes_self|]. intros. wp_simpl. by apply HQ.
  - eapply wp_cache_cas; [done|apply denotes_self|done|apply denotes_self..|].
    intros. wp_simpl. by apply HQ.
  - eapply wp_cache_incr; [done|apply denotes_self|done| |].
    + destruct (a_lookup k bs) eqn:E; [by apply Hv in E|done].
    + intros. wp_simpl. by apply HQ.
Qed.

Lemma a_op_length o bs : length (a_op o bs).2 = length bs.
Proof. destruct o; try done; apply length_alter. Qed.

Lemma wp_run_ops os cd a bs (Q : list cres → mem cache → Prop) :
  never_fails a → cache_is cd bs → vals_ok bs → Forall op_ok os →
  (∀ cd' a', never_fails a' → cache_is cd' (a_ops os bs).2 → Q (a_ops os bs).1 (Mem cd' a')) →
  wp (run_ops os) Q (Mem cd a).
Proof.
  intros Ha Hcd Hv Hos. revert cd a bs Ha Hcd Hv Q.
  induction Hos as [|o os Ho Hos IH]; intros cd a bs Ha Hcd Hv Q HQ; cbn [run_ops].
  { wp_simpl. by apply HQ. }
  wp_simpl. eapply wp_run_op; [done..|]. intros cd1 a1 Ha1 Hcd1. cbn in HQ.
  pose proof (a_op_vals_ok o bs (ci_pos _ _ Hcd) Ho Hv) as Hv1.
  destruct (a_op o bs) as [r bs1]. cbn in *. wp_simpl.
  eapply (IH _ _ _ Ha1 Hcd1 Hv1). intros cd2 a2 Ha2 Hcd2. wp_simpl.
  destruct (a_ops os bs1) as [rs bs2]. by apply HQ.
Qed.

(** The number of objects of the abstract cache. *)
Definition a_size (bs : acache) : nat := sum_list (length <$> bs).

Lemma a_size_bound cd bs : cache_is cd bs → Z.of_nat (a_size bs) ≤ numobjs cd.
Proof.
  intros [Hh Hn _ _ Hch _].
  assert (a_size bs ≤ CHAINLEN * length bs)%nat as H.
  { unfold a_size. clear Hh Hn. induction Hch as [|c l cs bs Hc _ IH]; [done|].
    apply chain_is_length in Hc. unfold a_size in *. cbn [fmap list_fmap sum_list sum_list_with length id] in *. lia. }
  unfold CHAINLEN in *. pose proof (Z.mul_div_le (numobjs cd) (Z.of_nat 4) ltac:(lia)). lia.
Qed.

(** ** A sample cache for the witnesses: one full chain *)

Definition sample_key (i : Z) : bytes := [byte.of_Z i].
Definition sample_node (s i : nat) : node :=
  (s, (sample_key (Z.of_nat i), [byte.of_Z (Z.of_nat i); NUL])).
Definition sample_entry (i : nat) (p n : option nat) : centry :=
  CEntry (Block (sample_key (Z.of_nat i))) (Block [byte.of_Z (Z.of_nat i); NUL]) 1 2 p n.
Definition sample_chain : cchain :=
  CChain 4 [sample_entry 49 (Some 1%nat) None; sample_entry 50 (Some 2%nat) (Some 0%nat);
            sample_entry 51 (Some 3%nat) (Some 1%nat); sample_entry 52 None (Some 2%nat)]
    (Some 3%nat) (Some 0%nat).
Definition sample_cache : cache := Cache 4 0 1 [sample_chain].
Definition sample_nodes : list node :=
  [sample_node 3 52; sample_node 2 51; sample_node 1 50; sample_node 0 49].
Definition sample_acache : acache := [sample_nodes.*2].
Definition sample_alloc : alloc := Alloc (λ _, true) 0 NUL.

Lemma sample_ok : cache_is sample_cache sample_acache.
Proof.
  split; try done; try (cbn; lia).
  - constructor; [|constructor]. exists sample_nodes. split; [|done].
    split; try done; try (by apply (bool_decide_unpack _); vm_compute).
    + cbn. repeat (eexists; split_and!; [reflexivity|by repeat split|reflexivity..|]). done.
    + intros i e He Hi. exfalso. apply lookup_lt_Some in He. cbn in He, Hi. set_unfold. lia.
  - intros i l k Hi Hk. destruct i; [|done]. unfold slot. cbn [length sample_acache].
    by rewrite Z.mod_1_r.
Qed.

Lemma sample_never_fails : never_fails sample_alloc.
Proof. done. Qed.

(** ** Properties *)

(** C10: refinement of the whole cache. Whatever sequence of get, set, del, cas
    and incr calls is made on a new cache, every call is defined (no invalid
    access, no double free, every loop ends), each returns what the abstract
    cache of LRU buckets returns, the final table represents the abstract one,
    and it never holds more than [numobjs] objects. *)
Theorem cache_runs_refine (n fl : Z) (os : list cop) (a : alloc)
  (Ha : never_fails a) (Hn : Z.of_nat CHAINLEN ≤ n)
  (Hs : SIZEOF_CHAIN * (n / Z.of_nat CHAINLEN) < 2 ^ 64) (Hm : n < 2 ^ 64)
  (Hos : Forall op_ok os) :
  let bs := empty_cache (Z.to_nat (n / Z.of_nat CHAINLEN)) in
  ∃ cd a1 cd' a2,
    cache_create n fl (Mem tt a) = Some (Some cd, Mem tt a1) ∧
    run_ops os (Mem cd a1) = Some ((a_ops os bs).1, Mem cd' a2) ∧
    cache_is cd' (a_ops os bs).2 ∧
    Z.of_nat (a_size (a_ops os bs).2) ≤ numobjs cd'.
Proof.
  intros bs.
  assert (wp (cache_create n fl) (λ o s, ∃ cd a1 cd' a2, o = Some cd ∧ s = Mem tt a1 ∧
    run_ops os (Mem cd a1) = Some ((a_ops os bs).1, Mem cd' a2) ∧
    cache_is cd' (a_ops os bs).2) (Mem tt a)) as H.
  { apply wp_cache_create; [done..|]. intros cd a1 Ha1 _ Hcd.
    assert (wp (run_ops os) (λ r s, r = (a_ops os bs).1 ∧ cache_is (obj s) (a_ops os bs).2)
      (Mem cd a1)) as H.
    { eapply wp_run_ops; [done..| |done|by intros].
      intros k v Hk. unfold a_lookup, empty_cache in Hk.
      apply bind_Some in Hk as (l & Hl & Hk). by apply lookup_replicate in Hl as [-> _]. }
    apply wp_exec in H as (rs & [cd' a2] & H & -> & Hcd'). by exists cd, a1, cd', a2. }
  apply wp_exec in H as (o & s & H & cd & a1 & cd' & a2 & -> & -> & H2 & H3).
  exists cd, a1, cd', a2. split_and!; [done..|]. by apply a_size_bound.
Qed.

Lemma cache_runs_refine_witness :
  let os := [CSet (sample_key 49) [Byte.x31; NUL]; CIncr (sample_key 49) 41;
             CGet (sample_key 49)] in
  ∃ cd a1 cd' a2,
    cache_create 4 0 (Mem tt sample_alloc) = Some (Some cd, Mem tt a1) ∧
    run_ops os (Mem cd a1) = Some ((a_ops os (empty_cache 1)).1, Mem cd' a2) ∧
    cache_is cd' (a_ops os (empty_cache 1)).2 ∧
    Z.of_nat (a_size (a_ops os (empty_cache 1)).2) ≤ numobjs cd'.
Proof.
  apply (cache_runs_refine 4 0 [CSet (sample_key 49) [Byte.x31; NUL]; CIncr (sample_key 49) 41;
           CGet (sample_key 49)] sample_alloc); try done.
  by repeat constructor.
Defined.

(** The result of looking a key up. *)
Definition get_result (v : option bytes) : Z * cptr * Z :=
  match v with
  | Some b => (1, Block b, len b)
  | None => (0, Null, 0)
  end.

(** The chain of the key is full. *)
Definition full_for (k : bytes) (bs : acache) : Prop :=
  ∃ l, bs !! slot (length bs) k = Some l ∧ (CHAINLEN ≤ length l)%nat.

(** Read-after-write. After a successful set, a get of the same key gives
    the value set; a get of another key gives what it gave before, or, only
    when that key shares a full chain with the one set, nothing. *)
Theorem cache_set_get (cd : cache) (a : alloc) (bs : acache)
  (key : bytes) (ksize : Z) (k : bytes) (val : bytes) (vsize : Z) (v : bytes)
  (key' : bytes) (ksize' : Z) (k' : bytes)
  (Ha : never_fails a) (Hcd : cache_is cd bs)
  (Hk : denotes key ksize k) (Hkk : key_ok k) (Hv : denotes val vsize v)
  (Hk' : denotes key' ksize' k') :
  wp (rv ← cache_set key ksize val vsize; g ← cache_get key' ksize'; mret (rv, g))
     (λ '(rv, g) _, rv = 0 ∧
        (if decide (k' = k) then g = (1, Block v, len v) else
         g = get_result (a_lookup k' bs) ∨
         (g = (0, Null, 0) ∧ slot (length bs) k' = slot (length bs) k ∧ full_for k bs)))
     (Mem cd a).
Proof.
  pose proof (ci_pos _ _ Hcd) as Hpos.
  apply wp_bind. eapply wp_cache_set; [done..|]. intros cd' a' Ha' Hcd'.
  wp_simpl. eapply wp_cache_get; [done..|]. wp_simpl. split; [done|].
  destruct (decide (k' = k)) as [->|Hne]; [by rewrite a_lookup_set|].
  destruct (a_lookup_set_ne k k' v bs Hne) as [->|(-> & Hs & Hf)]; [by left|by right].
Qed.

Lemma cache_set_get_witness :
  wp (rv ← cache_set (sample_key 53) 1 [Byte.x41] 1;
      g ← cache_get (sample_key 49) 1; mret (rv, g))
     (λ '(rv, g) _, rv = 0 ∧
        (if decide (sample_key 49 = sample_key 53) then g = (1, Block [Byte.x41], len [Byte.x41]) else
         g = get_result (a_lookup (sample_key 49) sample_acache) ∨
         (g = (0, Null, 0) ∧ slot 1 (sample_key 49) = slot 1 (sample_key 53) ∧
          full_for (sample_key 53) sample_acache)))
     (Mem sample_cache sample_alloc).
Proof.
  apply (cache_set_get sample_cache sample_alloc sample_acache _ _ (sample_key 53) _ _ [Byte.x41]
    _ _ (sample_key 49) sample_never_fails sample_ok); try done; by split.
Defined.

(** C28: LRU eviction. Setting a new key whose chain is full replaces the least
    recently used entry of that chain, the last of the list, and no other: the
    other entries of the chain keep their values and their order. *)
Theorem cache_set_evicts_lru (cd : cache) (a : alloc) (bs : acache)
  (key : bytes) (ksize : Z) (k : bytes) (val : bytes) (vsize : Z) (v : bytes)
  (l : list kv) (x : kv)
  (Ha : never_fails a) (Hcd : cache_is cd bs)
  (Hk : denotes key ksize k) (Hkk : key_ok k) (Hv : denotes val vsize v)
  (Hl : bs !! slot (length bs) k = Some (l ++ [x])) (Hfull : length (l ++ [x]) = CHAINLEN)
  (Hnew : k ∉ (l ++ [x]).*1) :
  wp (cache_set key ksize val vsize)
     (λ rv s, rv = 0 ∧ cache_is (obj s) (<[slot (length bs) k := (k, v) :: l]> bs))
     (Mem cd a).
Proof.
  eapply wp_cache_set; [done..|]. intros cd' a' _ Hcd'. split; [done|]. cbn.
  replace (<[_ := _]> bs) with (a_set k v bs); [done|].
  unfold a_set, a_on. rewrite list_insert_alter. apply list_alter_ext; [|done].
  intros l0 Hl0. simplify_eq. unfold lru_set. rewrite without_notin by done.
  rewrite app_comm_cons. apply take_app_length'. rewrite length_app in Hfull. cbn in *. lia.
Qed.

Lemma cache_set_evicts_lru_witness :
  wp (cache_set (sample_key 53) 1 [Byte.x41] 1)
     (λ rv s, rv = 0 ∧ cache_is (obj s)
        (<[slot 1 (sample_key 53) := (sample_key 53, [Byte.x41]) :: take 3 sample_nodes.*2]>
           sample_acache))
     (Mem sample_cache sample_alloc).
Proof.
  apply (cache_set_evicts_lru sample_cache sample_alloc sample_acache _ _ (sample_key 53) _ _
    [Byte.x41] (take 3 sample_nodes.*2) (sample_node 0 49).2 sample_never_fails sample_ok);
    try done; try by split.
  vm_compute. intros H. repeat (apply elem_of_cons in H as [H|H]; [discriminate|]).
  by apply not_elem_of_nil in H.
Defined.

(** Deletion. [cache_del] returns 1 exactly when the key was present; a get
    of the key then finds nothing and every other key is as it was. *)
Theorem cache_del_spec (cd : cache) (a : alloc) (bs : acache)
  (key : bytes) (ksize : Z) (k : bytes) (key' : bytes) (ksize' : Z) (k' : bytes)
  (Hcd : cache_is cd bs) (Hk : denotes key ksize k) (Hk' : denotes key' ksize' k') :
  wp (rv ← cache_del key ksize; g ← cache_get key' ksize'; mret (rv, g))
     (λ '(rv, g) _,
        rv = (match a_lookup k bs with Some _ => 1 | None => 0 end) ∧
        g = get_result (if decide (k' = k) then None else a_lookup k' bs))
     (Mem cd a).
Proof.
  apply wp_bind. eapply wp_cache_del; [done..|]. intros cd' Hcd'.
  wp_simpl. eapply wp_cache_get; [done..|]. wp_simpl. split; [done|].
  rewrite a_lookup_del. by case_decide.
Qed.

Lemma cache_del_spec_witness :
  wp (rv ← cache_del (sample_key 50) 1; g ← cache_get (sample_key 50) 1; mret (rv, g))
     (λ '(rv, g) _, rv = 1 ∧ g = get_result None) (Mem sample_cache sample_alloc).
Proof.
  apply (cache_del_spec sample_cache sample_alloc sample_acache _ _ (sample_key 50)
    _ _ (sample_key 50) sample_ok); by split.
Defined.

(** Compare-and-swap. [cache_cas] returns -2 when the key is absent, -1
    when its value is not the expected one, and 0 otherwise; only in the last
    case does anything change, and then only the key's value. *)
Theorem cache_cas_spec (cd : cache) (a : alloc) (bs : acache)
  (key : bytes) (ksize : Z) (k : bytes) (oldval : bytes) (ovsize : Z) (old : bytes)
  (newval : bytes) (nvsize : Z) (new : bytes) (key' : bytes) (ksize' : Z) (k' : bytes)
  (Ha : never_fails a) (Hcd : cache_is cd bs) (Hk : denotes key ksize k)
  (Ho : denotes oldval ovsize old) (Hn : denotes newval nvsize new)
  (Hk' : denotes key' ksize' k') :
  wp (rv ← cache_cas key ksize oldval ovsize newval nvsize;
      g ← cache_get key' ksize'; mret (rv, g))
     (λ '(rv, g) _,
        rv = cas_result (a_lookup k bs) old ∧
        g = get_result (if decide (k' = k ∧ a_lookup k bs = Some old) then Some new
                        else a_lookup k' bs))
     (Mem cd a).
Proof.
  apply wp_bind. eapply wp_cache_cas; [done..|]. intros cd' a' _ Hcd'.
  wp_simpl. eapply wp_cache_get; [done..|]. wp_simpl. split; [done|].
  rewrite a_lookup_cas. by case_decide.
Qed.

Lemma cache_cas_spec_witness :
  wp (rv ← cache_cas (sample_key 50) 1 [Byte.x32; NUL] 2 [Byte.x33] 1;
      g ← cache_get (sample_key 50) 1; mret (rv, g))
     (λ '(rv, g) _,
        rv = cas_result (a_lookup (sample_key 50) sample_acache) [Byte.x32; NUL] ∧
        g = get_result (if decide (sample_key 50 = sample_key 50 ∧
                          a_lookup (sample_key 50) sample_acache = Some [Byte.x32; NUL])
                        then Some [Byte.x33] else a_lookup (sample_key 50) sample_acache))
     (Mem sample_cache sample_alloc).
Proof.
  apply (cache_cas_spec sample_cache sample_alloc sample_acache _ _ (sample_key 50) _ _
    [Byte.x32; NUL] _ _ [Byte.x33] _ _ (sample_key 50) sample_never_fails sample_ok);
    by split.
Defined.

(** Increment. [cache_incr] returns -1 for an absent key, -2 for a value
    that does not end in a NUL (and changes nothing), and otherwise 0 and the
    sum, modulo 2^64, of the number the value holds and the increment; the
    value stored then reads back, with [strtoll], as exactly that sum. *)
Theorem cache_incr_spec (cd : cache) (a : alloc) (bs : acache)
  (key : bytes) (ksize : Z) (k : bytes) (n : Z)
  (Ha : never_fails a) (Hcd : cache_is cd bs) (Hk : denotes key ksize k)
  (Hd : incr_defined (a_lookup k bs)) :
  wp (r ← cache_incr key ksize n; g ← cache_get key ksize; mret (r, g))
     (λ '(r, g) _,
        r = incr_result (a_lookup k bs) n ∧
        match a_lookup k bs with
        | Some v =>
            if ends_nul v then
              ∃ v', g = get_result (Some v') ∧
                strtoll (upto_nul v') = s64 (strtoll (upto_nul v) + n) ∧
                ends_nul v' = true ∧ length v' = Nat.max 24 (length v)
            else g = get_result (Some v)
        | None => g = get_result None
        end)
     (Mem cd a).
Proof.
  apply wp_bind. eapply wp_cache_incr; [done..|]. intros cd' a' _ Hcd'.
  wp_simpl. eapply wp_cache_get; [done..|]. wp_simpl. split; [done|].
  rewrite a_lookup_incr, decide_True by done.
  destruct (a_lookup k bs) as [v|]; cbn [fmap option_fmap option_map]; [|done].
  destruct (ends_nul v) eqn:E; [|done]. exists (incr_block v n). split_and!; [done|..].
  - apply strtoll_incr_block.
  - by apply last_incr_block.
  - apply length_incr_block.
Qed.

Lemma cache_incr_spec_witness :
  wp (r ← cache_incr (sample_key 50) 1 40; g ← cache_get (sample_key 50) 1; mret (r, g))
     (λ '(r, g) _,
        r = incr_result (Some [Byte.x32; NUL]) 40 ∧
        ∃ v', g = get_result (Some v') ∧
          strtoll (upto_nul v') = s64 (strtoll (upto_nul [Byte.x32; NUL]) + 40) ∧
          ends_nul v' = true ∧ length v' = 24%nat)
     (Mem sample_cache sample_alloc).
Proof.
  apply (cache_incr_spec sample_cache sample_alloc sample_acache _ _ (sample_key 50) 40
    sample_never_fails sample_ok); [by split|by split].
Defined.



(** Out of memory while overwriting. When the key is present with a value
    of another size and the allocation fails, [cache_set] returns -1 and the
    cache is exactly as it was. *)
Theorem cache_set_oom (cd : cache) (a : alloc) (bs : acache)
  (key : bytes) (ksize : Z) (k : bytes) (val : bytes) (vsize : Z) (v0 : bytes)
  (Ha : al_ok a (al_next a) = false) (Hcd : cache_is cd bs) (Hk : denotes key ksize k)
  (Hv0 : a_lookup k bs = Some v0) (Hvs : vsize ≠ len v0) :
  cache_set key ksize val vsize (Mem cd a) = Some (-1, Mem cd (al_tick a)).
Proof.
  apply wp_eq. eapply wp_at_key; [done..|]. intros c l Hc Hcl Hl E.
  rewrite Hv0 in E. symmetry in E. unfold chain_set. wp_simpl.
  eapply (find_spec _ _ _ _ _ k); [done..| |].
  { intros xs _ _ E' _. by rewrite E in E'. }
  intros i v xs ys Hr _ E' _. rewrite E in E'. simplify_eq. cbn iota.
  eapply wp_mono; [by eapply set_hit_oom|]. intros r s [-> ->]. cbn. split; [done|].
  unfold table_after. cbn. rewrite list_insert_id by done. by destruct cd.
Qed.

Lemma cache_set_oom_witness :
  cache_set (sample_key 50) 1 [Byte.x41] 1 (Mem sample_cache (Alloc (λ _, false) 0 NUL)) =
  Some (-1, Mem sample_cache (Alloc (λ _, false) 1 NUL)).
Proof.
  apply (cache_set_oom sample_cache (Alloc (λ _, false) 0 NUL) sample_acache _ _ (sample_key 50)
    _ _ [Byte.x32; NUL] eq_refl sample_ok); [by split|done|done].
Defined.

(** ** Defects of the error paths *)

Definition failing_alloc : alloc := Alloc (λ _, false) 0 NUL.

(** When the allocation of a new entry's key fails, [new_entry] passes an
    element of the table to [free]. *)
Theorem new_entry_oom_frees_interior :
  cache_set (sample_key 53) 1 [NUL] 1 (Mem (Cache 4 0 1 [chain_init]) failing_alloc) = None.
Proof. vm_compute. reflexivity. Qed.

(** When it fails in a full chain, the last entry is removed from the list but
    the length stays 4: the chain is no longer well formed. *)
Theorem full_chain_oom_breaks_len :
  ∃ cd a, cache_set [NUL; NUL] 2 [NUL] 1 (Mem sample_cache failing_alloc) = Some (-1, Mem cd a) ∧
    ∀ bs, ¬ cache_is cd bs.
Proof.
  eexists _, _. split; [vm_compute; reflexivity|]. intros bs [_ _ _ _ Hch _].
  apply Forall2_cons_inv_l in Hch as (l & bs' & (xs & Hc & _) & _ & _).
  destruct xs as [|x0 [|x1 [|x2 [|x3 [|x4 xs]]]]];
    pose proof (cr_len _ _ Hc) as Hlen; cbn in Hlen; try lia.
  pose proof (cr_first _ _ Hc) as Hf. pose proof (cr_seg _ _ Hc) as Hs.
  destruct x0 as [i0 ?], x1 as [i1 ?], x2 as [i2 ?], x3 as [i3 ?]. cbn in Hf, Hs.
  injection Hf as <-. destruct Hs as (e0 & E0 & _ & _ & N0 & e1 & E1 & _ & _ & N1 & e2 & E2 & _ & _ & N2 & _).
  cbn in E0. injection E0 as <-. cbn in N0. injection N0 as <-.
  cbn in E1. injection E1 as <-. cbn in N1. injection N1 as <-.
  cbn in E2. injection E2 as <-. cbn in N2. discriminate.
Qed.

(** Four failures in a row leave a chain whose [last] is NULL, which the code
    then dereferences. *)
Theorem full_chain_oom_crash :
  (cache_set [NUL; NUL] 2 [NUL] 1;; cache_set [NUL; NUL] 2 [NUL] 1;;
   cache_set [NUL; NUL] 2 [NUL] 1;; cache_set [NUL; NUL] 2 [NUL] 1)
    (Mem sample_cache failing_alloc) = None.
Proof. vm_compute. reflexivity. Qed.

(** A cache created for less than 4 objects has an empty table: every
    operation divides by zero. *)
Theorem small_cache_divides_by_zero (n fl : Z) (a : alloc) (key : bytes) (ksize : Z)
  (Ha : never_fails a) (Hn : 0 ≤ n < 4) :
  ∃ cd a', cache_create n fl (Mem tt a) = Some (Some cd, Mem tt a') ∧
    cache_get key ksize (Mem cd a') = None.
Proof.
  assert (wp (cache_create n fl) (λ r s, ∃ cd, r = Some cd ∧ hashlen cd = 0) (Mem tt a)) as H.
  { unfold cache_create. wp_simpl. apply wp_malloc; [done|]. cbn iota. wp_simpl.
    unfold CHAINLEN. rewrite Z.div_small by lia.
    apply wp_malloc; [done|]. cbn iota. cbn [deref]. wp_simpl. unfold init_table.
    rewrite in_block_true by (cbn; lia). wp_simpl. by eexists. }
  apply wp_exec in H as (r & [[] a'] & H & cd & -> & Hcd). exists cd, a'. split; [done|].
  unfold cache_get, bucket, hash, mbind, M_bind, get_obj, gets.
  destruct (in_block key ksize); cbn; [|done]. by rewrite Hcd.
Qed.

Lemma small_cache_witness :
  ∃ cd a', cache_create 3 0 (Mem tt sample_alloc) = Some (Some cd, Mem tt a') ∧
    cache_get [NUL] 1 (Mem cd a') = None.
Proof. apply (small_cache_divides_by_zero 3 0 sample_alloc [NUL] 1); [done|lia]. Defined.
