(* ===== verification/Net.v ===== *)
(** * Shared data of the server (nmdb/net-const.h, req.h, stats.h, stats.c, common.h)

    The protocol's constants, the request structure that handlers, queue and
    database thread pass around, the replies, the statistics and the settings. *)

From S2P Require Import Prelude Words.

(** ** net-const.h *)

Definition TIPC_SERVER_TYPE : Z := 26001.
Definition TIPC_SERVER_INST : Z := 10.
Definition TCP_SERVER_PORT : Z := 26010.
Definition UDP_SERVER_PORT : Z := 26010.
Definition SCTP_SERVER_PORT : Z := 26010.

Definition PROTO_VER : Z := 1.

Definition REQ_GET : Z := 0x101.
Definition REQ_SET : Z := 0x102.
Definition REQ_DEL : Z := 0x103.
Definition REQ_CAS : Z := 0x104.
Definition REQ_INCR : Z := 0x105.
Definition REQ_STATS : Z := 0x106.
Definition REQ_FIRSTKEY : Z := 0x107.
Definition REQ_NEXTKEY : Z := 0x108.

Definition FLAGS_CACHE_ONLY : Z := 1.
Definition FLAGS_SYNC : Z := 2.

Definition REP_ERR : Z := 0x800.
Definition REP_CACHE_HIT : Z := 0x801.
Definition REP_CACHE_MISS : Z := 0x802.
Definition REP_OK : Z := 0x803.
Definition REP_NOTIN : Z := 0x804.
Definition REP_NOMATCH : Z := 0x805.

Definition ERR_VER : Z := 0x101.
Definition ERR_SEND : Z := 0x102.
Definition ERR_BROKEN : Z := 0x103.
Definition ERR_UNKREQ : Z := 0x104.
Definition ERR_MEM : Z := 0x105.
Definition ERR_DB : Z := 0x106.
Definition ERR_RO : Z := 0x107.

(** ** req.h *)

Inductive req_type := REQTYPE_TIPC | REQTYPE_TCP | REQTYPE_UDP | REQTYPE_SCTP.

#[export] Instance req_type_eq_decision : EqDecision req_type.
Proof. solve_decision. Defined.

(** [struct req_info]. The pointers [r_clisa] and [r_payload] are the bytes of the
    region they point into, from there on. The three function pointers are set
    together by the transport that received the request, so [r_type] stands for
    them. [r_id] is in network byte order once [parse_message] has set it. *)
Record req_info := Req {
  r_fd : Z;
  r_type : req_type;
  r_clisa : bytes;
  r_clilen : Z;
  r_id : Z;
  r_cmd : Z;
  r_flags : Z;
  r_payload : bytes;
  r_psize : Z;
}.

(** Assignments of [parse_message] and of the queue. *)
Definition set_id (i : Z) (r : req_info) : req_info :=
  Req (r_fd r) (r_type r) (r_clisa r) (r_clilen r) i (r_cmd r) (r_flags r) (r_payload r) (r_psize r).
Definition set_msg (i c f : Z) (p : bytes) (n : Z) (r : req_info) : req_info :=
  Req (r_fd r) (r_type r) (r_clisa r) (r_clilen r) i c f p n.
Definition set_clisa (a : bytes) (r : req_info) : req_info :=
  Req (r_fd r) (r_type r) a (r_clilen r) (r_id r) (r_cmd r) (r_flags r) (r_payload r) (r_psize r).
Definition clear_payload (r : req_info) : req_info :=
  Req (r_fd r) (r_type r) (r_clisa r) (r_clilen r) (r_id r) (r_cmd r) (r_flags r) [] 0.

(** A call of one of the request's reply functions. *)
Inductive reply :=
  | reply_mini (r : req_info) (code : Z)
  | reply_err (r : req_info) (code : Z)
  | reply_long (r : req_info) (code : Z) (val : bytes).

(** ** stats.h *)

Inductive stat :=
  | cache_get_ | cache_set_ | cache_del_ | cache_cas_ | cache_incr_
  | db_get_ | db_set_ | db_del_ | db_cas_ | db_incr_
  | cache_hits | cache_misses
  | db_hits | db_misses
  | msg_tipc | msg_tcp | msg_udp | msg_sctp
  | net_version_mismatch | net_broken_req | net_unk_req
  | db_firstkey_ | db_nextkey_.

#[export] Instance stat_eq_decision : EqDecision stat.
Proof. solve_decision. Defined.

(** [struct stats]: one [unsigned long] for each field. *)
Definition stats : Type := stat → Z.

Definition STATS_REPLY_SIZE : nat := 23.

(** [stats.field++] *)
Definition bump (f : stat) (s : stats) : stats :=
  λ g, if decide (g = f) then w64 (s g + 1) else s g.

(** [stats_init] has no assignment to [db_hits] and [db_misses]. *)
Definition stats_init (s : stats) : stats :=
  λ f, match f with db_hits | db_misses => s f | _ => 0 end.

Lemma bump_eq f s : bump f s f = w64 (s f + 1).
Proof. unfold bump. by rewrite decide_True. Qed.

Lemma bump_ne f g s : g ≠ f → bump f s g = s g.
Proof. intros. unfold bump. by rewrite decide_False. Qed.

(** ** common.h *)

(** [struct settings]: a [char *] that is NULL is [None]. *)
Record settings := Settings {
  tipc_lower : Z;
  tipc_upper : Z;
  tcp_addr : option bytes;
  tcp_port : Z;
  udp_addr : option bytes;
  udp_port : Z;
  sctp_addr : option bytes;
  sctp_port : Z;
  st_numobjs : Z;
  foreground : Z;
  passive : Z;
  read_only : Z;
  dbname : option bytes;
  logfname : option bytes;
  backend : Z;
  pidfile : option bytes;
}.

Definition set_passive (p : Z) (s : settings) : settings :=
  Settings (tipc_lower s) (tipc_upper s) (tcp_addr s) (tcp_port s) (udp_addr s) (udp_port s)
    (sctp_addr s) (sctp_port s) (st_numobjs s) (foreground s) p (read_only s) (dbname s)
    (logfname s) (backend s) (pidfile s).
Definition set_read_only (p : Z) (s : settings) : settings :=
  Settings (tipc_lower s) (tipc_upper s) (tcp_addr s) (tcp_port s) (udp_addr s) (udp_port s)
    (sctp_addr s) (sctp_port s) (st_numobjs s) (foreground s) (passive s) p (dbname s)
    (logfname s) (backend s) (pidfile s).

(** A C truth value. *)
Definition truth (z : Z) : bool := negb (z =? 0).
