(* ===== verification/Queue.v ===== *)
(** * The operation queue (nmdb/queue.h, nmdb/queue.c)

    The queue is a singly linked list of heap-allocated entries: [bottom] is
    the next one to take, [top] the last one put, and each entry points to the
    one put after it ([prev]). Entries live in a store indexed by their
    address; an entry that was released is no longer in the store, so a later
    use of it is undefined. The lock and the condition only order the calls of
    the two threads (Server.v). *)

From S2P Require Import Prelude Words Net.

(** The copy of the request an entry owns. [queue_entry_create] does not
    initialise the pointer. *)
Inductive req_ptr :=
  | ReqUninit
  | ReqNull
  | ReqCopy (r : req_info) (sa : cptr).

(** [struct queue_entry] *)
Record qentry := QEntry {
  q_operation : Z;
  q_req : req_ptr;
  q_key : cptr;
  q_val : cptr;
  q_newval : cptr;
  q_ksize : Z;
  q_vsize : Z;
  q_nvsize : Z;
  q_prev : option nat;
}.

(** [struct queue], with the entries in memory. *)
Record queue := Queue {
  q_size : Z;
  q_top : option nat;
  q_bottom : option nat;
  q_store : gmap nat qentry;
}.

Definition SIZEOF_QENTRY : Z := 72.
Definition SIZEOF_REQ : Z := 80.

Definition set_store (m : gmap nat qentry) (q : queue) : queue :=
  Queue (q_size q) (q_top q) (q_bottom q) m.
Definition set_top (p : option nat) (q : queue) : queue :=
  Queue (q_size q) p (q_bottom q) (q_store q).
Definition set_bottom (p : option nat) (q : queue) : queue :=
  Queue (q_size q) (q_top q) p (q_store q).
Definition set_size (n : Z) (q : queue) : queue :=
  Queue n (q_top q) (q_bottom q) (q_store q).

Definition qentry_at (p : option nat) : MT queue qentry :=
  q ← get_obj; i ← lift_opt p; lift_opt (q_store q !! i).
Definition upd_qentry (p : option nat) (f : qentry → qentry) : MT queue () :=
  e ← qentry_at p;
  i ← lift_opt p;
  mod_obj (λ q, set_store (<[i := f e]> (q_store q)) q).

Definition with_qprev (p : option nat) (e : qentry) : qentry :=
  QEntry (q_operation e) (q_req e) (q_key e) (q_val e) (q_newval e) (q_ksize e) (q_vsize e)
    (q_nvsize e) p.
Definition with_req (r : req_ptr) (e : qentry) : qentry :=
  QEntry (q_operation e) r (q_key e) (q_val e) (q_newval e) (q_ksize e) (q_vsize e)
    (q_nvsize e) (q_prev e).
Definition with_op (op : Z) (k : cptr) (ks : Z) (v : cptr) (vs : Z) (nv : cptr) (nvs : Z)
    (e : qentry) : qentry :=
  QEntry op (q_req e) k v nv ks vs nvs (q_prev e).

(** [queue_create]: [None] when there is no memory. *)
Definition queue_create : M alloc (option queue) :=
  λ a, Some (if al_ok a (al_next a) then Some (Queue 0 None None ∅) else None, al_tick a).

Definition new_qentry : qentry := QEntry 0 ReqUninit Null Null Null 0 0 0 None.

Definition queue_entry_create : MT queue (option nat) :=
  p ← malloc SIZEOF_QENTRY;
  match p with
  | Null => mret None
  | _ =>
      q ← get_obj;
      let i := fresh (dom (q_store q)) in
      mod_obj (set_store (<[i := new_qentry]> (q_store q)));;
      mret (Some i)
  end.

(** [if (p) free(p)] *)
Definition free_nonnull {S} (p : cptr) : M S () :=
  match p with Null => mret tt | _ => free p;; mret tt end.

Definition queue_entry_free (p : option nat) : MT queue () :=
  e ← qentry_at p;
  match q_req e with
  | ReqUninit => ub
  | ReqNull => mret tt
  | ReqCopy _ sa => free sa;; mret tt
  end;;
  free_nonnull (q_key e);;
  free_nonnull (q_val e);;
  free_nonnull (q_newval e);;
  i ← lift_opt p;
  mod_obj (λ q, set_store (delete i (q_store q)) q).

Definition queue_put (e : option nat) : MT queue () :=
  q ← get_obj;
  match q_top q with
  | None => mod_obj (set_bottom e);; mod_obj (set_top e)
  | Some _ => upd_qentry (q_top q) (with_qprev e);; mod_obj (set_top e)
  end;;
  mod_obj (λ q, set_size (w64 (q_size q + 1)) q).

Definition queue_get : MT queue (option nat) :=
  q ← get_obj;
  match q_bottom q with
  | None => mret None
  | Some _ =>
      b ← qentry_at (q_bottom q);
      let t := q_prev b in
      mod_obj (set_bottom t);;
      match t with
      | None => mod_obj (set_top None)
      | Some _ => mret tt
      end;;
      mod_obj (λ q, set_size (w64 (q_size q - 1)) q);;
      mret (q_bottom q)
  end.

Definition queue_isempty : MT queue bool := q ← get_obj; mret (q_size q =? 0).

(** The loop of [queue_free]. *)
Fixpoint queue_free_loop (fuel : nat) : MT queue () :=
  match fuel with
  | O => ub
  | S fuel =>
      e ← queue_get;
      match e with
      | None => mret tt
      | Some _ => queue_entry_free e;; queue_free_loop fuel
      end
  end.

Definition queue_free : MT queue () :=
  q ← get_obj; queue_free_loop (S (size (q_store q))).

(** ** The queue as a list *)

(** What an entry carries: the operation, the request as the reply functions
    see it, and the blocks it owns. *)
Record aentry := AEntry {
  a_operation : Z;
  a_req : req_info;
  a_key : option bytes;
  a_val : option bytes;
  a_newval : option bytes;
}.

(** A block, or NULL with size 0. *)
Definition opt_block (o : option bytes) : cptr :=
  match o with Some b => Block b | None => Null end.
Definition opt_size (o : option bytes) : Z :=
  match o with Some b => Z.of_nat (length b) | None => 0 end.

Record holds (e : qentry) (x : aentry) : Prop := Holds {
  h_op : q_operation e = a_operation x;
  h_req : ∃ r sa, q_req e = ReqCopy r (Block sa) ∧ set_clisa sa r = a_req x;
  h_key : q_key e = opt_block (a_key x) ∧ q_ksize e = opt_size (a_key x);
  h_val : q_val e = opt_block (a_val x) ∧ q_vsize e = opt_size (a_val x);
  h_newval : q_newval e = opt_block (a_newval x) ∧ q_nvsize e = opt_size (a_newval x);
}.

Abbreviation qnode := (nat * aentry)%type.

Definition qfirst (xs : list qnode) : option nat :=
  match xs with [] => None | x :: _ => Some x.1 end.

Definition qlast (xs : list qnode) : option nat := fst <$> last xs.

(** The entries of [xs] are in the store, each linked to the next. *)
Fixpoint qseg (m : gmap nat qentry) (xs : list qnode) : Prop :=
  match xs with
  | [] => True
  | (i, x) :: xs => ∃ e, m !! i = Some e ∧ holds e x ∧ q_prev e = qfirst xs ∧ qseg m xs
  end.

(** The queue holds [xs]; the store holds them and the detached entries [ys],
    and nothing else. *)
Record queue_rep (q : queue) (xs ys : list qnode) : Prop := QueueRep {
  qr_size : q_size q = Z.of_nat (length xs);
  qr_bottom : q_bottom q = qfirst xs;
  qr_top : q_top q = qlast xs;
  qr_nodup : NoDup (xs ++ ys).*1;
  qr_dom : ∀ i, is_Some (q_store q !! i) ↔ i ∈ (xs ++ ys).*1;
  qr_seg : qseg (q_store q) xs;
  qr_detached : ∀ i x, (i, x) ∈ ys → ∃ e, q_store q !! i = Some e ∧ holds e x;
}.

Definition queue_is (q : queue) (l : list aentry) : Prop := ∃ xs, queue_rep q xs [] ∧ xs.*2 = l.

Lemma qseg_frame m xs i e : i ∉ xs.*1 → qseg m xs → qseg (<[i := e]> m) xs.
Proof.
  induction xs as [|[j x] xs IH]; [done|]. cbn. intros [Hij Hi]%not_elem_of_cons (e' & He & H).
  exists e'. rewrite lookup_insert_ne by done. naive_solver.
Qed.

Lemma qseg_delete m xs i : i ∉ xs.*1 → qseg m xs → qseg (delete i m) xs.
Proof.
  induction xs as [|[j x] xs IH]; [done|]. cbn. intros [Hij Hi]%not_elem_of_cons (e' & He & H).
  exists e'. rewrite lookup_delete_ne by done. naive_solver.
Qed.

Lemma holds_prev e x p : holds e x → holds (with_qprev p e) x.
Proof. by intros [? ? ? ? ?]. Qed.

(** Linking one more entry after the last. *)
Lemma qseg_snoc m xs i x j y e :
  NoDup (xs ++ [(i, x)]).*1 → j ∉ (xs ++ [(i, x)]).*1 →
  qseg m (xs ++ [(i, x)]) → m !! i = Some e →
  (∃ e', m !! j = Some e' ∧ holds e' y ∧ q_prev e' = None) →
  qseg (<[i := with_qprev (Some j) e]> m) (xs ++ [(i, x); (j, y)]).
Proof.
  intros Hnd Hj Hs He (e' & He' & Hy & Hp). revert Hs Hnd Hj.
  induction xs as [|[a z] xs IH]; cbn.
  - intros (e0 & He0 & Hl & _) _ Hj. simplify_eq.
    exists (with_qprev (Some j) e). rewrite lookup_insert_eq. split_and!; [done|by apply holds_prev|done|].
    exists e'. rewrite lookup_insert_ne by set_solver. done.
  - intros (e0 & He0 & Hl & Hn & Hs) Hnd Hj. apply NoDup_cons in Hnd as [Ha Hnd].
    apply not_elem_of_cons in Hj as [Hja Hj].
    exists e0. rewrite fmap_app in Ha. rewrite lookup_insert_ne by set_solver.
    split_and!; [done|done| |by apply IH]. rewrite Hn. by destruct xs.
Qed.

Section queue_wp.
Context (a : alloc) (q : queue).

Lemma wp_qentry_at i e (Q : qentry → mem queue → Prop) :
  q_store q !! i = Some e → Q e (Mem q a) → wp (qentry_at (Some i)) Q (Mem q a).
Proof. intros He HQ. unfold qentry_at. wp_simpl. by rewrite He. Qed.

Lemma wp_upd_qentry i e f (Q : () → mem queue → Prop) :
  q_store q !! i = Some e →
  Q tt (Mem (set_store (<[i := f e]> (q_store q)) q) a) →
  wp (upd_qentry (Some i) f) Q (Mem q a).
Proof.
  intros He HQ. unfold upd_qentry. wp_simpl. apply (wp_qentry_at _ e); [done|]. by wp_simpl.
Qed.
End queue_wp.

Lemma wp_free_nonnull {S} o (Q : () → S → Prop) s :
  Q tt s → wp (free_nonnull (opt_block o)) Q s.
Proof. by destruct o. Qed.

(** [queue_put] appends the detached entry. *)
Lemma wp_queue_put a q xs i x (Q : () → mem queue → Prop) :
  queue_rep q xs [(i, x)] → Z.of_nat (length xs) + 1 < 2 ^ 64 →
  (∀ e, q_store q !! i = Some e → q_prev e = None) →
  (∀ q', queue_rep q' (xs ++ [(i, x)]) [] → Q tt (Mem q' a)) →
  wp (queue_put (Some i)) Q (Mem q a).
Proof.
  intros [Hs Hb Ht Hnd Hdom Hseg Hdet] Hlt Hpv HQ.
  destruct (Hdet i x) as (e & He & Hx); [by left|]. pose proof (Hpv e He) as Hp.
  assert (i ∉ xs.*1) as Hi.
  { rewrite fmap_app in Hnd. apply NoDup_app in Hnd as (_ & H & _). intros Hin.
    apply (H i Hin). by left. }
  unfold queue_put. wp_simpl. rewrite Ht.
  destruct xs as [|[j y] xs _] using rev_ind; cbn [qlast last fmap option_fmap option_map].
  - wp_simpl. apply HQ. cbn in *. split; cbn; rewrite ?app_nil_r in *; try done.
    + rewrite Hs. by rewrite w64_small.
    + by exists e.
    + intros ?? H. by apply not_elem_of_nil in H.
  - unfold qlast. rewrite last_snoc. cbn [fmap option_fmap option_map fst].
    assert (∃ ej, q_store q !! j = Some ej) as [ej Hej].
    { apply Hdom. rewrite !fmap_app. set_solver. }
    wp_simpl. apply (wp_upd_qentry _ _ _ ej); [done|]. wp_simpl. apply HQ.
    rewrite fmap_app in Hnd. apply NoDup_app in Hnd as (Hnd & _ & _).
    split; cbn.
    + rewrite Hs, !length_app in *. cbn in *. rewrite w64_small; lia.
    + rewrite Hb. by destruct xs.
    + unfold qlast. by rewrite last_snoc.
    + rewrite app_nil_r, fmap_app. apply NoDup_app. split_and!; [done| |apply NoDup_singleton].
      cbn. intros j' Hj' ->%list_elem_of_singleton. done.
    + intros k. rewrite app_nil_r. rewrite <-Hdom. rewrite lookup_insert_is_Some'.
      split; [|by right]. intros [<-|]; [by rewrite Hej|done].
    + rewrite <-app_assoc. eapply qseg_snoc; [done..|]. by exists e.
    + intros ?? H. by apply not_elem_of_nil in H.
Qed.

(** [queue_get] takes the oldest entry. *)
Lemma wp_queue_get a q xs (Q : option nat → mem queue → Prop) :
  queue_rep q xs [] → Z.of_nat (length xs) < 2 ^ 64 →
  (xs = [] → Q None (Mem q a)) →
  (∀ i x ys q', xs = (i, x) :: ys → queue_rep q' ys [(i, x)] → Q (Some i) (Mem q' a)) →
  wp queue_get Q (Mem q a).
Proof.
  intros [Hs Hb Ht Hnd Hdom Hseg Hdet] Hlt H1 H2. unfold queue_get. wp_simpl. rewrite Hb.
  destruct xs as [|[i x] xs]; cbn [qfirst]; [wp_simpl; by apply H1|].
  destruct Hseg as (e & He & Hx & Hn & Hseg).
  wp_simpl. apply (wp_qentry_at _ _ _ e); [done|]. wp_simpl.
  rewrite Hn.
  assert (∀ (Q' : () → mem queue → Prop) q1, q_top q1 = q_top q →
    Q' tt (Mem (set_top (qlast xs) q1) a) →
    wp (match qfirst xs with None => mod_obj (set_top None) | Some _ => mret tt end)
       Q' (Mem q1 a)) as Hm.
  { intros Q' q1 E HQ'. destruct xs as [|[j y] xs]; cbn [qfirst] in *; wp_simpl; [done|].
    replace (qlast ((j, y) :: xs)) with (q_top q1) in HQ'; [by destruct q1|]. by rewrite E, Ht. }
  wp_simpl. apply Hm; [done|]. wp_simpl.
  apply (H2 i x xs); [done|]. cbn in Hs, Hlt.
  split; cbn; try done.
  - rewrite Hs, w64_small; cbn; lia.
  - rewrite app_nil_r in Hnd. rewrite fmap_app. cbn. by rewrite <-Permutation_cons_append.
  - intros k. rewrite Hdom. rewrite app_nil_r, fmap_app. cbn. set_solver.
  - intros j y [= -> ->]%list_elem_of_singleton. by exists e.
Qed.

(** [queue_entry_free] of an entry that was taken releases it, with all it
    owns, once. *)
Lemma wp_queue_entry_free a q xs i x (Q : () → mem queue → Prop) :
  queue_rep q xs [(i, x)] →
  (∀ q', queue_rep q' xs [] → Q tt (Mem q' a)) →
  wp (queue_entry_free (Some i)) Q (Mem q a).
Proof.
  intros [Hs Hb Ht Hnd Hdom Hseg Hdet] HQ.
  destruct (Hdet i x) as (e & He & [Hop (r & sa & Hr & Hra) [Hk _] [Hv _] [Hn _]]); [by left|].
  assert (i ∉ xs.*1) as Hi.
  { rewrite fmap_app in Hnd. apply NoDup_app in Hnd as (_ & H & _). intros Hin.
    apply (H i Hin). by left. }
  unfold queue_entry_free. wp_simpl. apply (wp_qentry_at _ _ _ e); [done|].
  rewrite Hr. cbn [free]. wp_simpl. rewrite Hk, Hv, Hn. do 3 (apply wp_free_nonnull; wp_simpl).
  apply HQ. split; cbn; try done.
  - rewrite app_nil_r. rewrite fmap_app in Hnd. by apply NoDup_app in Hnd as (Hnd & _ & _).
  - intros k. rewrite app_nil_r, lookup_delete_is_Some, Hdom, fmap_app. cbn.
    split; [|intros; split; [by intros ->|set_solver]].
    intros [Hne H]. apply elem_of_app in H as [H|H]; [done|].
    apply list_elem_of_singleton in H. by subst.
  - by apply qseg_delete.
  - intros ?? H. by apply not_elem_of_nil in H.
Qed.

Lemma queue_size xs ys q : queue_rep q xs ys → size (q_store q) = length (xs ++ ys).
Proof.
  intros [_ _ _ Hnd Hdom _ _]. rewrite <-size_dom. rewrite <-(length_fmap fst).
  rewrite <-(size_list_to_set (C := gset nat)) by done. f_equal. apply set_eq. intros i.
  rewrite elem_of_dom, Hdom. by rewrite elem_of_list_to_set.
Qed.

Lemma wp_queue_isempty a q l (Q : bool → mem queue → Prop) :
  queue_is q l → Q (bool_decide (l = [])) (Mem q a) → wp queue_isempty Q (Mem q a).
Proof.
  intros (xs & Hq & <-) HQ. unfold queue_isempty. wp_simpl. rewrite (qr_size _ _ _ Hq).
  replace (_ =? 0) with (bool_decide (xs.*2 = [])); [done|].
  destruct xs; [done|]. rewrite bool_decide_false by done. symmetry. apply Z.eqb_neq. cbn. lia.
Qed.

Lemma wp_queue_free_loop fuel a q xs (Q : () → mem queue → Prop) :
  queue_rep q xs [] → Z.of_nat (length xs) < 2 ^ 64 → (length xs < fuel)%nat →
  (∀ q', queue_rep q' [] [] → Q tt (Mem q' a)) →
  wp (queue_free_loop fuel) Q (Mem q a).
Proof.
  revert q xs. induction fuel as [|fuel IH]; intros q xs Hq Hlt Hf HQ; [lia|].
  cbn [queue_free_loop]. wp_simpl. eapply wp_queue_get; [done..| |].
  - intros ->. cbn iota. wp_simpl. by apply HQ.
  - intros i x ys q1 -> Hq1. cbn iota. wp_simpl. eapply wp_queue_entry_free; [done|].
    intros q2 Hq2. cbn in *. by apply (IH _ ys); [|lia..|].
Qed.

Lemma queue_is_length q l : queue_is q l → q_size q = Z.of_nat (length l).
Proof. intros (xs & Hq & <-). by rewrite length_fmap, (qr_size _ _ _ Hq). Qed.

Lemma rep_nil_store q : queue_rep q [] [] → q_store q = ∅.
Proof.
  intros Hr. apply map_empty. intros i. apply eq_None_not_Some. rewrite (qr_dom _ _ _ Hr).
  apply not_elem_of_nil.
Qed.

Lemma wp_queue_free q l a (Q : () → mem queue → Prop) :
  queue_is q l → Z.of_nat (length l) < 2 ^ 64 →
  (∀ q', queue_rep q' [] [] → Q tt (Mem q' a)) → wp queue_free Q (Mem q a).
Proof.
  intros (xs & Hq & <-) Hl HQ. rewrite length_fmap in Hl. unfold queue_free. wp_simpl.
  eapply wp_queue_free_loop; [done..| |done].
  rewrite (queue_size _ _ _ Hq), app_nil_r. lia.
Qed.

(** ** Properties *)

(** [queue_free] on a queue of any length ends, and releases every entry
    with the blocks it owns exactly once: no entry is left in memory. *)
Theorem queue_free_releases_all (q : queue) (l : list aentry) (a : alloc)
  (Hq : queue_is q l) (Hl : Z.of_nat (length l) < 2 ^ 64) :
  ∃ q', queue_free (Mem q a) = Some (tt, Mem q' a) ∧ q_store q' = ∅ ∧ queue_is q' [].
Proof.
  assert (wp queue_free (λ _ s, heap s = a ∧ queue_rep (obj s) [] []) (Mem q a)) as H
    by by eapply wp_queue_free.
  apply wp_exec in H as ([] & [q' a'] & H & Ha & Hr). cbn in *. subst a'.
  exists q'. split_and!; [done|by apply rep_nil_store|by exists []].
Qed.

(** A queue of one deletion, for the witnesses. *)
Definition sample_req : req_info := Req 3 REQTYPE_UDP [Byte.x01] 1 7 REQ_DEL 2 [] 0.
Definition sample_qentry : qentry :=
  QEntry REQ_DEL (ReqCopy sample_req (Block [Byte.x01])) (Block [Byte.x61]) Null Null 1 0 0 None.
Definition sample_queue : queue := Queue 1 (Some 0%nat) (Some 0%nat) {[0%nat := sample_qentry]}.
Definition sample_aentry : aentry := AEntry REQ_DEL sample_req (Some [Byte.x61]) None None.

(** A new queue. *)
Lemma empty_queue_is : queue_is (Queue 0 None None ∅) [].
Proof.
  exists []. split; [|done]. split; try done; try constructor.
  - intros [? Hi]. cbn in Hi. by rewrite lookup_empty in Hi.
  - intros Hi. by apply not_elem_of_nil in Hi.
  - intros ?? Hi. by apply not_elem_of_nil in Hi.
Qed.

Lemma sample_queue_is : queue_is sample_queue [sample_aentry].
Proof.
  exists [(0%nat, sample_aentry)]. split; [|done]. split; try done.
  - apply NoDup_singleton.
  - intros i. cbn. rewrite list_elem_of_singleton. destruct (decide (i = 0%nat)) as [->|Hi].
    + by rewrite lookup_singleton_eq.
    + rewrite lookup_singleton_ne by done. split; [intros [? ?]; done|done].
  - exists sample_qentry. split_and!; [done| |done|done]. split; try done.
    by exists sample_req, [Byte.x01].
  - intros ?? H. by apply not_elem_of_nil in H.
Qed.

Lemma queue_free_releases_all_witness :
  ∃ q', queue_free (Mem sample_queue (Alloc (λ _, true) 0 Byte.x00)) =
    Some (tt, Mem q' (Alloc (λ _, true) 0 Byte.x00)) ∧ q_store q' = ∅ ∧ queue_is q' [].
Proof.
  apply (queue_free_releases_all sample_queue [sample_aentry] _ sample_queue_is). reflexivity.
Defined.
