(* ===== verification/Backend.v ===== *)
(** * Database backends (nmdb/be.h, nmdb/be.c, nmdb/be-null.c)

    [struct db_conn] is a table of operations that each backend fills in: the
    class [DbOps]. What the database thread relies on is the class [DbLaws],
    the documented behaviour of a key-value store. The libraries behind the
    real backends are not part of the program; the null backend is, and a
    finite map stands for a backend that satisfies the laws. *)

From S2P Require Import Prelude Words.
From stdpp Require Import strings.

#[local] Open Scope Z_scope.

#[export] Instance byte_countable : Countable byte.
Proof.
  refine (inj_countable Stdlib.Strings.Byte.to_N Stdlib.Strings.Byte.of_N _).
  intros x. apply Stdlib.Strings.Byte.of_to_N.
Defined.

(** ** be.h: the operations of a connection

    A key or value is passed as its bytes; the buffer a result is written to
    is passed as its capacity. [db_set] and [db_del] give the return value
    (0 or not) and the database after the call. [firstkey] and [nextkey] can
    be NULL. *)
Class DbOps (D : Type) := {
  db_set : bytes → bytes → D → bool * D;
  db_get : bytes → Z → D → option bytes;
  db_del : bytes → D → bool * D;
  db_firstkey : option (Z → D → option bytes);
  db_nextkey : option (bytes → Z → D → option bytes);
}.

(** The contract: the database is a finite map. A set can fail and then
    changes nothing; a get finds what is stored, when the buffer can hold it;
    a del of a key that is there succeeds (without the key, some backends
    report an error and some do not); the first and the next key are keys
    of the map. No backend has to compare a key with the buffer: that the keys
    fit is an invariant of the server. *)
Class DbLaws (D : Type) `{DbOps D} := {
  db_view : D → gmap bytes bytes;
  db_get_some k cap d v :
    db_view d !! k = Some v → Z.of_nat (length v) ≤ cap → db_get k cap d = Some v;
  db_get_none k cap d : db_view d !! k = None → db_get k cap d = None;
  db_get_cap k cap d v : 0 ≤ cap → db_get k cap d = Some v → Z.of_nat (length v) ≤ cap;
  db_set_true k v d d' : db_set k v d = (true, d') → db_view d' = <[k := v]> (db_view d);
  db_set_false k v d d' : db_set k v d = (false, d') → db_view d' = db_view d;
  db_del_found k d : is_Some (db_view d !! k) → (db_del k d).1 = true;
  db_del_view k d : db_view (db_del k d).2 = delete k (db_view d);
  db_firstkey_in f cap d k :
    db_firstkey = Some f → f cap d = Some k → is_Some (db_view d !! k);
  db_nextkey_in f k0 cap d k :
    db_nextkey = Some f → f k0 cap d = Some k → is_Some (db_view d !! k);
}.

(** ** be-null.c *)

Definition null_set (k v : bytes) (d : ()) : bool * () := (true, d).
Definition null_get (k : bytes) (cap : Z) (d : ()) : option bytes := None.
Definition null_del (k : bytes) (d : ()) : bool * () := (false, d).

#[export] Instance null_open : DbOps () := {|
  db_set := null_set;
  db_get := null_get;
  db_del := null_del;
  db_firstkey := None;
  db_nextkey := None;
|}.

(** ** A store that satisfies the contract *)

Abbreviation store := (gmap bytes bytes).

Definition store_first (cap : Z) (l : list (bytes * bytes)) : option bytes :=
  match l with
  | x :: _ => if decide (Z.of_nat (length x.1) ≤ cap) then Some x.1 else None
  | [] => None
  end.

Fixpoint store_after (k : bytes) (l : list (bytes * bytes)) : list (bytes * bytes) :=
  match l with
  | [] => []
  | x :: l => if decide (x.1 = k) then l else store_after k l
  end.

#[export] Instance store_ops : DbOps store := {|
  db_set k v d := (true, <[k := v]> d);
  db_get k cap d :=
    v ← d !! k; if decide (Z.of_nat (length v) ≤ cap) then Some v else None;
  db_del k d := (bool_decide (is_Some (d !! k)), delete k d);
  db_firstkey := Some (λ cap d, store_first cap (map_to_list d));
  db_nextkey := Some (λ k cap d, store_first cap (store_after k (map_to_list d)));
|}.

Lemma store_first_in cap l k : store_first cap l = Some k → ∃ v, (k, v) ∈ l.
Proof.
  destruct l as [|[k' v'] l]; cbn; [done|]. case_decide; [|done]. intros [= <-].
  exists v'. set_solver.
Qed.

Lemma store_after_subseteq k l : store_after k l ⊆ l.
Proof. induction l as [|x l IH]; cbn; [done|]. case_decide; set_solver. Qed.

#[export] Program Instance store_laws : DbLaws store := {| db_view d := d |}.
Next Obligation. intros * Hv Hc. cbn. rewrite Hv. cbn. by rewrite decide_True. Qed.
Next Obligation. intros * Hv. cbn. by rewrite Hv. Qed.
Next Obligation.
  intros * _ Hv. cbn in Hv. apply bind_Some in Hv as (v' & _ & Hv). case_decide; naive_solver.
Qed.
Next Obligation. cbn. naive_solver. Qed.
Next Obligation. cbn. naive_solver. Qed.
Next Obligation. intros * Hk. by apply bool_decide_eq_true. Qed.
Next Obligation. done. Qed.
Next Obligation.
  intros * [= <-] [v Hv%elem_of_map_to_list]%store_first_in. by exists v.
Qed.
Next Obligation.
  intros * [= <-] [v Hv]%store_first_in. apply store_after_subseteq, elem_of_map_to_list in Hv.
  by exists v.
Qed.

(** ** be.c *)

Inductive backend_type :=
  | BE_UNKNOWN | BE_UNSUPPORTED
  | BE_QDBM | BE_BDB | BE_TC | BE_TDB | BE_LEVELDB | BE_NULL.

#[export] Instance backend_type_eq_decision : EqDecision backend_type.
Proof. solve_decision. Defined.

(** The [BE_ENABLE_*] constants of the build. *)
Record build := Build {
  enable_qdbm : bool; enable_bdb : bool; enable_tc : bool;
  enable_tdb : bool; enable_leveldb : bool; enable_null : bool;
}.

(** The openers of the backends, for any type of connection. *)
Record openers (C : Type) := Openers {
  qdbm_open : string → Z → option C;
  bdb_open : string → Z → option C;
  tc_open : string → Z → option C;
  xtdb_open : string → Z → option C;
  xleveldb_open : string → Z → option C;
  null_open' : string → Z → option C;
}.
Arguments qdbm_open {C}.
Arguments bdb_open {C}.
Arguments tc_open {C}.
Arguments xtdb_open {C}.
Arguments xleveldb_open {C}.
Arguments null_open' {C}.

Definition db_open {C} (o : openers C) (t : backend_type) (name : string) (fl : Z) : option C :=
  match t with
  | BE_QDBM => qdbm_open o name fl
  | BE_BDB => bdb_open o name fl
  | BE_TC => tc_open o name fl
  | BE_TDB => xtdb_open o name fl
  | BE_LEVELDB => xleveldb_open o name fl
  | BE_NULL => null_open' o name fl
  | _ => None
  end.

Definition be_type_from_str (b : build) (name : string) : backend_type :=
  if String.eqb name "qdbm" then if enable_qdbm b then BE_QDBM else BE_UNSUPPORTED
  else if String.eqb name "bdb" then if enable_bdb b then BE_BDB else BE_UNSUPPORTED
  else if String.eqb name "tc" then if enable_tc b then BE_TC else BE_UNSUPPORTED
  else if String.eqb name "tdb" then if enable_tdb b then BE_TDB else BE_UNSUPPORTED
  else if String.eqb name "leveldb" then if enable_leveldb b then BE_LEVELDB else BE_UNSUPPORTED
  else if String.eqb name "null" then if enable_null b then BE_NULL else BE_UNSUPPORTED
  else BE_UNKNOWN.

Definition be_str_from_type (t : backend_type) : string :=
  match t with
  | BE_QDBM => "qdbm"
  | BE_BDB => "bdb"
  | BE_TC => "tc"
  | BE_TDB => "tdb"
  | BE_LEVELDB => "leveldb"
  | BE_NULL => "null"
  | _ => "unknown"
  end.

(** The backend was compiled in. *)
Definition enabled (b : build) (t : backend_type) : bool :=
  match t with
  | BE_QDBM => enable_qdbm b
  | BE_BDB => enable_bdb b
  | BE_TC => enable_tc b
  | BE_TDB => enable_tdb b
  | BE_LEVELDB => enable_leveldb b
  | BE_NULL => enable_null b
  | _ => false
  end.

(** One comparison of a name. *)
Ltac be_case :=
  match goal with
  | |- context [String.eqb ?a ?b] =>
      let E := fresh "E" in
      destruct (String.eqb a b) eqn:E; [apply String.eqb_eq in E; subst|]
  end.

(** ** Properties *)

(** The names of the backends. A name is recognised as a backend exactly
    when it is that backend's name and the backend was compiled in; the name
    of a backend that was left out is told apart from an unknown name. *)
Theorem be_names_roundtrip (b : build) (name : string) (t : backend_type) :
  (enabled b t = true → be_type_from_str b (be_str_from_type t) = t) ∧
  (be_type_from_str b name = t → enabled b t = true → be_str_from_type t = name) ∧
  (be_type_from_str b name = BE_UNSUPPORTED ↔
     ∃ t', t' ≠ BE_UNKNOWN ∧ t' ≠ BE_UNSUPPORTED ∧ be_str_from_type t' = name ∧
       enabled b t' = false).
Proof.
  split_and!.
  - destruct b as [q d c td l n], t; cbn; intros H; try done; by rewrite H.
  - unfold be_type_from_str. repeat (be_case; [|]);
      repeat case_match; intros <-; cbn; try done.
  - split.
    + unfold be_type_from_str.
      repeat (be_case; [case_match; [done|intros _];
        first [by exists BE_QDBM|by exists BE_BDB|by exists BE_TC|by exists BE_TDB
              |by exists BE_LEVELDB|by exists BE_NULL]|]). by intros.
    + intros (t' & H1 & H2 & <- & H). destruct t'; try done; cbn in *; by rewrite H.
Qed.
