(* ===== verification/BeLibs.v ===== *)
(** * The real backends (nmdb/be-bdb.c, be-leveldb.c, be-qdbm.c, be-tc.c, be-tdb.c)

    Each file wraps a database library. The libraries are not part of the
    program: for each of them a class holds the calls the wrapper makes (the
    documentation's description of them is in BeLibsSpec.v), and the wrapper is
    a computation that also accounts for the objects the library hands out
    (handles, options, iterators, values), which the wrapper must give back.
    Each wrapper's table of operations is an instance of [DbOps].

    As in [DbOps], a key or value that a call writes to the caller's buffer is
    its result; the caller (DbLoop.v) checks the copy against the buffer. *)

From S2P Require Import Prelude Words Backend.

(** ** Objects of a library *)

Inductive resource :=
  | RHandle | RConn | RWriteOptions | RReadOptions | ROptions | RIterator | RValue | RError.

#[export] Instance resource_eq_decision : EqDecision resource.
Proof. solve_decision. Defined.

(** The database, and the objects that were not given back. *)
Record lib (D : Type) := Lib { l_db : D; l_live : list resource }.
Arguments Lib {D}.
Arguments l_db {D}.
Arguments l_live {D}.

Definition SIZEOF_CONN : Z := 56.

Section lib.
Context {D : Type}.

Definition acquire (r : resource) : MT (lib D) () := mod_obj (λ s, Lib (l_db s) (r :: l_live s)).

(** Giving back what is not there is undefined. *)
Fixpoint give_back (r : resource) (l : list resource) : option (list resource) :=
  match l with
  | [] => None
  | x :: l => if decide (x = r) then Some l else cons x <$> give_back r l
  end.
Definition release (r : resource) : MT (lib D) () :=
  s ← get_obj; l ← lift_opt (give_back r (l_live s)); mod_obj (λ s, Lib (l_db s) l).

Definition query {A} (f : D → A) : MT (lib D) A := s ← get_obj; mret (f (l_db s)).
Definition update {A} (f : D → A * D) : MT (lib D) A :=
  s ← get_obj; let '(r, d) := f (l_db s) in mod_obj (λ s, Lib d (l_live s));; mret r.
Definition opened (d : D) : MT (lib D) () := mod_obj (λ s, Lib d (l_live s)).

(** The end of an opener: the connection's memory, or else [undo]. *)
Definition new_conn (undo : MT (lib D) ()) : MT (lib D) bool :=
  p ← malloc SIZEOF_CONN;
  match p with
  | Null => undo;; mret false
  | _ => acquire RConn;; mret true
  end.

(** A call of an operation of the table, on its own. *)
Definition run_lib {A} (m : MT (lib D) A) (dflt : A) (d : D) : A * D :=
  match m (Mem (Lib d []) (Alloc (λ _, true) 0 Byte.x00)) with
  | Some (r, t) => (r, l_db (obj t))
  | None => (dflt, d)
  end.
End lib.

(** ** be-bdb.c *)

(** The methods of a [DB]: a return value (0: success) and what they change.
    [dbp_get] gets the capacity of the memory the caller supplied. *)
Class Bdb (D : Type) := {
  dbp_create : Z;
  dbp_open : bytes → option D;
  dbp_close : D → Z;
  dbp_put : bytes → bytes → D → Z * D;
  dbp_get : bytes → Z → D → Z * bytes;
  dbp_del : bytes → D → Z * D;
}.

Section bdb.
Context {D : Type} `{Bdb D}.

Definition bdb_open (name : bytes) : MT (lib (option D)) bool :=
  if negb (dbp_create =? 0) then mret false else
  acquire RHandle;;
  match dbp_open name with
  | None => release RHandle;; mret false
  | Some d => opened (Some d);; new_conn (release RHandle)
  end.

Definition bdb_close : MT (lib D) bool :=
  rv ← query dbp_close;
  release RHandle;;
  if negb (rv =? 0) then mret false else release RConn;; mret true.

Definition bdb_set (k v : bytes) : MT (lib D) bool :=
  rv ← update (dbp_put k v); mret (rv =? 0).

Definition bdb_get (k : bytes) (cap : Z) : MT (lib D) (option bytes) :=
  r ← query (dbp_get k cap);
  mret (if negb (r.1 =? 0) then None else Some r.2).

Definition bdb_del (k : bytes) : MT (lib D) bool :=
  rv ← update (dbp_del k); mret (rv =? 0).

Definition bdb_ops : DbOps D := {|
  db_set k v := run_lib (bdb_set k v) false;
  db_get k cap d := (run_lib (bdb_get k cap) None d).1;
  db_del k := run_lib (bdb_del k) false;
  db_firstkey := None;
  db_nextkey := None;
|}.
End bdb.

(** ** be-qdbm.c *)

(** [dpgetwb(k, start, max)] gives the size of what it wrote, or -1. *)
Class Qdbm (D : Type) := {
  dpopen : bytes → option D;
  dpclose : D → bool;
  dpput : bytes → bytes → D → bool * D;
  dpgetwb : bytes → Z → Z → D → Z * bytes;
  dpout : bytes → D → bool * D;
}.

Section qdbm.
Context {D : Type} `{Qdbm D}.

Definition qdbm_open (name : bytes) : MT (lib (option D)) bool :=
  match dpopen name with
  | None => mret false
  | Some d => acquire RHandle;; opened (Some d);; new_conn (release RHandle)
  end.

Definition qdbm_close : MT (lib D) bool :=
  rv ← query dpclose; release RHandle;; release RConn;; mret rv.

Definition qdbm_set (k v : bytes) : MT (lib D) bool := update (dpput k v).

Definition qdbm_get (k : bytes) (cap : Z) : MT (lib D) (option bytes) :=
  r ← query (dpgetwb k 0 cap);
  mret (if 0 <=? r.1 then Some (take (Z.to_nat r.1) r.2) else None).

Definition qdbm_del (k : bytes) : MT (lib D) bool := update (dpout k).

Definition qdbm_ops : DbOps D := {|
  db_set k v := run_lib (qdbm_set k v) false;
  db_get k cap d := (run_lib (qdbm_get k cap) None d).1;
  db_del k := run_lib (qdbm_del k) false;
  db_firstkey := None;
  db_nextkey := None;
|}.
End qdbm.

(** ** be-tc.c *)

(** [tchdbnew] makes the object that [tchdbopen] opens. *)
Class Tc (D : Type) := {
  tchdbopen : bytes → option D;
  tchdbclose : D → bool;
  tchdbput : bytes → bytes → D → bool * D;
  tchdbget3 : bytes → Z → D → Z * bytes;
  tchdbout : bytes → D → bool * D;
}.

Section tc.
Context {D : Type} `{Tc D}.

(** A database that cannot be opened leaves the object. *)
Definition tc_open (name : bytes) : MT (lib (option D)) bool :=
  acquire RHandle;;
  match tchdbopen name with
  | None => mret false
  | Some d => opened (Some d);; new_conn (release RHandle)
  end.

Definition tc_close : MT (lib D) bool :=
  r ← query tchdbclose; release RHandle;; release RConn;; mret r.

Definition tc_set (k v : bytes) : MT (lib D) bool := update (tchdbput k v).

Definition tc_get (k : bytes) (cap : Z) : MT (lib D) (option bytes) :=
  r ← query (tchdbget3 k cap);
  mret (if 0 <=? r.1 then Some (take (Z.to_nat r.1) r.2) else None).

Definition tc_del (k : bytes) : MT (lib D) bool := update (tchdbout k).

Definition tc_ops : DbOps D := {|
  db_set k v := run_lib (tc_set k v) false;
  db_get k cap d := (run_lib (tc_get k cap) None d).1;
  db_del k := run_lib (tc_del k) false;
  db_firstkey := None;
  db_nextkey := None;
|}.
End tc.

(** ** be-tdb.c *)

(** A [TDB_DATA] is its bytes, [None] when [dptr] is NULL. The data that
    [tdb_fetch], [tdb_firstkey] and [tdb_nextkey] return is the caller's. *)
Class Tdb (D : Type) := {
  tdb_open : bytes → option D;
  tdb_close : D → Z;
  tdb_store : bytes → bytes → D → Z * D;
  tdb_fetch : bytes → D → option bytes;
  tdb_delete : bytes → D → Z * D;
  tdb_firstkey : D → option bytes;
  tdb_nextkey : bytes → D → option bytes;
}.

Section tdb.
Context {D : Type} `{Tdb D}.

Definition xtdb_open (name : bytes) : MT (lib (option D)) bool :=
  match tdb_open name with
  | None => mret false
  | Some d => acquire RHandle;; opened (Some d);; new_conn (release RHandle)
  end.

Definition xtdb_close : MT (lib D) bool :=
  rv ← query tdb_close; release RHandle;; release RConn;; mret (rv =? 0).

Definition xtdb_set (k v : bytes) : MT (lib D) bool :=
  rv ← update (tdb_store k v); mret (rv =? 0).

(** A value that does not fit is not released. *)
Definition xtdb_get (k : bytes) (cap : Z) : MT (lib D) (option bytes) :=
  v ← query (tdb_fetch k);
  match v with
  | None => mret None
  | Some v =>
      acquire RValue;;
      if cap <? Z.of_nat (length v) then mret None else
      release RValue;; mret (Some v)
  end.

Definition xtdb_del (k : bytes) : MT (lib D) bool :=
  rv ← update (tdb_delete k); mret (rv =? 0).

(** The size of a key is not compared with the buffer. *)
Definition take_key (k : option bytes) : MT (lib D) (option bytes) :=
  match k with
  | None => mret None
  | Some k => acquire RValue;; release RValue;; mret (Some k)
  end.

Definition xtdb_firstkey (cap : Z) : MT (lib D) (option bytes) :=
  k ← query tdb_firstkey; take_key k.
Definition xtdb_nextkey (key : bytes) (cap : Z) : MT (lib D) (option bytes) :=
  k ← query (tdb_nextkey key); take_key k.

Definition tdb_ops : DbOps D := {|
  db_set k v := run_lib (xtdb_set k v) false;
  db_get k cap d := (run_lib (xtdb_get k cap) None d).1;
  db_del k := run_lib (xtdb_del k) false;
  db_firstkey := Some (λ cap d, (run_lib (xtdb_firstkey cap) None d).1);
  db_nextkey := Some (λ key cap d, (run_lib (xtdb_nextkey key cap) None d).1);
|}.
End tdb.

(** ** be-leveldb.c *)

(** The error pointer that a call gets points to a block of the caller; on an
    error the library releases it and puts a message in its place. Only
    whether it did ([true]) is kept here: the message is taken to have another
    address than the block, as the code does. *)
Class LevelDb (D : Type) := {
  leveldb_iter : Type;
  leveldb_options_create : bool;
  leveldb_open : bytes → option D;
  leveldb_put : bytes → bytes → D → bool * D;
  leveldb_get : bytes → D → option bytes * bool;
  leveldb_delete : bytes → D → bool * D;
  leveldb_create_iterator : D → leveldb_iter;
  leveldb_iter_seek_to_first : leveldb_iter → leveldb_iter;
  leveldb_iter_seek : bytes → leveldb_iter → leveldb_iter;
  leveldb_iter_next : leveldb_iter → leveldb_iter;
  leveldb_iter_valid : leveldb_iter → bool;
  leveldb_iter_key : leveldb_iter → option bytes;
}.

Section leveldb.
Context {D : Type} `{LevelDb D}.

Definition xleveldb_open (name : bytes) : MT (lib (option D)) bool :=
  if negb leveldb_options_create then mret false else
  acquire ROptions;;
  let level_db := leveldb_open name in
  match level_db with Some _ => acquire RHandle | None => mret tt end;;
  release ROptions;;
  match level_db with
  | None => mret false
  | Some d => opened (Some d);; new_conn (release RHandle)
  end.

Definition xleveldb_close : MT (lib D) bool := release RHandle;; release RConn;; mret true.

Definition xleveldb_set (k v : bytes) : MT (lib D) bool :=
  acquire RWriteOptions;;
  acquire RError;;
  failed ← update (leveldb_put k v);
  release RError;;
  release RWriteOptions;;
  mret (negb failed).

Definition xleveldb_get (k : bytes) (cap : Z) : MT (lib D) (option bytes) :=
  acquire RReadOptions;;
  acquire RError;;
  r ← query (leveldb_get k);
  match r.1 with Some _ => acquire RValue | None => mret tt end;;
  release RError;;
  release RReadOptions;;
  match r.1 with
  | None => mret None
  | Some v =>
      release RValue;;
      mret (if r.2 || (cap <? Z.of_nat (length v)) then None else Some v)
  end.

Definition xleveldb_del (k : bytes) : MT (lib D) bool :=
  acquire RWriteOptions;;
  acquire RError;;
  failed ← update (leveldb_delete k);
  release RError;;
  release RWriteOptions;;
  mret (negb failed).

(** The key at an iterator, if there is one and it fits. *)
Definition key_at (it : leveldb_iter) (cap : Z) : option bytes :=
  if negb (leveldb_iter_valid it) then None else
  match leveldb_iter_key it with
  | None => None
  | Some k => if cap <? Z.of_nat (length k) then None else Some k
  end.

Definition xleveldb_firstkey (cap : Z) : MT (lib D) (option bytes) :=
  acquire RReadOptions;;
  it ← query leveldb_create_iterator;
  acquire RIterator;;
  let it := leveldb_iter_seek_to_first it in
  let rv := key_at it cap in
  release RReadOptions;;
  release RIterator;;
  mret rv.

Definition xleveldb_nextkey (key : bytes) (cap : Z) : MT (lib D) (option bytes) :=
  acquire RReadOptions;;
  it ← query leveldb_create_iterator;
  acquire RIterator;;
  let it := leveldb_iter_seek key it in
  let rv := if negb (leveldb_iter_valid it) then None
            else key_at (leveldb_iter_next it) cap in
  release RIterator;;
  release RReadOptions;;
  mret rv.

Definition leveldb_ops : DbOps D := {|
  db_set k v := run_lib (xleveldb_set k v) false;
  db_get k cap d := (run_lib (xleveldb_get k cap) None d).1;
  db_del k := run_lib (xleveldb_del k) false;
  db_firstkey := Some (λ cap d, (run_lib (xleveldb_firstkey cap) None d).1);
  db_nextkey := Some (λ key cap d, (run_lib (xleveldb_nextkey key cap) None d).1);
|}.
End leveldb.
