(* ===== verification/BeLibsSpec.v ===== *)
(** * What the real backends do

    For each library a class states what its documentation promises; the
    wrapper of BeLibs.v is proved to keep the contract of Backend.v, so that
    the theorems about the server hold with it. LevelDB's wrapper also offers
    the keys in order: walking through them with [firstkey] and [nextkey]
    gives each key of the database once. No wrapper leaves an object of the
    library behind, but for the cases that are stated. *)

From S2P Require Import Prelude Words Backend BeLibs.
From stdpp Require Import sorting.

#[local] Open Scope Z_scope.

(** ** The order of keys: bytewise, as LevelDB's default comparator *)

Fixpoint bytes_ltb (x y : bytes) : bool :=
  match x, y with
  | _, [] => false
  | [], _ :: _ => true
  | a :: x, b :: y =>
      (byte.unsigned a <? byte.unsigned b) || (bool_decide (a = b) && bytes_ltb x y)
  end.
Definition bytes_lt (x y : bytes) : Prop := bytes_ltb x y = true.

#[export] Instance bytes_lt_dec : RelDecision bytes_lt.
Proof. intros x y. unfold bytes_lt. apply _. Defined.

Lemma bytes_lt_cons a x b y :
  bytes_lt (a :: x) (b :: y) ↔
  byte.unsigned a < byte.unsigned b ∨ (a = b ∧ bytes_lt x y).
Proof.
  unfold bytes_lt. cbn. rewrite orb_true_iff, andb_true_iff, Z.ltb_lt, bool_decide_eq_true. done.
Qed.

#[export] Instance bytes_lt_irrefl : Irreflexive bytes_lt.
Proof.
  intros x. induction x as [|a x IH]; [done|]. intros [H|[_ H]]%bytes_lt_cons; [lia|by apply IH].
Qed.

#[export] Instance bytes_lt_trans : Transitive bytes_lt.
Proof.
  intros x y z. revert x z. induction y as [|b y IH]; intros x z Hxy Hyz; [by destruct x|].
  destruct x as [|a x], z as [|c z]; try done.
  apply bytes_lt_cons in Hxy, Hyz. apply bytes_lt_cons.
  destruct Hxy as [Hxy|[-> Hxy]], Hyz as [Hyz|[-> Hyz]]; [left; lia|by left|by left|].
  right. split; [done|]. by eapply IH.
Qed.

Lemma bytes_lt_total x y : bytes_lt x y ∨ x = y ∨ bytes_lt y x.
Proof.
  revert y. induction x as [|a x IH]; intros [|b y]; [by right; left|by left|by right; right|].
  rewrite !bytes_lt_cons.
  destruct (Z.lt_total (byte.unsigned a) (byte.unsigned b)) as [H|[H|H]]; [by left; left| |by right; right; left].
  apply byte.unsigned_inj in H as ->. destruct (IH y) as [H|[->|H]]; [by left; right|by right; left|].
  by right; right; right.
Qed.

(** ** What the libraries document *)

Class BdbLaws (D : Type) `{Bdb D} := {
  bdb_view : D → store;
  dbp_put_ok k v d d' : dbp_put k v d = (0, d') → bdb_view d' = <[k := v]> (bdb_view d);
  dbp_put_err k v d rv d' : dbp_put k v d = (rv, d') → rv ≠ 0 → bdb_view d' = bdb_view d;
  dbp_get_found k cap d v :
    bdb_view d !! k = Some v → Z.of_nat (length v) ≤ cap → dbp_get k cap d = (0, v);
  dbp_get_small k cap d v :
    bdb_view d !! k = Some v → cap < Z.of_nat (length v) → (dbp_get k cap d).1 ≠ 0;
  dbp_get_absent k cap d : bdb_view d !! k = None → (dbp_get k cap d).1 ≠ 0;
  dbp_del_result k d : (dbp_del k d).1 = 0 ↔ is_Some (bdb_view d !! k);
  dbp_del_view k d : bdb_view (dbp_del k d).2 = delete k (bdb_view d);
}.

(** [dpgetwb] reads at most [max] bytes of the value from [start]. *)
Class QdbmLaws (D : Type) `{Qdbm D} := {
  qdbm_view : D → store;
  dpput_true k v d d' : dpput k v d = (true, d') → qdbm_view d' = <[k := v]> (qdbm_view d);
  dpput_false k v d d' : dpput k v d = (false, d') → qdbm_view d' = qdbm_view d;
  dpgetwb_found k max d v :
    qdbm_view d !! k = Some v → 0 ≤ max →
    dpgetwb k 0 max d = (Z.min (Z.of_nat (length v)) max, take (Z.to_nat max) v);
  dpgetwb_absent k max d : qdbm_view d !! k = None → (dpgetwb k 0 max d).1 = -1;
  dpout_result k d : (dpout k d).1 = bool_decide (is_Some (qdbm_view d !! k));
  dpout_view k d : qdbm_view (dpout k d).2 = delete k (qdbm_view d);
}.

Class TcLaws (D : Type) `{Tc D} := {
  tc_view : D → store;
  tchdbput_true k v d d' : tchdbput k v d = (true, d') → tc_view d' = <[k := v]> (tc_view d);
  tchdbput_false k v d d' : tchdbput k v d = (false, d') → tc_view d' = tc_view d;
  tchdbget3_found k max d v :
    tc_view d !! k = Some v → 0 ≤ max →
    tchdbget3 k max d = (Z.min (Z.of_nat (length v)) max, take (Z.to_nat max) v);
  tchdbget3_absent k max d : tc_view d !! k = None → (tchdbget3 k max d).1 = -1;
  tchdbout_result k d : (tchdbout k d).1 = bool_decide (is_Some (tc_view d !! k));
  tchdbout_view k d : tc_view (tchdbout k d).2 = delete k (tc_view d);
}.

Class TdbLaws (D : Type) `{Tdb D} := {
  tdb_view : D → store;
  tdb_store_ok k v d d' : tdb_store k v d = (0, d') → tdb_view d' = <[k := v]> (tdb_view d);
  tdb_store_err k v d rv d' : tdb_store k v d = (rv, d') → rv ≠ 0 → tdb_view d' = tdb_view d;
  tdb_fetch_view k d : tdb_fetch k d = tdb_view d !! k;
  tdb_delete_result k d : (tdb_delete k d).1 = 0 ↔ is_Some (tdb_view d !! k);
  tdb_delete_view k d : tdb_view (tdb_delete k d).2 = delete k (tdb_view d);
  tdb_firstkey_in d k : tdb_firstkey d = Some k → is_Some (tdb_view d !! k);
  tdb_nextkey_in k0 d k : tdb_nextkey k0 d = Some k → is_Some (tdb_view d !! k);
}.

(** A delete of a key that is not there is no error. An iterator gives the
    keys from its position on, in order; seeking goes to the first key that is
    not smaller. *)
Class LevelDbLaws (D : Type) `{LevelDb D} := {
  leveldb_view : D → store;
  leveldb_put_ok k v d d' : leveldb_put k v d = (false, d') → leveldb_view d' = <[k := v]> (leveldb_view d);
  leveldb_put_err k v d d' : leveldb_put k v d = (true, d') → leveldb_view d' = leveldb_view d;
  leveldb_get_view k d : leveldb_get k d = (leveldb_view d !! k, false);
  leveldb_delete_result k d : (leveldb_delete k d).1 = false;
  leveldb_delete_view k d : leveldb_view (leveldb_delete k d).2 = delete k (leveldb_view d);
  leveldb_keys : D → list bytes;
  iter_rest : leveldb_iter → list bytes;
  leveldb_keys_sorted d : StronglySorted bytes_lt (leveldb_keys d);
  leveldb_keys_dom d k : k ∈ leveldb_keys d ↔ is_Some (leveldb_view d !! k);
  iter_first d : iter_rest (leveldb_iter_seek_to_first (leveldb_create_iterator d)) = leveldb_keys d;
  iter_seek k d : iter_rest (leveldb_iter_seek k (leveldb_create_iterator d)) =
    filter (λ x, ¬ bytes_lt x k) (leveldb_keys d);
  iter_next i : iter_rest (leveldb_iter_next i) = tail (iter_rest i);
  iter_valid i : leveldb_iter_valid i = bool_decide (iter_rest i ≠ []);
  iter_key i k l : iter_rest i = k :: l → leveldb_iter_key i = Some k;
}.

(** ** The wrappers keep the contract *)

(** The table of operations [ops] is a store whose contents are [view]. *)
Definition implements {D} (ops : DbOps D) (view : D → store) : Prop :=
  ∃ L : @DbLaws D ops, ∀ d, @db_view D ops L d = view d.

(** Runs a wrapper. *)
Ltac run_simpl :=
  unfold run_lib, update, query, acquire, release, mbind, M_bind, mret, M_ret, get_obj, mod_obj,
    gets, modify, lift_opt;
  cbn -[Z.eqb Z.leb Z.ltb].

Section bdb.
Context {D : Type} `{BdbLaws D}.

Lemma bdb_set_run k v d :
  run_lib (bdb_set k v) false d = ((dbp_put k v d).1 =? 0, (dbp_put k v d).2).
Proof. unfold bdb_set. run_simpl. by destruct (dbp_put k v d). Qed.

Lemma bdb_get_run k cap d :
  (run_lib (bdb_get k cap) None d).1 =
  if (dbp_get k cap d).1 =? 0 then Some (dbp_get k cap d).2 else None.
Proof. unfold bdb_get. run_simpl. by destruct (_ =? 0). Qed.

Lemma bdb_del_run k d :
  run_lib (bdb_del k) false d = ((dbp_del k d).1 =? 0, (dbp_del k d).2).
Proof. unfold bdb_del. run_simpl. by destruct (dbp_del k d). Qed.

Lemma bdb_del_exact k d :
  ((dbp_del k d).1 =? 0) = bool_decide (is_Some (bdb_view d !! k)).
Proof.
  case_bool_decide as Hk; rewrite <-dbp_del_result in Hk;
    [by apply Z.eqb_eq|by apply Z.eqb_neq].
Qed.

Program Definition bdb_laws : @DbLaws D bdb_ops := {| db_view := bdb_view |}.
Next Obligation.
  intros k cap d v Hv Hc. cbn. rewrite bdb_get_run. by rewrite (dbp_get_found _ _ _ _ Hv Hc).
Qed.
Next Obligation.
  intros k cap d Hv. cbn. rewrite bdb_get_run.
  by rewrite (proj2 (Z.eqb_neq _ _) (dbp_get_absent _ cap _ Hv)).
Qed.
Next Obligation.
  intros k cap d v Hcap. cbn. rewrite bdb_get_run. destruct (_ =? 0) eqn:E; [|done].
  intros [= <-]. apply Z.eqb_eq in E. destruct (bdb_view d !! k) as [v|] eqn:Hv.
  - destruct (decide (Z.of_nat (length v) ≤ cap)) as [Hl|Hl].
    + by rewrite (dbp_get_found _ _ _ _ Hv Hl).
    + destruct (dbp_get_small k cap d v Hv); [lia|done].
  - by destruct (dbp_get_absent k cap d Hv).
Qed.
Next Obligation.
  intros k v d d'. cbn. rewrite bdb_set_run. destruct (dbp_put k v d) as [rv d2] eqn:E.
  cbn. intros [= Hr ->]. apply Z.eqb_eq in Hr as ->. by apply dbp_put_ok.
Qed.
Next Obligation.
  intros k v d d'. cbn. rewrite bdb_set_run. destruct (dbp_put k v d) as [rv d2] eqn:E.
  cbn. intros [= Hr ->]. apply Z.eqb_neq in Hr. by eapply dbp_put_err.
Qed.
Next Obligation.
  intros k d Hk. cbn. rewrite bdb_del_run. cbn. rewrite bdb_del_exact. by apply bool_decide_eq_true.
Qed.
Next Obligation. intros k d. cbn. rewrite bdb_del_run. apply dbp_del_view. Qed.
Next Obligation. done. Qed.
Next Obligation. done. Qed.

Lemma bdb_implements :
  implements (bdb_ops (D := D)) bdb_view ∧
  ∀ k d, (@db_del D bdb_ops k d).1 = bool_decide (is_Some (bdb_view d !! k)).
Proof.
  split; [by exists bdb_laws|]. intros k d. cbn. rewrite bdb_del_run. apply bdb_del_exact.
Qed.
End bdb.

(** What QDBM's and Tokyo Cabinet's [get] give: at most [cap] bytes. *)
Definition clipped (r : Z * bytes) : option bytes :=
  if 0 <=? r.1 then Some (take (Z.to_nat r.1) r.2) else None.

Section clipped.
Context (g : Z → Z * bytes) (o : option bytes).
Context (Hfound : ∀ max v, o = Some v → 0 ≤ max →
  g max = (Z.min (Z.of_nat (length v)) max, take (Z.to_nat max) v)).
Context (Habsent : ∀ max, o = None → (g max).1 = -1).

Lemma clipped_found cap v :
  o = Some v → Z.of_nat (length v) ≤ cap → clipped (g cap) = Some v.
Proof.
  intros Ho Hc. unfold clipped. rewrite (Hfound cap v) by (done || lia). cbn.
  rewrite (proj2 (Z.leb_le _ _)) by lia. by rewrite !take_ge by (rewrite ?length_take; lia).
Qed.

Lemma clipped_absent cap : o = None → clipped (g cap) = None.
Proof. intros Ho. unfold clipped. by rewrite Habsent. Qed.

Lemma clipped_cap cap v : 0 ≤ cap → clipped (g cap) = Some v → Z.of_nat (length v) ≤ cap.
Proof.
  intros Hc. assert (o = None ∨ ∃ w, o = Some w) as [Ho|[w Ho]] by (destruct o; eauto);
    [by rewrite clipped_absent|].
  unfold clipped. rewrite (Hfound cap w) by done. cbn. case_match; [|done].
  intros [= <-]. rewrite !length_take. lia.
Qed.
End clipped.

Section qdbm.
Context {D : Type} `{QdbmLaws D}.

Lemma qdbm_set_run k v d : run_lib (qdbm_set k v) false d = dpput k v d.
Proof. unfold qdbm_set. run_simpl. by destruct (dpput k v d). Qed.
Lemma qdbm_get_run k cap d : (run_lib (qdbm_get k cap) None d).1 = clipped (dpgetwb k 0 cap d).
Proof. done. Qed.
Lemma qdbm_del_run k d : run_lib (qdbm_del k) false d = dpout k d.
Proof. unfold qdbm_del. run_simpl. by destruct (dpout k d). Qed.

Program Definition qdbm_laws : @DbLaws D qdbm_ops := {| db_view := qdbm_view |}.
Next Obligation.
  intros k cap d v Hv. change (db_get k cap d) with (clipped (dpgetwb k 0 cap d)).
  eapply (clipped_found (λ max, dpgetwb k 0 max d)); [|done]. intros. by apply dpgetwb_found.
Qed.
Next Obligation.
  intros k cap d Hv. change (db_get k cap d) with (clipped (dpgetwb k 0 cap d)).
  eapply (clipped_absent (λ max, dpgetwb k 0 max d)); [|done]. intros. by apply dpgetwb_absent.
Qed.
Next Obligation.
  intros k cap d v. change (db_get k cap d) with (clipped (dpgetwb k 0 cap d)).
  eapply (clipped_cap (λ max, dpgetwb k 0 max d) (qdbm_view d !! k)); intros;
    [by apply dpgetwb_found|by apply dpgetwb_absent].
Qed.
Next Obligation. intros k v d d'. cbn. rewrite qdbm_set_run. apply dpput_true. Qed.
Next Obligation. intros k v d d'. cbn. rewrite qdbm_set_run. apply dpput_false. Qed.
Next Obligation.
  intros k d Hk. cbn. rewrite qdbm_del_run, dpout_result. by apply bool_decide_eq_true.
Qed.
Next Obligation. intros k d. cbn. rewrite qdbm_del_run. apply dpout_view. Qed.
Next Obligation. done. Qed.
Next Obligation. done. Qed.

Lemma qdbm_implements :
  implements (qdbm_ops (D := D)) qdbm_view ∧
  ∀ k d, (@db_del D qdbm_ops k d).1 = bool_decide (is_Some (qdbm_view d !! k)).
Proof.
  split; [by exists qdbm_laws|]. intros k d. cbn. rewrite qdbm_del_run. apply dpout_result.
Qed.
End qdbm.

Section tc.
Context {D : Type} `{TcLaws D}.

Lemma tc_set_run k v d : run_lib (tc_set k v) false d = tchdbput k v d.
Proof. unfold tc_set. run_simpl. by destruct (tchdbput k v d). Qed.
Lemma tc_get_run k cap d : (run_lib (tc_get k cap) None d).1 = clipped (tchdbget3 k cap d).
Proof. done. Qed.
Lemma tc_del_run k d : run_lib (tc_del k) false d = tchdbout k d.
Proof. unfold tc_del. run_simpl. by destruct (tchdbout k d). Qed.

Program Definition tc_laws : @DbLaws D tc_ops := {| db_view := tc_view |}.
Next Obligation.
  intros k cap d v Hv. change (db_get k cap d) with (clipped (tchdbget3 k cap d)).
  eapply (clipped_found (λ max, tchdbget3 k max d)); [|done]. intros. by apply tchdbget3_found.
Qed.
Next Obligation.
  intros k cap d Hv. change (db_get k cap d) with (clipped (tchdbget3 k cap d)).
  eapply (clipped_absent (λ max, tchdbget3 k max d)); [|done]. intros. by apply tchdbget3_absent.
Qed.
Next Obligation.
  intros k cap d v. change (db_get k cap d) with (clipped (tchdbget3 k cap d)).
  eapply (clipped_cap (λ max, tchdbget3 k max d) (tc_view d !! k)); intros;
    [by apply tchdbget3_found|by apply tchdbget3_absent].
Qed.
Next Obligation. intros k v d d'. cbn. rewrite tc_set_run. apply tchdbput_true. Qed.
Next Obligation. intros k v d d'. cbn. rewrite tc_set_run. apply tchdbput_false. Qed.
Next Obligation.
  intros k d Hk. cbn. rewrite tc_del_run, tchdbout_result. by apply bool_decide_eq_true.
Qed.
Next Obligation. intros k d. cbn. rewrite tc_del_run. apply tchdbout_view. Qed.
Next Obligation. done. Qed.
Next Obligation. done. Qed.

Lemma tc_implements :
  implements (tc_ops (D := D)) tc_view ∧
  ∀ k d, (@db_del D tc_ops k d).1 = bool_decide (is_Some (tc_view d !! k)).
Proof.
  split; [by exists tc_laws|]. intros k d. cbn. rewrite tc_del_run. apply tchdbout_result.
Qed.
End tc.

Section tdb.
Context {D : Type} `{TdbLaws D}.

Definition xtdb_got (o : option bytes) (cap : Z) : option bytes :=
  match o with Some v => if cap <? Z.of_nat (length v) then None else Some v | None => None end.

Lemma xtdb_set_run k v d :
  run_lib (xtdb_set k v) false d = ((tdb_store k v d).1 =? 0, (tdb_store k v d).2).
Proof. unfold xtdb_set. run_simpl. by destruct (tdb_store k v d). Qed.
Lemma xtdb_get_run k cap d : (run_lib (xtdb_get k cap) None d).1 = xtdb_got (tdb_fetch k d) cap.
Proof. unfold xtdb_get. run_simpl. destruct (tdb_fetch k d); [|done]. cbn -[Z.ltb]. by destruct (cap <? _). Qed.
Lemma xtdb_del_run k d :
  run_lib (xtdb_del k) false d = ((tdb_delete k d).1 =? 0, (tdb_delete k d).2).
Proof. unfold xtdb_del. run_simpl. by destruct (tdb_delete k d). Qed.
Lemma xtdb_firstkey_run cap d : (run_lib (xtdb_firstkey cap) None d).1 = tdb_firstkey d.
Proof. unfold xtdb_firstkey, take_key. run_simpl. by destruct (tdb_firstkey d). Qed.
Lemma xtdb_nextkey_run key cap d :
  (run_lib (xtdb_nextkey key cap) None d).1 = tdb_nextkey key d.
Proof. unfold xtdb_nextkey, take_key. run_simpl. by destruct (tdb_nextkey key d). Qed.

Lemma xtdb_del_exact k d :
  ((tdb_delete k d).1 =? 0) = bool_decide (is_Some (tdb_view d !! k)).
Proof.
  case_bool_decide as Hk; rewrite <-tdb_delete_result in Hk;
    [by apply Z.eqb_eq|by apply Z.eqb_neq].
Qed.

Program Definition tdb_laws : @DbLaws D tdb_ops := {| db_view := tdb_view |}.
Next Obligation.
  intros k cap d v Hv Hc. cbn. rewrite xtdb_get_run, tdb_fetch_view, Hv. cbn.
  by rewrite (proj2 (Z.ltb_ge _ _)).
Qed.
Next Obligation. intros k cap d Hv. cbn. by rewrite xtdb_get_run, tdb_fetch_view, Hv. Qed.
Next Obligation.
  intros k cap d v _. cbn. rewrite xtdb_get_run. unfold xtdb_got. repeat case_match; try done.
  intros [= <-]. lia.
Qed.
Next Obligation.
  intros k v d d'. cbn. rewrite xtdb_set_run. destruct (tdb_store k v d) as [rv d2] eqn:E.
  cbn. intros [= Hr ->]. apply Z.eqb_eq in Hr as ->. by apply tdb_store_ok.
Qed.
Next Obligation.
  intros k v d d'. cbn. rewrite xtdb_set_run. destruct (tdb_store k v d) as [rv d2] eqn:E.
  cbn. intros [= Hr ->]. apply Z.eqb_neq in Hr. by eapply tdb_store_err.
Qed.
Next Obligation.
  intros k d Hk. cbn. rewrite xtdb_del_run. cbn. rewrite xtdb_del_exact. by apply bool_decide_eq_true.
Qed.
Next Obligation. intros k d. cbn. rewrite xtdb_del_run. apply tdb_delete_view. Qed.
Next Obligation. intros f cap d k [= <-]. rewrite xtdb_firstkey_run. apply tdb_firstkey_in. Qed.
Next Obligation. intros f k0 cap d k [= <-]. rewrite xtdb_nextkey_run. apply tdb_nextkey_in. Qed.

Lemma tdb_implements :
  implements (tdb_ops (D := D)) tdb_view ∧
  ∀ k d, (@db_del D tdb_ops k d).1 = bool_decide (is_Some (tdb_view d !! k)).
Proof.
  split; [by exists tdb_laws|]. intros k d. cbn. rewrite xtdb_del_run. apply xtdb_del_exact.
Qed.
End tdb.

Section leveldb.
Context {D : Type} `{LevelDbLaws D}.

(** The first key at an iterator, when it fits. *)
Definition head_fits (l : list bytes) (cap : Z) : option bytes :=
  match l with
  | k :: _ => if cap <? Z.of_nat (length k) then None else Some k
  | [] => None
  end.

Lemma key_at_rest i cap : key_at i cap = head_fits (iter_rest i) cap.
Proof.
  unfold key_at. rewrite iter_valid. destruct (iter_rest i) as [|k l] eqn:E; [done|].
  by rewrite bool_decide_true, (iter_key i k l) by done.
Qed.

Lemma xleveldb_set_run k v d :
  run_lib (xleveldb_set k v) false d = (negb (leveldb_put k v d).1, (leveldb_put k v d).2).
Proof. unfold xleveldb_set. run_simpl. by destruct (leveldb_put k v d). Qed.
Lemma xleveldb_get_run k cap d :
  (run_lib (xleveldb_get k cap) None d).1 = xtdb_got (leveldb_view d !! k) cap.
Proof.
  unfold xleveldb_get. run_simpl. rewrite leveldb_get_view. cbn -[Z.ltb].
  by destruct (leveldb_view d !! k).
Qed.
Lemma xleveldb_del_run k d :
  run_lib (xleveldb_del k) false d = (true, (leveldb_delete k d).2).
Proof.
  unfold xleveldb_del. run_simpl. pose proof (leveldb_delete_result k d) as Hr.
  destruct (leveldb_delete k d) as [rv d']. cbn in *. by subst rv.
Qed.
Lemma xleveldb_firstkey_run cap d :
  (run_lib (xleveldb_firstkey cap) None d).1 = head_fits (leveldb_keys d) cap.
Proof. unfold xleveldb_firstkey. run_simpl. by rewrite key_at_rest, iter_first. Qed.

(** The keys that are not smaller than [key], without the first. *)
Lemma xleveldb_nextkey_run key cap d :
  (run_lib (xleveldb_nextkey key cap) None d).1 =
  head_fits (tail (filter (λ x, ¬ bytes_lt x key) (leveldb_keys d))) cap.
Proof.
  unfold xleveldb_nextkey. run_simpl. rewrite key_at_rest, iter_valid, iter_next, iter_seek.
  by destruct (filter _ _).
Qed.

Lemma head_fits_elem l cap k : head_fits l cap = Some k → k ∈ l.
Proof. destruct l; cbn; [done|]. case_match; [done|]. intros [= ->]. set_solver. Qed.

Program Definition leveldb_laws : @DbLaws D leveldb_ops := {| db_view := leveldb_view |}.
Next Obligation.
  intros k cap d v Hv Hc. cbn. rewrite xleveldb_get_run, Hv. cbn. by rewrite (proj2 (Z.ltb_ge _ _)).
Qed.
Next Obligation. intros k cap d Hv. cbn. by rewrite xleveldb_get_run, Hv. Qed.
Next Obligation.
  intros k cap d v _. cbn. rewrite xleveldb_get_run. unfold xtdb_got. repeat case_match; try done.
  intros [= <-]. lia.
Qed.
Next Obligation.
  intros k v d d'. cbn. rewrite xleveldb_set_run. destruct (leveldb_put k v d) as [[] d2] eqn:E; [done|].
  cbn. intros [= ->]. by apply leveldb_put_ok.
Qed.
Next Obligation.
  intros k v d d'. cbn. rewrite xleveldb_set_run. destruct (leveldb_put k v d) as [[] d2] eqn:E; [|done].
  cbn. intros [= ->]. by eapply leveldb_put_err.
Qed.
Next Obligation. intros k d Hk. cbn. by rewrite xleveldb_del_run. Qed.
Next Obligation. intros k d. cbn. rewrite xleveldb_del_run. apply leveldb_delete_view. Qed.
Next Obligation.
  intros f cap d k Hf.
  assert (f cap d = (run_lib (xleveldb_firstkey cap) None d).1) as -> by by injection Hf as <-.
  rewrite xleveldb_firstkey_run. intros Hk%head_fits_elem.
  by apply leveldb_keys_dom.
Qed.
Next Obligation.
  intros f k0 cap d k Hf.
  assert (f k0 cap d = (run_lib (xleveldb_nextkey k0 cap) None d).1) as -> by by injection Hf as <-.
  rewrite xleveldb_nextkey_run. intros Hk%head_fits_elem.
  apply leveldb_keys_dom. destruct (filter _ _) as [|x l] eqn:E; [by apply elem_of_nil in Hk|].
  assert (k ∈ x :: l) as Hin by by apply list_elem_of_further.
  rewrite <-E in Hin. by apply list_elem_of_filter in Hin as [_ Hin].
Qed.

(** ** Walking through the keys *)

(** The keys that [n] calls of [nextkey] give after [key], and all of them. *)
Fixpoint walk_from (n : nat) (key : bytes) (cap : Z) (d : D) : list bytes :=
  match n with
  | O => []
  | S n =>
      match (run_lib (xleveldb_nextkey key cap) None d).1 with
      | None => []
      | Some k => k :: walk_from n k cap d
      end
  end.
Definition walk (n : nat) (cap : Z) (d : D) : list bytes :=
  match (run_lib (xleveldb_firstkey cap) None d).1 with
  | None => []
  | Some k => k :: walk_from n k cap d
  end.

Lemma filter_keep (P : bytes → Prop) `{∀ x, Decision (P x)} l : Forall P l → filter P l = l.
Proof. induction 1; [done|]. rewrite filter_cons_True by done. by f_equal. Qed.

(** What comes after a key of a sorted list. *)
Lemma filter_after (l1 : list bytes) k l2 :
  StronglySorted bytes_lt (l1 ++ k :: l2) →
  filter (λ x, ¬ bytes_lt x k) (l1 ++ k :: l2) = k :: l2.
Proof.
  induction l1 as [|x l1 IH]; cbn [app]; intros Hs.
  - apply StronglySorted_inv in Hs as [_ Hall].
    rewrite filter_cons_True by apply irreflexivity, _. f_equal.
    apply filter_keep. eapply Forall_impl; [exact Hall|]. intros y Hky Hyk.
    apply (irreflexivity bytes_lt k). by etrans.
  - apply StronglySorted_inv in Hs as [Hs Hall].
    rewrite filter_cons_False; [by apply IH|]. rewrite Forall_forall in Hall.
    intros Hn. apply Hn, Hall. set_solver.
Qed.

Lemma filter_drop_all k (l : list bytes) :
  Forall (λ x, bytes_lt x k) l → filter (λ x, ¬ bytes_lt x k) l = [].
Proof. induction 1; [done|]. rewrite filter_cons_False; [done|]. by intros Hn. Qed.

Lemma filter_above k k1 (l : list bytes) :
  StronglySorted bytes_lt (k1 :: l) → bytes_lt k k1 →
  filter (λ x, ¬ bytes_lt x k) (k1 :: l) = k1 :: l.
Proof.
  intros [_ Hall]%StronglySorted_inv Hk. apply filter_keep. constructor.
  - intros Hk1. apply (irreflexivity bytes_lt k). by etrans.
  - eapply Forall_impl; [exact Hall|]. intros y Hy Hyk.
    apply (irreflexivity bytes_lt k). by do 2 (etrans; [eassumption|]).
Qed.

Lemma sorted_nodup (l : list bytes) : StronglySorted bytes_lt l → NoDup l.
Proof.
  induction 1 as [|k l Hs IH Hall]; [constructor|]. constructor; [|done].
  intros Hk. rewrite Forall_forall in Hall. by apply (irreflexivity bytes_lt k), Hall.
Qed.

Lemma walk_from_suffix n cap d l1 k l2 :
  leveldb_keys d = l1 ++ k :: l2 → (length l2 ≤ n)%nat →
  Forall (λ x, Z.of_nat (length x) ≤ cap) (leveldb_keys d) → walk_from n k cap d = l2.
Proof.
  intros Hl Hn Hcap. pose proof (leveldb_keys_sorted d) as Hs.
  revert l1 k l2 Hl Hn. induction n as [|n IH]; intros l1 k l2 Hl Hn; cbn [walk_from].
  { by destruct l2; [|cbn in Hn; lia]. }
  rewrite xleveldb_nextkey_run, Hl, filter_after by by rewrite <-Hl. cbn [tail].
  destruct l2 as [|k2 l2]; [done|]. cbn [head_fits].
  assert (Z.of_nat (length k2) ≤ cap) as Hk2.
  { rewrite Forall_forall in Hcap. apply Hcap. rewrite Hl. set_solver. }
  rewrite (proj2 (Z.ltb_ge _ _)) by done. f_equal. cbn in Hn.
  apply (IH (l1 ++ [k]) k2 l2); [by rewrite Hl, <-(assoc_L (++))|lia].
Qed.

Lemma walk_keys n cap d :
  (length (leveldb_keys d) ≤ S n)%nat →
  Forall (λ x, Z.of_nat (length x) ≤ cap) (leveldb_keys d) → walk n cap d = leveldb_keys d.
Proof.
  intros Hn Hcap. unfold walk. rewrite xleveldb_firstkey_run.
  destruct (leveldb_keys d) as [|k l] eqn:E; [done|]. cbn [head_fits].
  apply Forall_cons in Hcap as Hk. rewrite (proj2 (Z.ltb_ge _ _)) by apply Hk. f_equal.
  apply (walk_from_suffix n cap d []); [done|cbn in Hn; lia|by rewrite E].
Qed.
End leveldb.

(** ** What the wrappers leave behind *)

(** A computation that gives back all that it gets. *)
Definition balanced {D A} (m : MT (lib D) A) : Prop :=
  ∀ d l a, ∃ r d' a', m (Mem (Lib d l) a) = Some (r, Mem (Lib d' l) a').

(** An opener that holds the handle and the connection when it succeeds, and
    [left] when it fails. *)
Definition opens {D} (m : MT (lib (option D)) bool) (left : list resource) : Prop :=
  ∀ l a, ∃ (b : bool) d' a', m (Mem (Lib None l) a) =
    Some (b, Mem (Lib d' ((if b then [RConn; RHandle] else left) ++ l)) a') ∧ (b = true → is_Some d').

(** A closer that gives both back. *)
Definition closes {D} (m : MT (lib D) bool) : Prop :=
  ∀ d l a, ∃ b a', m (Mem (Lib d ([RConn; RHandle] ++ l)) a) = Some (b, Mem (Lib d l) a').

Lemma balanced_update {D A B} (f : D → A * D) (g : A → B) :
  balanced (r ← update f; mret (g r)).
Proof. intros d l a. run_simpl. destruct (f d) as [r d']. cbn. by eexists _, _, _. Qed.
Lemma balanced_update' {D A} (f : D → A * D) : balanced (update f).
Proof. intros d l a. run_simpl. destruct (f d) as [r d']. by eexists _, _, _. Qed.
Lemma balanced_query {D A B} (f : D → A) (g : A → B) : balanced (r ← query f; mret (g r)).
Proof. intros d l a. run_simpl. by eexists _, _, _. Qed.

Lemma opens_conn {D} (d : D) (undo : MT (lib (option D)) ()) l0 l1 a :
  (∀ d a, undo (Mem (Lib d (RHandle :: l1)) a) = Some (tt, Mem (Lib d (l0 ++ l1)) a)) →
  ∃ (b : bool) d' a', new_conn undo (Mem (Lib (Some d) (RHandle :: l1)) a) =
    Some (b, Mem (Lib d' ((if b then [RConn; RHandle] else l0) ++ l1)) a') ∧ (b = true → is_Some d').
Proof.
  intros Hu. unfold new_conn, malloc. run_simpl. destruct (al_ok a (al_next a)).
  - exists true. eexists _, _. by split.
  - rewrite Hu. exists false. eexists _, _. by split.
Qed.

(** An opener that gave up, and one that got to the connection's memory. *)
Ltac gave_up a := by exists false, None, a.
Ltac got_conn := by apply (opens_conn _ _ []).

Section clean.
Context {D : Type}.

Lemma bdb_clean `{Bdb D} k v cap :
  opens (D := D) (bdb_open v) [] ∧ balanced (D := D) (bdb_set k v) ∧
  balanced (D := D) (bdb_get k cap) ∧ balanced (D := D) (bdb_del k) ∧
  (∀ (d : D) l a, let ok := dbp_close d =? 0 in
    bdb_close (Mem (Lib d ([RConn; RHandle] ++ l)) a) =
    Some (ok, Mem (Lib d ((if ok then [] else [RConn]) ++ l)) a)).
Proof.
  split_and!; [|apply balanced_update|apply balanced_query|apply balanced_update|].
  - intros l a. unfold bdb_open. destruct (dbp_create =? 0); [|gave_up a]. run_simpl.
    destruct (dbp_open v); [got_conn|gave_up a].
  - intros d l a. unfold bdb_close. run_simpl. by destruct (dbp_close d =? 0).
Qed.

Lemma qdbm_clean `{Qdbm D} k v cap :
  opens (D := D) (qdbm_open v) [] ∧ balanced (D := D) (qdbm_set k v) ∧
  balanced (D := D) (qdbm_get k cap) ∧ balanced (D := D) (qdbm_del k) ∧ closes (D := D) qdbm_close.
Proof.
  split_and!; [|apply balanced_update'|apply balanced_query|apply balanced_update'|].
  - intros l a. unfold qdbm_open. run_simpl. destruct (dpopen v); [got_conn|gave_up a].
  - intros d l a. unfold qdbm_close. run_simpl. by eexists _, _.
Qed.

(** Only a failed allocation of the connection releases the handle. *)
Lemma tc_clean `{Tc D} k v cap :
  opens (D := D) (tc_open v) (match tchdbopen v with Some _ => [] | None => [RHandle] end) ∧
  balanced (D := D) (tc_set k v) ∧ balanced (D := D) (tc_get k cap) ∧
  balanced (D := D) (tc_del k) ∧ closes (D := D) tc_close.
Proof.
  split_and!; [|apply balanced_update'|apply balanced_query|apply balanced_update'|].
  - intros l a. unfold tc_open. run_simpl. destruct (tchdbopen v); [got_conn|gave_up a].
  - intros d l a. unfold tc_close. run_simpl. by eexists _, _.
Qed.

Lemma take_key_balanced (f : D → option bytes) : balanced (k ← query f; take_key k).
Proof.
  intros d l a. unfold take_key. run_simpl. destruct (f d); cbn; by eexists _, _, _.
Qed.

Lemma tdb_clean `{Tdb D} k v cap :
  opens (D := D) (xtdb_open v) [] ∧ balanced (D := D) (xtdb_set k v) ∧
  balanced (D := D) (xtdb_del k) ∧ balanced (D := D) (xtdb_firstkey cap) ∧
  balanced (D := D) (xtdb_nextkey k cap) ∧ closes (D := D) xtdb_close.
Proof.
  split_and!; [|apply balanced_update|apply balanced_update|apply take_key_balanced..|].
  - intros l a. unfold xtdb_open. run_simpl. destruct (tdb_open v); [got_conn|gave_up a].
  - intros d l a. unfold xtdb_close. run_simpl. by eexists _, _.
Qed.

(** The value that does not fit the buffer is the one thing left. *)
Lemma tdb_get_leaves `{Tdb D} k cap d l a :
  xtdb_get k cap (Mem (Lib d l) a) = Some (xtdb_got (tdb_fetch k d) cap,
    Mem (Lib d (match tdb_fetch k d with
                | Some v => if cap <? Z.of_nat (length v) then RValue :: l else l
                | None => l
                end)) a).
Proof.
  unfold xtdb_get. run_simpl. destruct (tdb_fetch k d) as [v|]; [|done].
  cbn -[Z.ltb]. by destruct (cap <? _).
Qed.

Lemma leveldb_clean `{LevelDb D} k v cap :
  opens (D := D) (xleveldb_open v) [] ∧ balanced (D := D) (xleveldb_set k v) ∧
  balanced (D := D) (xleveldb_get k cap) ∧ balanced (D := D) (xleveldb_del k) ∧
  balanced (D := D) (xleveldb_firstkey cap) ∧ balanced (D := D) (xleveldb_nextkey k cap) ∧
  closes (D := D) xleveldb_close.
Proof.
  split_and!.
  - intros l a. unfold xleveldb_open. destruct leveldb_options_create; [|gave_up a]. run_simpl.
    destruct (leveldb_open v); cbn; [got_conn|gave_up a].
  - intros d l a. unfold xleveldb_set. run_simpl. destruct (leveldb_put k v d). by eexists _, _, _.
  - intros d l a. unfold xleveldb_get. run_simpl.
    destruct (leveldb_get k d) as [[w|] e]; cbn -[Z.ltb]; by eexists _, _, _.
  - intros d l a. unfold xleveldb_del. run_simpl. destruct (leveldb_delete k d). by eexists _, _, _.
  - intros d l a. unfold xleveldb_firstkey. run_simpl. by eexists _, _, _.
  - intros d l a. unfold xleveldb_nextkey. run_simpl. by eexists _, _, _.
  - intros d l a. unfold xleveldb_close. run_simpl. by eexists _, _.
Qed.
End clean.

(** ** Properties *)

(** C15: the backends. With a library that behaves as documented, each of the
    five wrappers implements a finite map: [set] adds, [get] finds what is
    stored if it fits, [del] removes, and the first and the next key are keys
    of the map. So the theorems about the database thread hold with each of
    them. All but LevelDB's also tell whether a deleted key was there, as the
    theorems about the whole server need; LevelDB's [del] always succeeds. *)
Theorem backends_implement_map {D1 D2 D3 D4 D5 : Type} `{BdbLaws D1} `{QdbmLaws D2} `{TcLaws D3}
  `{TdbLaws D4} `{LevelDbLaws D5} :
  (implements (bdb_ops (D := D1)) bdb_view ∧
   ∀ k d, (@db_del D1 bdb_ops k d).1 = bool_decide (is_Some (bdb_view d !! k))) ∧
  (implements (qdbm_ops (D := D2)) qdbm_view ∧
   ∀ k d, (@db_del D2 qdbm_ops k d).1 = bool_decide (is_Some (qdbm_view d !! k))) ∧
  (implements (tc_ops (D := D3)) tc_view ∧
   ∀ k d, (@db_del D3 tc_ops k d).1 = bool_decide (is_Some (tc_view d !! k))) ∧
  (implements (tdb_ops (D := D4)) tdb_view ∧
   ∀ k d, (@db_del D4 tdb_ops k d).1 = bool_decide (is_Some (tdb_view d !! k))) ∧
  (implements (leveldb_ops (D := D5)) leveldb_view ∧
   ∀ k d, (@db_del D5 leveldb_ops k d).1 = true).
Proof.
  split_and!; try apply bdb_implements; try apply qdbm_implements; try apply tc_implements;
    try apply tdb_implements; [by exists leveldb_laws|].
  intros k d. cbn. by rewrite xleveldb_del_run.
Qed.

(** C35: walking through LevelDB's keys. [firstkey], and then [nextkey] of the
    last key as long as it gives one, gives every key of the database exactly
    once, in order, and ends after as many calls as there are keys, if the
    buffer can hold them. But [nextkey] of a key that is not there (any more)
    leaves out a key: it gives the second of the larger keys. *)
Theorem leveldb_walk_complete {D} `{LevelDbLaws D} (n : nat) (cap : Z) (d : D)
  (Hn : (size (dom (leveldb_view d)) ≤ S n)%nat)
  (Hcap : ∀ k, is_Some (leveldb_view d !! k) → Z.of_nat (length k) ≤ cap) :
  StronglySorted bytes_lt (walk n cap d) ∧
  (∀ k, k ∈ walk n cap d ↔ is_Some (leveldb_view d !! k)) ∧
  (∀ k k1 k2 l1 l2, leveldb_keys d = l1 ++ k1 :: k2 :: l2 →
    Forall (λ x, bytes_lt x k) l1 → bytes_lt k k1 →
    (run_lib (xleveldb_nextkey k cap) None d).1 = Some k2).
Proof.
  pose proof (leveldb_keys_sorted d) as Hs.
  assert (Forall (λ x, Z.of_nat (length x) ≤ cap) (leveldb_keys d)) as Hall.
  { apply Forall_forall. intros k Hk. by apply Hcap, leveldb_keys_dom. }
  assert (walk n cap d = leveldb_keys d) as ->.
  { apply walk_keys; [|done]. etrans; [|exact Hn].
    rewrite <-(size_list_to_set (C := gset bytes) (leveldb_keys d)) by by apply sorted_nodup.
    apply subseteq_size. intros k. rewrite elem_of_list_to_set, elem_of_dom. apply leveldb_keys_dom. }
  split_and!; [done|apply leveldb_keys_dom|]. intros k k1 k2 l1 l2 Hl H1 Hk.
  rewrite xleveldb_nextkey_run, Hl, filter_app, filter_drop_all by done.
  rewrite Hl in Hs, Hall. apply StronglySorted_app_1_r in Hs. cbn [app].
  rewrite filter_above by done. cbn [tail head_fits].
  apply Forall_app in Hall as [_ Hall]. rewrite Forall_cons, Forall_cons in Hall.
  by rewrite (proj2 (Z.ltb_ge _ _)) by apply Hall.
Qed.

(** C34: nothing of the library is left behind. Every operation of every
    wrapper is defined whatever the library answers (nothing is released
    twice) and gives back the options, iterators, messages and values it got;
    the openers that fail hold nothing; closing releases the handle and the
    connection. The exceptions: Tokyo Cabinet's opener keeps the object of a
    database that cannot be opened, TDB's [get] keeps a value that is too big
    for the buffer, and Berkeley DB's connection is kept when closing fails. *)
Theorem wrappers_give_back {D1 D2 D3 D4 D5 : Type} `{Bdb D1} `{Qdbm D2} `{Tc D3} `{Tdb D4}
  `{LevelDb D5} (k v : bytes) (cap : Z) :
  (opens (D := D1) (bdb_open v) [] ∧ balanced (D := D1) (bdb_set k v) ∧
   balanced (D := D1) (bdb_get k cap) ∧ balanced (D := D1) (bdb_del k) ∧
   (∀ (d : D1) l a, let ok := dbp_close d =? 0 in
     bdb_close (Mem (Lib d ([RConn; RHandle] ++ l)) a) =
     Some (ok, Mem (Lib d ((if ok then [] else [RConn]) ++ l)) a))) ∧
  (opens (D := D2) (qdbm_open v) [] ∧ balanced (D := D2) (qdbm_set k v) ∧
   balanced (D := D2) (qdbm_get k cap) ∧ balanced (D := D2) (qdbm_del k) ∧
   closes (D := D2) qdbm_close) ∧
  (opens (D := D3) (tc_open v) (match tchdbopen v with Some _ => [] | None => [RHandle] end) ∧
   balanced (D := D3) (tc_set k v) ∧ balanced (D := D3) (tc_get k cap) ∧
   balanced (D := D3) (tc_del k) ∧ closes (D := D3) tc_close) ∧
  (opens (D := D4) (xtdb_open v) [] ∧ balanced (D := D4) (xtdb_set k v) ∧
   balanced (D := D4) (xtdb_del k) ∧ balanced (D := D4) (xtdb_firstkey cap) ∧
   balanced (D := D4) (xtdb_nextkey k cap) ∧ closes (D := D4) xtdb_close ∧
   (∀ d l a, xtdb_get k cap (Mem (Lib d l) a) = Some (xtdb_got (tdb_fetch k d) cap,
     Mem (Lib d (match tdb_fetch k d with
                 | Some v => if cap <? Z.of_nat (length v) then RValue :: l else l
                 | None => l
                 end)) a))) ∧
  (opens (D := D5) (xleveldb_open v) [] ∧ balanced (D := D5) (xleveldb_set k v) ∧
   balanced (D := D5) (xleveldb_get k cap) ∧ balanced (D := D5) (xleveldb_del k) ∧
   balanced (D := D5) (xleveldb_firstkey cap) ∧ balanced (D := D5) (xleveldb_nextkey k cap) ∧
   closes (D := D5) xleveldb_close).
Proof.
  split; [by apply bdb_clean|]. split; [by apply qdbm_clean|]. split; [by apply tc_clean|].
  split; [|by apply leveldb_clean].
  destruct (tdb_clean k v cap) as (H1' & H2' & H3' & H4' & H5' & H6').
  split_and!; try done. apply tdb_get_leaves.
Qed.

(** ** Libraries that satisfy the documentation

    A finite map plays each of the libraries. *)

#[export] Instance store_bdb : Bdb store := {|
  dbp_create := 0;
  dbp_open _ := Some ∅;
  dbp_close _ := 0;
  dbp_put k v d := (0, <[k := v]> d);
  dbp_get k cap d :=
    match d !! k with
    | Some v => if decide (Z.of_nat (length v) ≤ cap) then (0, v) else (-30999, [])
    | None => (-30988, [])
    end;
  dbp_del k d := (if decide (is_Some (d !! k)) then 0 else -30988, delete k d);
|}.

#[export] Program Instance store_bdb_laws : BdbLaws store := {| bdb_view d := d |}.
Next Obligation. cbn. naive_solver. Qed.
Next Obligation. cbn. naive_solver. Qed.
Next Obligation. intros * Hv Hc. cbn. rewrite Hv. by rewrite decide_True. Qed.
Next Obligation. intros * Hv Hc. cbn. rewrite Hv. by rewrite decide_False by lia. Qed.
Next Obligation. intros * Hv. cbn. by rewrite Hv. Qed.
Next Obligation. intros. cbn. case_decide; naive_solver. Qed.
Next Obligation. done. Qed.

(** At most [max] bytes of a value. *)
Definition clip (max : Z) (o : option bytes) : Z * bytes :=
  match o with
  | Some v => (Z.min (Z.of_nat (length v)) max, take (Z.to_nat max) v)
  | None => (-1, [])
  end.

#[export] Instance store_qdbm : Qdbm store := {|
  dpopen _ := Some ∅;
  dpclose _ := true;
  dpput k v d := (true, <[k := v]> d);
  dpgetwb k start max d := clip max (drop (Z.to_nat start) <$> d !! k);
  dpout k d := (bool_decide (is_Some (d !! k)), delete k d);
|}.

#[export] Program Instance store_qdbm_laws : QdbmLaws store := {| qdbm_view d := d |}.
Next Obligation. cbn. naive_solver. Qed.
Next Obligation. cbn. naive_solver. Qed.
Next Obligation. intros * Hv Hc. cbn. by rewrite Hv. Qed.
Next Obligation. intros * Hv. cbn. by rewrite Hv. Qed.
Next Obligation. done. Qed.
Next Obligation. done. Qed.

#[export] Instance store_tc : Tc store := {|
  tchdbopen _ := Some ∅;
  tchdbclose _ := true;
  tchdbput k v d := (true, <[k := v]> d);
  tchdbget3 k max d := clip max (d !! k);
  tchdbout k d := (bool_decide (is_Some (d !! k)), delete k d);
|}.

#[export] Program Instance store_tc_laws : TcLaws store := {| tc_view d := d |}.
Next Obligation. cbn. naive_solver. Qed.
Next Obligation. cbn. naive_solver. Qed.
Next Obligation. intros * Hv Hc. cbn. by rewrite Hv. Qed.
Next Obligation. intros * Hv. cbn. by rewrite Hv. Qed.
Next Obligation. done. Qed.
Next Obligation. done. Qed.

#[export] Instance store_tdb : Tdb store := {|
  tdb_open _ := Some ∅;
  tdb_close _ := 0;
  tdb_store k v d := (0, <[k := v]> d);
  tdb_fetch k d := d !! k;
  tdb_delete k d := (if decide (is_Some (d !! k)) then 0 else -1, delete k d);
  tdb_firstkey d := head (map_to_list d).*1;
  tdb_nextkey k d := head (store_after k (map_to_list d)).*1;
|}.

Lemma head_key_in (l : list (bytes * bytes)) k : head l.*1 = Some k → ∃ v, (k, v) ∈ l.
Proof. destruct l as [|[k' v'] l]; cbn; [done|]. intros [= <-]. exists v'. set_solver. Qed.

#[export] Program Instance store_tdb_laws : TdbLaws store := {| tdb_view d := d |}.
Next Obligation. cbn. naive_solver. Qed.
Next Obligation. cbn. naive_solver. Qed.
Next Obligation. done. Qed.
Next Obligation. intros. cbn. case_decide; naive_solver. Qed.
Next Obligation. done. Qed.
Next Obligation. intros * [v Hv%elem_of_map_to_list]%head_key_in. by exists v. Qed.
Next Obligation.
  intros * [v Hv]%head_key_in. apply store_after_subseteq, elem_of_map_to_list in Hv. by exists v.
Qed.

Definition bytes_le (x y : bytes) : Prop := ¬ bytes_lt y x.
#[export] Instance bytes_le_dec : RelDecision bytes_le.
Proof. intros x y. unfold bytes_le. apply _. Defined.
#[export] Instance bytes_le_total : Total bytes_le.
Proof.
  intros x y. unfold bytes_le. destruct (bytes_lt_total x y) as [H|[->|H]].
  - left. intros H2. apply (irreflexivity bytes_lt x). by etrans.
  - left. apply irreflexivity, _.
  - right. intros H2. apply (irreflexivity bytes_lt x). by etrans.
Qed.
#[export] Instance bytes_le_trans : Transitive bytes_le.
Proof.
  intros x y z H1 H2 H. unfold bytes_le in *.
  destruct (bytes_lt_total x y) as [Hxy|[->|Hxy]]; [|done|done]. apply H2. by etrans.
Qed.

Definition sorted_keys (d : store) : list bytes := merge_sort bytes_le (map_to_list d).*1.

Lemma sorted_keys_dom d k : k ∈ sorted_keys d ↔ is_Some (d !! k).
Proof.
  unfold sorted_keys. rewrite merge_sort_Permutation, list_elem_of_fmap. split.
  - intros ([k' v] & -> & Hv%elem_of_map_to_list). by exists v.
  - intros [v Hv]. exists (k, v). by rewrite elem_of_map_to_list.
Qed.

Lemma sorted_strict l : StronglySorted bytes_le l → NoDup l → StronglySorted bytes_lt l.
Proof.
  induction 1 as [|k l Hs IH Hall]; intros Hnd; [constructor|].
  apply NoDup_cons in Hnd as [Hk Hnd]. constructor; [by apply IH|].
  rewrite Forall_forall in Hall |- *. intros y Hy. specialize (Hall y Hy).
  destruct (bytes_lt_total k y) as [H|[->|H]]; [done..|]. by destruct Hall.
Qed.

Lemma sorted_keys_sorted d : StronglySorted bytes_lt (sorted_keys d).
Proof.
  apply sorted_strict; [by apply (StronglySorted_merge_sort bytes_le)|].
  unfold sorted_keys. rewrite merge_sort_Permutation. apply NoDup_fst_map_to_list.
Qed.

(** An iterator: all keys, and those from its position on. *)
#[export] Instance store_leveldb : LevelDb store := {|
  leveldb_iter := list bytes * list bytes;
  leveldb_options_create := true;
  leveldb_open _ := Some ∅;
  leveldb_put k v d := (false, <[k := v]> d);
  leveldb_get k d := (d !! k, false);
  leveldb_delete k d := (false, delete k d);
  leveldb_create_iterator d := (sorted_keys d, []);
  leveldb_iter_seek_to_first i := (i.1, i.1);
  leveldb_iter_seek k i := (i.1, filter (λ x, ¬ bytes_lt x k) i.1);
  leveldb_iter_next i := (i.1, tail i.2);
  leveldb_iter_valid i := bool_decide (i.2 ≠ []);
  leveldb_iter_key i := head i.2;
|}.

#[export] Program Instance store_leveldb_laws : LevelDbLaws store := {|
  leveldb_view d := d; leveldb_keys := sorted_keys; iter_rest i := i.2
|}.
Next Obligation. cbn. naive_solver. Qed.
Next Obligation. cbn. naive_solver. Qed.
Next Obligation. done. Qed.
Next Obligation. done. Qed.
Next Obligation. done. Qed.
Next Obligation. apply sorted_keys_sorted. Qed.
Next Obligation. apply sorted_keys_dom. Qed.
Next Obligation. done. Qed.
Next Obligation. done. Qed.
Next Obligation. done. Qed.
Next Obligation. done. Qed.
Next Obligation. intros [i1 i2] k l. cbn. by intros ->. Qed.

(** ** Examples *)

Definition two_keys : store := {[ [Byte.x62] := [Byte.x01]; [Byte.x61; Byte.x00] := [Byte.x02] ]}.

Example walk_two_keys : walk 5 64 two_keys = [[Byte.x61; Byte.x00]; [Byte.x62]].
Proof. by vm_compute. Qed.

Lemma backends_implement_map_witness :
  (implements (bdb_ops (D := store)) bdb_view ∧
   ∀ k d, (@db_del store bdb_ops k d).1 = bool_decide (is_Some (bdb_view d !! k))) ∧
  (implements (qdbm_ops (D := store)) qdbm_view ∧
   ∀ k d, (@db_del store qdbm_ops k d).1 = bool_decide (is_Some (qdbm_view d !! k))) ∧
  (implements (tc_ops (D := store)) tc_view ∧
   ∀ k d, (@db_del store tc_ops k d).1 = bool_decide (is_Some (tc_view d !! k))) ∧
  (implements (tdb_ops (D := store)) tdb_view ∧
   ∀ k d, (@db_del store tdb_ops k d).1 = bool_decide (is_Some (tdb_view d !! k))) ∧
  (implements (leveldb_ops (D := store)) leveldb_view ∧
   ∀ k d, (@db_del store leveldb_ops k d).1 = true).
Proof. apply backends_implement_map. Defined.

Lemma leveldb_walk_complete_witness :
  StronglySorted bytes_lt (walk 5 64 two_keys) ∧
  (∀ k, k ∈ walk 5 64 two_keys ↔ is_Some (leveldb_view two_keys !! k)) ∧
  (∀ k k1 k2 l1 l2, leveldb_keys two_keys = l1 ++ k1 :: k2 :: l2 →
    Forall (λ x, bytes_lt x k) l1 → bytes_lt k k1 →
    (run_lib (xleveldb_nextkey k 64) None two_keys).1 = Some k2).
Proof.
  apply (leveldb_walk_complete 5 64 two_keys).
  - vm_compute. lia.
  - intros k [v Hv]. cbn in Hv. unfold two_keys in Hv.
    apply lookup_insert_Some in Hv as [[<- _]|[_ Hv]]; [by vm_compute|].
    apply lookup_singleton_Some in Hv as [<- _]. by vm_compute.
Defined.
