(* ===== verification/Server.v ===== *)
(** * The server's state, and queueing a request (nmdb/common.h, nmdb/parse.c)

    The globals that the request handlers work on: the cache table, the
    operation queue, the statistics and the settings, with the replies emitted
    so far. The database thread only shares the queue. This file also models
    the first part of parse.c: [make_queue_long_entry], [put_in_queue_long] and
    [put_in_queue]. *)

From S2P Require Import Prelude Words Text Chain ChainSpec Cache Net Queue.

Record server := Server {
  s_cache : cache;
  s_queue : queue;
  s_stats : stats;
  s_settings : settings;
  s_out : list reply;
}.

Definition set_cache (c : cache) (s : server) : server :=
  Server c (s_queue s) (s_stats s) (s_settings s) (s_out s).
Definition set_queue (q : queue) (s : server) : server :=
  Server (s_cache s) q (s_stats s) (s_settings s) (s_out s).
Definition set_stats (t : stats) (s : server) : server :=
  Server (s_cache s) (s_queue s) t (s_settings s) (s_out s).
Definition set_settings (t : settings) (s : server) : server :=
  Server (s_cache s) (s_queue s) (s_stats s) t (s_out s).
Definition set_out (o : list reply) (s : server) : server :=
  Server (s_cache s) (s_queue s) (s_stats s) (s_settings s) o.

Definition on_cache {A} (m : MT cache A) : MT server A :=
  zoom (λ s, Some (s_cache s)) set_cache m.
Definition on_queue {A} (m : MT queue A) : MT server A :=
  zoom (λ s, Some (s_queue s)) set_queue m.

(** [stats.f++] *)
Definition count (f : stat) : MT server () := mod_obj (λ s, set_stats (bump f (s_stats s)) s).

(** A call of a reply function. [reply_long] reads [vsize] bytes from [val];
    without a value it sends the short reply. *)
Definition emit (r : reply) : MT server () := mod_obj (λ s, set_out (s_out s ++ [r]) s).
Definition emit_long (req : req_info) (code : Z) (val : cptr) (vsize : Z) : MT server () :=
  match val with
  | Null => emit (reply_mini req code)
  | _ =>
      b ← deref val;
      if in_block b vsize then emit (reply_long req code (take (Z.to_nat vsize) b)) else ub
  end.

(** [if (p != NULL) { copy = malloc(n); memcpy(copy, p, n) }]: [None] when
    the allocation fails. *)
Definition copy_arg {T} (p : option bytes) (n : Z) : MT T (option cptr) :=
  match p with
  | None => mret (Some Null)
  | Some src =>
      c ← dup_block src n;
      mret (match c with Null => None | _ => Some c end)
  end.

(** The error label of [make_queue_long_entry]. *)
Definition make_error (e : option nat) (kcopy vcopy nvcopy : cptr) : MT queue (option nat) :=
  queue_entry_free e;; free kcopy;; free vcopy;; free nvcopy;; mret None.

(** The copy of the request, once the entry holds the operation. *)
Definition copy_req (req : req_info) (e : option nat) : MT queue (option nat) :=
  r ← malloc SIZEOF_REQ;
  match r with
  | Null => upd_qentry e (with_req ReqNull);; queue_entry_free e;; mret None
  | _ =>
      sa ← dup_block (r_clisa req) (r_clilen req);
      upd_qentry e (with_req (ReqCopy req sa));;
      match sa with
      | Null => queue_entry_free e;; mret None
      | _ => upd_qentry e (with_req (ReqCopy (clear_payload req) sa));; mret e
      end
  end.

Definition make_queue_long_entry (req : req_info) (operation : Z)
    (key : option bytes) (ksize : Z) (val : option bytes) (vsize : Z)
    (newval : option bytes) (nvsize : Z) : MT queue (option nat) :=
  e ← queue_entry_create;
  match e with
  | None => mret None
  | Some _ =>
      k ← copy_arg key ksize;
      match k with
      | None => make_error e Null Null Null
      | Some k =>
          v ← copy_arg val vsize;
          match v with
          | None => make_error e k Null Null
          | Some v =>
              nv ← copy_arg newval nvsize;
              match nv with
              | None => make_error e k v Null
              | Some nv =>
                  upd_qentry e (with_op operation k ksize v vsize nv nvsize);;
                  copy_req req e
              end
          end
      end
  end.

(** [put_in_queue_long]: [sync] only decides whether the database thread is
    signalled, which changes nothing in the state. *)
Definition put_in_queue_long (req : req_info) (operation : Z) (sync : bool)
    (key : option bytes) (ksize : Z) (val : option bytes) (vsize : Z)
    (newval : option bytes) (nvsize : Z) : MT server bool :=
  e ← on_queue (make_queue_long_entry req operation key ksize val vsize newval nvsize);
  match e with
  | None => mret false
  | Some _ => on_queue (queue_put e);; mret true
  end.

Definition put_in_queue (req : req_info) (operation : Z) (sync : bool)
    (key : option bytes) (ksize : Z) (val : option bytes) (vsize : Z) : MT server bool :=
  put_in_queue_long req operation sync key ksize val vsize None 0.

(** ** The abstract state *)

Record astate := AState {
  as_cache : acache;
  as_queue : list aentry;
  as_stats : stats;
  as_settings : settings;
  as_out : list reply;
}.

Record server_is (s : server) (st : astate) : Prop := ServerIs {
  si_cache : cache_is (s_cache s) (as_cache st);
  si_queue : queue_is (s_queue s) (as_queue st);
  si_stats : s_stats s = as_stats st;
  si_settings : s_settings s = as_settings st;
  si_out : s_out s = as_out st;
}.

Definition to_cache (f : acache → acache) (st : astate) : astate :=
  AState (f (as_cache st)) (as_queue st) (as_stats st) (as_settings st) (as_out st).
Definition to_queue (x : aentry) (st : astate) : astate :=
  AState (as_cache st) (as_queue st ++ [x]) (as_stats st) (as_settings st) (as_out st).
Definition to_stats (f : stat) (st : astate) : astate :=
  AState (as_cache st) (as_queue st) (bump f (as_stats st)) (as_settings st) (as_out st).
Definition to_out (r : reply) (st : astate) : astate :=
  AState (as_cache st) (as_queue st) (as_stats st) (as_settings st) (as_out st ++ [r]).

(** The queue has room for one more entry (a [size_t] counts them). *)
Definition queue_room (st : astate) : Prop := Z.of_nat (length (as_queue st)) + 1 < 2 ^ 64.

(** The request as the queue's copy of it. *)
Definition queued_req (req : req_info) : req_info :=
  set_clisa (take (Z.to_nat (r_clilen req)) (r_clisa req)) (clear_payload req).

(** The peer's address is within its structure. *)
Definition req_ok (req : req_info) : Prop :=
  0 ≤ r_clilen req ≤ Z.of_nat (length (r_clisa req)).

(** An optional argument and the block it denotes. *)
Definition arg_is (p : option bytes) (n : Z) (o : option bytes) : Prop :=
  match p, o with
  | None, None => n = 0
  | Some b, Some x => denotes b n x
  | _, _ => False
  end.

Section wps.
Context (s : server) (a : alloc) (st : astate) (Hs : server_is s st).

Lemma wp_on_cache {A} (m : MT cache A) (Q : A → mem server → Prop) :
  wp m (λ r t, Q r (Mem (set_cache (obj t) s) (heap t))) (Mem (s_cache s) a) →
  wp (on_cache m) Q (Mem s a).
Proof. intros H. unfold on_cache. by rewrite (wp_zoom _ _ _ _ _ _ (s_cache s)). Qed.

Lemma wp_on_queue {A} (m : MT queue A) (Q : A → mem server → Prop) :
  wp m (λ r t, Q r (Mem (set_queue (obj t) s) (heap t))) (Mem (s_queue s) a) →
  wp (on_queue m) Q (Mem s a).
Proof. intros H. unfold on_queue. by rewrite (wp_zoom _ _ _ _ _ _ (s_queue s)). Qed.

Lemma server_is_cache cd f :
  cache_is cd (f (as_cache st)) → server_is (set_cache cd s) (to_cache f st).
Proof. intros. destruct Hs. by split. Qed.

Lemma server_is_queue q x :
  queue_is q (as_queue st ++ [x]) → server_is (set_queue q s) (to_queue x st).
Proof. intros. destruct Hs. by split. Qed.

Lemma wp_count f (Q : () → mem server → Prop) :
  (∀ s', server_is s' (to_stats f st) → Q tt (Mem s' a)) → wp (count f) Q (Mem s a).
Proof. intros HQ. unfold count. wp_simpl. apply HQ. destruct Hs as [?? Ht ??]. split; cbn; congruence. Qed.

Lemma wp_emit r (Q : () → mem server → Prop) :
  (∀ s', server_is s' (to_out r st) → Q tt (Mem s' a)) → wp (emit r) Q (Mem s a).
Proof. intros HQ. unfold emit. wp_simpl. apply HQ. destruct Hs as [???? Ht]. split; cbn; congruence. Qed.

Lemma wp_emit_long req code v (Q : () → mem server → Prop) :
  (∀ s', server_is s' (to_out (reply_long req code v) st) → Q tt (Mem s' a)) →
  wp (emit_long req code (Block v) (Z.of_nat (length v))) Q (Mem s a).
Proof.
  intros HQ. unfold emit_long. cbn [deref]. wp_simpl. rewrite in_block_true by lia.
  rewrite Nat2Z.id, firstn_all. by apply wp_emit.
Qed.
End wps.

Lemma wp_copy_arg {T} (x : T) a p n o (Q : option cptr → mem T → Prop) :
  never_fails a → arg_is p n o →
  (∀ a', never_fails a' → Q (Some (opt_block o)) (Mem x a')) →
  wp (copy_arg p n) Q (Mem x a).
Proof.
  intros Ha Hp HQ. unfold copy_arg. destruct p as [b|], o as [v|]; try done.
  - wp_simpl. apply (wp_dup_block _ _ _ _ v); [done..|]. wp_simpl. apply HQ. by auto with nmdb.
  - wp_simpl. by apply HQ.
Qed.

Lemma arg_is_size p n o : arg_is p n o → n = opt_size o.
Proof. destruct p, o; cbn; try done. intros H. by rewrite (denotes_length _ _ _ H). Qed.


(** A fresh address holding an entry. *)
Lemma rep_fresh q xs i e x :
  queue_rep q xs [] → i ∉ dom (q_store q) → holds e x →
  queue_rep (set_store (<[i := e]> (q_store q)) q) xs [(i, x)].
Proof.
  intros [Hs Hb Ht Hnd Hdom Hseg _] Hi Hx.
  assert (i ∉ xs.*1) as Hix.
  { intros H. apply Hi, elem_of_dom, Hdom. by rewrite app_nil_r. }
  rewrite app_nil_r in Hnd. split; cbn; try done.
  - rewrite fmap_app. apply NoDup_app. split_and!; [done| |apply NoDup_singleton].
    intros j Hj ->%list_elem_of_singleton. done.
  - intros j. rewrite lookup_insert_is_Some', Hdom, app_nil_r, fmap_app, elem_of_app. cbn.
    rewrite list_elem_of_singleton. naive_solver.
  - by apply qseg_frame.
  - intros j y [= -> ->]%list_elem_of_singleton. exists e. by rewrite lookup_insert_eq.
Qed.

(** Writes to one entry of the store, one after the other. *)
Lemma wp_upd_fresh q a i e f (Q : () → mem queue → Prop) :
  Q tt (Mem (set_store (<[i := f e]> (q_store q)) q) a) →
  wp (upd_qentry (Some i) f) Q (Mem (set_store (<[i := e]> (q_store q)) q) a).
Proof.
  intros HQ. apply (wp_upd_qentry _ _ _ e); cbn; [by rewrite lookup_insert_eq|].
  by rewrite insert_insert_eq.
Qed.

Lemma wp_make_entry q a xs req op key ksize ko val vsize vo nval nvsize nvo
    (Q : option nat → mem queue → Prop) :
  never_fails a → queue_rep q xs [] → req_ok req →
  arg_is key ksize ko → arg_is val vsize vo → arg_is nval nvsize nvo →
  (∀ i q' a', never_fails a' →
     queue_rep q' xs [(i, AEntry op (queued_req req) ko vo nvo)] →
     (∀ e, q_store q' !! i = Some e → q_prev e = None) → Q (Some i) (Mem q' a')) →
  wp (make_queue_long_entry req op key ksize val vsize nval nvsize) Q (Mem q a).
Proof.
  intros Ha Hq Hr Hk Hv Hn HQ. unfold make_queue_long_entry, queue_entry_create.
  wp_simpl. apply wp_malloc; [done|]. wp_simpl. cbn iota. wp_simpl.
  set (i := fresh (dom (q_store q))).
  assert (i ∉ dom (q_store q)) as Hi by apply is_fresh.
  apply (wp_copy_arg _ _ _ _ ko); [done..|]. intros a1 Ha1. cbn iota. wp_simpl.
  apply (wp_copy_arg _ _ _ _ vo); [done..|]. intros a2 Ha2. cbn iota. wp_simpl.
  apply (wp_copy_arg _ _ _ _ nvo); [done..|]. intros a3 Ha3. cbn iota. wp_simpl.
  apply wp_upd_fresh. unfold copy_req. wp_simpl. apply wp_malloc; [done|]. cbn iota. wp_simpl.
  eapply wp_dup_block; [done|by split|]. wp_simpl. apply wp_upd_fresh. cbn iota. wp_simpl.
  apply wp_upd_fresh. wp_simpl. apply HQ; [done| |].
  - apply rep_fresh; [done..|]. rewrite (arg_is_size _ _ _ Hk), (arg_is_size _ _ _ Hv),
      (arg_is_size _ _ _ Hn). split; try done. by eexists _, _.
  - intros e. cbn. rewrite lookup_insert_eq. by intros [= <-].
Qed.

Lemma wp_put_in_queue_long s a st req op sync key ksize ko val vsize vo nval nvsize nvo
    (Q : bool → mem server → Prop) :
  server_is s st → never_fails a → queue_room st → req_ok req →
  arg_is key ksize ko → arg_is val vsize vo → arg_is nval nvsize nvo →
  (∀ s' a', never_fails a' →
     server_is s' (to_queue (AEntry op (queued_req req) ko vo nvo) st) → Q true (Mem s' a')) →
  wp (put_in_queue_long req op sync key ksize val vsize nval nvsize) Q (Mem s a).
Proof.
  intros Hs Ha Hroom Hr Hk Hv Hn HQ. unfold put_in_queue_long. apply wp_bind.
  destruct (si_queue _ _ Hs) as (xs & Hq & Hxs).
  apply wp_on_queue. eapply (wp_make_entry _ _ xs); [done..|].
  intros i q' a' Ha' Hq' Hp. cbn [obj heap]. cbn iota. apply wp_bind, wp_on_queue.
  eapply wp_queue_put; [done| |done|].
  { unfold queue_room in Hroom. by rewrite <-Hxs, length_fmap in Hroom. }
  intros q2 Hq2. cbn [obj heap]. wp_simpl. apply HQ; [done|].
  change (set_queue q2 (set_queue q' s)) with (set_queue q2 s).
  apply server_is_queue; [done|]. eexists; split; [done|]. by rewrite fmap_app, Hxs.
Qed.

Lemma wp_put_in_queue s a st req op sync key ksize ko val vsize vo
    (Q : bool → mem server → Prop) :
  server_is s st → never_fails a → queue_room st → req_ok req →
  arg_is key ksize ko → arg_is val vsize vo →
  (∀ s' a', never_fails a' →
     server_is s' (to_queue (AEntry op (queued_req req) ko vo None) st) → Q true (Mem s' a')) →
  wp (put_in_queue req op sync key ksize val vsize) Q (Mem s a).
Proof. intros. by eapply (wp_put_in_queue_long _ _ _ _ _ _ _ _ ko _ _ vo None 0 None). Qed.

(** Without memory for the copies, the error path of [make_queue_long_entry]
    releases an entry whose request pointer was never initialised. *)
Theorem queue_entry_oom :
  make_queue_long_entry sample_req REQ_DEL (Some [NUL]) 1 None 0 None 0
    (Mem sample_queue (Alloc (λ n, bool_decide (n = 0%nat)) 0 NUL)) = None.
Proof. vm_compute. reflexivity. Qed.
