(* ===== verification/Parse.v ===== *)
(** * Request parsing and handling (nmdb/parse.c)

    [parse_message] and the eight handlers. The message buffer is the whole
    region the pointer points into, of which the message is the first [len]
    bytes: what lies behind the message is there too, so an access past the
    message is an access to those bytes, and an access past the region is
    undefined. Sizes keep their C types ([uint32_t] sums wrap at 2^32). *)

From S2P Require Import Prelude Words Text Chain ChainSpec Cache Net Queue Server.

Definition max_size : Z := 65536.

(** [FILL_CACHE_FLAG(op)]: counts the operation, returns [cache_only]. *)
Definition fill_cache_flag (req : req_info) (c d : stat) : MT server bool :=
  let cache_only := truth (Z.land (r_flags req) FLAGS_CACHE_ONLY) in
  count (if cache_only then c else d);; mret cache_only.

(** [FILL_SYNC_FLAG()] *)
Definition sync_flag (req : req_info) : bool := truth (Z.land (r_flags req) FLAGS_SYNC).

(** [stats.net_broken_req++; req->reply_err(req, ERR_BROKEN)] *)
Definition broken (req : req_info) : MT server () :=
  count net_broken_req;; emit (reply_err req ERR_BROKEN).

Definition is_read_only : MT server bool := s ← get_obj; mret (truth (read_only (s_settings s))).

(** The [n]-th 32-bit word of the payload, in host order. *)
Definition word (req : req_info) (n : Z) : MT server Z :=
  w ← load 4 (r_payload req) (4 * n); mret (ntohl w).

Definition parse_get (req : req_info) : MT server () :=
  ksize ← word req 0;
  if r_psize req <? ksize then broken req else
  cache_only ← fill_cache_flag req cache_get_ db_get_;
  let key := drop 4 (r_payload req) in
  r ← on_cache (cache_get key ksize);
  let '(hit, val, vsize) := r : Z * cptr * Z in
  if cache_only && negb (truth hit) then
    count cache_misses;; emit (reply_mini req REP_CACHE_MISS)
  else if negb cache_only && negb (truth hit) then
    rv ← put_in_queue req REQ_GET true (Some key) ksize None 0;
    if negb (rv : bool) then emit (reply_err req ERR_MEM) else mret tt
  else
    count cache_hits;; emit_long req REP_CACHE_HIT val vsize.

Definition parse_set (req : req_info) : MT server () :=
  ksize ← word req 0;
  vsize ← word req 1;
  if (r_psize req <? ksize) || (r_psize req <? vsize) ||
     (max_size <? ksize) || (max_size <? vsize) || (max_size <? w32 (ksize + vsize))
  then broken req else
  ro ← is_read_only;
  if ro : bool then emit (reply_err req ERR_RO) else
  cache_only ← fill_cache_flag req cache_set_ db_set_;
  let sync := sync_flag req in
  let key := drop 8 (r_payload req) in
  let val := drop (Z.to_nat ksize) key in
  rv ← on_cache (cache_set key ksize val vsize);
  if negb (rv =? 0) then emit (reply_err req ERR_MEM) else
  if negb (cache_only : bool) then
    rv ← put_in_queue req REQ_SET sync (Some key) ksize (Some val) vsize;
    if negb (rv : bool) then emit (reply_err req ERR_MEM) else
    if negb sync then emit (reply_mini req REP_OK) else mret tt
  else emit (reply_mini req REP_OK).

Definition parse_del (req : req_info) : MT server () :=
  ksize ← word req 0;
  if r_psize req <? ksize then broken req else
  ro ← is_read_only;
  if ro : bool then emit (reply_err req ERR_RO) else
  cache_only ← fill_cache_flag req cache_del_ db_del_;
  let sync := sync_flag req in
  let key := drop 4 (r_payload req) in
  hit ← on_cache (cache_del key ksize);
  if cache_only && truth hit then emit (reply_mini req REP_OK)
  else if cache_only && negb (truth hit) then emit (reply_mini req REP_NOTIN)
  else if negb (cache_only : bool) then
    rv ← put_in_queue req REQ_DEL sync (Some key) ksize None 0;
    if negb (rv : bool) then emit (reply_err req ERR_MEM) else
    if negb sync then emit (reply_mini req REP_OK) else mret tt
  else mret tt.

Definition parse_cas (req : req_info) : MT server () :=
  ksize ← word req 0;
  ovsize ← word req 1;
  nvsize ← word req 2;
  if (r_psize req <? ksize) || (r_psize req <? ovsize) || (r_psize req <? nvsize) ||
     (max_size <? ksize) || (max_size <? ovsize) || (max_size <? nvsize) ||
     (max_size <? w32 (ksize + ovsize + nvsize))
  then broken req else
  ro ← is_read_only;
  if ro : bool then emit (reply_err req ERR_RO) else
  cache_only ← fill_cache_flag req cache_cas_ db_cas_;
  let key := drop 12 (r_payload req) in
  let oldval := drop (Z.to_nat ksize) key in
  let newval := drop (Z.to_nat ovsize) oldval in
  rv ← on_cache (cache_cas key ksize oldval ovsize newval nvsize);
  if rv =? -1 then emit (reply_mini req REP_NOMATCH)
  else if rv =? -3 then emit (reply_err req ERR_MEM)
  else if (cache_only : bool) then
    if rv =? 0 then emit (reply_mini req REP_OK) else emit (reply_mini req REP_NOTIN)
  else
    rv ← put_in_queue_long req REQ_CAS true (Some key) ksize (Some oldval) ovsize
           (Some newval) nvsize;
    if negb (rv : bool) then emit (reply_err req ERR_MEM) else mret tt.

Definition parse_incr (req : req_info) : MT server () :=
  ksize ← word req 0;
  if (r_psize req <? w32 (ksize + 8)) || (max_size <? w32 (ksize + 8)) then broken req else
  ro ← is_read_only;
  if ro : bool then emit (reply_err req ERR_RO) else
  cache_only ← fill_cache_flag req cache_incr_ db_incr_;
  let key := drop 4 (r_payload req) in
  w ← load 8 key ksize;
  let increment := s64 (ntohll w) in
  r ← on_cache (cache_incr key ksize increment);
  let '(cres, newval) := r : Z * option Z in
  if cres =? -3 then emit (reply_err req ERR_MEM)
  else if cres =? -2 then emit (reply_mini req REP_NOMATCH)
  else if negb (cache_only : bool) then
    rv ← put_in_queue req REQ_INCR true (Some key) ksize
           (Some (store_le 8 (w64 increment))) 8;
    if negb (rv : bool) then emit (reply_err req ERR_MEM) else mret tt
  else if cres =? -1 then emit (reply_mini req REP_NOTIN)
  else
    nv ← lift_opt newval;
    emit_long req REP_OK (Block (store_le 8 (htonll (w64 nv)))) 8.

Definition parse_firstkey (req : req_info) : MT server () :=
  count db_firstkey_;;
  rv ← put_in_queue req REQ_FIRSTKEY true None 0 None 0;
  if negb (rv : bool) then emit (reply_err req ERR_MEM) else mret tt.

Definition parse_nextkey (req : req_info) : MT server () :=
  ksize ← word req 0;
  if r_psize req <? ksize then broken req else
  count db_nextkey_;;
  let key := drop 4 (r_payload req) in
  rv ← put_in_queue req REQ_NEXTKEY true (Some key) ksize None 0;
  if negb (rv : bool) then emit (reply_err req ERR_MEM) else mret tt.

(** The fields in the order [parse_stats] packs them. *)
Definition stats_order : list stat :=
  [cache_get_; cache_set_; cache_del_; cache_cas_; cache_incr_;
   db_get_; db_set_; db_del_; db_cas_; db_incr_;
   cache_hits; cache_misses; db_hits; db_misses;
   msg_tipc; msg_tcp; msg_udp; msg_sctp;
   net_version_mismatch; net_broken_req; net_unk_req; db_firstkey_; db_nextkey_].

Definition parse_stats (req : req_info) : MT server () :=
  s ← get_obj;
  let response := concat (map (λ f, store_le 8 (htonll (s_stats s f))) stats_order) in
  emit_long req REP_OK (Block response) (Z.of_nat (8 * STATS_REPLY_SIZE)).

Definition dispatch (req : req_info) : MT server () :=
  let c := r_cmd req in
  if c =? REQ_GET then parse_get req
  else if c =? REQ_SET then parse_set req
  else if c =? REQ_DEL then parse_del req
  else if c =? REQ_CAS then parse_cas req
  else if c =? REQ_INCR then parse_incr req
  else if c =? REQ_FIRSTKEY then parse_firstkey req
  else if c =? REQ_NEXTKEY then parse_nextkey req
  else if c =? REQ_STATS then parse_stats req
  else count net_unk_req;; emit (reply_err req ERR_UNKREQ).

(** Returns 0 (false) on a version mismatch, whose reply carries the ID before
    it is put back in network order. *)
Definition parse_message (req : req_info) (buf : bytes) (len : Z) : MT server bool :=
  h ← load 4 buf 0;
  let hdr := htonl h in
  let ver := Z.shiftr (Z.land hdr 0xF0000000) 28 in
  let i := Z.land hdr 0x0FFFFFFF in
  let req := set_id i req in
  c ← load 2 buf 4;
  f ← load 2 buf 6;
  if negb (ver =? PROTO_VER) then
    count net_version_mismatch;; emit (reply_err req ERR_VER);; mret false
  else
    dispatch (set_msg (htonl i) (ntohs c) (ntohs f) (drop 8 buf) (w64 (len - 8)) req);;
    mret true.
