(* ===== verification/ParseSpec.v ===== *)
(** * What request handling does

    The handlers of Parse.v, split in two: [decode], a pure parser of the
    payload, and [handle], the effect of a decoded request on the abstract
    state. [parse_message] is proved to be their composition, and [decode] to
    invert the encoding the protocol's documentation gives. *)

From S2P Require Import Prelude Words Text Chain ChainSpec Cache Net Queue Server Parse.

(** ** Decoding *)

Inductive areq :=
  | AGet (k : bytes)
  | ASet (k v : bytes)
  | ADel (k : bytes)
  | ACas (k old new : bytes)
  | AIncr (k : bytes) (n : Z)
  | AFirstkey
  | ANextkey (k : bytes)
  | AStats
  | AUnknown
  | ABroken.

Definition word_at (p : bytes) (n : nat) : option Z :=
  if in_block p (4 * Z.of_nat n + 4) then Some (be_combine (take 4 (drop (4 * n) p))) else None.

(** [n] bytes at [off]: [None] when they are not all in the region. *)
Definition bytes_at (p : bytes) (off n : Z) : option bytes :=
  if in_block p (off + n) then Some (take (Z.to_nat n) (drop (Z.to_nat off) p)) else None.

(** The payload [p] of a request, declared [psize] bytes long, whose command
    is [c]. [None]: the handler would read outside the region. *)
Definition decode (c psize : Z) (p : bytes) : option areq :=
  if c =? REQ_GET then
    ks ← word_at p 0;
    if psize <? ks then Some ABroken else k ← bytes_at p 4 ks; Some (AGet k)
  else if c =? REQ_SET then
    ks ← word_at p 0; vs ← word_at p 1;
    if (psize <? ks) || (psize <? vs) || (max_size <? ks + vs) then Some ABroken else
    k ← bytes_at p 8 ks; v ← bytes_at p (8 + ks) vs; Some (ASet k v)
  else if c =? REQ_DEL then
    ks ← word_at p 0;
    if psize <? ks then Some ABroken else k ← bytes_at p 4 ks; Some (ADel k)
  else if c =? REQ_CAS then
    ks ← word_at p 0; os ← word_at p 1; ns ← word_at p 2;
    if (psize <? ks) || (psize <? os) || (psize <? ns) || (max_size <? ks + os + ns)
    then Some ABroken else
    k ← bytes_at p 12 ks; o ← bytes_at p (12 + ks) os; n ← bytes_at p (12 + ks + os) ns;
    Some (ACas k o n)
  else if c =? REQ_INCR then
    ks ← word_at p 0;
    if (psize <? w32 (ks + 8)) || (max_size <? w32 (ks + 8)) then Some ABroken else
    k ← bytes_at p 4 ks; i ← bytes_at p (4 + ks) 8; Some (AIncr k (s64 (be_combine i)))
  else if c =? REQ_FIRSTKEY then Some AFirstkey
  else if c =? REQ_NEXTKEY then
    ks ← word_at p 0;
    if psize <? ks then Some ABroken else k ← bytes_at p 4 ks; Some (ANextkey k)
  else if c =? REQ_STATS then Some AStats
  else Some AUnknown.

(** ** Handling *)

Definition cache_only (req : req_info) : bool := truth (Z.land (r_flags req) FLAGS_CACHE_ONLY).

Definition queued (req : req_info) (op : Z) (k v nv : option bytes) : aentry :=
  AEntry op (queued_req req) k v nv.

Definition a_read_only (st : astate) : bool := truth (read_only (as_settings st)).

(** The reply to a statistics request: 23 big-endian 64-bit counters. *)
Definition stats_payload (t : stats) : bytes :=
  concat (map (λ f, be_split 8 (t f)) stats_order).

Definition handle (req : req_info) (m : areq) (st : astate) : astate :=
  let co := cache_only req in
  match m with
  | AGet k =>
      let st1 := to_stats (if co then cache_get_ else db_get_) st in
      match a_lookup k (as_cache st) with
      | Some v => to_out (reply_long req REP_CACHE_HIT v) (to_stats cache_hits st1)
      | None =>
          if co then to_out (reply_mini req REP_CACHE_MISS) (to_stats cache_misses st1)
          else to_queue (queued req REQ_GET (Some k) None None) st1
      end
  | ASet k v =>
      if a_read_only st then to_out (reply_err req ERR_RO) st else
      let st1 := to_cache (a_set k v) (to_stats (if co then cache_set_ else db_set_) st) in
      if co then to_out (reply_mini req REP_OK) st1 else
      let st2 := to_queue (queued req REQ_SET (Some k) (Some v) None) st1 in
      if sync_flag req then st2 else to_out (reply_mini req REP_OK) st2
  | ADel k =>
      if a_read_only st then to_out (reply_err req ERR_RO) st else
      let st1 := to_cache (a_del k) (to_stats (if co then cache_del_ else db_del_) st) in
      if co then
        to_out (reply_mini req (match a_lookup k (as_cache st) with
                                | Some _ => REP_OK | None => REP_NOTIN end)) st1
      else
      let st2 := to_queue (queued req REQ_DEL (Some k) None None) st1 in
      if sync_flag req then st2 else to_out (reply_mini req REP_OK) st2
  | ACas k o n =>
      if a_read_only st then to_out (reply_err req ERR_RO) st else
      let st1 := to_cache (a_cas k o n) (to_stats (if co then cache_cas_ else db_cas_) st) in
      match a_lookup k (as_cache st) with
      | Some v =>
          if decide (v = o) then
            if co then to_out (reply_mini req REP_OK) st1
            else to_queue (queued req REQ_CAS (Some k) (Some o) (Some n)) st1
          else to_out (reply_mini req REP_NOMATCH) st1
      | None =>
          if co then to_out (reply_mini req REP_NOTIN) st1
          else to_queue (queued req REQ_CAS (Some k) (Some o) (Some n)) st1
      end
  | AIncr k n =>
      if a_read_only st then to_out (reply_err req ERR_RO) st else
      let st1 := to_cache (a_incr k n) (to_stats (if co then cache_incr_ else db_incr_) st) in
      let later := to_queue (queued req REQ_INCR (Some k) (Some (store_le 8 (w64 n))) None) st1 in
      match a_lookup k (as_cache st) with
      | Some v =>
          if ends_nul v then
            if co then to_out (reply_long req REP_OK (be_split 8 (w64 (incr_num v n)))) st1
            else later
          else to_out (reply_mini req REP_NOMATCH) st1
      | None => if co then to_out (reply_mini req REP_NOTIN) st1 else later
      end
  | AFirstkey =>
      to_queue (queued req REQ_FIRSTKEY None None None) (to_stats db_firstkey_ st)
  | ANextkey k =>
      to_queue (queued req REQ_NEXTKEY (Some k) None None) (to_stats db_nextkey_ st)
  | AStats => to_out (reply_long req REP_OK (stats_payload (as_stats st))) st
  | AUnknown => to_out (reply_err req ERR_UNKREQ) (to_stats net_unk_req st)
  | ABroken => to_out (reply_err req ERR_BROKEN) (to_stats net_broken_req st)
  end.

(** An increment never meets an empty value. *)
Definition incr_safe (m : areq) (st : astate) : Prop :=
  match m with AIncr k _ => incr_defined (a_lookup k (as_cache st)) | _ => True end.

(** ** The handlers *)

Lemma be_combine_nonneg b : 0 ≤ be_combine b.
Proof. apply be_combine_bound. Qed.

Lemma bytes_at_denotes p off n k :
  0 ≤ off → 0 ≤ n → bytes_at p off n = Some k → denotes (drop (Z.to_nat off) p) n k.
Proof.
  unfold bytes_at. intros Ho Hn. destruct (in_block p (off + n)) eqn:E; [|done].
  apply in_block_spec in E. intros [= <-]. split; [|done]. rewrite length_drop. lia.
Qed.

Section handlers.
Context (req : req_info) (Hreq : req_ok req).
Context (s : server) (a : alloc) (st : astate).
Context (Hs : server_is s st) (Ha : never_fails a) (Hroom : queue_room st).

Lemma wp_word n z (Q : Z → mem server → Prop) s0 :
  word_at (r_payload req) n = Some z → Q z s0 → wp (word req (Z.of_nat n)) Q s0.
Proof.
  unfold word_at, word. destruct (in_block _ _) eqn:E; [|done]. apply in_block_spec in E.
  intros [= <-] HQ. wp_simpl. apply wp_load; [lia..|]. wp_simpl.
  rewrite ntohl_le_combine; [by replace (Z.to_nat (4 * Z.of_nat n)) with (4 * n)%nat by lia|].
  rewrite length_take, length_drop. lia.
Qed.

Definition done_with (st' : astate) (_ : ()) (t : mem server) : Prop :=
  never_fails (heap t) ∧ server_is (obj t) st'.

Lemma wp_broken : wp (broken req) (done_with (handle req ABroken st)) (Mem s a).
Proof.
  unfold broken. wp_simpl. eapply wp_count; [done|]. intros s1 H1.
  eapply wp_emit; [done|]. by intros.
Qed.

(** The flag and the statistics. *)
Lemma wp_fill c d (Q : bool → mem server → Prop) :
  (∀ s', server_is s' (to_stats (if cache_only req then c else d) st) →
     Q (cache_only req) (Mem s' a)) →
  wp (fill_cache_flag req c d) Q (Mem s a).
Proof.
  intros HQ. unfold fill_cache_flag. wp_simpl. eapply wp_count; [done|].
  intros s' Hs'. wp_simpl. by apply HQ.
Qed.
End handlers.

(** Queueing, then what the handler does when that succeeded. *)
Lemma wp_queue_then req s a st op sync key ksize ko val vsize vo st' (m : MT server ()) :
  server_is s st → never_fails a → queue_room st → req_ok req →
  arg_is key ksize ko → arg_is val vsize vo →
  (∀ s' a', never_fails a' → server_is s' (to_queue (queued req op ko vo None) st) →
     wp m (done_with st') (Mem s' a')) →
  wp (rv ← put_in_queue req op sync key ksize val vsize;
      if negb (rv : bool) then emit (reply_err req ERR_MEM) else m)
     (done_with st') (Mem s a).
Proof.
  intros Hs Ha Hroom Hr Hk Hv Hm. wp_simpl.
  eapply wp_put_in_queue; [done..|]. intros s' a' Ha' Hs'. cbn [negb]. by apply Hm.
Qed.

Lemma wp_emit_done s a st r :
  server_is s st → never_fails a → wp (emit r) (done_with (to_out r st)) (Mem s a).
Proof. intros. eapply wp_emit; [done|]. by intros. Qed.

Lemma wp_ret_done s a st :
  server_is s st → never_fails a → wp (mret tt) (done_with st) (Mem s a).
Proof. intros. wp_simpl. by split. Qed.

#[export] Hint Resolve wp_emit_done wp_ret_done : nmdb.

(** Queueing, and nothing else when it succeeded. *)
Lemma wp_queue_ret req s a st op sync key ksize ko val vsize vo :
  server_is s st → never_fails a → queue_room st → req_ok req →
  arg_is key ksize ko → arg_is val vsize vo →
  wp (rv ← put_in_queue req op sync key ksize val vsize;
      if negb (rv : bool) then emit (reply_err req ERR_MEM) else mret tt)
     (done_with (to_queue (queued req op ko vo None) st)) (Mem s a).
Proof. intros. eapply wp_queue_then; eauto with nmdb. Qed.

Section handler_specs.
Context (req : req_info) (Hreq : req_ok req).
Context (s : server) (a : alloc) (st : astate).
Context (Hs : server_is s st) (Ha : never_fails a) (Hroom : queue_room st).

Abbreviation decoded c m := (decode c (r_psize req) (r_payload req) = Some m).
Abbreviation handles f m := (wp f (done_with (handle req m st)) (Mem s a)).

Lemma word_at_nonneg p n z : word_at p n = Some z → 0 ≤ z < 2 ^ 32.
Proof.
  unfold word_at. destruct (in_block _ _) eqn:E; [|done]. apply in_block_spec in E.
  intros [= <-]. pose proof (be_combine_bound (take 4 (drop (4 * n) p))) as H.
  rewrite length_take, length_drop in H. replace (4 `min` _)%nat with 4%nat in H by lia. done.
Qed.

Lemma wp_parse_get m : decoded REQ_GET m → handles (parse_get req) m.
Proof.
  unfold decode. cbn [Z.eqb REQ_GET Pos.eqb]. intros (ks & Hks & H)%bind_Some.
  pose proof (word_at_nonneg _ _ _ Hks).
  unfold parse_get. apply wp_bind, (wp_word _ 0 ks); [done|].
  destruct (r_psize req <? ks) eqn:E; simplify_eq; [by apply wp_broken|].
  apply bind_Some in H as (k & Hk & [= <-]).
  apply bytes_at_denotes in Hk; [|lia..]. change (Z.to_nat 4) with 4%nat in Hk.
  apply wp_bind. eapply wp_fill; [done|]. intros s1 Hs1.
  apply wp_bind, wp_on_cache. eapply wp_cache_get; [apply Hs1|done|].
  cbn [obj heap handle as_cache to_stats].
  replace (set_cache (s_cache s1) s1) with s1 by by destruct s1.
  destruct (a_lookup k (as_cache st)) as [v|]; cbn iota; cbn [truth negb].
  - change (truth 1) with true. rewrite !andb_false_r. wp_simpl.
    eapply wp_count; [done|]. intros s2 Hs2. eapply wp_emit_long; [done|]. by intros.
  - change (truth 0) with false. rewrite !andb_true_r.
    destruct (cache_only req); cbn [negb]; wp_simpl.
    + eapply wp_count; [done|]. intros s2 Hs2. eauto with nmdb.
    + eapply (wp_put_in_queue _ _ _ _ _ _ _ _ (Some k) _ _ None); [done..|]. intros s2 a2 Ha2 Hs2. cbn [negb]. eauto with nmdb.
Qed.

Lemma in_w32 n : 0 ≤ n ≤ 4 * max_size → w32 n = n.
Proof. unfold max_size. intros. apply w32_small. lia. Qed.

(** The read-only guard of the handlers that change the data. *)
Lemma wp_guard m (f : MT server ()) st' :
  handle req m st = (if a_read_only st then to_out (reply_err req ERR_RO) st else st') →
  wp f (done_with st') (Mem s a) →
  handles (ro ← is_read_only; if ro : bool then emit (reply_err req ERR_RO) else f) m.
Proof.
  intros Hm Hf. rewrite Hm. unfold is_read_only. wp_simpl. rewrite (si_settings _ _ Hs).
  fold (a_read_only st). destruct (a_read_only st); [|done]. by apply wp_emit_done.
Qed.

(** The size checks of [parse_set]: the sum cannot wrap once its terms are
    within bounds. *)
Lemma set_checks ks vs :
  0 ≤ ks < 2 ^ 32 → 0 ≤ vs < 2 ^ 32 →
  (r_psize req <? ks) || (r_psize req <? vs) || (max_size <? ks) || (max_size <? vs) ||
    (max_size <? w32 (ks + vs)) =
  (r_psize req <? ks) || (r_psize req <? vs) || (max_size <? ks + vs).
Proof.
  intros Hk Hv. destruct (r_psize req <? ks), (r_psize req <? vs); cbn [orb]; try done.
  destruct (max_size <? ks) eqn:E1; [|destruct (max_size <? vs) eqn:E2]; cbn [orb].
  - symmetry. apply Z.ltb_lt in E1. apply Z.ltb_lt. lia.
  - symmetry. apply Z.ltb_lt in E2. apply Z.ltb_lt. lia.
  - apply Z.ltb_ge in E1, E2. by rewrite in_w32 by lia.
Qed.

Lemma cas_checks ks os ns :
  0 ≤ ks < 2 ^ 32 → 0 ≤ os < 2 ^ 32 → 0 ≤ ns < 2 ^ 32 →
  (r_psize req <? ks) || (r_psize req <? os) || (r_psize req <? ns) || (max_size <? ks) ||
    (max_size <? os) || (max_size <? ns) || (max_size <? w32 (ks + os + ns)) =
  (r_psize req <? ks) || (r_psize req <? os) || (r_psize req <? ns) ||
    (max_size <? ks + os + ns).
Proof.
  intros Hk Ho Hn.
  destruct (r_psize req <? ks), (r_psize req <? os), (r_psize req <? ns); cbn [orb]; try done.
  destruct (max_size <? ks) eqn:E1; [|destruct (max_size <? os) eqn:E2;
    [|destruct (max_size <? ns) eqn:E3]]; cbn [orb].
  - symmetry. apply Z.ltb_lt in E1. apply Z.ltb_lt. lia.
  - symmetry. apply Z.ltb_lt in E2. apply Z.ltb_lt. lia.
  - symmetry. apply Z.ltb_lt in E3. apply Z.ltb_lt. lia.
  - apply Z.ltb_ge in E1, E2, E3. by rewrite in_w32 by lia.
Qed.

Lemma denotes_small p n k : denotes p n k → n < 2 ^ 32 → key_ok k.
Proof. intros H Hn. unfold key_ok, SIZE_MAX. rewrite (denotes_length _ _ _ H). lia. Qed.

Lemma drop_off {A} (l : list A) x y : 0 ≤ x → 0 ≤ y →
  drop (Z.to_nat y) (drop (Z.to_nat x) l) = drop (Z.to_nat (x + y)) l.
Proof. intros. rewrite drop_drop. f_equal. lia. Qed.

Lemma wp_parse_set m : decoded REQ_SET m → handles (parse_set req) m.
Proof.
  unfold decode. cbn [Z.eqb REQ_SET REQ_GET Pos.eqb].
  intros (ks & Hks & (vs & Hvs & H)%bind_Some)%bind_Some.
  pose proof (word_at_nonneg _ _ _ Hks). pose proof (word_at_nonneg _ _ _ Hvs).
  unfold parse_set. apply wp_bind, (wp_word _ 0 ks); [done|].
  apply wp_bind, (wp_word _ 1 vs); [done|]. rewrite set_checks by done.
  destruct ((r_psize req <? ks) || _ || _) eqn:E; simplify_eq; [by apply wp_broken|].
  apply bind_Some in H as (k & Hk & (v & Hv & [= <-])%bind_Some).
  apply bytes_at_denotes in Hk; [|lia..]. apply bytes_at_denotes in Hv; [|lia..].
  rewrite <-drop_off in Hv by lia. change (Z.to_nat 8) with 8%nat in Hk, Hv.
  eapply wp_guard; [done|].
  apply wp_bind. eapply wp_fill; [done|]. intros s1 Hs1.
  apply wp_bind, wp_on_cache.
  eapply wp_cache_set; [apply Hs1|done|done|eapply denotes_small; [done|lia]|done|].
  intros cd a1 Ha1 Hcd. cbn [obj heap]. cbn [Z.eqb negb].
  apply (server_is_cache _ _ Hs1) in Hcd as Hs2.
  destruct (cache_only req); cbn [negb]; [by apply wp_emit_done|].
  eapply (wp_queue_then _ _ _ _ _ _ _ _ (Some k) _ _ (Some v)); [done..|].
  intros s3 a3 Ha3 Hs3. destruct (sync_flag req); cbn [negb]; eauto with nmdb.
Qed.

Lemma wp_parse_del m : decoded REQ_DEL m → handles (parse_del req) m.
Proof.
  unfold decode. cbn [Z.eqb REQ_DEL REQ_SET REQ_GET Pos.eqb].
  intros (ks & Hks & H)%bind_Some. pose proof (word_at_nonneg _ _ _ Hks).
  unfold parse_del. apply wp_bind, (wp_word _ 0 ks); [done|].
  destruct (r_psize req <? ks) eqn:E; simplify_eq; [by apply wp_broken|].
  apply bind_Some in H as (k & Hk & [= <-]).
  apply bytes_at_denotes in Hk; [|lia..]. change (Z.to_nat 4) with 4%nat in Hk.
  eapply wp_guard; [done|].
  apply wp_bind. eapply wp_fill; [done|]. intros s1 Hs1.
  apply wp_bind, wp_on_cache. eapply wp_cache_del; [apply Hs1|done|].
  intros cd Hcd. cbn [obj heap]. apply (server_is_cache _ _ Hs1) in Hcd as Hs2.
  cbn [as_cache to_stats]. destruct (cache_only req); cbn [negb andb].
  - destruct (a_lookup k (as_cache st)); cbn [truth Z.eqb negb]; eauto with nmdb.
  - eapply (wp_queue_then _ _ _ _ _ _ _ _ (Some k) _ _ None); [done..|].
    intros s3 a3 Ha3 Hs3. destruct (sync_flag req); cbn [negb]; eauto with nmdb.
Qed.

Lemma wp_parse_cas m : decoded REQ_CAS m → handles (parse_cas req) m.
Proof.
  unfold decode. cbn [Z.eqb REQ_CAS REQ_DEL REQ_SET REQ_GET Pos.eqb].
  intros (ks & Hks & (os & Hos & (ns & Hns & H)%bind_Some)%bind_Some)%bind_Some.
  pose proof (word_at_nonneg _ _ _ Hks). pose proof (word_at_nonneg _ _ _ Hos).
  pose proof (word_at_nonneg _ _ _ Hns).
  unfold parse_cas. apply wp_bind, (wp_word _ 0 ks); [done|].
  apply wp_bind, (wp_word _ 1 os); [done|]. apply wp_bind, (wp_word _ 2 ns); [done|].
  rewrite cas_checks by done.
  destruct ((r_psize req <? ks) || _ || _ || _) eqn:E; simplify_eq; [by apply wp_broken|].
  apply bind_Some in H as (k & Hk & (o & Ho & (n & Hn & [= <-])%bind_Some)%bind_Some).
  apply bytes_at_denotes in Hk; [|lia..]. apply bytes_at_denotes in Ho; [|lia..].
  apply bytes_at_denotes in Hn; [|lia..].
  rewrite <-!drop_off in Hn by lia. rewrite <-drop_off in Ho by lia.
  change (Z.to_nat 12) with 12%nat in Hk, Ho, Hn.
  eapply wp_guard; [done|].
  apply wp_bind. eapply wp_fill; [done|]. intros s1 Hs1.
  apply wp_bind, wp_on_cache.
  eapply wp_cache_cas; [apply Hs1|done|done|done|done|].
  intros cd a1 Ha1 Hcd. cbn [obj heap]. apply (server_is_cache _ _ Hs1) in Hcd as Hs2.
  cbn [as_cache to_stats].
  assert (∀ s2, server_is s2 (to_cache (a_cas k o n)
      (to_stats (if cache_only req then cache_cas_ else db_cas_) st)) →
    wp (rv ← put_in_queue_long req REQ_CAS true (Some (drop 12 (r_payload req))) ks
          (Some (drop (Z.to_nat ks) (drop 12 (r_payload req)))) os
          (Some (drop (Z.to_nat os) (drop (Z.to_nat ks) (drop 12 (r_payload req))))) ns;
        if negb (rv : bool) then emit (reply_err req ERR_MEM) else mret tt)
      (done_with (to_queue (queued req REQ_CAS (Some k) (Some o) (Some n)) (to_cache (a_cas k o n)
         (to_stats (if cache_only req then cache_cas_ else db_cas_) st)))) (Mem s2 a1)) as Hput.
  { intros s2 Hs2'. wp_simpl.
    eapply (wp_put_in_queue_long _ _ _ _ _ _ _ _ (Some k) _ _ (Some o) _ _ (Some n)); [done..|].
    intros s3 a3 Ha3 Hs3. cbn [negb]. by apply wp_ret_done. }
  specialize (Hput _ Hs2).
  destruct (a_lookup k (as_cache st)) as [v|]; cbn [cas_result];
    [destruct (decide (v = o))|]; cbn [Z.eqb Pos.eqb];
    destruct (cache_only req); try done; by apply wp_emit_done.
Qed.

Lemma wp_parse_incr m :
  decoded REQ_INCR m → incr_safe m st →
  (∀ ks, word_at (r_payload req) 0 = Some ks → ks < 2 ^ 32 - 8) →
  handles (parse_incr req) m.
Proof.
  unfold decode. cbn [Z.eqb REQ_INCR REQ_CAS REQ_DEL REQ_SET REQ_GET Pos.eqb].
  intros (ks & Hks & H)%bind_Some Hsafe Hwrap. pose proof (word_at_nonneg _ _ _ Hks).
  unfold parse_incr. apply wp_bind, (wp_word _ 0 ks); [done|].
  destruct ((r_psize req <? w32 (ks + 8)) || _) eqn:E; simplify_eq; [by apply wp_broken|].
  apply bind_Some in H as (k & Hk & (i & Hi & [= <-])%bind_Some).
  apply bytes_at_denotes in Hk; [|lia..]. apply bytes_at_denotes in Hi; [|lia..].
  rewrite <-drop_off in Hi by lia. change (Z.to_nat 4) with 4%nat in Hk, Hi.
  eapply wp_guard; [done|].
  apply wp_bind. eapply wp_fill; [done|]. intros s1 Hs1.
  apply wp_bind. destruct Hi as [Hir Hit]. rewrite length_drop in Hir.
  apply wp_load; [lia|lia|].
  change (take (Z.to_nat 8)) with (take (A := byte) 8) in Hit. rewrite Hit.
  rewrite ntohll_le_combine.
  2:{ rewrite <-Hit, length_take, length_drop. lia. }
  set (n := s64 (be_combine i)). set (q := to_stats _ _) in Hs1.
  apply wp_bind, wp_on_cache.
  eapply (wp_cache_incr _ _ _ (si_cache _ _ Hs1)); [done|done|done|].
  intros cd a1 Ha1 Hcd. cbn [obj heap]. apply (server_is_cache _ _ Hs1) in Hcd as Hs2.
  cbn [as_cache to_stats q]. unfold q in Hs2. cbn [handle]. clear Hcd.
  unfold incr_result.
  destruct (a_lookup k (as_cache st)) as [v|]; [destruct (ends_nul v)|]; cbn [Z.eqb Pos.eqb].
  - destruct (cache_only req); cbn [negb].
    + wp_simpl. pose proof (length_be_split 8 (w64 (incr_num v n))) as Hl.
      rewrite <-le_split_htonll in Hl |- *.
      replace 8 with (Z.of_nat (length (store_le 8 (htonll (w64 (incr_num v n))))))
        by (unfold store_le; by rewrite Hl).
      eapply wp_emit_long; [done|]. intros s4 Hs4. split; [done|]. exact Hs4.
    + apply (wp_queue_ret _ _ _ _ _ _ _ _ (Some k) _ _ (Some (store_le 8 (w64 n)))); try done.
  - by apply wp_emit_done.
  - destruct (cache_only req); cbn [negb]; [by apply wp_emit_done|].
    apply (wp_queue_ret _ _ _ _ _ _ _ _ (Some k) _ _ (Some (store_le 8 (w64 n)))); try done.
Qed.

Lemma wp_parse_firstkey : handles (parse_firstkey req) AFirstkey.
Proof.
  unfold parse_firstkey. apply wp_bind. eapply wp_count; [done|]. intros s1 Hs1.
  by apply (wp_queue_ret _ _ _ _ _ _ _ _ None _ _ None).
Qed.

Lemma wp_parse_nextkey m : decoded REQ_NEXTKEY m → handles (parse_nextkey req) m.
Proof.
  unfold decode. cbn [Z.eqb REQ_NEXTKEY REQ_FIRSTKEY REQ_INCR REQ_CAS REQ_DEL REQ_SET REQ_GET Pos.eqb].
  intros (ks & Hks & H)%bind_Some. pose proof (word_at_nonneg _ _ _ Hks).
  unfold parse_nextkey. apply wp_bind, (wp_word _ 0 ks); [done|].
  destruct (r_psize req <? ks) eqn:E; simplify_eq; [by apply wp_broken|].
  apply bind_Some in H as (k & Hk & [= <-]).
  apply bytes_at_denotes in Hk; [|lia..]. change (Z.to_nat 4) with 4%nat in Hk.
  apply wp_bind. eapply wp_count; [done|]. intros s1 Hs1.
  by apply (wp_queue_ret _ _ _ _ _ _ _ _ (Some k) _ _ None).
Qed.

Lemma stats_response t :
  concat (map (λ f, store_le 8 (htonll (t f))) stats_order) = stats_payload t.
Proof.
  unfold stats_payload. f_equal. apply map_ext. intros f. apply le_split_htonll.
Qed.

Lemma length_stats_payload t : length (stats_payload t) = (8 * STATS_REPLY_SIZE)%nat.
Proof. unfold stats_payload, stats_order. cbn [map concat]. by rewrite !length_app, !length_be_split. Qed.

Lemma wp_parse_stats : handles (parse_stats req) AStats.
Proof.
  unfold parse_stats. wp_simpl. rewrite stats_response, (si_stats _ _ Hs).
  rewrite <-(length_stats_payload (as_stats st)). eapply wp_emit_long; [done|]. by intros.
Qed.
End handler_specs.

(** ** Messages *)

(** The size of an increment's key, before 8 is added to it, is far from the
    bound of [uint32_t]. *)
Definition incr_no_wrap (c : Z) (p : bytes) : Prop :=
  c = REQ_INCR → ∀ ks, word_at p 0 = Some ks → ks < 2 ^ 32 - 8.

Lemma wp_dispatch req s a st m :
  req_ok req → server_is s st → never_fails a → queue_room st →
  decode (r_cmd req) (r_psize req) (r_payload req) = Some m → incr_safe m st →
  incr_no_wrap (r_cmd req) (r_payload req) →
  wp (dispatch req) (done_with (handle req m st)) (Mem s a).
Proof.
  intros Hr Hs Ha Hroom Hd Hsafe Hwrap. unfold dispatch.
  destruct (r_cmd req =? REQ_GET) eqn:E1;
    [apply Z.eqb_eq in E1; rewrite E1 in Hd; by apply wp_parse_get|].
  destruct (r_cmd req =? REQ_SET) eqn:E2;
    [apply Z.eqb_eq in E2; rewrite E2 in Hd; by apply wp_parse_set|].
  destruct (r_cmd req =? REQ_DEL) eqn:E3;
    [apply Z.eqb_eq in E3; rewrite E3 in Hd; by apply wp_parse_del|].
  destruct (r_cmd req =? REQ_CAS) eqn:E4;
    [apply Z.eqb_eq in E4; rewrite E4 in Hd; by apply wp_parse_cas|].
  destruct (r_cmd req =? REQ_INCR) eqn:E5;
    [apply Z.eqb_eq in E5; rewrite E5 in Hd; apply wp_parse_incr; auto|].
  unfold decode in Hd. rewrite E1, E2, E3, E4, E5 in Hd.
  destruct (r_cmd req =? REQ_FIRSTKEY) eqn:E6; [simplify_eq; by apply wp_parse_firstkey|].
  destruct (r_cmd req =? REQ_NEXTKEY) eqn:E7; [by apply wp_parse_nextkey|].
  destruct (r_cmd req =? REQ_STATS) eqn:E8; [simplify_eq; by apply wp_parse_stats|].
  simplify_eq. wp_simpl. eapply wp_count; [done|]. intros s1 Hs1. by apply wp_emit_done.
Qed.

(** The fields of a message's header. *)
Definition msg_hdr (buf : bytes) : Z := be_combine (take 4 buf).
Definition msg_ver (buf : bytes) : Z := Z.shiftr (Z.land (msg_hdr buf) 0xF0000000) 28.
Definition msg_id (buf : bytes) : Z := Z.land (msg_hdr buf) 0x0FFFFFFF.
Definition msg_cmd (buf : bytes) : Z := be_combine (take 2 (drop 4 buf)).
Definition msg_flags (buf : bytes) : Z := be_combine (take 2 (drop 6 buf)).

(** The request once [parse_message] has filled it in. *)
Definition filled (req : req_info) (buf : bytes) (len : Z) : req_info :=
  set_msg (htonl (msg_id buf)) (msg_cmd buf) (msg_flags buf) (drop 8 buf) (w64 (len - 8)) req.

Lemma wp_parse_message req buf len s a st (Q : bool → mem server → Prop) :
  req_ok req → server_is s st → never_fails a → queue_room st →
  (8 ≤ length buf)%nat →
  (msg_ver buf ≠ PROTO_VER → ∀ t,
     done_with (to_out (reply_err (set_id (msg_id buf) req) ERR_VER)
                  (to_stats net_version_mismatch st)) tt t → Q false t) →
  (msg_ver buf = PROTO_VER → ∃ m,
     decode (msg_cmd buf) (w64 (len - 8)) (drop 8 buf) = Some m ∧
     incr_safe m st ∧ incr_no_wrap (msg_cmd buf) (drop 8 buf) ∧
     ∀ t, done_with (handle (filled req buf len) m st) tt t → Q true t) →
  wp (parse_message req buf len) Q (Mem s a).
Proof.
  intros Hr Hs Ha Hroom Hlen Hbad Hgood. unfold parse_message.
  apply wp_bind, wp_load; [lia..|]. apply wp_bind, wp_load; [lia..|].
  apply wp_bind, wp_load; [lia..|].
  rewrite drop_0, ntohl_le_combine by (rewrite length_take; lia).
  change (Z.to_nat 4) with 4%nat. change (Z.to_nat 6) with 6%nat. cbn zeta.
  fold (msg_hdr buf) (msg_id buf) (msg_ver buf).
  destruct (msg_ver buf =? PROTO_VER) eqn:E; cbn [negb].
  - apply Z.eqb_eq in E. destruct (Hgood E) as (m & Hd & Hsafe & Hwrap & HQ).
    rewrite !ntohs_le_combine by (rewrite length_take, length_drop; lia).
    fold (msg_cmd buf) (msg_flags buf).
    change (set_msg _ _ _ _ _ (set_id _ req)) with (filled req buf len).
    apply wp_bind. eapply wp_mono; [apply (wp_dispatch _ _ _ st m); done|].
    intros [] t Ht. wp_simpl. by apply HQ.
  - apply Z.eqb_neq in E. apply wp_bind. eapply wp_count; [done|]. intros s1 Hs1.
    apply wp_bind. eapply wp_emit; [done|]. intros s2 Hs2. wp_simpl. by apply (Hbad E).
Qed.

(** ** Encoding (doc/network.rst) *)

Definition op_code (m : areq) : Z :=
  match m with
  | AGet _ => REQ_GET
  | ASet _ _ => REQ_SET
  | ADel _ => REQ_DEL
  | ACas _ _ _ => REQ_CAS
  | AIncr _ _ => REQ_INCR
  | AFirstkey => REQ_FIRSTKEY
  | ANextkey _ => REQ_NEXTKEY
  | _ => REQ_STATS
  end.

Definition be_size (b : bytes) : bytes := be_split 4 (Z.of_nat (length b)).

Definition encode_args (m : areq) : bytes :=
  match m with
  | AGet k | ADel k | ANextkey k => be_size k ++ k
  | ASet k v => be_size k ++ be_size v ++ k ++ v
  | ACas k o n => be_size k ++ be_size o ++ be_size n ++ k ++ o ++ n
  | AIncr k n => be_size k ++ k ++ be_split 8 (w64 n)
  | _ => []
  end.

Definition encode_header (i c f : Z) : bytes :=
  be_split 4 (Z.lor (Z.shiftl PROTO_VER 28) i) ++ be_split 2 c ++ be_split 2 f.

Definition encode (i f : Z) (m : areq) : bytes :=
  encode_header i (op_code m) f ++ encode_args m.

(** The requests the protocol can carry. *)
Definition msg_ok (m : areq) : Prop :=
  match m with
  | AGet k | ADel k | ANextkey k => Z.of_nat (length k) ≤ max_size
  | ASet k v => Z.of_nat (length k) + Z.of_nat (length v) ≤ max_size
  | ACas k o n =>
      Z.of_nat (length k) + Z.of_nat (length o) + Z.of_nat (length n) ≤ max_size
  | AIncr k n => Z.of_nat (length k) + 8 ≤ max_size ∧ INT64_MIN ≤ n ≤ INT64_MAX
  | AFirstkey | AStats => True
  | AUnknown | ABroken => False
  end.

Lemma word_at_app p b t n :
  length p = (4 * n)%nat → Z.of_nat (length b) ≤ max_size →
  word_at (p ++ be_size b ++ t) n = Some (Z.of_nat (length b)).
Proof.
  intros Hp Hb. unfold word_at, be_size, max_size in *.
  rewrite in_block_true; [|lia|rewrite !length_app, length_be_split; lia].
  rewrite drop_app_full by done. rewrite take_app_full by by rewrite length_be_split.
  rewrite be_combine_split. rewrite Z.mod_small; [done|]. lia.
Qed.

Lemma bytes_at_app p b t off n :
  off = Z.of_nat (length p) → n = Z.of_nat (length b) → bytes_at (p ++ b ++ t) off n = Some b.
Proof.
  intros -> ->. unfold bytes_at. rewrite in_block_true; [|lia|rewrite !length_app; lia].
  rewrite !Nat2Z.id, drop_app_full, take_app_full; done.
Qed.

Lemma word_at_0 b t :
  Z.of_nat (length b) ≤ max_size → word_at (be_size b ++ t) 0 = Some (Z.of_nat (length b)).
Proof. by apply (word_at_app []). Qed.

Lemma length_be_size b : length (be_size b) = 4%nat.
Proof. apply length_be_split. Qed.

(** One more field: the bytes after those already read. *)
Lemma bytes_at_next p b t off :
  off = Z.of_nat (length p) →
  bytes_at (p ++ b ++ t) off (Z.of_nat (length b)) = Some b.
Proof. intros. by apply bytes_at_app. Qed.

Lemma key_only k t psize :
  Z.of_nat (length k) ≤ max_size → psize = Z.of_nat (length (be_size k ++ k)) →
  (ks ← word_at ((be_size k ++ k) ++ t) 0;
   if psize <? ks then Some ABroken else
   k ← bytes_at ((be_size k ++ k) ++ t) 4 ks; Some (AGet k)) = Some (AGet k) ∧
  word_at ((be_size k ++ k) ++ t) 0 = Some (Z.of_nat (length k)) ∧
  (psize <? Z.of_nat (length k)) = false ∧
  bytes_at ((be_size k ++ k) ++ t) 4 (Z.of_nat (length k)) = Some k.
Proof.
  intros Hk ->. rewrite <-app_assoc. rewrite word_at_0 by done. cbn [mbind option_bind].
  assert ((Z.of_nat (length (be_size k ++ k)) <? Z.of_nat (length k)) = false) as ->.
  { apply Z.ltb_ge. rewrite length_app. lia. }
  rewrite bytes_at_next by by rewrite length_be_size. done.
Qed.

Lemma decode_set k v t psize :
  Z.of_nat (length k) + Z.of_nat (length v) ≤ max_size →
  psize = Z.of_nat (length (encode_args (ASet k v))) →
  decode REQ_SET psize (encode_args (ASet k v) ++ t) = Some (ASet k v).
Proof.
  intros Hk ->. unfold decode. cbn [Z.eqb REQ_SET REQ_GET Pos.eqb encode_args].
  rewrite <-!app_assoc. rewrite word_at_0 by lia. cbn [mbind option_bind].
  rewrite (word_at_app (be_size k)) by (rewrite ?length_be_size; lia). cbn [mbind option_bind].
  rewrite !length_app, !length_be_size.
  rewrite !(proj2 (Z.ltb_ge _ _)) by lia. cbn [orb].
  rewrite (app_assoc (be_size k)), bytes_at_next by by rewrite length_app, !length_be_size.
  cbn [mbind option_bind]. rewrite (app_assoc _ k), bytes_at_next; [done|].
  rewrite !length_app, !length_be_size. lia.
Qed.

Lemma decode_cas k o n t psize :
  Z.of_nat (length k) + Z.of_nat (length o) + Z.of_nat (length n) ≤ max_size →
  psize = Z.of_nat (length (encode_args (ACas k o n))) →
  decode REQ_CAS psize (encode_args (ACas k o n) ++ t) = Some (ACas k o n).
Proof.
  intros Hk ->. unfold decode. cbn [Z.eqb REQ_CAS REQ_DEL REQ_SET REQ_GET Pos.eqb encode_args].
  rewrite <-!app_assoc. rewrite word_at_0 by lia. cbn [mbind option_bind].
  rewrite (word_at_app (be_size k) o _ 1) by (rewrite ?length_be_size; lia). cbn [mbind option_bind].
  rewrite !length_app, !length_be_size. rewrite (app_assoc (be_size k)).
  rewrite (word_at_app (be_size k ++ be_size o) n _ 2) by (rewrite ?length_app, ?length_be_size; lia).
  cbn [mbind option_bind].
  rewrite !(proj2 (Z.ltb_ge _ _)) by lia. cbn [orb].
  rewrite (app_assoc _ (be_size n)), bytes_at_next by by rewrite !length_app, !length_be_size.
  cbn [mbind option_bind]. rewrite (app_assoc _ k), bytes_at_next
    by (rewrite !length_app, !length_be_size; lia).
  cbn [mbind option_bind]. rewrite (app_assoc _ o), bytes_at_next; [done|].
  rewrite !length_app, !length_be_size. lia.
Qed.

Lemma decode_incr k n t psize :
  Z.of_nat (length k) + 8 ≤ max_size → INT64_MIN ≤ n ≤ INT64_MAX →
  psize = Z.of_nat (length (encode_args (AIncr k n))) →
  decode REQ_INCR psize (encode_args (AIncr k n) ++ t) = Some (AIncr k n).
Proof.
  intros Hk Hn ->. unfold decode.
  cbn [Z.eqb REQ_INCR REQ_CAS REQ_DEL REQ_SET REQ_GET Pos.eqb encode_args].
  rewrite <-!app_assoc. rewrite word_at_0 by lia. cbn [mbind option_bind].
  rewrite !length_app, length_be_size, length_be_split. unfold max_size in *.
  rewrite w32_small by lia. rewrite !(proj2 (Z.ltb_ge _ _)) by lia. cbn [orb].
  rewrite bytes_at_next by by rewrite length_be_size. cbn [mbind option_bind].
  rewrite (app_assoc _ k).
  rewrite (bytes_at_app _ (be_split 8 (w64 n))); [|rewrite length_app, length_be_size; lia|
    by rewrite length_be_split].
  cbn [mbind option_bind]. rewrite be_combine_split.
  change (2 ^ (Z.of_nat 8 * 8)) with (2 ^ 64). fold (w64 (w64 n)).
  rewrite (w64_small (w64 n)) by apply w64_range. by rewrite s64_w64, s64_small.
Qed.

Lemma decode_encode_args m t psize :
  msg_ok m → psize = Z.of_nat (length (encode_args m)) →
  decode (op_code m) psize (encode_args m ++ t) = Some m.
Proof.
  intros Hm Hp. destruct m as [k|k v|k|k o n|k n| |k| | |]; try done;
    try (destruct (key_only k t psize Hm Hp) as (_ & H1 & H2 & H3);
      unfold decode; cbn [op_code encode_args Z.eqb Pos.eqb REQ_GET REQ_SET REQ_DEL REQ_CAS REQ_INCR
        REQ_FIRSTKEY REQ_NEXTKEY];
      rewrite H1; cbn [mbind option_bind]; by rewrite H2, H3).
  - by apply decode_set.
  - by apply decode_cas.
  - by apply decode_incr; try apply Hm.
Qed.

(** The header of an encoded message. *)
Lemma land_shift i : 0 ≤ i < 2 ^ 28 →
  Z.shiftr (Z.land (Z.lor (Z.shiftl PROTO_VER 28) i) 0xF0000000) 28 = PROTO_VER ∧
  Z.land (Z.lor (Z.shiftl PROTO_VER 28) i) 0x0FFFFFFF = i ∧
  0 ≤ Z.lor (Z.shiftl PROTO_VER 28) i < 2 ^ 32.
Proof.
  intros Hi. assert (Z.lor (Z.shiftl PROTO_VER 28) i = 2 ^ 28 + i) as E.
  { change (Z.shiftl PROTO_VER 28) with (2 ^ 28). rewrite <-Z.lxor_lor, Z.add_nocarry_lxor; try done.
    all: apply Z.bits_inj'; intros j Hj; rewrite Z.land_spec, Z.bits_0, Z.pow2_bits_eqb by lia;
      destruct (28 =? j) eqn:Ej; [|done]; apply Z.eqb_eq in Ej; subst j; cbn [andb];
      rewrite Z.testbit_false by lia; rewrite Z.div_small; [done|lia]. }
  split_and!.
  - rewrite Z.shiftr_land. change (Z.shiftr 0xF0000000 28) with (Z.ones 4).
    rewrite Z.land_ones, Z.shiftr_div_pow2, E by lia.
    replace (2 ^ 28 + i) with (i + 1 * 2 ^ 28) by lia. rewrite Z.div_add by lia.
    rewrite Z.div_small by lia. done.
  - change 0x0FFFFFFF with (Z.ones 28). rewrite Z.land_ones, E by lia.
    replace (2 ^ 28 + i) with (i + 1 * 2 ^ 28) by lia. rewrite Z.mod_add by lia.
    by apply Z.mod_small.
  - lia.
  - lia.
Qed.

Lemma msg_of_encode i f m t :
  0 ≤ i < 2 ^ 28 → 0 ≤ f < 2 ^ 16 →
  let buf := encode i f m ++ t in
  msg_ver buf = PROTO_VER ∧ msg_id buf = i ∧ msg_cmd buf = op_code m ∧ msg_flags buf = f ∧
  drop 8 buf = encode_args m ++ t ∧ (8 ≤ length buf)%nat ∧
  Z.of_nat (length (encode i f m)) - 8 = Z.of_nat (length (encode_args m)).
Proof.
  intros Hi Hf buf. destruct (land_shift i Hi) as (H1 & H2 & H3).
  assert (msg_hdr buf = Z.lor (Z.shiftl PROTO_VER 28) i) as Eh.
  { unfold buf, encode, encode_header, msg_hdr. rewrite <-!app_assoc.
    rewrite take_app_full by by rewrite length_be_split.
    rewrite be_combine_split. by apply Z.mod_small. }
  unfold msg_ver, msg_id. rewrite Eh. split_and!; try done.
  - unfold msg_cmd, buf, encode, encode_header. rewrite <-!app_assoc.
    rewrite drop_app_full, take_app_full by by rewrite length_be_split.
    rewrite be_combine_split. by destruct m.
  - unfold msg_flags, buf, encode, encode_header. rewrite <-!app_assoc, (app_assoc (be_split 4 _)).
    rewrite drop_app_full, take_app_full by by rewrite ?length_app, !length_be_split.
    rewrite be_combine_split. by apply Z.mod_small.
  - unfold buf, encode, encode_header. rewrite !length_app, !length_be_split. lia.
  - unfold encode, encode_header. rewrite !length_app, !length_be_split. lia.
Qed.

Lemma incr_no_wrap_ok m t : msg_ok m → incr_no_wrap (op_code m) (encode_args m ++ t).
Proof.
  intros Hm Hc ks Hks. destruct m as [| | | |k n| | | | |]; try done.
  cbn [encode_args] in Hks. rewrite <-app_assoc, word_at_0 in Hks.
  - injection Hks as <-. cbn in Hm. unfold max_size in Hm. lia.
  - cbn in Hm. unfold max_size in *. lia.
Qed.

Lemma encode_bounds i f m : msg_ok m → 8 ≤ Z.of_nat (length (encode i f m)) ≤ 8 + 12 + max_size.
Proof.
  intros Hm. unfold encode, encode_header. rewrite !length_app, !length_be_split.
  destruct m as [k|k v|k|k o n|k n| |k| | |]; cbn in *; try done; unfold max_size in *;
    rewrite ?length_app, ?length_be_size, ?length_be_split; lia.
Qed.

(** ** No access outside the buffer *)

(** What the receive buffers guarantee: at least [SAFE_REGION] bytes of
    memory, of which at least 4 lie behind the message. *)
Definition SAFE_REGION : Z := 8 + 12 + max_size + 8.

Lemma word_at_some p n : (4 * n + 4 ≤ length p)%nat → is_Some (word_at p n).
Proof. intros. unfold word_at. rewrite in_block_true by lia. done. Qed.

Lemma bytes_at_some p off n :
  0 ≤ off → 0 ≤ n → off + n ≤ Z.of_nat (length p) → is_Some (bytes_at p off n).
Proof. intros. unfold bytes_at. rewrite in_block_true by lia. done. Qed.

Lemma key_defined p psize (f : bytes → areq) :
  (4 ≤ length p)%nat → psize + 4 ≤ Z.of_nat (length p) →
  is_Some (ks ← word_at p 0;
           if psize <? ks then Some ABroken else k ← bytes_at p 4 ks; Some (f k)).
Proof.
  intros Hl Hp. destruct (word_at_some p 0) as [ks Hks]; [lia|].
  pose proof (word_at_nonneg _ _ _ Hks). rewrite Hks. cbn [mbind option_bind].
  destruct (psize <? ks) eqn:E; [done|]. apply Z.ltb_ge in E.
  destruct (bytes_at_some p 4 ks) as [k ->]; [lia..|]. done.
Qed.

Lemma decode_defined c psize p :
  0 ≤ psize → psize + 4 ≤ Z.of_nat (length p) → SAFE_REGION ≤ Z.of_nat (length p) + 8 →
  incr_no_wrap c p → is_Some (decode c psize p).
Proof.
  unfold SAFE_REGION, max_size. intros Hp0 Hp Hl Hw. unfold decode.
  repeat match goal with |- is_Some (if ?c =? ?x then _ else _) => destruct (c =? x) eqn:?E end;
    try done; try (apply key_defined; lia).
  - destruct (word_at_some p 0) as [ks Hks]; [lia|].
    destruct (word_at_some p 1) as [vs Hvs]; [lia|].
    pose proof (word_at_nonneg _ _ _ Hks). pose proof (word_at_nonneg _ _ _ Hvs).
    rewrite Hks, Hvs. cbn [mbind option_bind].
    destruct (_ || _ || _) eqn:Ec; [done|]. unfold max_size in Ec.
    rewrite !orb_false_iff, !Z.ltb_ge in Ec.
    destruct (bytes_at_some p 8 ks) as [k ->]; [lia..|]. cbn [mbind option_bind].
    destruct (bytes_at_some p (8 + ks) vs) as [v ->]; [lia..|]. done.
  - destruct (word_at_some p 0) as [ks Hks]; [lia|].
    destruct (word_at_some p 1) as [os Hos]; [lia|].
    destruct (word_at_some p 2) as [ns Hns]; [lia|].
    pose proof (word_at_nonneg _ _ _ Hks). pose proof (word_at_nonneg _ _ _ Hos).
    pose proof (word_at_nonneg _ _ _ Hns).
    rewrite Hks, Hos, Hns. cbn [mbind option_bind].
    destruct (_ || _ || _ || _) eqn:Ec; [done|]. unfold max_size in Ec.
    rewrite !orb_false_iff, !Z.ltb_ge in Ec.
    destruct (bytes_at_some p 12 ks) as [k ->]; [lia..|]. cbn [mbind option_bind].
    destruct (bytes_at_some p (12 + ks) os) as [o ->]; [lia..|]. cbn [mbind option_bind].
    destruct (bytes_at_some p (12 + ks + os) ns) as [n ->]; [lia..|]. done.
  - destruct (word_at_some p 0) as [ks Hks]; [lia|].
    pose proof (word_at_nonneg _ _ _ Hks). apply Z.eqb_eq in E3.
    pose proof (Hw E3 ks Hks). rewrite Hks. cbn [mbind option_bind].
    rewrite !w32_small by lia. destruct (_ || _) eqn:Ec; [done|]. unfold max_size in Ec.
    rewrite !orb_false_iff, !Z.ltb_ge in Ec.
    destruct (bytes_at_some p 4 ks) as [k ->]; [lia..|]. cbn [mbind option_bind].
    destruct (bytes_at_some p (4 + ks) 8) as [i ->]; [lia..|]. done.
Qed.

(** ** A sample server for the witnesses *)

Definition sample_settings : settings :=
  Settings 10 10 None 26010 None 26010 None 26010 4 1 0 0 None None 6 None.
Definition sample_server : server :=
  Server sample_cache sample_queue (λ _, 0) sample_settings [].
Definition sample_state : astate :=
  AState sample_acache [sample_aentry] (λ _, 0) sample_settings [].

Lemma sample_server_is : server_is sample_server sample_state.
Proof. split; [apply sample_ok|apply sample_queue_is|done..]. Qed.

Lemma sample_room : queue_room sample_state.
Proof. done. Qed.

Lemma sample_vals k : incr_defined (a_lookup k (as_cache sample_state)).
Proof.
  unfold a_lookup. cbn [as_cache sample_state sample_acache length]. unfold slot.
  rewrite Z.mod_1_r. change (sample_acache !! _) with (Some sample_nodes.*2).
  cbn -[incr_defined]. repeat case_decide; by split.
Qed.

Lemma sample_req_ok : req_ok sample_req.
Proof. unfold req_ok. cbn. lia. Qed.

(** ** Properties *)

(** C11: refinement of request handling. For any message of protocol version 1
    whose fields lie in the buffer, [parse_message] runs without undefined
    behaviour, returns 1, and has on the cache, the queue, the statistics and
    the replies exactly the effect [handle] gives to the decoded request; the
    queue and the table stay well formed. *)
Theorem parse_message_refines (req : req_info) (buf : bytes) (len : Z) (s : server)
  (a : alloc) (st : astate) (m : areq)
  (Hreq : req_ok req) (Hs : server_is s st) (Ha : never_fails a) (Hroom : queue_room st)
  (Hlen : (8 ≤ length buf)%nat) (Hver : msg_ver buf = PROTO_VER)
  (Hm : decode (msg_cmd buf) (w64 (len - 8)) (drop 8 buf) = Some m)
  (Hsafe : incr_safe m st) (Hwrap : incr_no_wrap (msg_cmd buf) (drop 8 buf)) :
  ∃ s' a', parse_message req buf len (Mem s a) = Some (true, Mem s' a') ∧
    never_fails a' ∧ server_is s' (handle (filled req buf len) m st).
Proof.
  assert (wp (parse_message req buf len)
    (λ r t, r = true ∧ done_with (handle (filled req buf len) m st) tt t) (Mem s a)) as H.
  { eapply wp_parse_message; [done..| |]; intros Hv; [done|]. by exists m. }
  apply wp_exec in H as (r & [s' a'] & H & -> & H1 & H2). by exists s', a'.
Qed.

Lemma parse_message_refines_witness :
  ∃ s' a', parse_message sample_req (encode 7 0 (AGet (sample_key 50))) 13
      (Mem sample_server sample_alloc) = Some (true, Mem s' a') ∧
    never_fails a' ∧
    server_is s' (handle (filled sample_req (encode 7 0 (AGet (sample_key 50))) 13)
      (AGet (sample_key 50)) sample_state).
Proof.
  apply (parse_message_refines sample_req (encode 7 0 (AGet (sample_key 50))) 13 sample_server
    sample_alloc sample_state (AGet (sample_key 50)) sample_req_ok sample_server_is
    sample_never_fails sample_room); try done.
  vm_compute. lia.
Defined.




(** A statistics request in a static receive buffer. *)
Definition sample_buf : bytes := encode 7 0 AStats ++ replicate (Z.to_nat 69624) NUL.

Lemma sample_buf_length : Z.of_nat (length sample_buf) = 69632.
Proof. unfold sample_buf. rewrite length_app, length_replicate. change (length _) with 8%nat. lia. Qed.

Lemma sample_buf_cmd : msg_cmd sample_buf = REQ_STATS.
Proof.
  by destruct (msg_of_encode 7 0 AStats (replicate (Z.to_nat 69624) NUL)) as (_ & _ & H & _).
Qed.


(** Read-only mode. While [settings.read_only] is set, no message whatever
    changes the cache, and what it may add to the database thread's queue is a
    get or a traversal, never a set, del, cas or incr. *)
Theorem parse_message_read_only (req : req_info) (buf : bytes) (len : Z) (s : server)
  (a : alloc) (st : astate) (r : bool) (s' : server) (a' : alloc) (m : areq)
  (Hreq : req_ok req) (Hs : server_is s st) (Ha : never_fails a) (Hroom : queue_room st)
  (Hro : read_only (s_settings s) ≠ 0) (Hlen : (8 ≤ length buf)%nat)
  (Hm : decode (msg_cmd buf) (w64 (len - 8)) (drop 8 buf) = Some m)
  (Hsafe : incr_safe m st) (Hwrap : incr_no_wrap (msg_cmd buf) (drop 8 buf))
  (Hrun : parse_message req buf len (Mem s a) = Some (r, Mem s' a')) :
  ∃ xs, server_is s' (AState (as_cache st) (as_queue st ++ xs) (s_stats s')
                        (as_settings st) (s_out s')) ∧
    ∀ x, x ∈ xs → a_operation x ∈ [REQ_GET; REQ_FIRSTKEY; REQ_NEXTKEY].
Proof.
  assert (wp (parse_message req buf len) (λ _ t, ∃ st' xs, server_is (obj t) st' ∧
    as_cache st' = as_cache st ∧ as_queue st' = as_queue st ++ xs ∧
    as_settings st' = as_settings st ∧
    ∀ x, x ∈ xs → a_operation x ∈ [REQ_GET; REQ_FIRSTKEY; REQ_NEXTKEY]) (Mem s a)) as H.
  { assert (a_read_only st = true) as Hro'.
    { unfold a_read_only, truth. rewrite <-(si_settings _ _ Hs). by rewrite (proj2 (Z.eqb_neq _ _)). }
    eapply wp_parse_message; [done..| |]; intros Hv.
    - intros t [_ Ht]. eexists _, []. split; [done|]. cbn. rewrite app_nil_r.
      split_and!; try done. intros x Hx. by apply not_elem_of_nil in Hx.
    - exists m. split_and!; [done..|]. intros t [_ Ht].
      destruct m; cbn in Ht; rewrite ?Hro' in Ht; repeat case_match; eexists;
      first
        [ exists []; split; [exact Ht|]; cbn; rewrite ?app_nil_r; split_and!; try done;
          intros x Hx; by apply not_elem_of_nil in Hx
        | eexists [_]; split; [exact Ht|]; cbn; split_and!; try done;
          intros x ->%list_elem_of_singleton; cbn; set_solver ]. }
  apply wp_exec in H as (r0 & t & H & st' & xs & Hst & Hc & Hq & Hset & Hx).
  rewrite Hrun in H. injection H as <- <-. exists xs. split; [|done].
  destruct Hst as [H1 H2 H3 H4 H5]. cbn in *. rewrite Hc in H1. rewrite Hq in H2.
  rewrite Hset in H4. by split.
Qed.

Lemma parse_message_read_only_witness :
  let s := set_settings (set_read_only 1 sample_settings) sample_server in
  let st := AState sample_acache [sample_aentry] (λ _, 0) (set_read_only 1 sample_settings) [] in
  match parse_message sample_req (encode 7 1 (ADel (sample_key 50))) 13 (Mem s sample_alloc) with
  | Some (_, Mem s' _) =>
      ∃ xs, server_is s' (AState (as_cache st) (as_queue st ++ xs) (s_stats s')
                            (as_settings st) (s_out s')) ∧
        ∀ x, x ∈ xs → a_operation x ∈ [REQ_GET; REQ_FIRSTKEY; REQ_NEXTKEY]
  | None => False
  end.
Proof.
  intros s st.
  assert (server_is s st) as Hs by (split; [apply sample_ok|apply sample_queue_is|done..]).
  destruct (parse_message _ _ _ _) as [[r [s' a']]|] eqn:E; [|vm_compute in E; discriminate E].
  apply (parse_message_read_only sample_req (encode 7 1 (ADel (sample_key 50))) 13 s sample_alloc st
    r s' a' (ADel (sample_key 50)) sample_req_ok Hs sample_never_fails sample_room); try done.
  vm_compute. lia.
Defined.

(** A message of another protocol version. Whatever follows the header,
    [parse_message] counts it, replies [ERR_VER] and returns 0 without looking
    at the payload; nothing else changes. The reply carries the ID in host
    order: the bytes the client gets are those of its ID reversed. *)
Theorem parse_message_version (req : req_info) (buf : bytes) (len : Z) (s : server)
  (a : alloc) (st : astate)
  (Hreq : req_ok req) (Hs : server_is s st) (Ha : never_fails a) (Hroom : queue_room st)
  (Hlen : (8 ≤ length buf)%nat) (Hver : msg_ver buf ≠ PROTO_VER) :
  ∃ s' a' req', parse_message req buf len (Mem s a) = Some (false, Mem s' a') ∧
    server_is s' (to_out (reply_err req' ERR_VER) (to_stats net_version_mismatch st)) ∧
    store_le 4 (r_id req') = rev (be_split 4 (msg_id buf)).
Proof.
  assert (wp (parse_message req buf len) (λ r t, r = false ∧
    done_with (to_out (reply_err (set_id (msg_id buf) req) ERR_VER)
      (to_stats net_version_mismatch st)) tt t) (Mem s a)) as H.
  { eapply wp_parse_message; [done..| |]; intros Hv; [by intros|done]. }
  apply wp_exec in H as (r & [s' a'] & H & -> & _ & H2).
  exists s', a', (set_id (msg_id buf) req). split_and!; [done..|].
  unfold store_le, be_split. cbn. by rewrite rev_involutive.
Qed.

Lemma parse_message_version_witness :
  let buf := be_split 4 (2 ^ 29 + 7) ++ be_split 4 0 in
  ∃ s' a' req', parse_message sample_req buf 8 (Mem sample_server sample_alloc)
      = Some (false, Mem s' a') ∧
    server_is s' (to_out (reply_err req' ERR_VER) (to_stats net_version_mismatch sample_state)) ∧
    store_le 4 (r_id req') = rev (be_split 4 (msg_id buf)).
Proof.
  apply (parse_message_version sample_req _ 8 sample_server sample_alloc sample_state
    sample_req_ok sample_server_is sample_never_fails sample_room); [vm_compute; lia|].
  vm_compute. discriminate.
Defined.

(** ** Accesses outside the message *)

Lemma run_bind {S A B} (m : M S A) (k : A → M S B) s a s' :
  m s = Some (a, s') → (m ≫= k) s = k a s'.
Proof. intros H. unfold mbind, M_bind. by rewrite H. Qed.

(** C38: a remote crash. The sum [ksize + 8] of [parse_incr] is a [uint32_t]:
    for a key size of 2^32 - 8 or more it wraps below 8 and passes both checks,
    and the increment is then read 4 gigabytes behind the key, outside any
    receive buffer. *)
Theorem parse_incr_wrap (req : req_info) (s : server) (a : alloc) (ks : Z)
  (Hks : word_at (r_payload req) 0 = Some ks) (Hbig : 2 ^ 32 - 8 ≤ ks)
  (Hp : 7 ≤ r_psize req) (Hreg : Z.of_nat (length (r_payload req)) < 2 ^ 32)
  (Hro : read_only (s_settings s) = 0) :
  parse_incr req (Mem s a) = None.
Proof.
  pose proof (word_at_nonneg _ _ _ Hks) as Hr.
  assert (w32 (ks + 8) = ks + 8 - 2 ^ 32) as Hw.
  { unfold w32. replace (ks + 8) with (ks + 8 - 2 ^ 32 + 1 * 2 ^ 32) at 1 by lia.
    rewrite Z.mod_add by lia. apply Z.mod_small. lia. }
  assert (word req 0 (Mem s a) = Some (ks, Mem s a)) as Hword.
  { apply wp_eq. by apply (wp_word _ 0 ks). }
  unfold parse_incr. rewrite (run_bind _ _ _ _ _ Hword), Hw. unfold max_size.
  rewrite !(proj2 (Z.ltb_ge _ _)) by lia. cbn [orb].
  assert (is_read_only (Mem s a) = Some (false, Mem s a)) as Hro'.
  { unfold is_read_only, get_obj, gets, mbind, M_bind. cbn. by rewrite Hro. }
  rewrite (run_bind _ _ _ _ _ Hro').
  set (f := if cache_only req then cache_incr_ else db_incr_).
  assert (fill_cache_flag req cache_incr_ db_incr_ (Mem s a) =
    Some (cache_only req, Mem (set_stats (bump f (s_stats s)) s) a)) as Hf by done.
  rewrite (run_bind _ _ _ _ _ Hf).
  assert (load 8 (drop 4 (r_payload req)) ks (Mem (set_stats (bump f (s_stats s)) s) a) = None) as Hl.
  { apply load_oob. rewrite length_drop. lia. }
  unfold mbind at 1, M_bind at 1. by rewrite Hl.
Qed.

Lemma parse_incr_wrap_witness :
  parse_incr (set_msg 0 REQ_INCR 0 (be_split 4 (2 ^ 32 - 1) ++ replicate 8 NUL) 12 sample_req)
    (Mem sample_server sample_alloc) = None.
Proof.
  apply (parse_incr_wrap
    (set_msg 0 REQ_INCR 0 (be_split 4 (2 ^ 32 - 1) ++ replicate 8 NUL) 12 sample_req)
    sample_server sample_alloc (2 ^ 32 - 1)); try done.
Defined.

(** The size checks of get, del and nextkey compare the key size with the
    whole payload, which begins with the 4 bytes of the size itself: a message
    of exactly the buffer's size makes the handler read behind it. *)
Theorem get_reads_past_the_message :
  parse_message sample_req (encode_header 7 REQ_GET 0 ++ be_split 4 4) 12
    (Mem sample_server sample_alloc) = None.
Proof. vm_compute. reflexivity. Qed.

(** The checks of set bound each size, not their sum, by the payload. *)
Theorem set_reads_past_the_message :
  parse_message sample_req
    (encode_header 7 REQ_SET 0 ++ be_split 4 8 ++ be_split 4 8 ++ replicate 4 NUL) 20
    (Mem sample_server sample_alloc) = None.
Proof. vm_compute. reflexivity. Qed.

(** A message shorter than its header, which tcp.c lets through: the payload
    size wraps around and bounds nothing. *)
Theorem short_message_reads_anywhere :
  parse_message sample_req
    (encode_header 7 REQ_GET 0 ++ be_split 4 (2 ^ 20) ++ replicate 100 NUL) 7
    (Mem sample_server sample_alloc) = None.
Proof. vm_compute. reflexivity. Qed.

(** An increment of an empty value reads the byte before its block. *)
Theorem incr_of_empty_value :
  (parse_message sample_req (encode 7 1 (ASet (sample_key 50) [])) 17;;
   parse_message sample_req (encode 8 1 (AIncr (sample_key 50) 1)) 21)
    (Mem sample_server sample_alloc) = None.
Proof. vm_compute. reflexivity. Qed.
