(* ===== verification/DbLoop.v ===== *)
(** * The database thread (nmdb/dbloop.c)

    [process_op] runs one queued operation against the backend and replies to
    its request; [db_iteration] is one round of [db_loop]: take the oldest
    entry, process it, release it. The backend is any [DbOps]; the theorems
    assume its contract, [DbLaws]. *)

From S2P Require Import Prelude Words Text Chain ChainSpec Cache Net Queue Backend Server Parse ParseSpec.

(** The two threads' state: the server's globals, the backend's database, and
    [loop_should_stop]. *)
Record system (D : Type) := System {
  y_server : server;
  y_db : D;
  y_stop : bool;
}.
Arguments System {D}.
Arguments y_server {D}.
Arguments y_db {D}.
Arguments y_stop {D}.

(** The results of [pthread_cond_timedwait]. *)
Definition ETIMEDOUT : Z := 110.

Section dbloop.
Context {D : Type} `{DbOps D}.

Definition set_server (s : server) (y : system D) : system D := System s (y_db y) (y_stop y).
Definition set_db (d : D) (y : system D) : system D := System (y_server y) d (y_stop y).
Definition set_stop (b : bool) (y : system D) : system D := System (y_server y) (y_db y) b.

Definition on_server {A} (m : MT server A) : MT (system D) A :=
  zoom (λ y, Some (y_server y)) set_server m.

(** Calls of the connection's operations. *)
Definition call_set (k v : bytes) : MT (system D) bool :=
  y ← get_obj; let '(rv, d) := db_set k v (y_db y) in mod_obj (set_db d);; mret rv.
Definition call_del (k : bytes) : MT (system D) bool :=
  y ← get_obj; let '(rv, d) := db_del k (y_db y) in mod_obj (set_db d);; mret rv.

(** A call that fills the buffer [buf] of [cap] bytes: the result is written
    at its start, and its size is what the call leaves in [*vsize]. *)
Definition call_fill (f : D → option bytes) (buf : bytes) (cap : Z)
    : MT (system D) (option (bytes * Z)) :=
  y ← get_obj;
  match f (y_db y) with
  | None => mret None
  | Some v =>
      b ← memcpy buf v (Z.of_nat (length v));
      mret (Some (b, Z.of_nat (length v)))
  end.

(** The key or value of an entry as an argument of a call. *)
Definition arg_bytes {S} (p : cptr) (n : Z) : M S bytes :=
  match p with
  | Null => if n =? 0 then mret [] else ub
  | _ => b ← deref p; if in_block b n then mret (take (Z.to_nat n) b) else ub
  end.

(** The request that the entry's reply functions get. *)
Definition entry_req {S} (e : qentry) : M S req_info :=
  match q_req e with
  | ReqCopy r sa => b ← deref sa; mret (set_clisa b r)
  | _ => ub
  end.

Definition reply_to (r : reply) : MT (system D) () := on_server (emit r).
Definition reply_bytes (req : req_info) (buf : bytes) (n : Z) : MT (system D) () :=
  on_server (emit_long req REP_OK (Block buf) n).

Definition has_sync (req : req_info) : bool := truth (Z.land (r_flags req) FLAGS_SYNC).

Definition db_buf_size : Z := 64 * 1024.

Definition process_set (e : qentry) : MT (system D) () :=
  k ← arg_bytes (q_key e) (q_ksize e);
  v ← arg_bytes (q_val e) (q_vsize e);
  rv ← call_set k v;
  req ← entry_req e;
  if negb (has_sync req) then mret tt else
  if negb (rv : bool) then reply_to (reply_err req ERR_DB) else
  reply_to (reply_mini req REP_OK).

(** [malloc(64 * 1024)], then a call that fills the buffer; without memory,
    [ERR_MEM]; without a result, [REP_NOTIN]. *)
Definition with_result (req : req_info) (f : D → option bytes)
    (k : bytes → Z → MT (system D) ()) : MT (system D) () :=
  p ← malloc db_buf_size;
  match p with
  | Null => reply_to (reply_err req ERR_MEM)
  | _ =>
      buf ← deref p;
      r ← call_fill f buf db_buf_size;
      match r with
      | None => reply_to (reply_mini req REP_NOTIN)
      | Some (buf, n) => k buf n
      end
  end.

Definition process_get (e : qentry) : MT (system D) () :=
  req ← entry_req e;
  k ← arg_bytes (q_key e) (q_ksize e);
  with_result req (db_get k db_buf_size) (λ buf n, reply_bytes req buf n).

Definition process_del (e : qentry) : MT (system D) () :=
  k ← arg_bytes (q_key e) (q_ksize e);
  rv ← call_del k;
  req ← entry_req e;
  if negb (has_sync req) then mret tt else
  if negb (rv : bool) then reply_to (reply_mini req REP_NOTIN) else
  reply_to (reply_mini req REP_OK).

Definition process_cas (e : qentry) : MT (system D) () :=
  req ← entry_req e;
  k ← arg_bytes (q_key e) (q_ksize e);
  with_result req (db_get k db_buf_size) (λ dbval dbvsize,
    same ← (if q_vsize e =? dbvsize
            then v ← deref (q_val e); memeq v dbval dbvsize
            else mret false);
    if same : bool then
      nv ← arg_bytes (q_newval e) (q_nvsize e);
      rv ← call_set k nv;
      if negb (rv : bool) then reply_to (reply_err req ERR_DB) else
      reply_to (reply_mini req REP_OK)
    else reply_to (reply_mini req REP_NOMATCH)).

Definition process_incr (e : qentry) : MT (system D) () :=
  req ← entry_req e;
  k ← arg_bytes (q_key e) (q_ksize e);
  with_result req (db_get k db_buf_size) (λ dbval dbvsize,
    c ← byte_at dbval (w64 (dbvsize - 1));
    if negb (bool_decide (c = NUL)) then reply_to (reply_mini req REP_NOMATCH) else
    str ← c_string dbval;
    v ← deref (q_val e);
    i ← load 8 v 0;
    let intval := s64 (strtoll str + s64 i) in
    let dbvsize := if dbvsize <? 24 then 24 else dbvsize in
    dbval ← snprintf_23lld dbval dbvsize intval;
    rv ← call_set k (take (Z.to_nat dbvsize) dbval);
    if negb (rv : bool) then reply_to (reply_err req ERR_DB) else
    reply_bytes req (store_le 8 (htonll (w64 intval))) 8).

Definition process_firstkey (e : qentry) : MT (system D) () :=
  req ← entry_req e;
  match db_firstkey with
  | None => reply_to (reply_err req ERR_DB)
  | Some f => with_result req (f db_buf_size) (λ buf n, reply_bytes req buf n)
  end.

Definition process_nextkey (e : qentry) : MT (system D) () :=
  req ← entry_req e;
  match db_nextkey with
  | None => reply_to (reply_err req ERR_DB)
  | Some f =>
      k ← arg_bytes (q_key e) (q_ksize e);
      with_result req (f k db_buf_size) (λ buf n, reply_bytes req buf n)
  end.

(** An unknown operation is only logged. *)
Definition process_op (e : qentry) : MT (system D) () :=
  let op := q_operation e in
  if op =? REQ_SET then process_set e
  else if op =? REQ_GET then process_get e
  else if op =? REQ_DEL then process_del e
  else if op =? REQ_CAS then process_cas e
  else if op =? REQ_INCR then process_incr e
  else if op =? REQ_FIRSTKEY then process_firstkey e
  else if op =? REQ_NEXTKEY then process_nextkey e
  else mret tt.

(** One round of the loop, [rv] being how the wait for an entry ended; the
    result says whether the loop goes on. *)
Definition db_iteration (rv : Z) : MT (system D) bool :=
  if negb (rv =? 0) && negb (rv =? ETIMEDOUT) then mret true else
  e ← on_server (on_queue queue_get);
  match e with
  | None => y ← get_obj; mret (negb (y_stop y))
  | Some _ =>
      en ← on_server (on_queue (qentry_at e));
      process_op en;;
      on_server (on_queue (queue_entry_free e));;
      mret true
  end.

(** [db_loop], on the results of its waits, until it breaks. *)
Fixpoint db_loop (rvs : list Z) : MT (system D) bool :=
  match rvs with
  | [] => mret true
  | rv :: rvs =>
      again ← db_iteration rv;
      if again : bool then db_loop rvs else mret false
  end.

(** [db_loop_stop] sets the flag before it joins the thread. *)
Definition db_loop_stop : MT (system D) () := mod_obj (set_stop true).
End dbloop.
