(* ===== verification/DbSpec.v ===== *)
(** * What the database thread does

    [a_process]: the replies to a queued operation and the database after it,
    as a function of the finite map the backend stands for. [process_op] is
    proved to implement it for every entry the request handlers queue, and the
    loop to process the queue in order until it is empty. *)

From S2P Require Import Prelude Words Text Chain ChainSpec Cache Net Queue Backend Server Parse ParseSpec DbLoop.

(** The entries that the handlers queue. *)
Definition entry_ok (x : aentry) : Prop :=
  match a_key x, a_val x, a_newval x with
  | Some _, Some _, None => a_operation x = REQ_SET ∨
      (a_operation x = REQ_INCR ∧ length (default [] (a_val x)) = 8%nat)
  | Some _, None, None => a_operation x = REQ_GET ∨ a_operation x = REQ_DEL ∨
      a_operation x = REQ_NEXTKEY
  | Some _, Some _, Some _ => a_operation x = REQ_CAS
  | None, None, None => a_operation x = REQ_FIRSTKEY
  | _, _, _ => False
  end.

(** The entries that ask for a key of the database. *)
Definition lists (x : aentry) : Prop := a_operation x = REQ_FIRSTKEY ∨ a_operation x = REQ_NEXTKEY.

(** Every key and value fits the 64 KB buffer of the thread, and no value is
    empty. *)
Definition key_fits (k : bytes) : Prop := Z.of_nat (length k) ≤ db_buf_size.
Definition val_fits (v : bytes) : Prop := v ≠ [] ∧ Z.of_nat (length v) ≤ db_buf_size.
Definition vals_fit (m : store) : Prop := ∀ k v, m !! k = Some v → key_fits k ∧ val_fits v.

Section spec.
Context {D : Type} `{DbLaws D}.

Definition reply_result (req : req_info) (o : option bytes) : reply :=
  match o with Some v => reply_long req REP_OK v | None => reply_mini req REP_NOTIN end.

(** The increment an entry carries. *)
Definition incr_arg (v : bytes) : Z := s64 (le_combine v).

(** The value the operation stores, and whether the backend accepts it. *)
Definition stored_value (x : aentry) (m : store) : bytes :=
  let v := default [] (a_val x) in
  if a_operation x =? REQ_CAS then default [] (a_newval x)
  else if a_operation x =? REQ_INCR
  then incr_block (default [] (m !! default [] (a_key x))) (incr_arg v)
  else v.
Definition set_ok (x : aentry) (d : D) : bool :=
  (db_set (default [] (a_key x)) (stored_value x (db_view d)) d).1.

(** [ok]: whether the backend's set succeeded. *)
Definition a_process (x : aentry) (ok : bool) (d : D) : list reply * store :=
  let m := db_view d in
  let req := a_req x in
  let k := default [] (a_key x) in
  let v := default [] (a_val x) in
  let op := a_operation x in
  if op =? REQ_SET then
    (if has_sync req then [if ok then reply_mini req REP_OK else reply_err req ERR_DB] else [],
     if ok then <[k := v]> m else m)
  else if op =? REQ_GET then ([reply_result req (m !! k)], m)
  else if op =? REQ_DEL then
    (if has_sync req
     then [reply_mini req (if (db_del k d).1 then REP_OK else REP_NOTIN)] else [],
     delete k m)
  else if op =? REQ_CAS then
    match m !! k with
    | None => ([reply_mini req REP_NOTIN], m)
    | Some dv =>
        if decide (dv = v) then
          if ok then ([reply_mini req REP_OK], <[k := default [] (a_newval x)]> m)
          else ([reply_err req ERR_DB], m)
        else ([reply_mini req REP_NOMATCH], m)
    end
  else if op =? REQ_INCR then
    match m !! k with
    | None => ([reply_mini req REP_NOTIN], m)
    | Some dv =>
        if ends_nul dv then
          if ok then ([reply_long req REP_OK (be_split 8 (w64 (incr_num dv (incr_arg v))))],
                      <[k := incr_block dv (incr_arg v)]> m)
          else ([reply_err req ERR_DB], m)
        else ([reply_mini req REP_NOMATCH], m)
    end
  else if op =? REQ_FIRSTKEY then
    ([match db_firstkey with
      | None => reply_err req ERR_DB
      | Some f => reply_result req (f db_buf_size d)
      end], m)
  else
    ([match db_nextkey with
      | None => reply_err req ERR_DB
      | Some f => reply_result req (f k db_buf_size d)
      end], m).

(** The server once [rs] were emitted. *)
Definition emits (rs : list reply) (s : server) : server := set_out (s_out s ++ rs) s.

(** The state after [process_op] from [y]: [r.1] emitted, [r.2] in the
    database, and nothing else changed. *)
Definition processed (y : system D) (r : list reply * store) (t : mem (system D)) : Prop :=
  never_fails (heap t) ∧ y_server (obj t) = emits r.1 (y_server y) ∧
  db_view (y_db (obj t)) = r.2 ∧ y_stop (obj t) = y_stop y.

Lemma emits_nil s : emits [] s = s.
Proof. destruct s. unfold emits, set_out; cbn. by rewrite app_nil_r. Qed.

Section ops.
Context (y : system D).

Lemma wp_on_server a {A} (m : MT server A) (Q : A → mem (system D) → Prop) :
  wp m (λ r t, Q r (Mem (set_server (obj t) y) (heap t))) (Mem (y_server y) a) →
  wp (on_server m) Q (Mem y a).
Proof. intros Hm. unfold on_server. by rewrite (wp_zoom _ _ _ _ _ _ (y_server y)). Qed.

Lemma wp_reply_to a r (Q : () → mem (system D) → Prop) :
  Q tt (Mem (set_server (emits [r] (y_server y)) y) a) →
  wp (reply_to r) Q (Mem y a).
Proof. intros HQ. apply wp_on_server. unfold emit. by wp_simpl. Qed.

Lemma wp_reply_bytes a req v buf n (Q : () → mem (system D) → Prop) :
  n = Z.of_nat (length v) → take (length v) buf = v → (length v ≤ length buf)%nat →
  Q tt (Mem (set_server (emits [reply_long req REP_OK v] (y_server y)) y) a) →
  wp (reply_bytes req buf n) Q (Mem y a).
Proof.
  intros -> Hv Hl HQ. apply wp_on_server. unfold emit_long. cbn [deref]. wp_simpl.
  rewrite in_block_true by lia. rewrite Nat2Z.id, Hv. unfold emit. by wp_simpl.
Qed.

Lemma wp_call_set a k v (Q : bool → mem (system D) → Prop) :
  (∀ (ok : bool) (d : D), ok = (db_set k v (y_db y)).1 →
     db_view d = (if ok then <[k := v]> (db_view (y_db y)) else db_view (y_db y)) →
     Q ok (Mem (set_db d y) a)) →
  wp (call_set k v) Q (Mem y a).
Proof.
  intros HQ. unfold call_set. wp_simpl. destruct (db_set k v (y_db y)) as [ok d] eqn:E. wp_simpl.
  apply HQ; [done|]. destruct ok; [by apply db_set_true|by eapply db_set_false].
Qed.

Lemma wp_call_del a k (Q : bool → mem (system D) → Prop) :
  (∀ d : D, db_view d = delete k (db_view (y_db y)) →
     Q (db_del k (y_db y)).1 (Mem (set_db d y) a)) →
  wp (call_del k) Q (Mem y a).
Proof.
  intros HQ. unfold call_del. wp_simpl.
  pose proof (db_del_view k (y_db y)) as H2.
  destruct (db_del k (y_db y)) as [rv d]. cbn in *. wp_simpl. by apply HQ.
Qed.

Lemma wp_arg_bytes {S} (o : option bytes) (Q : bytes → S → Prop) s :
  Q (default [] o) s → wp (arg_bytes (opt_block o) (opt_size o)) Q s.
Proof.
  intros HQ. unfold arg_bytes. destruct o as [b|]; cbn [opt_block opt_size default] in *.
  - cbn [deref]. wp_simpl. rewrite in_block_true by lia. wp_simpl.
    by rewrite Nat2Z.id, firstn_all.
  - by wp_simpl.
Qed.

Lemma wp_entry_req {S} e x (Q : req_info → S → Prop) s :
  holds e x → Q (a_req x) s → wp (entry_req e) Q s.
Proof.
  intros [_ (r & sa & Hr & Hx) _ _ _] HQ. unfold entry_req. rewrite Hr. cbn [deref].
  wp_simpl. by rewrite Hx.
Qed.

(** A call that fills the 64 KB buffer: no result, or the result at the start
    of the buffer. *)
Lemma wp_with_result a req (f : D → option bytes) (k : bytes → Z → MT (system D) ())
    (Q : () → mem (system D) → Prop) :
  never_fails a →
  (∀ v, f (y_db y) = Some v → Z.of_nat (length v) ≤ db_buf_size) →
  (f (y_db y) = None → ∀ a', never_fails a' →
     Q tt (Mem (set_server (emits [reply_mini req REP_NOTIN] (y_server y)) y) a')) →
  (∀ v tl a', f (y_db y) = Some v → never_fails a' → Z.of_nat (length (v ++ tl)) = db_buf_size →
     wp (k (v ++ tl) (Z.of_nat (length v))) Q (Mem y a')) →
  wp (with_result req f k) Q (Mem y a).
Proof.
  intros Ha Hcap Hn Hv. unfold with_result. wp_simpl. apply wp_malloc; [done|]. cbn iota.
  cbn [deref]. wp_simpl. unfold call_fill. wp_simpl.
  destruct (f (y_db y)) as [v|] eqn:E; wp_simpl.
  - specialize (Hcap v eq_refl). assert (0 ≤ db_buf_size) by by unfold db_buf_size.
    apply wp_memcpy; [lia|rewrite length_replicate; lia|lia|]. wp_simpl.
    rewrite Nat2Z.id, firstn_all. apply Hv; [done|by auto with nmdb|].
    rewrite length_app, length_drop, length_replicate. lia.
  - apply wp_reply_to. apply Hn; [done|]. by auto with nmdb.
Qed.
End ops.

(** ** Each operation *)

Section process.
Context (y : system D) (a : alloc) (e : qentry) (x : aentry).
Context (Ha : never_fails a) (Hx : holds e x).

Abbreviation m := (db_view (y_db y)).
Abbreviation k := (default [] (a_key x)).
Abbreviation v := (default [] (a_val x)).

(** The final state of an operation, by its replies and its database. *)
Lemma processed_intro rs m' y' a' :
  never_fails a' → y_server y' = emits rs (y_server y) → db_view (y_db y') = m' →
  y_stop y' = y_stop y → processed y (rs, m') (Mem y' a').
Proof. by repeat split. Qed.

Lemma wp_key (Q : bytes → mem (system D) → Prop) t :
  Q k t → wp (arg_bytes (q_key e) (q_ksize e)) Q t.
Proof. intros HQ. destruct (h_key _ _ Hx) as [-> ->]. by apply wp_arg_bytes. Qed.

Lemma wp_val (Q : bytes → mem (system D) → Prop) t :
  Q v t → wp (arg_bytes (q_val e) (q_vsize e)) Q t.
Proof. intros HQ. destruct (h_val _ _ Hx) as [-> ->]. by apply wp_arg_bytes. Qed.

Lemma wp_newval (Q : bytes → mem (system D) → Prop) t :
  Q (default [] (a_newval x)) t → wp (arg_bytes (q_newval e) (q_nvsize e)) Q t.
Proof. intros HQ. destruct (h_newval _ _ Hx) as [-> ->]. by apply wp_arg_bytes. Qed.

(** The reply that ends an operation. *)
Lemma wp_reply_end r y' a' m' :
  never_fails a' → y_server y' = y_server y → db_view (y_db y') = m' → y_stop y' = y_stop y →
  wp (reply_to r) (λ _ t, processed y ([r], m') t) (Mem y' a').
Proof.
  intros Ha' Es ? ?. apply wp_reply_to. apply processed_intro; try done. by rewrite Es.
Qed.

Lemma wp_bytes_end req b tl y' a' m' :
  never_fails a' → y_server y' = y_server y → db_view (y_db y') = m' → y_stop y' = y_stop y →
  wp (reply_bytes req (b ++ tl) (Z.of_nat (length b)))
    (λ _ t, processed y ([reply_long req REP_OK b], m') t) (Mem y' a').
Proof.
  intros Ha' Es ? ?.
  eapply wp_reply_bytes; [done|by apply take_app_length|rewrite length_app; lia|].
  apply processed_intro; try done. by rewrite Es.
Qed.

Definition outcome (t : mem (system D)) : Prop :=
  processed y (a_process x (set_ok x (y_db y)) (y_db y)) t.

Lemma outcome_intro ok r t :
  ok = set_ok x (y_db y) → a_process x ok (y_db y) = r → processed y r t → outcome t.
Proof. by intros -> <- Ht. Qed.

(** An operation that does not store. *)
Lemma outcome_any r t :
  (∀ ok, a_process x ok (y_db y) = r) → processed y r t → outcome t.
Proof. intros E. by eapply outcome_intro. Qed.

Lemma wp_process_set :
  a_operation x = REQ_SET → wp (process_set e) (λ _, outcome) (Mem y a).
Proof.
  intros Hop. unfold process_set. apply wp_bind, wp_key. apply wp_bind, wp_val.
  apply wp_bind, wp_call_set. intros ok d Hok Hd.
  assert (ok = set_ok x (y_db y)) as Hso by by unfold set_ok, stored_value; rewrite Hop.
  clear Hok. apply wp_bind. eapply wp_entry_req; [done|].
  assert (a_process x ok (y_db y) =
    (if has_sync (a_req x) then [if ok then reply_mini (a_req x) REP_OK
       else reply_err (a_req x) ERR_DB] else [], if ok then <[k := v]> m else m)) as E.
  { unfold a_process. by rewrite Hop. }
  destruct (has_sync (a_req x)); cbn [negb].
  - destruct ok; cbn [negb]; (eapply wp_mono; [by eapply (wp_reply_end _ (set_db d y))|]);
      intros ? t; by eapply outcome_intro.
  - wp_simpl. eapply outcome_intro; [done..|]. apply processed_intro; try done. by rewrite emits_nil.
Qed.

Lemma wp_process_del :
  a_operation x = REQ_DEL → wp (process_del e) (λ _, outcome) (Mem y a).
Proof.
  intros Hop. unfold process_del. apply wp_bind, wp_key.
  apply wp_bind, wp_call_del. intros d Hd.
  apply wp_bind. eapply wp_entry_req; [done|].
  assert (∀ ok, a_process x ok (y_db y) = (if has_sync (a_req x)
     then [reply_mini (a_req x) (if (db_del k (y_db y)).1 then REP_OK else REP_NOTIN)]
     else [], delete k m)) as E.
  { intros ok. unfold a_process. by rewrite Hop. }
  destruct (has_sync (a_req x)); cbn [negb].
  - destruct (db_del k (y_db y)).1; cbn [negb];
      (eapply wp_mono; [by eapply (wp_reply_end _ (set_db d y))|]);
      intros ? t; by eapply outcome_any.
  - wp_simpl. eapply outcome_any; [done|]. apply processed_intro; try done. by rewrite emits_nil.
Qed.

(** An operation that replies with what a call found. *)
Lemma wp_lookup req f Q :
  (∀ b, f (y_db y) = Some b → Z.of_nat (length b) ≤ db_buf_size) →
  (∀ t, processed y ([reply_result req (f (y_db y))], m) t → Q tt t) →
  wp (with_result req f (λ buf n, reply_bytes req buf n)) Q (Mem y a).
Proof.
  intros Hcap HQ. eapply wp_with_result; [done|done| |].
  - intros E a' Ha'. apply HQ. rewrite E. by apply processed_intro.
  - intros b tl a' E Ha' _. rewrite E in HQ. eapply wp_mono; [by apply wp_bytes_end|].
    intros [] t Ht. by apply HQ.
Qed.

Lemma db_get_lookup :
  vals_fit m → db_get k db_buf_size (y_db y) = m !! k.
Proof.
  intros Hm. destruct (m !! k) as [dv|] eqn:E.
  - apply db_get_some; [done|]. by apply (Hm k dv).
  - by apply db_get_none.
Qed.

Lemma wp_process_get :
  vals_fit m → a_operation x = REQ_GET → wp (process_get e) (λ _, outcome) (Mem y a).
Proof.
  intros Hm Hop. unfold process_get. apply wp_bind. eapply wp_entry_req; [done|].
  apply wp_bind, wp_key. apply wp_lookup; [intros b; by apply db_get_cap|].
  intros t Ht. eapply outcome_any; [|done]. intros ok. unfold a_process. rewrite Hop.
  by rewrite db_get_lookup.
Qed.

Lemma wp_process_firstkey :
  vals_fit m → a_operation x = REQ_FIRSTKEY → wp (process_firstkey e) (λ _, outcome) (Mem y a).
Proof.
  intros Hm Hop. unfold process_firstkey. apply wp_bind. eapply wp_entry_req; [done|].
  assert (∀ ok, a_process x ok (y_db y) = ([match db_firstkey with
      | None => reply_err (a_req x) ERR_DB
      | Some f => reply_result (a_req x) (f db_buf_size (y_db y))
      end], m)) as E by by intros ok; unfold a_process; rewrite Hop.
  destruct db_firstkey as [f|] eqn:Ef.
  - apply wp_lookup; [|intros t; by eapply outcome_any].
    intros b Hb. destruct (db_firstkey_in _ _ _ _ Ef Hb) as [v Hv]. by apply (Hm _ _ Hv).
  - eapply wp_mono; [by eapply wp_reply_end|]. intros ? t. by eapply outcome_any.
Qed.

Lemma wp_process_nextkey :
  vals_fit m → a_operation x = REQ_NEXTKEY → wp (process_nextkey e) (λ _, outcome) (Mem y a).
Proof.
  intros Hm Hop. unfold process_nextkey. apply wp_bind. eapply wp_entry_req; [done|].
  assert (∀ ok, a_process x ok (y_db y) = ([match db_nextkey with
      | None => reply_err (a_req x) ERR_DB
      | Some f => reply_result (a_req x) (f k db_buf_size (y_db y))
      end], m)) as E by by intros ok; unfold a_process; rewrite Hop.
  destruct db_nextkey as [f|] eqn:Ef.
  - apply wp_bind, wp_key. apply wp_lookup; [|intros t; by eapply outcome_any].
    intros b Hb. destruct (db_nextkey_in _ _ _ _ _ Ef Hb) as [v Hv]. by apply (Hm _ _ Hv).
  - eapply wp_mono; [by eapply wp_reply_end|]. intros ? t. by eapply outcome_any.
Qed.

(** The operations that list keys leave the database as it is. *)
Lemma wp_process_lists :
  vals_fit m → lists x → wp (process_op e) (λ _ t, y_db (obj t) = y_db y) (Mem y a).
Proof.
  intros Hm Hop.
  assert (∀ req f, (∀ b, f (y_db y) = Some b → is_Some (m !! b)) →
    wp (with_result req f (λ buf n, reply_bytes req buf n)) (λ _ t, y_db (obj t) = y_db y) (Mem y a)) as Hl.
  { intros req f Hf. apply wp_with_result; [done|..].
    - intros b [w Hw]%Hf. by apply (Hm b w).
    - done.
    - intros b tl a' _ _ _.
      eapply wp_reply_bytes; [done|by apply take_app_length|rewrite length_app; lia|done]. }
  unfold process_op. rewrite (h_op _ _ Hx). destruct Hop as [Ho|Ho]; rewrite Ho.
  - unfold process_firstkey. apply wp_bind. eapply wp_entry_req; [done|].
    destruct db_firstkey as [f|] eqn:Ef; [|by apply wp_reply_to].
    apply Hl. intros b. by apply db_firstkey_in.
  - unfold process_nextkey. apply wp_bind. eapply wp_entry_req; [done|].
    destruct db_nextkey as [f|] eqn:Ef; [|by apply wp_reply_to].
    apply wp_bind, wp_key. apply Hl. intros b. by apply db_nextkey_in.
Qed.

(** Comparing the entry's value with what the call found. *)
Lemma wp_compare dv tl (K : bool → MT (system D) ()) Q t :
  is_Some (a_val x) →
  wp (K (bool_decide (dv = v))) Q t →
  wp (same ← (if q_vsize e =? Z.of_nat (length dv)
              then b ← deref (q_val e); memeq b (dv ++ tl) (Z.of_nat (length dv))
              else mret false); K same) Q t.
Proof.
  intros [b Hb] HK. destruct (h_val _ _ Hx) as [-> ->]. rewrite Hb in *.
  cbn [opt_block opt_size default] in *. apply wp_bind.
  destruct (Z.of_nat (length b) =? _) eqn:E.
  - apply Z.eqb_eq in E. cbn [deref]. wp_simpl.
    apply wp_memeq; [lia|lia|rewrite length_app; lia|].
    rewrite Nat2Z.id, take_app_length, take_ge by lia.
    erewrite bool_decide_ext; [exact HK|]. unfold id. split; congruence.
  - apply Z.eqb_neq in E. wp_simpl. rewrite bool_decide_false in HK; [done|]. unfold id. intros ->. lia.
Qed.

Lemma wp_process_cas :
  vals_fit m → is_Some (a_val x) → a_operation x = REQ_CAS →
  wp (process_cas e) (λ _, outcome) (Mem y a).
Proof.
  intros Hm Hv Hop. unfold process_cas. apply wp_bind. eapply wp_entry_req; [done|].
  apply wp_bind, wp_key. pose proof (db_get_lookup Hm) as Hget.
  assert (∀ ok, a_process x ok (y_db y) = match m !! k with
    | None => ([reply_mini (a_req x) REP_NOTIN], m)
    | Some dv =>
        if decide (dv = v) then
          if ok then ([reply_mini (a_req x) REP_OK], <[k := default [] (a_newval x)]> m)
          else ([reply_err (a_req x) ERR_DB], m)
        else ([reply_mini (a_req x) REP_NOMATCH], m)
    end) as E by by intros ok; unfold a_process; rewrite Hop.
  eapply wp_with_result; [done|intros b; by apply db_get_cap|..].
  - intros En a' Ha'. rewrite Hget in En. rewrite En in E.
    eapply outcome_any; [done|]. by apply processed_intro.
  - intros dv tl a' En Ha' _. rewrite Hget in En. rewrite En in E.
    apply (wp_compare dv tl); [done|].
    case_bool_decide as Hd.
    + apply wp_bind, wp_newval. apply wp_bind, wp_call_set. intros ok d Hok Hdv.
      assert (ok = set_ok x (y_db y)) as Hso by by unfold set_ok, stored_value; rewrite Hop.
      clear Hok. destruct ok; cbn [negb]; (eapply wp_mono; [by eapply (wp_reply_end _ (set_db d y))|]);
        intros ? t; (eapply outcome_intro; [exact Hso|]); [rewrite (E true)|rewrite (E false)];
        by rewrite decide_True.
    + eapply wp_mono; [by eapply wp_reply_end|]. intros ? t. eapply outcome_any.
      intros ok. rewrite E. by rewrite decide_False.
Qed.

Lemma a_process_incr ok b :
  a_operation x = REQ_INCR → a_val x = Some b →
  a_process x ok (y_db y) = match m !! k with
    | None => ([reply_mini (a_req x) REP_NOTIN], m)
    | Some dv =>
        if ends_nul dv then
          if ok then ([reply_long (a_req x) REP_OK (be_split 8 (w64 (incr_num dv (incr_arg b))))],
                      <[k := incr_block dv (incr_arg b)]> m)
          else ([reply_err (a_req x) ERR_DB], m)
        else ([reply_mini (a_req x) REP_NOMATCH], m)
    end.
Proof. intros Hop Hb. unfold a_process. by rewrite Hop, Hb. Qed.

Lemma wp_process_incr :
  vals_fit m → (∃ b, a_val x = Some b ∧ length b = 8%nat) → a_operation x = REQ_INCR →
  wp (process_incr e) (λ _, outcome) (Mem y a).
Proof.
  intros Hm (b & Hb & Hb8) Hop. unfold process_incr. apply wp_bind. eapply wp_entry_req; [done|].
  apply wp_bind, wp_key. pose proof (db_get_lookup Hm) as Hget.
  pose proof (λ ok, a_process_incr ok b Hop Hb) as E.
  eapply wp_with_result; [done|intros c; by apply db_get_cap|..].
  { intros En a' Ha'. rewrite Hget in En. rewrite En in E.
    eapply outcome_any; [done|]. by apply processed_intro. }
  intros dv tl a' En Ha' Hlen. rewrite Hget in En. rewrite En in E.
  destruct (Hm k dv En) as (_ & Hne & Hfit). unfold db_buf_size in *. rewrite length_app in Hlen.
  destruct (last dv) as [c|] eqn:Hl; [|by apply last_None in Hl].
  apply wp_bind, (wp_last_byte_in _ _ _ _ c); [done|lia|].
  assert (ends_nul dv = bool_decide (c = NUL)) as En2.
  { unfold ends_nul. rewrite Hl. apply bool_decide_ext. naive_solver. }
  rewrite <-En2. destruct (ends_nul dv) eqn:Hnul; cbn [negb].
  2:{ eapply wp_mono; [by eapply wp_reply_end|]. intros ? t. by eapply outcome_any. }
  apply wp_bind, wp_c_string_in; [done|].
  destruct (h_val _ _ Hx) as [-> _]. rewrite Hb. cbn [opt_block deref]. wp_simpl.
  apply wp_load; [lia|lia|]. rewrite drop_0, take_ge by lia. fold (incr_arg b).
  fold (incr_num dv (incr_arg b)). set (n := incr_num dv (incr_arg b)).
  set (sz := if Z.of_nat (length dv) <? 24 then 24 else Z.of_nat (length dv)).
  assert (sz = Z.of_nat (Nat.max 24 (length dv))) as Esz
    by by unfold sz; destruct (Z.ltb_spec (Z.of_nat (length dv)) 24); lia.
  apply wp_bind, wp_snprintf_23lld_in; [apply incr_num_range|lia|rewrite length_app; lia|].
  rewrite Esz, Nat2Z.id. unfold n. rewrite take_incr_block. fold n.
  apply wp_bind, wp_call_set. intros ok d Hok Hd.
  assert (ok = set_ok x (y_db y)) as Hso.
  { unfold set_ok, stored_value. rewrite Hop, En, Hb. done. }
  clear Hok. destruct ok; cbn [negb].
  - change (store_le 8 (htonll (w64 n))) with (le_split 8 (htonll (w64 n))).
    rewrite le_split_htonll.
    pose proof (wp_bytes_end (a_req x) (be_split 8 (w64 n)) [] (set_db d y) a' (db_view d)
      Ha' eq_refl eq_refl eq_refl) as Hend. rewrite app_nil_r, length_be_split in Hend.
    eapply wp_mono; [exact Hend|]. intros ? t. eapply outcome_intro; [exact Hso|].
    rewrite E. by rewrite Hd.
  - eapply wp_mono; [by eapply (wp_reply_end _ (set_db d y))|]. intros ? t.
    eapply outcome_intro; [exact Hso|]. by rewrite E.
Qed.

Lemma wp_process_op :
  vals_fit m → entry_ok x → wp (process_op e) (λ _, outcome) (Mem y a).
Proof.
  intros Hm Hok. unfold process_op. rewrite (h_op _ _ Hx). unfold entry_ok in Hok.
  destruct (a_key x) as [kx|] eqn:Ek, (a_val x) as [vx|] eqn:Ev, (a_newval x) as [nx|] eqn:En;
    try done.
  - rewrite Hok. apply wp_process_cas; [done|by rewrite Ev|done].
  - destruct Hok as [Ho|[Ho H8]]; rewrite Ho.
    + by apply wp_process_set.
    + apply wp_process_incr; [done|by exists vx|done].
  - destruct Hok as [Ho|[Ho|Ho]]; rewrite Ho.
    + by apply wp_process_get.
    + by apply wp_process_del.
    + by apply wp_process_nextkey.
  - rewrite Hok. by apply wp_process_firstkey.
Qed.
End process.
End spec.

(** ** The loop *)

(** What an entry stores fits. *)
Definition entry_fits (x : aentry) : Prop :=
  (a_operation x = REQ_SET → key_fits (default [] (a_key x)) ∧ val_fits (default [] (a_val x))) ∧
  (a_operation x = REQ_CAS → val_fits (default [] (a_newval x))).

Section loop.
Context {D : Type} `{DbLaws D}.

(** The entries processed one after the other, and their replies. *)
Inductive db_steps : D → list aentry → D → list reply → Prop :=
  | db_steps_nil d : db_steps d [] d []
  | db_steps_cons d x xs rs d1 d2 rs2 :
      a_process x (set_ok x d) d = (rs, db_view d1) → db_steps d1 xs d2 rs2 →
      db_steps d (x :: xs) d2 (rs ++ rs2).

Lemma vals_fit_insert m k v :
  vals_fit m → key_fits k → val_fits v → vals_fit (<[k := v]> m).
Proof.
  intros Hm Hk Hv k' v' [[<- <-]|[_ E]]%lookup_insert_Some; [done|]. by eapply Hm.
Qed.

Lemma vals_fit_delete m k : vals_fit m → vals_fit (delete k m).
Proof. intros Hm k' v' [_ E]%lookup_delete_Some. by eapply Hm. Qed.

Lemma incr_fits v n : Z.of_nat (length v) ≤ db_buf_size → val_fits (incr_block v n).
Proof.
  intros Hl. unfold val_fits, db_buf_size in *. rewrite length_incr_block. split; [|lia].
  intros En. apply (f_equal length) in En. rewrite length_incr_block in En. cbn in En. lia.
Qed.

Lemma a_process_fits x ok d :
  entry_fits x → vals_fit (db_view d) → vals_fit (a_process x ok d).2.
Proof.
  intros [Hset Hcas] Hm. unfold a_process.
  destruct (a_operation x =? REQ_SET) eqn:E1; [apply Z.eqb_eq in E1|].
  { destruct ok; [|done]. by apply vals_fit_insert; [|apply Hset..]. }
  destruct (a_operation x =? REQ_GET); [done|].
  destruct (a_operation x =? REQ_DEL); [by apply vals_fit_delete|].
  destruct (a_operation x =? REQ_CAS) eqn:E2; [apply Z.eqb_eq in E2|].
  { destruct (db_view d !! _) as [dv|] eqn:E; [|done]. destruct (Hm _ _ E) as [Hk _].
    repeat case_match; try done. by apply vals_fit_insert; [..|apply Hcas]. }
  destruct (a_operation x =? REQ_INCR).
  { destruct (db_view d !! _) as [dv|] eqn:E; [|done]. destruct (Hm _ _ E) as (Hk & Hne & Hl).
    repeat case_match; try done. apply vals_fit_insert; [done..|]. by apply incr_fits. }
  by destruct (a_operation x =? REQ_FIRSTKEY).
Qed.

(** A round that waited without error: it ends the loop when there is nothing
    to do and it was asked to, else it processes the oldest entry. *)
Lemma wp_db_iteration rv y a l (Q : bool → mem (system D) → Prop) :
  rv = 0 ∨ rv = ETIMEDOUT →
  never_fails a → queue_is (s_queue (y_server y)) l → Z.of_nat (length l) < 2 ^ 64 →
  vals_fit (db_view (y_db y)) → Forall entry_ok l →
  (l = [] → Q (negb (y_stop y)) (Mem y a)) →
  (∀ x l' rs q' y' a', l = x :: l' → never_fails a' → queue_is q' l' →
     a_process x (set_ok x (y_db y)) (y_db y) = (rs, db_view (y_db y')) →
     y_server y' = emits rs (set_queue q' (y_server y)) → y_stop y' = y_stop y →
     (lists x → y_db y' = y_db y) → Q true (Mem y' a')) →
  wp (db_iteration rv) Q (Mem y a).
Proof.
  intros Hrv Ha (xs & Hq & Hxs) Hlen Hm Hok Hempty Hstep. unfold db_iteration.
  assert (negb (rv =? 0) && negb (rv =? ETIMEDOUT) = false) as ->
    by by destruct Hrv as [-> | ->].
  apply wp_bind, wp_on_server, wp_on_queue. eapply wp_queue_get; [done|..].
  { by rewrite <-(length_fmap snd), Hxs. }
  { intros ->. cbn iota. cbn [obj heap]. wp_simpl.
    replace (set_server (set_queue (s_queue (y_server y)) (y_server y)) y) with y
      by by destruct y as [[]]. by apply Hempty. }
  intros i x ys q1 -> Hq1. cbn [obj heap]. cbn iota.
  destruct (qr_detached _ _ _ Hq1 i x) as (e & He & Hx); [by left|].
  apply wp_bind, wp_on_server, wp_on_queue.
  apply (wp_qentry_at _ _ _ e); [done|]. cbn [obj heap].
  rewrite <-Hxs in Hok. apply Forall_cons in Hok as [Hxok Hok].
  apply wp_bind. eapply wp_mono.
  { apply (wp_and_when _ (lists x)); [by apply (wp_process_op _ _ e x)|].
    intros Hlist. by apply (wp_process_lists _ _ e x). }
  intros [] [y2 a2] [(Ha2 & Es & Ed & Estop) Hkeep]. cbn [obj heap] in *.
  apply wp_bind, wp_on_server, wp_on_queue. rewrite Es. cbn [s_queue emits set_out set_queue set_server y_server].
  eapply wp_queue_entry_free; [done|]. intros q3 Hq3. cbn [obj heap]. wp_simpl.
  eapply (Hstep x ys.*2 _ q3); [by rewrite <-Hxs|done|by exists ys| |done|done|exact Hkeep].
  cbn [y_db set_server]. rewrite Ed. apply surjective_pairing.
Qed.

(** With [loop_should_stop] set, the loop drains the queue and breaks. *)
Lemma wp_db_loop_drains rvs y a l :
  Forall (λ rv, rv = 0 ∨ rv = ETIMEDOUT) rvs → length rvs = S (length l) →
  never_fails a → queue_is (s_queue (y_server y)) l → Z.of_nat (length l) < 2 ^ 64 →
  vals_fit (db_view (y_db y)) → Forall entry_ok l → Forall entry_fits l → y_stop y = true →
  wp (db_loop rvs) (λ r t, r = false ∧ ∃ rs q', queue_is q' [] ∧
      db_steps (y_db y) l (y_db (obj t)) rs ∧
      y_server (obj t) = emits rs (set_queue q' (y_server y))) (Mem y a).
Proof.
  intros Hrvs. revert y a l. induction Hrvs as [|rv rvs Hrv Hrvs IH];
    intros y a l Hl Ha Hq Hlen Hm Hok Hfit Hstop; [done|]. cbn [db_loop].
  apply wp_bind. eapply wp_db_iteration; [done..| |].
  - intros ->. rewrite Hstop. cbn [negb]. wp_simpl. split; [done|].
    exists [], (s_queue (y_server y)). split_and!; [done|constructor|].
    rewrite emits_nil. by destruct (y_server y).
  - intros x l' rs q' y' a' -> Ha' Hq' E Es Estop _.
    apply Forall_cons in Hok as [_ Hok]. apply Forall_cons in Hfit as [Hx Hfit].
    eapply wp_mono.
    + eapply (IH y' a' l'); try done; try (cbn in *; lia).
      * by rewrite Es.
      * pose proof (a_process_fits x (set_ok x (y_db y)) (y_db y) Hx Hm) as H1. by rewrite E in H1.
      * by rewrite Estop.
    + intros r t (-> & rs2 & q2 & Hq2 & Hd & Es2). split; [done|].
      exists (rs ++ rs2), q2. split_and!; [done|by econstructor|].
      rewrite Es2, Es. unfold emits, set_out, set_queue; cbn. by rewrite (assoc_L (++)).
Qed.
End loop.

(** ** Who is answered *)

Definition reply_req (r : reply) : req_info :=
  match r with reply_mini q _ => q | reply_err q _ => q | reply_long q _ _ => q end.

(** The reply goes where the request came from, with its ID. *)
Definition to_client (req : req_info) (r : reply) : Prop :=
  let q := reply_req r in
  let n := Z.to_nat (r_clilen req) in
  r_fd q = r_fd req ∧ r_type q = r_type req ∧ r_id q = r_id req ∧
  r_clilen q = r_clilen req ∧ take n (r_clisa q) = take n (r_clisa req).

Lemma to_client_self req r : reply_req r = req → to_client req r.
Proof. unfold to_client. by intros ->. Qed.

Lemma to_client_queued req r : reply_req r = queued_req req → to_client req r.
Proof.
  unfold to_client. intros ->. cbn. split_and!; try done. by rewrite take_take, Nat.min_id.
Qed.

Section answers.
Context {D : Type} `{DbLaws D}.

Lemma reply_result_req req o : reply_req (reply_result req o) = req.
Proof. by destruct o. Qed.

(** One queued operation gets exactly one reply, but an asynchronous set or
    del, which gets none. *)
Lemma a_process_replies req op k v nv ok d :
  let rs := (a_process (queued req op k v nv) ok d).1 in
  (if negb (op =? REQ_SET) && negb (op =? REQ_DEL) || sync_flag req
   then ∃ r, rs = [r] ∧ reply_req r = queued_req req else rs = []).
Proof.
  unfold a_process, has_sync, sync_flag. cbn.
  destruct (op =? REQ_SET) eqn:E1; cbn [negb andb orb].
  { destruct (truth _); [|done]. eexists; split; [done|]. by destruct ok. }
  destruct (op =? REQ_GET) eqn:E2.
  { apply Z.eqb_eq in E2; subst op. cbn. eexists; split; [done|]. apply reply_result_req. }
  destruct (op =? REQ_DEL); cbn [negb andb orb].
  { destruct (truth _); [|done]. by eexists. }
  destruct (op =? REQ_CAS); [repeat case_match; eexists; done|].
  destruct (op =? REQ_INCR); [repeat case_match; eexists; done|].
  destruct (op =? REQ_FIRSTKEY); [destruct db_firstkey|destruct db_nextkey];
    eexists; (split; [done|]); done || apply reply_result_req.
Qed.

(** The replies of the database thread to the entries [xs]. *)
Definition db_replies (xs : list aentry) (ok : bool) (d : D) : list reply :=
  concat (map (λ x, (a_process x ok d).1) xs).

End answers.

(** ** Properties *)

(** C12: refinement of the database thread's work. For an entry as the handlers
    queue them, and a backend that honours its contract and whose values fit
    the 64 KB buffer, [process_op] is defined, sends exactly the replies and
    makes exactly the change to the stored map that [a_process] says, and
    touches nothing else of the server. *)
Theorem process_op_refines {D} `{DbLaws D} (y : system D) (a : alloc) (e : qentry) (x : aentry)
  (Ha : never_fails a) (Hx : holds e x) (Hok : entry_ok x) (Hm : vals_fit (db_view (y_db y))) :
  ∃ y' a', process_op e (Mem y a) = Some (tt, Mem y' a') ∧
    y_server y' = emits (a_process x (set_ok x (y_db y)) (y_db y)).1 (y_server y) ∧
    db_view (y_db y') = (a_process x (set_ok x (y_db y)) (y_db y)).2.
Proof.
  pose proof (wp_process_op y a e x Ha Hx Hm Hok) as Hw.
  apply wp_exec in Hw as ([] & [y' a'] & Hw & _ & H1 & H2 & _).
  by exists y', a'.
Qed.

Definition sample_store : store := {[ [Byte.x61] := [Byte.x31; NUL] ]}.
Definition sample_system : system store := System sample_server sample_store true.

Lemma sample_vals_fit : vals_fit (db_view (y_db sample_system)).
Proof.
  intros k v H. cbn in H. unfold sample_store in H.
  apply lookup_singleton_Some in H as [<- <-]. by vm_compute.
Qed.

Lemma sample_holds : holds sample_qentry sample_aentry.
Proof. split; try done. by exists sample_req, [Byte.x01]. Qed.

Lemma process_op_refines_witness :
  ∃ y' a', process_op sample_qentry (Mem sample_system sample_alloc) = Some (tt, Mem y' a') ∧
    y_server y' = emits (a_process sample_aentry true sample_store).1 sample_server ∧
    db_view (y_db y') = (a_process sample_aentry true sample_store).2.
Proof.
  apply (process_op_refines sample_system sample_alloc sample_qentry sample_aentry
    sample_never_fails sample_holds); [|apply sample_vals_fit].
  right. left. reflexivity.
Defined.

(** C24: shutdown. Once [loop_should_stop] is set, and whatever the waits
    return short of an error, [db_loop] breaks after as many rounds as there
    are entries plus one: every queued operation was run, in the order it was
    queued, its replies were sent, the queue is empty, and the cache, the
    statistics and the settings are untouched. *)
Theorem db_loop_drains {D} `{DbLaws D} (rvs : list Z) (y : system D) (a : alloc) (l : list aentry)
  (Hrvs : Forall (λ rv, rv = 0 ∨ rv = ETIMEDOUT) rvs) (Hn : length rvs = S (length l))
  (Ha : never_fails a) (Hq : queue_is (s_queue (y_server y)) l)
  (Hl : Z.of_nat (length l) < 2 ^ 64) (Hm : vals_fit (db_view (y_db y)))
  (Hok : Forall entry_ok l) (Hfit : Forall entry_fits l) (Hstop : y_stop y = true) :
  ∃ y' a' q' rs, db_loop rvs (Mem y a) = Some (false, Mem y' a') ∧
    queue_is q' [] ∧ db_steps (y_db y) l (y_db y') rs ∧
    y_server y' = emits rs (set_queue q' (y_server y)).
Proof.
  pose proof (wp_db_loop_drains rvs y a l Hrvs Hn Ha Hq Hl Hm Hok Hfit Hstop) as Hw.
  apply wp_exec in Hw as (r & [y' a'] & Hw & -> & rs & q' & H1 & H2 & H3).
  by exists y', a', q', rs.
Qed.

Lemma db_loop_drains_witness :
  ∃ y' a' q' rs, db_loop [0; ETIMEDOUT] (Mem sample_system sample_alloc) = Some (false, Mem y' a') ∧
    queue_is q' [] ∧ db_steps sample_store [sample_aentry] (y_db y') rs ∧
    y_server y' = emits rs (set_queue q' sample_server).
Proof.
  apply (db_loop_drains [0; ETIMEDOUT] sample_system sample_alloc [sample_aentry]);
    try done; try apply sample_vals_fit.
  - constructor; [by left|]. constructor; [by right|]. constructor.
  - apply sample_queue_is.
  - constructor; [|constructor]. right. left. reflexivity.
  - constructor; [|constructor]. split; intros E; discriminate E.
Defined.
