(* ===== verification/Transport.v ===== *)
(** * The datagram transports (nmdb/udp.c, nmdb/tipc.c, nmdb/sctp.c)

    The three files only differ in the socket they open, the counter they
    increment and one test on the result of [recvfrom]. Modelled here: the
    bytes of each reply, the passive mode, a failed send, and the receive
    handlers with their static buffer. The kernel is a script of the results
    that the coming calls of [sendto] and [send] have. *)

From S2P Require Import Prelude Words Text Chain ChainSpec Cache Net Queue Server Parse ParseSpec.

Definition SBSIZE : Z := 68 * 1024.

(** ** Sending *)

Inductive send_result :=
  | Sent (n : Z)      (* the number of bytes taken *)
  | Again             (* -1 with EAGAIN *)
  | Failed.           (* -1 with another errno *)

(** A packet, or a piece of a stream: descriptor, address, bytes. *)
Record packet := Packet { p_fd : Z; p_addr : bytes; p_bytes : bytes }.

Record net := Net {
  n_passive : Z;
  n_results : list send_result;
  n_sent : list packet;
}.

Definition set_results (rs : list send_result) (n : net) : net :=
  Net (n_passive n) rs (n_sent n).
Definition add_sent (p : packet) (n : net) : net :=
  Net (n_passive n) (n_results n) (n_sent n ++ [p]).

(** [sendto(fd, buf, size, 0, sa, salen)]: a datagram goes as a whole. *)
Definition sendto (req : req_info) (buf : bytes) : MT net send_result :=
  n ← get_obj;
  match n_results n with
  | [] => ub
  | r :: rs =>
      mod_obj (set_results rs);;
      match r with
      | Sent _ =>
          mod_obj (add_sent (Packet (r_fd req) (take (Z.to_nat (r_clilen req)) (r_clisa req)) buf))
      | _ => mret tt
      end;;
      mret r
  end.

Definition is_passive : MT net bool := n ← get_obj; mret (truth (n_passive n)).

(** A 32-bit value as [memcpy(buf, &x, 4)] writes it. *)
Definition put32 (x : Z) : bytes := store_le 4 x.

(** [rep_send_error]: ID, [REP_ERR], error code. *)
Definition rep_send_error (req : req_info) (code : Z) : MT net () :=
  passive ← is_passive;
  if passive : bool then mret tt else
  sendto req (put32 (r_id req) ++ put32 (htonl REP_ERR) ++ put32 (htonl code));;
  mret tt.

Definition rep_send (req : req_info) (buf : bytes) : MT net bool :=
  passive ← is_passive;
  if passive : bool then mret true else
  rv ← sendto req buf;
  match rv with
  | Sent _ => mret true
  | _ => rep_send_error req ERR_SEND;; mret false
  end.

Definition dgram_reply_mini (req : req_info) (code : Z) : MT net () :=
  passive ← is_passive;
  if passive : bool then mret tt else
  rep_send req (put32 (r_id req) ++ put32 (htonl code));; mret tt.

Definition dgram_reply_err (req : req_info) (code : Z) : MT net () := rep_send_error req code.

(** The buffer of [bsize] bytes is allocated and filled in four steps; a failed
    [malloc] is not tested, and the first [memcpy] dereferences NULL. *)
Definition dgram_reply_long (req : req_info) (code : Z) (val : bytes) : MT net () :=
  let vsize := Z.of_nat (length val) in
  let bsize := 4 + 4 + 4 + vsize in
  p ← malloc bsize;
  buf ← deref p;
  b0 ← memcpy buf (put32 (r_id req)) 4;
  b4 ← memcpy (drop 4 b0) (put32 (htonl code)) 4;
  b8 ← memcpy (drop 4 b4) (put32 (htonl vsize)) 4;
  b12 ← memcpy (drop 4 b8) val vsize;
  rep_send req (take 4 b0 ++ take 4 b4 ++ take 4 b8 ++ b12);;
  free (Block buf);;
  mret tt.

(** A reply event of the handlers or of the database thread, sent. *)
Definition dgram_send (r : reply) : MT net () :=
  match r with
  | reply_mini req code => dgram_reply_mini req code
  | reply_err req code => dgram_reply_err req code
  | reply_long req code val => dgram_reply_long req code val
  end.

(** The functions that each of the three files gives to its requests. *)
Definition udp_reply_mini : req_info → Z → MT net () := dgram_reply_mini.
Definition udp_reply_err : req_info → Z → MT net () := dgram_reply_err.
Definition udp_reply_long : req_info → Z → bytes → MT net () := dgram_reply_long.
Definition tipc_reply_mini : req_info → Z → MT net () := dgram_reply_mini.
Definition tipc_reply_err : req_info → Z → MT net () := dgram_reply_err.
Definition tipc_reply_long : req_info → Z → bytes → MT net () := dgram_reply_long.
Definition sctp_reply_mini : req_info → Z → MT net () := dgram_reply_mini.
Definition sctp_reply_err : req_info → Z → MT net () := dgram_reply_err.
Definition sctp_reply_long : req_info → Z → bytes → MT net () := dgram_reply_long.

(** ** Receiving *)

(** The static buffer of a transport, and the server. *)
Record receiver := Receiver { v_static : bytes; v_server : server }.

Definition set_static (b : bytes) (v : receiver) : receiver := Receiver b (v_server v).
Definition set_vserver (s : server) (v : receiver) : receiver := Receiver (v_static v) s.
Definition on_vserver {A} (m : MT server A) : MT receiver A :=
  zoom (λ v, Some (v_server v)) set_vserver m.

(** What [recvfrom] returns: an error, or a datagram and its sender. *)
Inductive recv_result :=
  | RecvError
  | Datagram (data sa : bytes).

(** [recvfrom] writes the datagram at the start of the static buffer, cut to
    its size. *)
Definition recv_into (data : bytes) : MT receiver Z :=
  v ← get_obj;
  let d := take (Z.to_nat SBSIZE) data in
  b ← memcpy (v_static v) d (Z.of_nat (length d));
  mod_obj (set_static b);;
  mret (Z.of_nat (length d)).

(** The body the three handlers share; [low]: results up to it are ignored. *)
Definition dgram_recv (ty : req_type) (counter : stat) (low : Z) (fd : Z) (r : recv_result)
    : MT receiver () :=
  match r with
  | RecvError => mret tt
  | Datagram data sa =>
      rv ← recv_into data;
      if rv <? low then mret tt
      else if rv <? 8 then on_vserver (count net_broken_req)
      else
        on_vserver (count counter);;
        v ← get_obj;
        on_vserver (parse_message (Req fd ty sa (Z.of_nat (length sa)) 0 0 0 [] 0) (v_static v) rv);;
        mret tt
  end.

Definition udp_recv : Z → recv_result → MT receiver () := dgram_recv REQTYPE_UDP msg_udp 0.
(** [rv <= 0]: an undeliverable message is ignored. *)
Definition tipc_recv : Z → recv_result → MT receiver () := dgram_recv REQTYPE_TIPC msg_tipc 1.
Definition sctp_recv : Z → recv_result → MT receiver () := dgram_recv REQTYPE_SCTP msg_sctp 0.

(** ** The bytes of a reply *)

(** A reply as doc/network.rst describes it; the ID is echoed as it came. *)
Definition wire (r : reply) : bytes :=
  match r with
  | reply_mini req code => put32 (r_id req) ++ be_split 4 code
  | reply_err req code => put32 (r_id req) ++ be_split 4 REP_ERR ++ be_split 4 code
  | reply_long req code val =>
      put32 (r_id req) ++ be_split 4 code ++ be_split 4 (Z.of_nat (length val)) ++ val
  end.

Definition addr_of (req : req_info) : bytes := take (Z.to_nat (r_clilen req)) (r_clisa req).
Definition req_of (r : reply) : req_info :=
  match r with reply_mini q _ => q | reply_err q _ => q | reply_long q _ _ => q end.
Definition packet_of (r : reply) : packet :=
  Packet (r_fd (req_of r)) (addr_of (req_of r)) (wire r).

Lemma put32_htonl x : put32 (htonl x) = be_split 4 x.
Proof. apply le_split_htonl. Qed.

Lemma length_put32 x : length (put32 x) = 4%nat.
Proof. apply length_le_split. Qed.

Section sending.
Context (n : net) (a : alloc).

Lemma wp_is_passive (Q : bool → mem net → Prop) :
  Q (truth (n_passive n)) (Mem n a) → wp is_passive Q (Mem n a).
Proof. intros HQ. unfold is_passive. by wp_simpl. Qed.

(** A send that works. *)
Lemma wp_rep_send_ok req buf k rs (Q : bool → mem net → Prop) :
  n_passive n = 0 → n_results n = Sent k :: rs →
  Q true (Mem (Net 0 rs (n_sent n ++ [Packet (r_fd req) (addr_of req) buf])) a) →
  wp (rep_send req buf) Q (Mem n a).
Proof.
  intros Hp Hr HQ. unfold rep_send. apply wp_bind, wp_is_passive. rewrite Hp.
  change (truth 0) with false. cbn iota. unfold sendto. wp_simpl. rewrite Hr. wp_simpl.
  cbn [set_results add_sent n_passive n_results n_sent]. rewrite <-Hp in HQ. done.
Qed.

Lemma wp_rep_send_passive req buf (Q : bool → mem net → Prop) :
  n_passive n ≠ 0 → Q true (Mem n a) → wp (rep_send req buf) Q (Mem n a).
Proof.
  intros Hp HQ. unfold rep_send. apply wp_bind, wp_is_passive. unfold truth.
  rewrite (proj2 (Z.eqb_neq _ _)) by done. by wp_simpl.
Qed.

Lemma wp_rep_send_error req code k rs (Q : () → mem net → Prop) :
  n_passive n = 0 → n_results n = Sent k :: rs →
  Q tt (Mem (Net 0 rs (n_sent n ++ [packet_of (reply_err req code)])) a) →
  wp (rep_send_error req code) Q (Mem n a).
Proof.
  intros Hp Hr HQ. unfold rep_send_error. apply wp_bind, wp_is_passive. rewrite Hp.
  change (truth 0) with false. cbn iota. unfold sendto. wp_simpl. rewrite Hr. wp_simpl.
  cbn [set_results add_sent n_passive n_results n_sent]. rewrite <-Hp in HQ. rewrite !put32_htonl. done.
Qed.

Lemma wp_rep_send_error_passive req code (Q : () → mem net → Prop) :
  n_passive n ≠ 0 → Q tt (Mem n a) → wp (rep_send_error req code) Q (Mem n a).
Proof.
  intros Hp HQ. unfold rep_send_error. apply wp_bind, wp_is_passive. unfold truth.
  rewrite (proj2 (Z.eqb_neq _ _)) by done. by wp_simpl.
Qed.

(** Filling the reply's buffer, whatever is done with it. *)
Lemma wp_fill_long {A} req code val (K : bytes → bytes → MT net A) (Q : A → mem net → Prop) :
  never_fails a →
  (∀ buf, wp (K buf (wire (reply_long req code val))) Q (Mem n (al_tick a))) →
  wp (p ← malloc (4 + 4 + 4 + Z.of_nat (length val));
      buf ← deref p;
      b0 ← memcpy buf (put32 (r_id req)) 4;
      b4 ← memcpy (drop 4 b0) (put32 (htonl code)) 4;
      b8 ← memcpy (drop 4 b4) (put32 (htonl (Z.of_nat (length val)))) 4;
      b12 ← memcpy (drop 4 b8) val (Z.of_nat (length val));
      K buf (take 4 b0 ++ take 4 b4 ++ take 4 b8 ++ b12)) Q (Mem n a).
Proof.
  intros Ha HQ. wp_simpl. apply wp_malloc; [done|]. cbn [deref]. wp_simpl.
  pose proof (length_put32 (r_id req)). pose proof (length_put32 (htonl code)).
  pose proof (length_put32 (htonl (Z.of_nat (length val)))).
  set (buf := replicate _ _).
  assert (length buf = (12 + length val)%nat) as Hb.
  { unfold buf. rewrite length_replicate. lia. }
  apply wp_memcpy; [lia|lia|lia|]. change (Z.to_nat 4) with 4%nat.
  rewrite (take_ge (put32 _)) by lia. rewrite drop_app_full by lia. wp_simpl.
  apply wp_memcpy; [lia|rewrite length_drop; lia|lia|]. change (Z.to_nat 4) with 4%nat.
  rewrite (take_ge (put32 (htonl code))) by lia. rewrite drop_app_full by lia. wp_simpl.
  rewrite !drop_drop.
  apply wp_memcpy; [lia|rewrite length_drop; lia|lia|]. change (Z.to_nat 4) with 4%nat.
  rewrite (take_ge (put32 (htonl (Z.of_nat (length val))))) by lia.
  rewrite drop_app_full by lia. wp_simpl. rewrite !drop_drop.
  apply wp_memcpy_full; [lia|lia|rewrite length_drop; lia|].
  rewrite Nat2Z.id, firstn_all. rewrite !take_app_full by lia.
  rewrite !put32_htonl. apply HQ.
Qed.
End sending.

(** The packets a reply becomes, by how the kernel takes it: sent; refused, and
    then the error reply sent or refused as well. *)
Definition is_err (r : reply) : bool := match r with reply_err _ _ => true | _ => false end.

Definition attempt (r : reply) (rs : list send_result) : list packet * list send_result :=
  match rs with
  | [] => ([], [])
  | Sent _ :: rs => ([packet_of r], rs)
  | _ :: rs =>
      if is_err r then ([], rs) else
      match rs with
      | Sent _ :: rs => ([packet_of (reply_err (req_of r) ERR_SEND)], rs)
      | _ :: rs => ([], rs)
      | [] => ([], [])
      end
  end.

(** The network after an attempt. *)
Definition after (r : reply) (n : net) : net :=
  Net (n_passive n) (attempt r (n_results n)).2 (n_sent n ++ (attempt r (n_results n)).1).

(** The kernel has an answer for the send and for the error it may cause. *)
Definition net_ready (n : net) : Prop := n_passive n = 0 ∧ (2 ≤ length (n_results n))%nat.

Lemma wp_send_error_after n a req code (Q : () → mem net → Prop) :
  n_passive n = 0 → (1 ≤ length (n_results n))%nat →
  Q tt (Mem (after (reply_err req code) n) a) → wp (rep_send_error req code) Q (Mem n a).
Proof.
  intros Hp Hl HQ. destruct n as [pa [|r rs] sent]; cbn in Hp, Hl; [lia|]. subst pa.
  unfold rep_send_error. apply wp_bind, wp_is_passive. cbn [n_passive].
  change (truth 0) with false. cbn iota. unfold sendto. wp_simpl. cbn [n_results]. wp_simpl.
  unfold after in HQ. destruct r; cbn in HQ |- *; wp_simpl; rewrite ?app_nil_r in HQ;
    rewrite ?put32_htonl; exact HQ.
Qed.

(** A send of a reply that is not an error. *)
Lemma wp_rep_send_after n a r (Q : bool → mem net → Prop) :
  net_ready n → is_err r = false →
  (∀ b, Q b (Mem (after r n) a)) → wp (rep_send (req_of r) (wire r)) Q (Mem n a).
Proof.
  intros [Hp Hl] Hne HQ. destruct n as [pa [|r1 [|r2 rs]] sent]; cbn in Hp, Hl; try lia. subst pa.
  unfold rep_send. apply wp_bind, wp_is_passive. cbn [n_passive].
  change (truth 0) with false. cbn iota. unfold sendto. wp_simpl. cbn [n_results]. wp_simpl.
  unfold after, attempt in HQ. rewrite Hne in HQ. cbn [n_results n_sent n_passive] in HQ.
  destruct r1; wp_simpl; [exact (HQ true)|..];
    (eapply wp_send_error_after; [done|cbn; lia|]); wp_simpl; unfold after, attempt;
    cbn [n_results n_sent n_passive set_results is_err];
    specialize (HQ false); by destruct r2.
Qed.

(** Every reply function ends as [after] says, and does nothing in passive
    mode. *)
Lemma wp_dgram_send n a r (Q : () → mem net → Prop) :
  net_ready n → never_fails a →
  (∀ a', never_fails a' → Q tt (Mem (after r n) a')) → wp (dgram_send r) Q (Mem n a).
Proof.
  intros Hn Ha HQ. destruct Hn as [Hp Hl]. destruct r as [req code|req code|req code val];
    cbn [dgram_send].
  - unfold dgram_reply_mini. apply wp_bind, wp_is_passive. rewrite Hp.
    change (truth 0) with false. cbn iota. rewrite put32_htonl. apply wp_bind.
    apply (wp_rep_send_after n a (reply_mini req code)); [done|done|]. intros b. wp_simpl. by apply HQ.
  - apply wp_send_error_after; [done|lia|]. by apply HQ.
  - unfold dgram_reply_long.
    eapply (wp_fill_long n a req code val
      (λ buf b, rep_send req b;; free (Block buf);; mret tt)); [done|]. intros buf. apply wp_bind.
    apply (wp_rep_send_after n _ (reply_long req code val)); [done|done|]. intros b. cbn [free].
    wp_simpl. apply HQ. by auto with nmdb.
Qed.

Lemma wp_dgram_send_passive n a r (Q : () → mem net → Prop) :
  n_passive n ≠ 0 → never_fails a →
  (∀ a', never_fails a' → Q tt (Mem n a')) → wp (dgram_send r) Q (Mem n a).
Proof.
  intros Hp Ha HQ. destruct r as [req code|req code|req code val]; cbn [dgram_send].
  - unfold dgram_reply_mini. apply wp_bind, wp_is_passive. unfold truth.
    rewrite (proj2 (Z.eqb_neq _ _)) by done. cbn [negb]. wp_simpl. by apply HQ.
  - apply wp_rep_send_error_passive; [done|]. by apply HQ.
  - unfold dgram_reply_long.
    eapply (wp_fill_long n a req code val
      (λ buf b, rep_send req b;; free (Block buf);; mret tt)); [done|]. intros buf. apply wp_bind.
    apply wp_rep_send_passive; [done|]. cbn [free]. wp_simpl. apply HQ. by auto with nmdb.
Qed.

(** ** Receiving *)

Record receiver_is (v : receiver) (st : astate) : Prop := ReceiverIs {
  vi_server : server_is (v_server v) st;
  vi_static : Z.of_nat (length (v_static v)) = SBSIZE;
}.

(** The request a handler builds. *)
Definition fresh_req (ty : req_type) (fd : Z) (sa : bytes) : req_info :=
  Req fd ty sa (Z.of_nat (length sa)) 0 0 0 [] 0.

Lemma fresh_req_ok ty fd sa : req_ok (fresh_req ty fd sa).
Proof. unfold req_ok, fresh_req; cbn. lia. Qed.

Lemma wp_on_vserver {A} v a (m : MT server A) (Q : A → mem receiver → Prop) :
  wp m (λ r t, Q r (Mem (set_vserver (obj t) v) (heap t))) (Mem (v_server v) a) →
  wp (on_vserver m) Q (Mem v a).
Proof. intros H. unfold on_vserver. by rewrite (wp_zoom _ _ _ _ _ _ (v_server v)). Qed.

(** A datagram that fits reaches [parse_message] at the start of the buffer,
    with what the buffer held before behind it. *)
Lemma wp_dgram_recv ty counter low fd data sa v a st (Q : () → mem receiver → Prop) :
  receiver_is v st → never_fails a → 0 ≤ low ≤ 8 → 8 ≤ Z.of_nat (length data) ≤ SBSIZE →
  (∀ s, server_is s (to_stats counter st) →
     let buf := data ++ drop (length data) (v_static v) in
     wp (parse_message (fresh_req ty fd sa) buf (Z.of_nat (length data)))
       (λ _ t, Q tt (Mem (Receiver buf (obj t)) (heap t))) (Mem s a)) →
  wp (dgram_recv ty counter low fd (Datagram data sa)) Q (Mem v a).
Proof.
  intros [Hs Hv] Ha Hlow Hd HQ. unfold dgram_recv, recv_into. wp_simpl.
  rewrite (take_ge data) by lia. apply wp_memcpy; [lia|lia|lia|].
  rewrite Nat2Z.id, firstn_all. wp_simpl.
  rewrite (proj2 (Z.ltb_ge _ low)), (proj2 (Z.ltb_ge _ 8)) by lia.
  wp_simpl. apply wp_on_vserver. eapply wp_count; [done|]. intros s' Hs'. wp_simpl.
  apply wp_on_vserver. eapply wp_mono; [by apply HQ|]. intros r t Ht. wp_simpl. exact Ht.
Qed.

(** A datagram that encodes a request. *)
Lemma wp_recv_encoded ty counter low fd sa i f m v a st (Q : () → mem receiver → Prop) :
  receiver_is v st → never_fails a → queue_room st → 0 ≤ low ≤ 8 →
  0 ≤ i < 2 ^ 28 → 0 ≤ f < 2 ^ 16 → msg_ok m → incr_safe m st →
  (∀ v' a' req, receiver_is v' (handle req m (to_stats counter st)) → never_fails a' →
     r_id req = htonl i → r_flags req = f → r_fd req = fd → r_type req = ty → addr_of req = sa →
     Q tt (Mem v' a')) →
  wp (dgram_recv ty counter low fd (Datagram (encode i f m) sa)) Q (Mem v a).
Proof.
  intros Hv Ha Hroom Hlow Hi Hf Hm Hsafe HQ. pose proof (encode_bounds i f m Hm) as Hb.
  eapply wp_dgram_recv; [done|done|done|unfold max_size, SBSIZE in *; lia|]. intros s Hs buf.
  destruct (msg_of_encode i f m (drop (length (encode i f m)) (v_static v)) Hi Hf)
    as (H1 & H2 & H3 & H4 & H5 & H6 & H7). fold buf in H1, H2, H3, H4, H5, H6.
  set (req := filled (fresh_req ty fd sa) buf (Z.of_nat (length (encode i f m)))).
  eapply wp_parse_message; [apply fresh_req_ok|done|done|done|done|done|].
  intros _. exists m. rewrite H3, H5. split_and!.
  - apply decode_encode_args; [done|]. rewrite H7. apply w64_small. unfold max_size in Hb. lia.
  - by destruct m.
  - by apply incr_no_wrap_ok.
  - intros t [Ht1 Ht2]. apply (HQ _ _ req); try done.
    + split; [done|]. cbn [v_static]. unfold buf. rewrite length_app, length_drop.
      pose proof (vi_static _ _ Hv). unfold max_size, SBSIZE in *. lia.
    + unfold req, filled, set_msg. cbn [r_id]. by rewrite H2.
    + unfold req, filled, addr_of. cbn. by rewrite Nat2Z.id, firstn_all.
Qed.

(** ** Properties *)

(** The bytes of a reply. Outside passive mode every reply of the handlers
    or of the database thread becomes exactly one packet, with the layout of
    doc/network.rst, to the address the request came from; when the kernel
    refuses it, one [ERR_SEND] error is tried instead, once. No buffer is
    overrun or leaked on the way. *)
Theorem dgram_send_wire (n : net) (a : alloc) (r : reply)
  (Hn : net_ready n) (Ha : never_fails a) :
  ∃ a', dgram_send r (Mem n a) = Some (tt, Mem (after r n) a').
Proof.
  assert (wp (dgram_send r) (λ _ t, obj t = after r n) (Mem n a)) as H by by apply wp_dgram_send.
  apply wp_exec in H as ([] & [n' a'] & H & E). cbn in E. subst n'. by exists a'.
Qed.

Lemma dgram_send_wire_witness :
  ∃ a', dgram_send (reply_long sample_req REP_OK [Byte.x2a]) (Mem (Net 0 [Failed; Sent 12] []) sample_alloc)
    = Some (tt, Mem (Net 0 [] [Packet 3 [Byte.x01] (put32 7 ++ be_split 4 REP_ERR ++ be_split 4 ERR_SEND)]) a').
Proof.
  apply (dgram_send_wire (Net 0 [Failed; Sent 12] []) sample_alloc
    (reply_long sample_req REP_OK [Byte.x2a])); [split; [done|cbn; lia]|apply sample_never_fails].
Defined.

(** Passive mode. While [settings.passive] is set no reply, of whatever
    kind, puts a byte on the network. *)
Theorem dgram_send_passive (n : net) (a : alloc) (r : reply)
  (Hn : n_passive n ≠ 0) (Ha : never_fails a) :
  ∃ a', dgram_send r (Mem n a) = Some (tt, Mem n a').
Proof.
  assert (wp (dgram_send r) (λ _ t, obj t = n) (Mem n a)) as H by by apply wp_dgram_send_passive.
  apply wp_exec in H as ([] & [n' a'] & H & E). cbn in E. subst n'. by exists a'.
Qed.

Lemma dgram_send_passive_witness :
  ∃ a', dgram_send (reply_mini sample_req REP_OK) (Mem (Net 1 [] []) sample_alloc)
    = Some (tt, Mem (Net 1 [] []) a').
Proof. apply (dgram_send_passive (Net 1 [] []) sample_alloc); [discriminate|done]. Defined.

(** A request over a datagram transport. The datagram that encodes a
    request, as doc/network.rst says, is counted once and handled as that very
    request; the ID its replies echo is the one in the datagram and they go to
    its sender, whatever the static buffer held before. *)
Theorem dgram_recv_request (ty : req_type) (counter : stat) (low fd : Z) (sa : bytes)
  (i f : Z) (m : areq) (v : receiver) (a : alloc) (st : astate)
  (Hv : receiver_is v st) (Ha : never_fails a) (Hroom : queue_room st) (Hlow : 0 ≤ low ≤ 8)
  (Hi : 0 ≤ i < 2 ^ 28) (Hf : 0 ≤ f < 2 ^ 16) (Hm : msg_ok m) (Hsafe : incr_safe m st) :
  ∃ v' a' req, dgram_recv ty counter low fd (Datagram (encode i f m) sa) (Mem v a)
      = Some (tt, Mem v' a') ∧
    receiver_is v' (handle req m (to_stats counter st)) ∧ never_fails a' ∧
    put32 (r_id req) = be_split 4 i ∧ r_flags req = f ∧ r_fd req = fd ∧ r_type req = ty ∧
    addr_of req = sa.
Proof.
  assert (wp (dgram_recv ty counter low fd (Datagram (encode i f m) sa))
    (λ _ t, ∃ req, receiver_is (obj t) (handle req m (to_stats counter st)) ∧
      never_fails (heap t) ∧ r_id req = htonl i ∧ r_flags req = f ∧ r_fd req = fd ∧
      r_type req = ty ∧ addr_of req = sa) (Mem v a)) as Hw.
  { eapply wp_recv_encoded; try done. intros v' a' req. exists req. by split_and!. }
  apply wp_exec in Hw as ([] & [v' a'] & Hw & req & H1 & H2 & H3 & H4 & H5 & H6 & H7).
  exists v', a', req. split_and!; try done. by rewrite H3, put32_htonl.
Qed.

Definition sample_static : bytes := replicate (Z.to_nat SBSIZE) NUL.
Definition sample_receiver : receiver := Receiver sample_static sample_server.

Lemma sample_receiver_is : receiver_is sample_receiver sample_state.
Proof.
  split; [apply sample_server_is|]. cbn. unfold sample_static. rewrite length_replicate.
  unfold SBSIZE. lia.
Qed.

Lemma dgram_recv_request_witness :
  ∃ v' a' req, udp_recv 5 (Datagram (encode 7 1 (AGet (sample_key 50))) [Byte.x01])
      (Mem sample_receiver sample_alloc) = Some (tt, Mem v' a') ∧
    receiver_is v' (handle req (AGet (sample_key 50)) (to_stats msg_udp sample_state)) ∧
    never_fails a' ∧ put32 (r_id req) = be_split 4 7 ∧ r_flags req = 1 ∧ r_fd req = 5 ∧
    r_type req = REQTYPE_UDP ∧ addr_of req = [Byte.x01].
Proof.
  apply (dgram_recv_request REQTYPE_UDP msg_udp 0 5 [Byte.x01] 7 1 (AGet (sample_key 50))
    sample_receiver sample_alloc sample_state sample_receiver_is sample_never_fails sample_room);
    try lia; try done.
Defined.
