(* ===== verification/Tcp.v ===== *)
(** * The TCP transport (nmdb/tcp.c)

    A connection's [tcp_socket], the receive handler and [process_buf], which
    cuts the byte stream into messages: a message is prefixed with its total
    length, an incomplete one is kept in a buffer of the socket, and what is
    left over after a complete one is moved to the front of the buffer and
    processed recursively. Also the framing of the replies and the loop of
    [rep_send]. *)

From S2P Require Import Prelude Words Text Chain ChainSpec Cache Net Queue Server Parse ParseSpec Transport.

(** [struct tcp_socket]. A socket's event is registered as long as the socket
    exists. *)
Record tcp_socket := TcpSocket {
  t_fd : Z;
  t_clisa : bytes;
  t_clilen : Z;
  t_buf : cptr;
  t_pktsize : Z;
  t_len : Z;
  t_req : req_info;
  t_excess : Z;
}.

Definition set_tbuf (b : cptr) (t : tcp_socket) : tcp_socket :=
  TcpSocket (t_fd t) (t_clisa t) (t_clilen t) b (t_pktsize t) (t_len t) (t_req t) (t_excess t).
Definition set_tsizes (pkt len : Z) (t : tcp_socket) : tcp_socket :=
  TcpSocket (t_fd t) (t_clisa t) (t_clilen t) (t_buf t) pkt len (t_req t) (t_excess t).
Definition set_treq (r : req_info) (t : tcp_socket) : tcp_socket :=
  TcpSocket (t_fd t) (t_clisa t) (t_clilen t) (t_buf t) (t_pktsize t) (t_len t) r (t_excess t).
Definition set_texcess (x : Z) (t : tcp_socket) : tcp_socket :=
  TcpSocket (t_fd t) (t_clisa t) (t_clilen t) (t_buf t) (t_pktsize t) (t_len t) (t_req t) x.

(** The static buffer, the socket ([None] once it was freed), the server, and
    whether the descriptor was closed. *)
Record tconn := TConn {
  tc_static : bytes;
  tc_sock : option tcp_socket;
  tc_server : server;
  tc_closed : bool;
}.

Definition set_tstatic (b : bytes) (c : tconn) : tconn :=
  TConn b (tc_sock c) (tc_server c) (tc_closed c).
Definition set_tsock (t : option tcp_socket) (c : tconn) : tconn :=
  TConn (tc_static c) t (tc_server c) (tc_closed c).
Definition set_tserver (s : server) (c : tconn) : tconn :=
  TConn (tc_static c) (tc_sock c) s (tc_closed c).
Definition set_closed (c : tconn) : tconn :=
  TConn (tc_static c) (tc_sock c) (tc_server c) true.

Definition on_tserver {A} (m : MT server A) : MT tconn A :=
  zoom (λ c, Some (tc_server c)) set_tserver m.

(** [tcpsock->field]: a freed socket is undefined. *)
Definition sock : MT tconn tcp_socket := c ← get_obj; lift_opt (tc_sock c).
Definition upd_sock (f : tcp_socket → tcp_socket) : MT tconn () :=
  t ← sock; mod_obj (set_tsock (Some (f t))).

(** The buffer that [process_buf] works on: the static one, or the socket's. *)
Inductive which_buf := StaticBuf | SockBuf.

Definition get_buf (w : which_buf) : MT tconn bytes :=
  match w with
  | StaticBuf => c ← get_obj; mret (tc_static c)
  | SockBuf => t ← sock; deref (t_buf t)
  end.
Definition put_buf (w : which_buf) (b : bytes) : MT tconn () :=
  match w with
  | StaticBuf => mod_obj (set_tstatic b)
  | SockBuf => upd_sock (set_tbuf (Block b))
  end.

(** [tcp_newconnection], after [accept]. *)
Definition new_socket (fd : Z) (sa : bytes) : tcp_socket :=
  TcpSocket fd sa (Z.of_nat (length sa)) Null 0 0 (fresh_req REQTYPE_TCP fd sa) 0.

Definition init_req : MT tconn () :=
  upd_sock (λ t, set_treq (Req (t_fd t) REQTYPE_TCP (t_clisa t) (t_clilen t) (r_id (t_req t))
    (r_cmd (t_req t)) (r_flags (t_req t)) (r_payload (t_req t)) (r_psize (t_req t))) t).

(** [tcp_socket_free] *)
Definition tcp_socket_free : MT tconn () :=
  t ← sock;
  match t_buf t with Null => mret tt | p => free p;; mret tt end;;
  mod_obj (set_tsock None).

(** The error label: close, unregister, free. *)
Definition error_exit : MT tconn () :=
  sock;; mod_obj set_closed;; tcp_socket_free.

(** [memmove(buf, buf + off, n)] *)
Definition memmove_down {S} (buf : bytes) (off n : Z) : M S bytes :=
  if bool_decide (0 ≤ off) && bool_decide (0 ≤ n) && in_block buf (off + n)
  then mret (take (Z.to_nat n) (drop (Z.to_nat off) buf) ++ drop (Z.to_nat n) buf)
  else ub.

(** The size of the message at the start of the buffer, or 4 when it is not
    known yet; [None]: too big or too small. *)
Definition total_to_get (buf : bytes) (len : Z) : MT tconn (option Z) :=
  if 4 <=? len then
    w ← load 4 buf 0;
    let t := ntohl w in
    mret (if (64 * 1024 <? t) || (t <=? 8) then None else Some t)
  else mret (Some 4).

(** An incomplete message. *)
Definition keep_partial (buf : bytes) (total len : Z) : MT tconn () :=
  t ← sock;
  match t_buf t with
  | Null =>
      p ← malloc SBSIZE;
      match p with
      | Null => error_exit
      | _ =>
          blk ← deref p;
          blk ← memcpy blk buf len;
          upd_sock (set_tbuf (Block blk));; upd_sock (set_tsizes total len)
      end
  | _ => upd_sock (set_tsizes total len)
  end.

(** Each recursive call has a smaller [len]; [S len] is enough fuel. *)
Fixpoint process_buf (fuel : nat) (w : which_buf) (len : Z) : MT tconn () :=
  match fuel with
  | O => ub
  | S fuel =>
      buf ← get_buf w;
      total ← total_to_get buf len;
      match total with
      | None => error_exit
      | Some total =>
          if len <? total then keep_partial buf total len else
          (if total <? len then upd_sock (set_texcess (w64 (len - total))) else mret tt);;
          let len := total in
          on_tserver (count msg_tcp);;
          t ← sock;
          r ← on_tserver (parse_message (t_req t) (drop 4 buf) (len - 4));
          if negb (r : bool) then error_exit else
          t ← sock;
          if negb (t_excess t =? 0) then
            b ← memmove_down buf len (t_excess t);
            put_buf w b;;
            upd_sock (λ t, set_texcess 0 (set_tsizes (t_pktsize t) (t_excess t) t));;
            init_req;;
            process_buf fuel w len
          else
            match t_buf t with
            | Null => mret tt
            | p =>
                free p;;
                upd_sock (λ t, set_texcess 0 (set_tsizes 0 0 (set_tbuf Null t)))
            end
      end
  end.

(** What [recv] finds: nothing yet, the end of the stream or an error, or
    pending bytes, of which it takes as many as it asked for. *)
Inductive tcp_event := EvAgain | EvClosed | EvData (pending : bytes).

(** [tcp_recv]: the pending bytes that were not taken. *)
Definition tcp_recv (ev : tcp_event) : MT tconn bytes :=
  t ← sock;
  match ev with
  | EvAgain => mret []
  | EvClosed => error_exit;; mret []
  | EvData pending =>
      match t_buf t with
      | Null =>
          let d := take (Z.to_nat SBSIZE) pending in
          let rv := Z.of_nat (length d) in
          b ← get_buf StaticBuf;
          b ← memcpy b d rv;
          put_buf StaticBuf b;;
          init_req;;
          process_buf (S (Z.to_nat rv)) StaticBuf rv;;
          mret (drop (Z.to_nat SBSIZE) pending)
      | _ =>
          let maxtoread := w64 (t_pktsize t - t_len t) in
          let d := take (Z.to_nat maxtoread) pending in
          let rv := Z.of_nat (length d) in
          b ← deref (t_buf t);
          if negb (in_block b (t_len t)) then ub else
          b' ← memcpy (drop (Z.to_nat (t_len t)) b) d rv;
          upd_sock (set_tbuf (Block (take (Z.to_nat (t_len t)) b ++ b')));;
          upd_sock (λ t, set_tsizes (t_pktsize t) (w64 (t_len t + rv)) t);;
          t ← sock;
          process_buf (S (Z.to_nat (t_len t))) SockBuf (t_len t);;
          mret (drop (Z.to_nat maxtoread) pending)
      end
  end.

(** The event loop on one connection: while bytes are pending and the socket
    is there, its handler is called. *)
Fixpoint drain (fuel : nat) (pending : bytes) : MT tconn bytes :=
  match pending, fuel with
  | [], _ => mret []
  | _, O => ub
  | _, S fuel =>
      c ← get_obj;
      match tc_sock c with
      | None => mret pending
      | Some _ => rest ← tcp_recv (EvData pending); drain fuel rest
      end
  end.

(** The stream arriving in segments. *)
Fixpoint feed (segments : list bytes) : MT tconn () :=
  match segments with
  | [] => mret tt
  | d :: ds => drain (length d) d;; feed ds
  end.

(** ** Sending *)

(** [send(fd, buf, n, 0)]: takes some of the bytes. *)
Definition send (req : req_info) (buf : bytes) : MT net send_result :=
  n ← get_obj;
  match n_results n with
  | [] => ub
  | r :: rs =>
      mod_obj (set_results rs);;
      match r with
      | Sent k => mod_obj (add_sent (Packet (r_fd req) [] (take (Z.to_nat k) buf)))
      | _ => mret tt
      end;;
      mret r
  end.

(** [rep_send_error]: total length, ID, [REP_ERR], error code. *)
Definition tcp_rep_send_error (req : req_info) (code : Z) : MT net () :=
  passive ← is_passive;
  if passive : bool then mret tt else
  send req (put32 (htonl 16) ++ put32 (r_id req) ++ put32 (htonl REP_ERR) ++ put32 (htonl code));;
  mret tt.

(** The loop of [rep_send]: [c] bytes of [buf] were sent; a send that would
    block is retried. The kernel's script bounds the number of retries. *)
Fixpoint tcp_send_loop (fuel : nat) (req : req_info) (buf : bytes) (c : Z) : MT net bool :=
  if c <? Z.of_nat (length buf) then
    match fuel with
    | O => ub
    | S fuel =>
        rv ← send req (drop (Z.to_nat c) buf);
        match rv with
        | Failed => tcp_rep_send_error req ERR_SEND;; mret false
        | Again => tcp_send_loop fuel req buf c
        | Sent k =>
            if k =? Z.of_nat (length buf) then mret true
            else if k =? 0 then mret true
            else tcp_send_loop fuel req buf (c + k)
        end
    end
  else mret true.

Definition tcp_rep_send (req : req_info) (buf : bytes) : MT net bool :=
  passive ← is_passive;
  if passive : bool then mret true else
  n ← get_obj;
  tcp_send_loop (length (n_results n)) req buf 0.

Definition tcp_reply_mini (req : req_info) (code : Z) : MT net () :=
  passive ← is_passive;
  if passive : bool then mret tt else
  tcp_rep_send req (put32 (htonl 12) ++ put32 (r_id req) ++ put32 (htonl code));; mret tt.

Definition tcp_reply_err (req : req_info) (code : Z) : MT net () := tcp_rep_send_error req code.

Definition tcp_reply_long (req : req_info) (code : Z) (val : bytes) : MT net () :=
  let vsize := Z.of_nat (length val) in
  let bsize := 4 + 4 + 4 + 4 + vsize in
  p ← malloc bsize;
  buf ← deref p;
  b0 ← memcpy buf (put32 (htonl bsize)) 4;
  b4 ← memcpy (drop 4 b0) (put32 (r_id req)) 4;
  b8 ← memcpy (drop 4 b4) (put32 (htonl code)) 4;
  b12 ← memcpy (drop 4 b8) (put32 (htonl vsize)) 4;
  b16 ← memcpy (drop 4 b12) val vsize;
  tcp_rep_send req (take 4 b0 ++ take 4 b4 ++ take 4 b8 ++ take 4 b12 ++ b16);;
  free (Block buf);;
  mret tt.

Definition tcp_send (r : reply) : MT net () :=
  match r with
  | reply_mini req code => tcp_reply_mini req code
  | reply_err req code => tcp_reply_err req code
  | reply_long req code val => tcp_reply_long req code val
  end.
