(* ===== verification/TcpSpec.v ===== *)
(** * Framing over TCP

    A message travels as its total length followed by its bytes ([frame]). A
    connection that has seen a proper prefix of a frame is in the state
    [partial] describes; a segment moves it to the next prefix, and the
    segment that completes the frame runs [parse_message] once on exactly the
    message and leaves the connection idle. *)

From S2P Require Import Prelude Words Text Chain ChainSpec Cache Net Queue Server Parse ParseSpec Transport Tcp.

Definition frame (m : bytes) : bytes := be_split 4 (4 + Z.of_nat (length m)) ++ m.

Lemma length_frame m : length (frame m) = (4 + length m)%nat.
Proof. unfold frame. by rewrite length_app, length_be_split. Qed.

(** The connection is idle: between two messages. *)
Record idle (c : tconn) (fd : Z) (sa : bytes) (st : astate) : Prop := Idle {
  id_sock : ∃ t, tc_sock c = Some t ∧ t_fd t = fd ∧ t_clisa t = sa ∧
    t_clilen t = Z.of_nat (length sa) ∧ t_buf t = Null ∧ t_excess t = 0;
  id_static : Z.of_nat (length (tc_static c)) = SBSIZE;
  id_server : server_is (tc_server c) st;
  id_open : tc_closed c = false;
}.

(** It has received the bytes [p] of a frame of [total] bytes, not all. *)
Record partial (c : tconn) (fd : Z) (sa : bytes) (st : astate) (total : Z) (p : bytes) : Prop :=
    Partial {
  pa_sock : ∃ t b, tc_sock c = Some t ∧ t_fd t = fd ∧ t_clisa t = sa ∧
    t_clilen t = Z.of_nat (length sa) ∧ t_buf t = Block b ∧ t_excess t = 0 ∧
    Z.of_nat (length b) = SBSIZE ∧ take (length p) b = p ∧
    r_fd (t_req t) = fd ∧ r_type (t_req t) = REQTYPE_TCP ∧ r_clisa (t_req t) = sa ∧
    r_clilen (t_req t) = Z.of_nat (length sa) ∧
    t_len t = Z.of_nat (length p) ∧
    t_pktsize t = (if Z.of_nat (length p) <? 4 then 4 else total);
  pa_static : Z.of_nat (length (tc_static c)) = SBSIZE;
  pa_server : server_is (tc_server c) st;
  pa_open : tc_closed c = false;
}.

Section accessors.
Context (c : tconn) (a : alloc).

Lemma wp_sock t (Q : tcp_socket → mem tconn → Prop) :
  tc_sock c = Some t → Q t (Mem c a) → wp sock Q (Mem c a).
Proof. intros Ht HQ. unfold sock. wp_simpl. by rewrite Ht. Qed.

Lemma wp_upd_sock t f (Q : () → mem tconn → Prop) :
  tc_sock c = Some t → Q tt (Mem (set_tsock (Some (f t)) c) a) → wp (upd_sock f) Q (Mem c a).
Proof. intros Ht HQ. unfold upd_sock. apply wp_bind, (wp_sock t); [done|]. by wp_simpl. Qed.

Lemma wp_on_tserver {A} (m : MT server A) (Q : A → mem tconn → Prop) :
  wp m (λ r t, Q r (Mem (set_tserver (obj t) c) (heap t))) (Mem (tc_server c) a) →
  wp (on_tserver m) Q (Mem c a).
Proof. intros H. unfold on_tserver. by rewrite (wp_zoom _ _ _ _ _ _ (tc_server c)). Qed.
End accessors.

(** The request a message of the connection is parsed into. *)
Definition tcp_req (fd : Z) (sa : bytes) (r : req_info) : Prop :=
  r_fd r = fd ∧ r_type r = REQTYPE_TCP ∧ r_clisa r = sa ∧ r_clilen r = Z.of_nat (length sa).

(** What [parse_message] does with the message once it is complete: the
    premise of the framing theorem, discharged for encoded requests. *)
Definition handles_msg (m : bytes) (fd : Z) (sa : bytes) (st : astate)
    (P : astate → Prop) : Prop :=
  ∀ req junk s a, tcp_req fd sa req → server_is s st → never_fails a →
    Z.of_nat (length (m ++ junk)) + 4 = SBSIZE →
    wp (parse_message req (m ++ junk) (Z.of_nat (length m)))
       (λ r t, r = true ∧ never_fails (heap t) ∧ ∃ st', P st' ∧ server_is (obj t) st') (Mem s a).

Section framing.
Context (m : bytes) (fd : Z) (sa : bytes) (st : astate) (P : astate → Prop).
Context (Hm : 5 ≤ Z.of_nat (length m)) (Hm' : 4 + Z.of_nat (length m) ≤ 64 * 1024).
Context (Hparse : handles_msg m fd sa (to_stats msg_tcp st) P).

Abbreviation total := (4 + Z.of_nat (length m)).

(** The state after the bytes [q]: still incomplete, or idle again. *)
Definition progressed (q : bytes) (t : mem tconn) : Prop :=
  never_fails (heap t) ∧
  if decide (q = frame m) then ∃ st', P st' ∧ idle (obj t) fd sa st' else partial (obj t) fd sa st total q.

Lemma total_w32 : 0 ≤ total < 2 ^ (Z.of_nat 4 * 8).
Proof. lia. Qed.

(** Once 4 bytes were read, they are the length. *)
Lemma prefix_total q b :
  q `prefix_of` frame m → take (length q) b = q → (4 ≤ length q)%nat →
  be_combine (take 4 b) = total.
Proof.
  intros [k Hk] Hq Hl.
  assert (take 4 b = take 4 q) as -> by (rewrite <-Hq, take_take; f_equal; lia).
  assert (take 4 q = be_split 4 total) as ->.
  { rewrite <-(take_app_le q k) by done. rewrite <-Hk. unfold frame.
    by rewrite take_app_full by by rewrite length_be_split. }
  rewrite be_combine_split. apply Z.mod_small, total_w32.
Qed.

Lemma wp_total q b c a (Q : option Z → mem tconn → Prop) :
  q `prefix_of` frame m → take (length q) b = q → (length q ≤ length b)%nat →
  Q (Some (if Z.of_nat (length q) <? 4 then 4 else total)) (Mem c a) →
  wp (total_to_get b (Z.of_nat (length q))) Q (Mem c a).
Proof.
  intros Hp Hq Hl HQ. unfold total_to_get. rewrite Z.leb_antisym.
  destruct (Z.of_nat (length q) <? 4) eqn:E; cbn [negb]; [by wp_simpl|].
  apply Z.ltb_ge in E. apply wp_bind, wp_load; [lia|lia|].
  rewrite drop_0, ntohl_le_combine by (rewrite length_take; lia).
  rewrite (prefix_total q) by (done || lia). wp_simpl.
  rewrite !(proj2 (Z.ltb_ge _ _)), (proj2 (Z.leb_gt _ _)) by lia. done.
Qed.

(** The buffer that [process_buf] is called on. *)
Definition at_buf (w : which_buf) (t : tcp_socket) (c : tconn) (b : bytes) : Prop :=
  match w with
  | StaticBuf => t_buf t = Null ∧ tc_static c = b
  | SockBuf => t_buf t = Block b
  end.

Lemma wp_get_buf w t c b a (Q : bytes → mem tconn → Prop) :
  tc_sock c = Some t → at_buf w t c b → Q b (Mem c a) → wp (get_buf w) Q (Mem c a).
Proof.
  intros Ht Hb HQ. destruct w; cbn [get_buf at_buf] in *.
  - destruct Hb as [_ <-]. by wp_simpl.
  - apply wp_bind. eapply wp_sock; [done|]. rewrite Hb. cbn [deref]. by wp_simpl.
Qed.

(** The socket's own fields. *)
Definition socket_ok (t : tcp_socket) : Prop :=
  t_fd t = fd ∧ t_clisa t = sa ∧ t_clilen t = Z.of_nat (length sa) ∧ t_excess t = 0 ∧
  tcp_req fd sa (t_req t).

Lemma wp_keep_partial w t c a b q :
  never_fails a → tc_sock c = Some t → socket_ok t → at_buf w t c b →
  Z.of_nat (length b) = SBSIZE → take (length q) b = q → (length q ≤ length b)%nat →
  Z.of_nat (length (tc_static c)) = SBSIZE → server_is (tc_server c) st → tc_closed c = false →
  q ≠ frame m →
  wp (keep_partial b (if Z.of_nat (length q) <? 4 then 4 else total) (Z.of_nat (length q)))
    (λ _, progressed q) (Mem c a).
Proof.
  intros Ha Ht (H1 & H2 & H3 & H4 & H5 & H6 & H7 & H8) Hb Hlb Hq Hql Hst Hs Ho Hne.
  unfold keep_partial. apply wp_bind. eapply wp_sock; [done|].
  assert (∀ (b' : bytes) a', never_fails a' → Z.of_nat (length b') = SBSIZE →
    take (length q) b' = q →
    progressed q (Mem (set_tsock (Some (set_tsizes (if Z.of_nat (length q) <? 4 then 4 else total)
      (Z.of_nat (length q)) (set_tbuf (Block b') t))) c) a')) as Hdone.
  { intros b' a' Ha' Hl' Hq'. split; [done|]. rewrite decide_False by done.
    split; [|done..]. eexists _, b'. split; [done|]. cbn. by split_and!. }
  destruct w; cbn [at_buf] in Hb.
  - destruct Hb as [Hn Hb]. rewrite Hn. wp_simpl. apply wp_malloc; [done|]. cbn iota.
    cbn [deref]. wp_simpl. apply wp_memcpy; [lia|rewrite length_replicate; unfold SBSIZE in *; lia|lia|].
    rewrite Nat2Z.id, Hq. wp_simpl. eapply wp_upd_sock; [done|]. wp_simpl.
    eapply wp_upd_sock; [done|]. apply Hdone; [by auto with nmdb| |by apply take_app_full].
    rewrite length_app, length_drop, length_replicate. lia.
  - rewrite Hb. eapply wp_upd_sock; [done|].
    specialize (Hdone b a Ha Hlb Hq).
    replace (set_tbuf (Block b) t) with t in Hdone; [done|].
    rewrite <-Hb. by destruct t.
Qed.

(** [process_buf] on the bytes [q] received so far. *)
Lemma wp_process_buf fuel w t c a b q :
  never_fails a → tc_sock c = Some t → socket_ok t → at_buf w t c b →
  Z.of_nat (length b) = SBSIZE → take (length q) b = q → q `prefix_of` frame m →
  Z.of_nat (length (tc_static c)) = SBSIZE → server_is (tc_server c) st → tc_closed c = false →
  wp (process_buf (S fuel) w (Z.of_nat (length q))) (λ _, progressed q) (Mem c a).
Proof.
  intros Ha Ht Hok Hb Hlb Hq Hp Hst Hs Ho. cbn [process_buf].
  assert (length q ≤ 4 + length m)%nat as Hlq.
  { apply prefix_length in Hp. by rewrite length_frame in Hp. }
  assert (length q ≤ length b)%nat as Hqb by (unfold SBSIZE in *; lia).
  apply wp_bind. eapply wp_get_buf; [done..|].
  apply wp_bind, wp_total; [done..|].
  destruct (decide (q = frame m)) as [->|Hne].
  2:{ assert (Z.of_nat (length q) < (if Z.of_nat (length q) <? 4 then 4 else total)) as Hlt.
      { destruct (Z.of_nat (length q) <? 4) eqn:E; [by apply Z.ltb_lt in E|].
        destruct Hp as [k Hk]. destruct k as [|x k]; [by rewrite app_nil_r in Hk|].
        apply (f_equal length) in Hk. rewrite length_frame, length_app in Hk. cbn in Hk. lia. }
      rewrite (proj2 (Z.ltb_lt _ _)) by done. by eapply wp_keep_partial. }
  assert ((Z.of_nat (length (frame m)) <? 4) = false) as ->.
  { apply Z.ltb_ge. rewrite length_frame. lia. }
  assert (Z.of_nat (length (frame m)) = total) as Hft by (rewrite length_frame; lia).
  rewrite Hft, Z.ltb_irrefl. apply wp_bind. wp_simpl.
  apply wp_on_tserver. eapply wp_count; [done|]. intros s1 Hs1. cbn [obj heap].
  apply wp_bind. apply (wp_sock _ _ t); [done|].
  destruct Hok as (H1 & H2 & H3 & H4 & Hreq).
  assert (drop 4 b = m ++ drop (4 + length m) b) as Hbm.
  { rewrite <-(take_drop (length (frame m)) b), Hq, length_frame. unfold frame at 1.
    rewrite <-app_assoc, drop_app_full by by rewrite length_be_split.
    f_equal. symmetry. apply drop_app_full. by rewrite length_frame. }
  rewrite Hbm. replace (total - 4) with (Z.of_nat (length m)) by lia.
  apply wp_bind, wp_on_tserver. eapply wp_mono.
  { apply Hparse; [done|done|done|]. rewrite <-Hbm, length_drop. lia. }
  intros r [s2 a2] (-> & Ha2 & st' & HP & Hs2). cbn [obj heap negb] in *.
  apply wp_bind. apply (wp_sock _ _ t); [done|]. rewrite H4. cbn [Z.eqb negb].
  assert (∀ t2 (c2 : tconn), t_fd t2 = fd → t_clisa t2 = sa → t_clilen t2 = Z.of_nat (length sa) →
    t_buf t2 = Null → t_excess t2 = 0 → tc_sock c2 = Some t2 → tc_server c2 = s2 →
    tc_static c2 = tc_static c → tc_closed c2 = tc_closed c →
    progressed (frame m) (Mem c2 a2)) as Hdone.
  { intros t2 c2 E1 E2 E3 E4 E5 E6 E7 E8 E9. split; [done|]. rewrite decide_True by done.
    exists st'. split; [done|]. split; cbn [obj]; [by exists t2|by rewrite E8|by rewrite E7|by rewrite E9]. }
  destruct w; cbn [at_buf] in Hb.
  - destruct Hb as [Hn _]. rewrite Hn. wp_simpl. by eapply (Hdone t).
  - rewrite Hb. cbn [free]. wp_simpl. eapply wp_upd_sock; [done|].
    by eapply (Hdone (set_texcess 0 (set_tsizes 0 0 (set_tbuf Null t)))).
Qed.

(** ** Segments *)

(** The connection after the bytes [p]. *)
Definition at_prefix (p : bytes) (c : tconn) : Prop :=
  if decide (p = []) then idle c fd sa st else partial c fd sa st total p.

Lemma progressed_prefix q t :
  q ≠ [] → progressed q t → q ≠ frame m → at_prefix q (obj t) ∧ never_fails (heap t).
Proof.
  intros H1 [Ha H] H2. unfold at_prefix. rewrite decide_False in H by done.
  by rewrite decide_False.
Qed.

(** The first bytes of a frame, in the static buffer. *)
Lemma wp_tcp_recv_idle d c a :
  never_fails a → idle c fd sa st → d ≠ [] → d `prefix_of` frame m →
  wp (tcp_recv (EvData d)) (λ rest t, rest = [] ∧ progressed d t) (Mem c a).
Proof.
  intros Ha [(t & Ht & H1 & H2 & H3 & H4 & H5) Hst Hs Ho] Hd Hpre. unfold tcp_recv.
  assert (length d ≤ 4 + length m)%nat as Hlen.
  { apply prefix_length in Hpre. by rewrite length_frame in Hpre. }
  apply wp_bind. eapply wp_sock; [done|]. rewrite H4.
  rewrite (take_ge d) by (unfold SBSIZE; lia). apply wp_bind. cbn [get_buf]. wp_simpl.
  apply wp_memcpy; [lia|unfold SBSIZE in *; lia|lia|]. rewrite Nat2Z.id, firstn_all.
  cbn [put_buf]. wp_simpl. unfold init_req. eapply wp_upd_sock; [done|]. wp_simpl.
  eapply wp_mono.
  - eapply (wp_process_buf _ StaticBuf _ _ _ (d ++ drop (length d) (tc_static c)) d);
      try done; cbn.
    + rewrite length_app, length_drop. unfold SBSIZE in *. lia.
    + by apply take_app_full.
    + rewrite length_app, length_drop. unfold SBSIZE in *. lia.
  - intros [] t1 Ht1. wp_simpl. by rewrite drop_ge by (unfold SBSIZE; lia).
Qed.

(** What is still missing of the frame, or of its length. *)
Lemma missing_bytes p d :
  p ≠ [] → p ≠ frame m → p ++ d `prefix_of` frame m → (length (p ++ d) ≤ 4 + length m)%nat →
  0 < (if Z.of_nat (length p) <? 4 then 4 else total) - Z.of_nat (length p) < 2 ^ 64.
Proof.
  intros Hp Hpf Hpre Hlen. rewrite length_app in Hlen.
  assert (length p ≠ 0%nat) as Hp0 by by destruct p.
  destruct (Z.of_nat (length p) <? 4) eqn:E; [apply Z.ltb_lt in E; lia|].
  assert (length p ≠ 4 + length m)%nat; [|lia]. intros El. apply Hpf.
  destruct Hpre as [k Hk]. apply (f_equal (take (length p))) in Hk.
  rewrite <-app_assoc, take_app_length, take_ge in Hk by (rewrite length_frame; lia). done.
Qed.

(** Further bytes, in the connection's own buffer. *)
Lemma wp_tcp_recv_partial p d c a :
  never_fails a → partial c fd sa st total p → p ≠ [] → p ≠ frame m → d ≠ [] →
  p ++ d `prefix_of` frame m →
  wp (tcp_recv (EvData d)) (λ rest t, ∃ d1, d = d1 ++ rest ∧ d1 ≠ [] ∧ progressed (p ++ d1) t)
    (Mem c a).
Proof.
  intros Ha [(t & b & Ht & H1 & H2 & H3 & H4 & H5 & H6 & H7 & H8 & H9 & H10 & H11 & H12 & H13)
    Hst Hs Ho] Hp Hpf Hd Hpre. unfold tcp_recv.
  assert (length (p ++ d) ≤ 4 + length m)%nat as Hlen.
  { apply prefix_length in Hpre. by rewrite length_frame in Hpre. }
  pose proof (missing_bytes p d Hp Hpf Hpre Hlen) as Hmax. rewrite length_app in Hlen.
  apply wp_bind. eapply wp_sock; [done|]. rewrite H4, H12, H13. cbn [deref].
  rewrite w64_small by lia. set (n := Z.to_nat _).
  assert (0 < n)%nat as Hn by (unfold n; lia). wp_simpl.
  assert (length d ≠ 0%nat) as Hd0 by by destruct d.
  rewrite in_block_true by (unfold SBSIZE in *; lia). cbn [negb]. wp_simpl. rewrite Nat2Z.id.
  assert (length (take n d) = Nat.min n (length d)) as Hl1 by apply length_take.
  apply wp_memcpy; [lia|rewrite length_drop; unfold SBSIZE in *; lia|lia|].
  rewrite Nat2Z.id, firstn_all, drop_drop. wp_simpl.
  eapply wp_upd_sock; [done|]. wp_simpl. eapply wp_upd_sock; [done|]. wp_simpl.
  eapply wp_sock; [done|]. cbn [t_len set_tsizes set_tbuf t_pktsize]. rewrite H12.
  rewrite w64_small by lia.
  replace (Z.of_nat (length p) + Z.of_nat (length (take n d)))
    with (Z.of_nat (length (p ++ take n d))) by (rewrite length_app; lia).
  apply wp_bind. eapply wp_mono.
  - eapply (wp_process_buf _ SockBuf _ _ _
      (take (length p) b ++ take n d ++ drop (length p + length (take n d)) b) (p ++ take n d));
      try done; cbn.
    + rewrite H7, !length_app, length_drop. unfold SBSIZE in *. lia.
    + rewrite H7, (assoc_L (++)). by apply take_app_full.
    + etrans; [|exact Hpre]. apply prefix_app, prefix_take.
  - intros [] t1 Ht1. wp_simpl. exists (take n d). rewrite take_drop. split_and!; [done| |done].
    intros E. rewrite E in Hl1. cbn in Hl1. lia.
Qed.

(** A receive event with pending bytes that continue the frame takes some of
    them, at least one. *)
Lemma wp_tcp_recv p d c a :
  never_fails a → at_prefix p c → p ≠ frame m → d ≠ [] → p ++ d `prefix_of` frame m →
  wp (tcp_recv (EvData d)) (λ rest t, ∃ d1, d = d1 ++ rest ∧ d1 ≠ [] ∧ progressed (p ++ d1) t)
    (Mem c a).
Proof.
  intros Ha Hc Hpf Hd Hpre. unfold at_prefix in Hc. destruct (decide (p = [])) as [->|Hp].
  - eapply wp_mono; [by apply wp_tcp_recv_idle|]. intros rest t [-> Ht].
    exists d. by rewrite app_nil_r.
  - by apply wp_tcp_recv_partial.
Qed.

(** All the pending bytes of one segment. *)
Lemma wp_drain fuel p d c a :
  never_fails a → at_prefix p c → p ≠ frame m → p ++ d `prefix_of` frame m →
  (length d ≤ fuel)%nat → d ≠ [] →
  wp (drain fuel d) (λ _, progressed (p ++ d)) (Mem c a).
Proof.
  revert p d c a. induction fuel as [|fuel IH]; intros p d c a Ha Hc Hpf Hpre Hf Hd;
    (destruct d as [|x d0] eqn:Ed; [done|]); [cbn in Hf; lia|]. cbn [drain]. rewrite <-Ed in *.
  wp_simpl.
  assert (is_Some (tc_sock c)) as [t Ht].
  { unfold at_prefix in Hc. case_decide; [destruct (id_sock _ _ _ _ Hc) as (t & -> & _)
      |destruct (pa_sock _ _ _ _ _ _ Hc) as (t & b & -> & _)]; done. }
  rewrite Ht. apply wp_bind. eapply wp_mono; [by apply (wp_tcp_recv p)|].
  intros rest [c1 a1] (d1 & E & Hd1 & Hprog). cbn [obj heap] in *.
  destruct rest as [|y rest].
  - rewrite app_nil_r in E. subst d1. by destruct fuel; cbn [drain]; wp_simpl.
  - assert (p ++ d1 ≠ frame m) as Hne.
    { intros El. rewrite E, (assoc_L (++)), El in Hpre. apply prefix_length in Hpre.
      rewrite length_app in Hpre. cbn in Hpre. lia. }
    apply progressed_prefix in Hprog as [Hc1 Ha1]; [|by destruct p, d1|done].
    rewrite E, (assoc_L (++)). apply IH; try done.
    + rewrite <-(assoc_L (++)). by rewrite <-E.
    + apply (f_equal length) in E. rewrite length_app in E. destruct d1; cbn in *; [done|]. lia.
Qed.
End framing.

Lemma wp_feed m fd sa st P ds p c a :
  5 ≤ Z.of_nat (length m) → 4 + Z.of_nat (length m) ≤ 64 * 1024 →
  handles_msg m fd sa (to_stats msg_tcp st) P →
  never_fails a → at_prefix m fd sa st p c → Forall (λ d, d ≠ []) ds → ds ≠ [] →
  p ++ concat ds = frame m →
  wp (feed ds) (λ _ t, never_fails (heap t) ∧ ∃ st', P st' ∧ idle (obj t) fd sa st') (Mem c a).
Proof.
  intros Hm Hm' Hh Ha Hc Hds. revert p c a Ha Hc.
  induction Hds as [|d ds Hd Hds IH]; intros p c a Ha Hc Hne Hp; [done|]. cbn [feed concat] in *.
  assert (p ≠ frame m) as Hpf.
  { intros ->. apply (f_equal length) in Hp. rewrite !length_app in Hp. destruct d; cbn in *; [done|lia]. }
  apply wp_bind. eapply wp_mono.
  { eapply (wp_drain m fd sa st P); [done..|by exists (concat ds); rewrite <-Hp, (assoc_L (++))|done|done]. }
  intros r [c1 a1] Hprog. cbn [obj heap] in *. destruct ds as [|d2 ds].
  - cbn [concat] in Hp. rewrite app_nil_r in Hp. destruct Hprog as [Ha1 Hprog].
    rewrite decide_True in Hprog by done. cbn [feed]. wp_simpl. by split.
  - assert (p ++ d ≠ frame m) as Hne2.
    { intros E. rewrite (assoc_L (++)), E in Hp. apply (f_equal length) in Hp.
      rewrite length_app in Hp. apply Forall_cons in Hds as [Hd2 _]. destruct d2; [done|].
      cbn in Hp. lia. }
    apply (progressed_prefix m fd sa st P) in Hprog as [Hc1 Ha1]; [|by destruct p, d|done].
    eapply (IH (p ++ d)); [done|done|done|]. by rewrite <-(assoc_L (++)).
Qed.

(** An encoded request is handled wherever it lies in a receive buffer. *)
Lemma handles_encoded i f m fd sa st :
  queue_room st → 0 ≤ i < 2 ^ 28 → 0 ≤ f < 2 ^ 16 → msg_ok m → incr_safe m st →
  4 + Z.of_nat (length (encode i f m)) ≤ 64 * 1024 →
  handles_msg (encode i f m) fd sa (to_stats msg_tcp st) (λ st', ∃ req,
    tcp_req fd sa req ∧ put32 (r_id req) = be_split 4 i ∧ r_flags req = f ∧
    st' = handle req m (to_stats msg_tcp st)).
Proof.
  intros Hroom Hi Hf Hm Hsafe Hlen req junk s a (H1 & H2 & H3 & H4) Hs Ha Hjunk.
  destruct (msg_of_encode i f m junk Hi Hf) as (E1 & E2 & E3 & E4 & E5 & E6 & E7).
  pose proof (encode_bounds i f m Hm) as Hb.
  eapply wp_parse_message; try done.
  { unfold req_ok. rewrite H3, H4. lia. }
  intros _. exists m. rewrite E3, E5. split_and!.
  - apply decode_encode_args; [done|]. rewrite E7. apply w64_small. unfold max_size in Hb. lia.
  - by destruct m.
  - by apply incr_no_wrap_ok.
  - intros t [Ht1 Ht2]. split_and!; [done|done|]. eexists. split; [|exact Ht2].
    exists (filled req (encode i f m ++ junk) (Z.of_nat (length (encode i f m)))).
    split_and!; [by repeat split| |done|done].
    unfold filled, set_msg. cbn [r_id]. rewrite E2. apply put32_htonl.
Qed.

(** ** Properties *)

(** C16: framing over TCP. However the network cuts the frame of a request into
    segments, down to single bytes, an idle connection ends up idle again and
    open, with the request parsed exactly once, intact, whatever the buffers
    held; every call is defined and the temporary buffer is released. *)
Theorem tcp_reassembly (ds : list bytes) (i f : Z) (m : areq) (fd : Z) (sa : bytes)
  (c : tconn) (a : alloc) (st : astate)
  (Hc : idle c fd sa st) (Ha : never_fails a) (Hroom : queue_room st)
  (Hi : 0 ≤ i < 2 ^ 28) (Hf : 0 ≤ f < 2 ^ 16) (Hm : msg_ok m) (Hsafe : incr_safe m st)
  (Hlen : 4 + Z.of_nat (length (encode i f m)) ≤ 64 * 1024)
  (Hne : Forall (λ d, d ≠ []) ds) (Hds : concat ds = frame (encode i f m)) :
  ∃ c' a' req, feed ds (Mem c a) = Some (tt, Mem c' a') ∧ never_fails a' ∧
    idle c' fd sa (handle req m (to_stats msg_tcp st)) ∧
    tcp_req fd sa req ∧ put32 (r_id req) = be_split 4 i ∧ r_flags req = f.
Proof.
  pose proof (encode_bounds i f m Hm) as Hb.
  assert (ds ≠ []) as Hds0.
  { intros ->. apply (f_equal length) in Hds. rewrite length_frame in Hds. cbn in Hds. lia. }
  assert (at_prefix (encode i f m) fd sa st [] c) as Hp by by unfold at_prefix; rewrite decide_True.
  pose proof (wp_feed (encode i f m) fd sa st _ ds [] c a ltac:(lia) Hlen
    (handles_encoded i f m fd sa st Hroom Hi Hf Hm Hsafe Hlen) Ha Hp Hne Hds0 Hds) as Hw.
  apply wp_exec in Hw as ([] & [c' a'] & Hw & Ha' & st' & (req & H1 & H2 & H3 & ->) & Hid).
  by exists c', a', req.
Qed.

Definition sample_conn : tconn :=
  TConn sample_static (Some (new_socket 5 [Byte.x01])) sample_server false.

Lemma sample_idle : idle sample_conn 5 [Byte.x01] sample_state.
Proof.
  split; [by eexists|apply sample_receiver_is|apply sample_server_is|done].
Qed.

Definition sample_frame (i : Z) (k : bytes) : bytes := frame (encode i 1 (AGet k)).

Lemma tcp_reassembly_witness :
  let ds := map (λ b, [b]) (sample_frame 7 (sample_key 50)) in
  ∃ c' a' req, feed ds (Mem sample_conn sample_alloc) = Some (tt, Mem c' a') ∧ never_fails a' ∧
    idle c' 5 [Byte.x01] (handle req (AGet (sample_key 50)) (to_stats msg_tcp sample_state)) ∧
    tcp_req 5 [Byte.x01] req ∧ put32 (r_id req) = be_split 4 7 ∧ r_flags req = 1.
Proof.
  apply (tcp_reassembly (map (λ b, [b]) (sample_frame 7 (sample_key 50))) 7 1
    (AGet (sample_key 50)) 5 [Byte.x01] sample_conn sample_alloc sample_state sample_idle
    sample_never_fails sample_room); try lia; try done.
  repeat constructor; discriminate.
Defined.

(** What a run of the connection shows: whether it was closed, and the IDs
    answered, as the replies carry them. *)
Definition answered (o : option (() * mem tconn)) : option (bool * list bytes) :=
  match o with
  | Some (_, Mem c _) =>
      Some (tc_closed c, map (λ r, put32 (r_id (req_of r))) (s_out (tc_server c)))
  | None => None
  end.

(** Pipelined requests. When one segment carries several frames, the
    recursive call of [process_buf] is given the length of the message just
    handled instead of the number of bytes left: of three requests of the same
    size the third is never answered; a second request longer than the first
    is not answered; and after a second request that is shorter the connection
    is closed on the stale bytes behind it. *)
Theorem tcp_pipelining_broken :
  let k1 := sample_key 50 in
  let k2 := sample_key 50 ++ sample_key 50 in
  let run ds := answered (feed ds (Mem sample_conn sample_alloc)) in
  run [sample_frame 1 k1 ++ sample_frame 2 k1 ++ sample_frame 3 k1] =
    Some (false, [be_split 4 1; be_split 4 2]) ∧
  run [sample_frame 1 k1; sample_frame 2 k1; sample_frame 3 k1] =
    Some (false, [be_split 4 1; be_split 4 2; be_split 4 3]) ∧
  run [sample_frame 1 k1 ++ sample_frame 2 k2] = Some (false, [be_split 4 1]) ∧
  run [sample_frame 1 k2 ++ sample_frame 2 k1] = Some (true, [be_split 4 1; be_split 4 2]).
Proof. vm_compute. split_and!; reflexivity. Qed.

(** A message of more than 64 KB with its length, which a key and a value of
    together 64 KB make: the connection is closed, and nothing is handled. *)
Theorem tcp_too_big_closes (m : bytes) (k : nat) (fd : Z) (sa : bytes) (c : tconn) (a : alloc) (st : astate)
  (Hc : idle c fd sa st) (Hm : 64 * 1024 < Z.of_nat (length (frame m)) < 2 ^ 32) (Hk : (4 ≤ k)%nat)
  (Hk2 : Z.of_nat k ≤ SBSIZE) :
  ∃ c' rest, tcp_recv (EvData (take k (frame m))) (Mem c a) = Some (rest, Mem c' a) ∧
    tc_closed c' = true ∧ tc_sock c' = None ∧ tc_server c' = tc_server c.
Proof.
  destruct Hc as [(t & Ht & H1 & H2 & H3 & H4 & H5) Hst Hs Ho]. rewrite length_frame in Hm.
  set (d := take k (frame m)).
  assert (length d ≤ k)%nat as Hdk by (unfold d; rewrite length_take; lia).
  assert (take 4 d = be_split 4 (4 + Z.of_nat (length m))) as Hd4.
  { unfold d. rewrite take_take. replace (4 `min` k)%nat with 4%nat by lia. unfold frame.
    by rewrite take_app_full by by rewrite length_be_split. }
  assert (4 ≤ length d)%nat as Hdl.
  { apply (f_equal length) in Hd4. rewrite length_take, length_be_split in Hd4. lia. }
  assert (wp (tcp_recv (EvData d)) (λ _ t, heap t = a ∧ tc_closed (obj t) = true ∧
    tc_sock (obj t) = None ∧ tc_server (obj t) = tc_server c) (Mem c a)) as Hw.
  { unfold tcp_recv. apply wp_bind. eapply wp_sock; [done|]. rewrite H4. rewrite (take_ge d) by lia.
    apply wp_bind. cbn [get_buf]. wp_simpl. apply wp_memcpy; [lia|unfold SBSIZE in *; lia|lia|].
    rewrite Nat2Z.id, firstn_all. cbn [put_buf]. wp_simpl. unfold init_req.
    eapply wp_upd_sock; [done|]. wp_simpl. cbn [process_buf get_buf]. wp_simpl.
    unfold total_to_get. rewrite (proj2 (Z.leb_le 4 _)) by lia.
    apply wp_bind, wp_load; [lia|cbn; rewrite length_app; lia|]. cbn [tc_static set_tsock set_tstatic].
    change (Z.to_nat 0) with 0%nat. rewrite drop_0, take_app_le, Hd4 by lia.
    rewrite ntohl_le_combine, be_combine_split by by rewrite length_be_split.
    change (2 ^ (Z.of_nat 4 * 8)) with (2 ^ 32). rewrite Z.mod_small by lia.
    cbn zeta. rewrite (proj2 (Z.ltb_lt _ _)) by lia. cbn [orb]. wp_simpl.
    unfold error_exit. apply wp_bind. eapply wp_sock; [done|]. wp_simpl. unfold tcp_socket_free. apply wp_bind.
    eapply wp_sock; [done|]. wp_simpl. cbn [t_buf set_treq]. rewrite H4. by wp_simpl. }
  apply wp_exec in Hw as (rest & [c' a'] & Hw & E1 & E2 & E3 & E4). cbn in *. subst a'.
  by exists c', rest.
Qed.

(** ** Sending over a stream *)

(** A script in which the kernel takes [n] bytes in all, some at a time, and
    would block any number of times in between. *)
Fixpoint takes (n : Z) (rs : list send_result) : Prop :=
  match rs with
  | [] => n = 0
  | Again :: rs => 0 < n ∧ takes n rs
  | Sent k :: rs => 0 < k ≤ n ∧ takes (n - k) rs
  | Failed :: _ => False
  end.

(** The bytes a descriptor's stream got. *)
Definition stream (fd : Z) (ps : list packet) : bytes :=
  concat (map p_bytes (filter (λ p, p_fd p = fd) ps)).

Lemma stream_snoc fd ps b a : stream fd (ps ++ [Packet fd a b]) = stream fd ps ++ b.
Proof.
  unfold stream. rewrite filter_app, map_app, concat_app. f_equal.
  rewrite filter_cons_True by done. cbn. apply app_nil_r.
Qed.

Lemma take_app_drop {A} (l : list A) c k :
  take c l ++ take k (drop c l) = take (c + k) l.
Proof. revert l. induction c; intros [|x l]; cbn; rewrite ?take_nil; f_equal; auto. Qed.

Lemma wp_tcp_send_loop fuel req buf c n a (Q : bool → mem net → Prop) :
  0 ≤ c ≤ Z.of_nat (length buf) → takes (Z.of_nat (length buf) - c) (n_results n) →
  (length (n_results n) ≤ fuel)%nat →
  (∀ n', n_passive n' = n_passive n → n_results n' = [] →
     stream (r_fd req) (n_sent n') = stream (r_fd req) (n_sent n) ++ drop (Z.to_nat c) buf →
     Q true (Mem n' a)) →
  wp (tcp_send_loop fuel req buf c) Q (Mem n a).
Proof.
  revert c n. induction fuel as [|fuel IH]; intros c n Hc Ht Hf HQ; cbn [tcp_send_loop].
  - destruct (n_results n) eqn:E; [|cbn in Hf; lia]. cbn in Ht.
    rewrite (proj2 (Z.ltb_ge _ _)) by lia. wp_simpl. apply HQ; [done|done|].
    by rewrite drop_ge, app_nil_r by lia.
  - destruct (c <? Z.of_nat (length buf)) eqn:Ec.
    2:{ apply Z.ltb_ge in Ec. wp_simpl. destruct (n_results n) as [|[k| |] rs] eqn:E; cbn in Ht; try lia.
        apply HQ; [done|done|]. by rewrite drop_ge, app_nil_r by lia. }
    apply Z.ltb_lt in Ec. unfold send. wp_simpl.
    destruct (n_results n) as [|[k| |] rs] eqn:E; cbn [takes] in Ht; [lia| | |done].
    + destruct Ht as [Hk Ht]. wp_simpl. cbn [n_sent set_results].
      set (n1 := add_sent _ _).
      assert (stream (r_fd req) (n_sent n1) = stream (r_fd req) (n_sent n) ++
        take (Z.to_nat k) (drop (Z.to_nat c) buf)) as Hs1 by apply stream_snoc.
      destruct (k =? Z.of_nat (length buf)) eqn:Ek.
      { apply Z.eqb_eq in Ek. wp_simpl. apply HQ; [done| |].
        - cbn. destruct rs as [|[]]; cbn in Ht; try done; lia.
        - rewrite Hs1. f_equal. rewrite take_ge; [done|]. rewrite length_drop. lia. }
      rewrite (proj2 (Z.eqb_neq k 0)) by lia.
      apply IH; [lia|cbn; by replace (Z.of_nat (length buf) - (c + k))
        with (Z.of_nat (length buf) - c - k) by lia|cbn in *; lia|].
      intros n' H1 H2 H3. apply HQ; [done|done|]. rewrite H3, Hs1, <-(assoc_L (++)). f_equal.
      replace (Z.to_nat (c + k)) with (Z.to_nat c + Z.to_nat k)%nat by lia.
      rewrite <-drop_drop. apply take_drop.
    + destruct Ht as [_ Ht]. wp_simpl. apply IH; [done|done|cbn in *; lia|]. exact HQ.
Qed.

Lemma wp_tcp_rep_send req buf n a (Q : bool → mem net → Prop) :
  n_passive n = 0 → takes (Z.of_nat (length buf)) (n_results n) →
  (∀ n', n_passive n' = 0 → n_results n' = [] →
     stream (r_fd req) (n_sent n') = stream (r_fd req) (n_sent n) ++ buf → Q true (Mem n' a)) →
  wp (tcp_rep_send req buf) Q (Mem n a).
Proof.
  intros Hp Ht HQ. unfold tcp_rep_send. apply wp_bind, wp_is_passive. rewrite Hp.
  change (truth 0) with false. cbn iota. wp_simpl.
  apply wp_tcp_send_loop; [lia|by rewrite Z.sub_0_r|done|].
  intros n' H1 H2 H3. rewrite drop_0 in H3. apply HQ; [by rewrite H1|done|done].
Qed.

(** The buffer of a long reply, filled in five steps. *)
Lemma wp_fill_frame {A} req code val n a (K : bytes → bytes → MT net A) (Q : A → mem net → Prop) :
  never_fails a →
  (∀ buf, wp (K buf (frame (wire (reply_long req code val)))) Q (Mem n (al_tick a))) →
  wp (p ← malloc (4 + 4 + 4 + 4 + Z.of_nat (length val));
      buf ← deref p;
      b0 ← memcpy buf (put32 (htonl (4 + 4 + 4 + 4 + Z.of_nat (length val)))) 4;
      b4 ← memcpy (drop 4 b0) (put32 (r_id req)) 4;
      b8 ← memcpy (drop 4 b4) (put32 (htonl code)) 4;
      b12 ← memcpy (drop 4 b8) (put32 (htonl (Z.of_nat (length val)))) 4;
      b16 ← memcpy (drop 4 b12) val (Z.of_nat (length val));
      K buf (take 4 b0 ++ take 4 b4 ++ take 4 b8 ++ take 4 b12 ++ b16)) Q (Mem n a).
Proof.
  intros Ha HQ. wp_simpl. apply wp_malloc; [done|]. cbn [deref]. wp_simpl.
  set (bsize := 4 + 4 + 4 + 4 + Z.of_nat (length val)).
  pose proof (length_put32 (htonl bsize)). pose proof (length_put32 (r_id req)).
  pose proof (length_put32 (htonl code)).
  pose proof (length_put32 (htonl (Z.of_nat (length val)))).
  set (buf := replicate _ _).
  assert (length buf = (16 + length val)%nat) as Hb.
  { unfold buf. rewrite length_replicate. lia. }
  apply wp_memcpy; [lia|lia|lia|]. change (Z.to_nat 4) with 4%nat.
  rewrite (take_ge (put32 (htonl bsize))) by lia. rewrite drop_app_full by lia. wp_simpl.
  apply wp_memcpy; [lia|rewrite length_drop; lia|lia|]. change (Z.to_nat 4) with 4%nat.
  rewrite (take_ge (put32 (r_id req))) by lia. rewrite drop_app_full by lia. wp_simpl.
  rewrite !drop_drop.
  apply wp_memcpy; [lia|rewrite length_drop; lia|lia|]. change (Z.to_nat 4) with 4%nat.
  rewrite (take_ge (put32 (htonl code))) by lia. rewrite drop_app_full by lia. wp_simpl.
  rewrite !drop_drop.
  apply wp_memcpy; [lia|rewrite length_drop; lia|lia|]. change (Z.to_nat 4) with 4%nat.
  rewrite (take_ge (put32 (htonl (Z.of_nat (length val))))) by lia.
  rewrite drop_app_full by lia. wp_simpl. rewrite !drop_drop.
  apply wp_memcpy_full; [lia|lia|rewrite length_drop; lia|].
  rewrite Nat2Z.id, firstn_all. rewrite !take_app_full by lia. rewrite !put32_htonl.
  replace (be_split 4 bsize ++ put32 (r_id req) ++ be_split 4 code ++
    be_split 4 (Z.of_nat (length val)) ++ val) with (frame (wire (reply_long req code val)));
    [apply HQ|].
  unfold frame. f_equal. f_equal. cbn [wire].
  rewrite !length_app, length_put32, !length_be_split. unfold bsize. lia.
Qed.

Lemma wp_tcp_send r n a (Q : () → mem net → Prop) :
  n_passive n = 0 → is_err r = false → never_fails a →
  takes (Z.of_nat (length (frame (wire r)))) (n_results n) →
  (∀ n' a', never_fails a' → stream (r_fd (req_of r)) (n_sent n') =
     stream (r_fd (req_of r)) (n_sent n) ++ frame (wire r) → Q tt (Mem n' a')) →
  wp (tcp_send r) Q (Mem n a).
Proof.
  intros Hp He Ha Ht HQ. destruct r as [req code|req code|req code val]; [|done|]; cbn [tcp_send].
  - unfold tcp_reply_mini. apply wp_bind, wp_is_passive. rewrite Hp.
    change (truth 0) with false. cbn iota. apply wp_bind. rewrite !put32_htonl.
    change (be_split 4 12 ++ put32 (r_id req) ++ be_split 4 code) with
      (frame (wire (reply_mini req code))).
    apply wp_tcp_rep_send; [done|done|]. intros n' _ _ H. wp_simpl. by apply HQ.
  - unfold tcp_reply_long.
    eapply (wp_fill_frame req code val n a
      (λ buf b, tcp_rep_send req b;; free (Block buf);; mret tt)); [done|]. intros buf. apply wp_bind.
    apply wp_tcp_rep_send; [done|done|]. intros n' _ _ H. cbn [free]. wp_simpl. apply HQ; [by auto with nmdb|done].
Qed.

(** Replies over TCP. However few bytes the kernel takes at a time, and
    however often it would block, a reply that is not an error ends up on the
    connection's stream as one frame: its total length and then exactly the
    bytes that a datagram transport would send. *)
Theorem tcp_send_complete (r : reply) (n : net) (a : alloc)
  (Hp : n_passive n = 0) (He : is_err r = false) (Ha : never_fails a)
  (Ht : takes (Z.of_nat (length (frame (wire r)))) (n_results n)) :
  ∃ n' a', tcp_send r (Mem n a) = Some (tt, Mem n' a') ∧
    stream (r_fd (req_of r)) (n_sent n') =
    stream (r_fd (req_of r)) (n_sent n) ++ frame (wire r).
Proof.
  assert (wp (tcp_send r) (λ _ t, stream (r_fd (req_of r)) (n_sent (obj t)) =
    stream (r_fd (req_of r)) (n_sent n) ++ frame (wire r)) (Mem n a)) as H
    by by apply wp_tcp_send.
  apply wp_exec in H as ([] & [n' a'] & H & E). by exists n', a'.
Qed.

Lemma tcp_send_complete_witness :
  ∃ n' a', tcp_send (reply_long sample_req REP_OK [Byte.x2a])
      (Mem (Net 0 [Sent 5; Again; Sent 12] []) sample_alloc) = Some (tt, Mem n' a') ∧
    stream 3 (n_sent n') = [] ++ frame (wire (reply_long sample_req REP_OK [Byte.x2a])).
Proof.
  apply (tcp_send_complete (reply_long sample_req REP_OK [Byte.x2a])
    (Net 0 [Sent 5; Again; Sent 12] []) sample_alloc); try done.
Defined.
