(* ===== verification/System.v ===== *)
(** * The two threads together

    The server as a whole: the event loop's thread, which handles one message
    or signal at a time (nmdb/net.c, nmdb/parse.c), and the database thread,
    which takes one queued operation at a time (nmdb/dbloop.c). They share the
    queue, whose operations a mutex makes atomic, and nothing else that both
    change, so an execution is an interleaving of handler calls and rounds of
    the database loop: a list of events, run by [run_events].

    The specification is one map from keys to values, changed by one request
    after the other in the order in which they arrive: [point] is a request
    with the map it finds, [effect] and [answers] what it does and replies. The
    theorems state that every interleaving implements it, that is, that the
    server is linearizable even though the database lags behind the cache. *)

From S2P Require Import Prelude Words Text Chain ChainSpec Cache Net Queue Backend Server Parse ParseSpec DbLoop DbSpec.

(** ** net.c: the signal handlers that change the state *)

Definition passive_to_active_sighandler : MT server () :=
  mod_obj (λ s, set_settings
    (set_passive (if truth (passive (s_settings s)) then 0 else 1) (s_settings s)) s).

Definition enable_read_only_sighandler : MT server () :=
  s ← get_obj;
  if negb (truth (read_only (s_settings s)))
  then mod_obj (λ s, set_settings (set_read_only 1 (s_settings s)) s)
  else mret tt.

(** ** Executions *)

Inductive event :=
  | EvMessage (req : req_info) (buf : bytes) (len : Z)  (* a transport got a message *)
  | EvDb (rv : Z)                                       (* a round of the database loop *)
  | EvPassive                                           (* SIGUSR2 *)
  | EvReadOnly.                                         (* SIGUSR1 *)

Section run.
Context {D : Type} `{DbOps D}.

Definition run_event (ev : event) : MT (system D) () :=
  match ev with
  | EvMessage req buf len => on_server (parse_message req buf len);; mret tt
  | EvDb rv => db_iteration rv;; mret tt
  | EvPassive => on_server passive_to_active_sighandler
  | EvReadOnly => on_server enable_read_only_sighandler
  end.

Fixpoint run_events (evs : list event) : MT (system D) () :=
  match evs with
  | [] => mret tt
  | ev :: evs => run_event ev;; run_events evs
  end.
End run.

(** ** The specification: one map *)

Definition writes (m : areq) : bool :=
  match m with ASet _ _ | ADel _ | ACas _ _ _ | AIncr _ _ => true | _ => false end.

(** A request, whether the server is read-only, and the map it finds. *)
Record point := Point { p_req : req_info; p_msg : areq; p_ro : bool; p_map : store }.

Definition effect (m : areq) (M : store) : store :=
  match m with
  | ASet k v => <[k := v]> M
  | ADel k => delete k M
  | ACas k o n => if decide (M !! k = Some o) then <[k := n]> M else M
  | AIncr k n =>
      match M !! k with
      | Some v => if ends_nul v then <[k := incr_block v n]> M else M
      | None => M
      end
  | _ => M
  end.

Definition after (p : point) : store :=
  if p_ro p && writes (p_msg p) then p_map p else effect (p_msg p) (p_map p).

(** The answer to a request for a key of the database: which one is up to the
    backend, which may also not support the request. *)
Definition key_answer (p : point) (r : reply) : Prop :=
  let q := reply_req r in
  r = reply_err q ERR_DB ∨ r = reply_mini q REP_NOTIN ∨
  ∃ k, r = reply_long q REP_OK k ∧ is_Some (p_map p !! k).

(** The requests that list keys. *)
Definition listing (m : areq) : bool :=
  match m with AFirstkey | ANextkey _ => true | _ => false end.

(** The answer a client must get. A get that only asks the cache may miss. *)
Definition answers (p : point) (r : reply) : Prop :=
  to_client (p_req p) r ∧
  let q := reply_req r in
  let co := cache_only (p_req p) in
  if p_ro p && writes (p_msg p) then r = reply_err q ERR_RO else
  match p_msg p with
  | AGet k =>
      match p_map p !! k with
      | Some v => r = reply_long q REP_CACHE_HIT v ∨
                  (if co then r = reply_mini q REP_CACHE_MISS else r = reply_long q REP_OK v)
      | None => r = reply_mini q (if co then REP_CACHE_MISS else REP_NOTIN)
      end
  | ASet _ _ => r = reply_mini q REP_OK
  | ADel k => r = reply_mini q (if sync_flag (p_req p) && bool_decide (p_map p !! k = None)
                                then REP_NOTIN else REP_OK)
  | ACas k o _ =>
      r = reply_mini q (match p_map p !! k with
                        | None => REP_NOTIN
                        | Some v => if decide (v = o) then REP_OK else REP_NOMATCH
                        end)
  | AIncr k n =>
      match p_map p !! k with
      | None => r = reply_mini q REP_NOTIN
      | Some v => if ends_nul v then r = reply_long q REP_OK (be_split 8 (w64 (incr_num v n)))
                  else r = reply_mini q REP_NOMATCH
      end
  | AStats => ∃ t, r = reply_long q REP_OK (stats_payload t)
  | AUnknown => r = reply_err q ERR_UNKREQ
  | ABroken => r = reply_err q ERR_BROKEN
  | AFirstkey | ANextkey _ => key_answer p r
  end.

(** What the theorems ask of a request: a value that is stored is neither
    empty nor longer than the database thread's buffer, and a request that
    only concerns the cache does not change it. *)
Definition storable (m : areq) : Prop :=
  match m with
  | ASet k v => key_fits k ∧ val_fits v
  | ACas k o n => val_fits n
  | AIncr k n => INT64_MIN ≤ n ≤ INT64_MAX
  | _ => True
  end.
Definition fits (q : req_info) (m : areq) : Prop :=
  storable m ∧ (cache_only q = true → writes m = false).

(** The requests of an execution, as the spec runs them. *)
Fixpoint points (ro : bool) (M : store) (evs : list event) : list point :=
  match evs with
  | [] => []
  | EvMessage req buf len :: evs =>
      match decode (msg_cmd buf) (w64 (len - 8)) (drop 8 buf) with
      | Some m => let p := Point (filled req buf len) m ro M in p :: points ro (after p) evs
      | None => points ro M evs
      end
  | EvReadOnly :: evs => points true M evs
  | _ :: evs => points ro M evs
  end.

Definition final (M : store) (ps : list point) : store :=
  match last ps with Some p => after p | None => M end.

Definition event_ok (ev : event) : Prop :=
  match ev with
  | EvMessage req buf len =>
      req_ok req ∧ (8 ≤ length buf)%nat ∧ msg_ver buf = PROTO_VER ∧
      incr_no_wrap (msg_cmd buf) (drop 8 buf) ∧
      ∃ m, decode (msg_cmd buf) (w64 (len - 8)) (drop 8 buf) = Some m ∧
        fits (filled req buf len) m
  | _ => True
  end.

(** ** The cache against the map *)

(** What the cache holds is what the map holds, once the queued operations
    are counted in. *)
Definition coherent (bs : acache) (M : store) : Prop :=
  (0 < length bs)%nat ∧ ∀ k v, a_lookup k bs = Some v → M !! k = Some v.

Lemma coherent_set bs M k v : coherent bs M → coherent (a_set k v bs) (<[k := v]> M).
Proof.
  intros [Hpos Hc]. split; [by unfold a_set, a_on; rewrite length_alter|]. intros k' v' E.
  destruct (decide (k' = k)) as [->|Hne].
  - rewrite a_lookup_set in E by done. simplify_eq. by rewrite lookup_insert_eq.
  - rewrite lookup_insert_ne by done. apply Hc.
    destruct (a_lookup_set_ne k k' v bs Hne) as [Eq|[Eq _]]; congruence.
Qed.

Lemma coherent_del bs M k : coherent bs M → coherent (a_del k bs) (delete k M).
Proof.
  intros [Hpos Hc]. split; [by unfold a_del, a_on; rewrite length_alter|]. intros k' v' E.
  rewrite a_lookup_del in E. case_decide; [done|]. rewrite lookup_delete_ne by done. by apply Hc.
Qed.

Lemma coherent_cas bs M k o n :
  coherent bs M → coherent (a_cas k o n bs) (effect (ACas k o n) M).
Proof.
  intros [Hpos Hc]. split; [by unfold a_cas, a_on; rewrite length_alter|]. intros k' v' E.
  rewrite a_lookup_cas in E. cbn [effect].
  destruct (decide (k' = k ∧ a_lookup k bs = Some o)) as [[-> Ho]|Hno].
  - simplify_eq. rewrite decide_True by by apply Hc. by rewrite lookup_insert_eq.
  - apply Hc in E as E2. case_decide as Hk; [|done]. rewrite lookup_insert_ne; [done|].
    intros <-. apply Hno. split; [done|]. congruence.
Qed.

Lemma coherent_incr bs M k n :
  coherent bs M → coherent (a_incr k n bs) (effect (AIncr k n) M).
Proof.
  intros [Hpos Hc]. split; [by unfold a_incr, a_on; rewrite length_alter|]. intros k' v' E.
  rewrite a_lookup_incr in E. cbn [effect]. case_decide as Hk.
  - subst. apply fmap_Some in E as (v & E & ->). apply Hc in E. rewrite E.
    destruct (ends_nul v); [by rewrite lookup_insert_eq|done].
  - apply Hc in E. repeat case_match; try done. by rewrite lookup_insert_ne.
Qed.

(** A compare-and-swap or an increment of a key that is not cached. *)
Lemma coherent_other bs M k v :
  coherent bs M → a_lookup k bs = None → coherent bs (<[k := v]> M).
Proof.
  intros [Hpos Hc] Hk. split; [done|]. intros k' v' E. rewrite lookup_insert_ne; [by apply Hc|].
  congruence.
Qed.

Lemma effect_fits q m M : fits q m → vals_fit M → vals_fit (effect m M).
Proof.
  intros [Hf _] HM. destruct m; cbn in *; try done.
  - by apply vals_fit_insert; [|apply Hf..].
  - by apply vals_fit_delete.
  - case_decide as Hd; [|done]. destruct (HM _ _ Hd). by apply vals_fit_insert.
  - destruct (M !! k) as [v|] eqn:E; [|done]. destruct (HM _ _ E) as (Hk & _ & Hl).
    destruct (ends_nul v); [|done]. apply vals_fit_insert; [done..|]. by apply incr_fits.
Qed.

(** ** One request *)

(** The entry that a request becomes, when it is queued. *)
Definition entry_of (p : point) : option aentry :=
  let q := p_req p in
  match p_msg p with
  | AGet k => Some (queued q REQ_GET (Some k) None None)
  | ASet k v => Some (queued q REQ_SET (Some k) (Some v) None)
  | ADel k => Some (queued q REQ_DEL (Some k) None None)
  | ACas k o n => Some (queued q REQ_CAS (Some k) (Some o) (Some n))
  | AIncr k n => Some (queued q REQ_INCR (Some k) (Some (store_le 8 (w64 n))) None)
  | AFirstkey => Some (queued q REQ_FIRSTKEY None None None)
  | ANextkey k => Some (queued q REQ_NEXTKEY (Some k) None None)
  | _ => None
  end.

(** A queued request. *)
Record deferred (p : point) (x : aentry) : Prop := Deferred {
  df_entry : entry_of p = Some x;
  df_ro : p_ro p && writes (p_msg p) = false;
  df_fits : fits (p_req p) (p_msg p);
  df_get : ∀ k, p_msg p = AGet k → cache_only (p_req p) = false;
}.

(** Whether the database thread answers it. *)
Definition owes (p : point) : bool :=
  match p_msg p with ASet _ _ | ADel _ => sync_flag (p_req p) | _ => true end.

Lemma deferred_ok p x : deferred p x → entry_ok x ∧ entry_fits x.
Proof.
  intros [E _ [Hf _] _]. destruct p as [q m ro M]; cbn in *.
  destruct m; cbn in *; simplify_eq; split; cbn; auto 10; split; cbn; intros E2;
    try discriminate E2; cbn; naive_solver.
Qed.

Lemma sync_flag_queued q : has_sync (queued_req q) = sync_flag q.
Proof. done. Qed.

(** What the handler does to a request it answers, and to one it queues. *)
Definition replied (p : point) (st st' : astate) : Prop :=
  after p = p_map p ∧ as_queue st' = as_queue st ∧
  ∃ r, as_out st' = as_out st ++ [r] ∧ answers p r.

Definition deferring (p : point) (st st' : astate) : Prop :=
  ∃ x, deferred p x ∧ as_queue st' = as_queue st ++ [x] ∧
    if owes p then as_out st' = as_out st
    else ∃ r, as_out st' = as_out st ++ [r] ∧ answers p r.

Record handled (p : point) (st st' : astate) : Prop := Handled {
  hd_settings : as_settings st' = as_settings st;
  hd_cache : coherent (as_cache st') (after p);
  hd_cases : replied p st st' ∨ deferring p st st';
}.

Section request.
Context (q : req_info) (st : astate) (M : store).
Context (Hc : coherent (as_cache st) M).
Abbreviation pt m := (Point q m (a_read_only st) M).

Lemma replied_with m r st' :
  as_settings st' = as_settings st → coherent (as_cache st') M → effect m M = M →
  as_queue st' = as_queue st → as_out st' = as_out st ++ [r] → reply_req r = q →
  (to_client q r → answers (pt m) r) → handled (pt m) st st'.
Proof.
  intros Hs Hc' He Hq Ho Hr Ha.
  assert (after (pt m) = M) as Haf by (unfold after; cbn; by case_match).
  split; [done|by rewrite Haf|]. left. split_and!; [done|done|].
  exists r. split; [done|]. apply Ha. by apply to_client_self.
Qed.

Lemma deferring_with m x st' :
  as_settings st' = as_settings st → coherent (as_cache st') (after (pt m)) →
  deferred (pt m) x → as_queue st' = as_queue st ++ [x] →
  (if owes (pt m) then as_out st' = as_out st
   else as_out st' = as_out st ++ [reply_mini q REP_OK] ∧
        answers (pt m) (reply_mini q REP_OK)) →
  handled (pt m) st st'.
Proof.
  intros Hs Hc' Hd Hq Ho. split; [done|done|]. right. exists x. split_and!; [done|done|].
  destruct (owes _); [done|]. destruct Ho. by eexists.
Qed.

Lemma read_only_handled m :
  writes m = true → a_read_only st = true →
  handled (pt m) st (to_out (reply_err q ERR_RO) st).
Proof.
  intros Hw Hro.
  assert (after (pt m) = M) as Haf by by unfold after; cbn; rewrite Hro, Hw.
  split; [done|by rewrite Haf|]. left. split_and!; [done|done|].
  exists (reply_err q ERR_RO). split; [done|]. split; [by apply to_client_self|].
  cbn. by rewrite Hro, Hw.
Qed.

Lemma writes_handled m st' :
  writes m = true → (a_read_only st = false → handled (pt m) st st') →
  handled (pt m) st (if a_read_only st then to_out (reply_err q ERR_RO) st else st').
Proof.
  intros Hw Hst.
  enough (∀ b, a_read_only st = b →
    handled (pt m) st (if b then to_out (reply_err q ERR_RO) st else st')) by auto.
  intros [] Hro; [by apply read_only_handled|by apply Hst].
Qed.

Lemma not_ro_after m : a_read_only st = false → after (pt m) = effect m M.
Proof. intros Hro. unfold after. cbn. by rewrite Hro. Qed.

Lemma handle_get k : fits q (AGet k) → handled (pt (AGet k)) st (handle q (AGet k) st).
Proof.
  intros Hf. cbn [handle]. destruct (a_lookup k (as_cache st)) as [v|] eqn:E.
  - eapply replied_with; try done. split; [done|]. cbn. rewrite andb_false_r.
    destruct Hc as [_ Hc']. rewrite (Hc' _ _ E). by left.
  - destruct (cache_only q) eqn:Hco.
    + eapply replied_with; try done. split; [done|]. cbn. rewrite andb_false_r, Hco.
      destruct (M !! k); [by right|done].
    + eapply deferring_with; [done| |split|done|done]; try done; cbn.
      * unfold after. cbn. rewrite andb_false_r. exact Hc.
      * by rewrite andb_false_r.
Qed.

Lemma handle_set k v : fits q (ASet k v) → handled (pt (ASet k v)) st (handle q (ASet k v) st).
Proof.
  intros Hf. cbn [handle]. apply writes_handled; [done|]. intros Hro.
  assert (cache_only q = false) as -> by by destruct Hf as [_ Hco], (cache_only q); [discriminate Hco|].
  assert (deferred (pt (ASet k v)) (queued q REQ_SET (Some k) (Some v) None)) as Hd
    by by split; cbn; rewrite ?Hro.
  assert (coherent (a_set k v (as_cache st)) (after (pt (ASet k v)))) as Hc'
    by by rewrite not_ro_after by done; apply coherent_set.
  destruct (sync_flag q) eqn:Hs; (eapply deferring_with; [done|exact Hc'|exact Hd|done|]);
    cbn; rewrite Hs; [done|]. split; [done|]. split; [by apply to_client_self|]. by cbn; rewrite Hro.
Qed.

Lemma handle_del k : fits q (ADel k) → handled (pt (ADel k)) st (handle q (ADel k) st).
Proof.
  intros Hf. cbn [handle]. apply writes_handled; [done|]. intros Hro.
  assert (cache_only q = false) as -> by by destruct Hf as [_ Hco], (cache_only q); [discriminate Hco|].
  assert (deferred (pt (ADel k)) (queued q REQ_DEL (Some k) None None)) as Hd
    by by split; cbn; rewrite ?Hro.
  assert (coherent (a_del k (as_cache st)) (after (pt (ADel k)))) as Hc'
    by by rewrite not_ro_after by done; apply coherent_del.
  destruct (sync_flag q) eqn:Hs; (eapply deferring_with; [done|exact Hc'|exact Hd|done|]);
    cbn; rewrite Hs; [done|]. split; [done|]. split; [by apply to_client_self|].
  cbn. by rewrite Hro, Hs.
Qed.

Lemma handle_cas k o n : fits q (ACas k o n) → handled (pt (ACas k o n)) st (handle q (ACas k o n) st).
Proof.
  intros Hf. cbn [handle]. apply writes_handled; [done|]. intros Hro.
  assert (cache_only q = false) as -> by by destruct Hf as [_ Hco], (cache_only q); [discriminate Hco|].
  assert (deferred (pt (ACas k o n)) (queued q REQ_CAS (Some k) (Some o) (Some n))) as Hd
    by by split; cbn; rewrite ?Hro.
  pose proof (coherent_cas _ _ k o n Hc) as Hc'.
  destruct (a_lookup k (as_cache st)) as [v|] eqn:E.
  - apply (proj2 Hc) in E as EM. destruct (decide (v = o)) as [->|Hne].
    + eapply deferring_with; [done| |exact Hd|done|done]. by rewrite not_ro_after.
    + assert (effect (ACas k o n) M = M) as He
        by by cbn; rewrite EM, decide_False by congruence.
      eapply replied_with; try done; [by rewrite <-He|].
      split; [done|]. cbn. by rewrite Hro, EM, decide_False.
  - eapply deferring_with; [done| |exact Hd|done|done]. by rewrite not_ro_after.
Qed.

Lemma handle_incr k n : fits q (AIncr k n) → handled (pt (AIncr k n)) st (handle q (AIncr k n) st).
Proof.
  intros Hf. cbn [handle]. apply writes_handled; [done|]. intros Hro.
  assert (cache_only q = false) as -> by by destruct Hf as [_ Hco], (cache_only q); [discriminate Hco|].
  assert (deferred (pt (AIncr k n))
    (queued q REQ_INCR (Some k) (Some (store_le 8 (w64 n))) None)) as Hd
    by by split; cbn; rewrite ?Hro.
  pose proof (coherent_incr _ _ k n Hc) as Hc'.
  destruct (a_lookup k (as_cache st)) as [v|] eqn:E.
  - apply (proj2 Hc) in E as EM. destruct (ends_nul v) eqn:Hnul.
    + eapply deferring_with; [done| |exact Hd|done|done]. by rewrite not_ro_after.
    + assert (effect (AIncr k n) M = M) as He by by cbn; rewrite EM, Hnul.
      eapply replied_with; try done; [by rewrite <-He|].
      split; [done|]. cbn. by rewrite Hro, EM, Hnul.
  - eapply deferring_with; [done| |exact Hd|done|done]. by rewrite not_ro_after.
Qed.

Lemma handle_point m : fits q m → handled (pt m) st (handle q m st).
Proof.
  intros Hf. destruct m.
  - by apply handle_get.
  - by apply handle_set.
  - by apply handle_del.
  - by apply handle_cas.
  - by apply handle_incr.
  - eapply deferring_with; [done| |split|done|done]; cbn; rewrite ?andb_false_r; try done.
    unfold after. cbn. by rewrite andb_false_r.
  - eapply deferring_with; [done| |split|done|done]; cbn; rewrite ?andb_false_r; try done.
    unfold after. cbn. by rewrite andb_false_r.
  - eapply replied_with; try done. split; [done|]. cbn. rewrite andb_false_r. by eexists.
  - eapply replied_with; try done. split; [done|]. cbn. by rewrite andb_false_r.
  - eapply replied_with; try done. split; [done|]. cbn. by rewrite andb_false_r.
Qed.
End request.

(** ** The queue between the two threads *)

Section threads.
Context {D : Type} `{DbLaws D}.

(** [pending M l ps M']: the entries [l] are the requests of some points that
    lead from the map [M] to [M'], of which [ps] wait for their answer. *)
Inductive pending : store → list aentry → list point → store → Prop :=
  | pending_nil M : pending M [] [] M
  | pending_cons p x xs ps M' :
      deferred p x → pending (after p) xs ps M' →
      pending (p_map p) (x :: xs) ((if owes p then [p] else []) ++ ps) M'.

Lemma pending_snoc M l ps p x :
  pending M l ps (p_map p) → deferred p x →
  pending M (l ++ [x]) (ps ++ (if owes p then [p] else [])) (after p).
Proof.
  remember (p_map p) as M1 eqn:E. intros Hp Hx. revert E.
  induction Hp as [M0|p0 x0 xs ps0 M' Hx0 Hp IH]; intros E; cbn [app].
  - subst. rewrite <-(app_nil_r (if owes p then _ else _)).
    constructor; [done|]. constructor.
  - rewrite <-(assoc_L (++)). constructor; [done|]. by apply IH.
Qed.

Lemma pending_ok M l ps M' : pending M l ps M' → Forall entry_ok l ∧ Forall entry_fits l.
Proof.
  induction 1 as [|p x xs ps M' Hx Hp [IH1 IH2]]; [done|].
  destruct (deferred_ok p x Hx). by split; constructor.
Qed.

Lemma answers_queued p r :
  reply_req r = queued_req (p_req p) → (to_client (p_req p) r → answers p r) → answers p r.
Proof. intros Hr Ha. apply Ha. by apply to_client_queued. Qed.

Lemma incr_arg_store n : INT64_MIN ≤ n ≤ INT64_MAX → incr_arg (store_le 8 (w64 n)) = n.
Proof.
  intros Hn. unfold incr_arg, store_le. rewrite le_combine_split.
  change (8 * Z.of_nat 8) with 64. rewrite Z.mod_small by apply w64_range.
  rewrite s64_w64. by apply s64_small.
Qed.

(** The answer with a key that the backend found, if it did. *)
Lemma key_result p o :
  (∀ k, o = Some k → is_Some (p_map p !! k)) →
  to_client (p_req p) (reply_result (queued_req (p_req p)) o) ∧
  key_answer p (reply_result (queued_req (p_req p)) o).
Proof.
  intros Ho. split; [apply to_client_queued, reply_result_req|].
  unfold key_answer. rewrite reply_result_req. destruct o as [k|]; cbn; [|by right; left].
  right; right. exists k. split; [done|by apply Ho].
Qed.

(** A backend that accepts every value and tells whether a deleted key was
    there. *)
Record reliable : Prop := Reliable {
  rel_set k v (d : D) : (db_set k v d).1 = true;
  rel_del k (d : D) : (db_del k d).1 = bool_decide (is_Some (db_view d !! k));
}.

(** The database thread does to the map what the request asks, and answers it
    when the handler did not. *)
Lemma process_deferred p x (d : D) :
  reliable → deferred p x → db_view d = p_map p →
  (a_process x true d).2 = after p ∧
  if owes p then ∃ r, (a_process x true d).1 = [r] ∧ answers p r else (a_process x true d).1 = [].
Proof.
  intros Hrel [E Hro [Hf _] Hg] Ed. destruct p as [q m ro M]. cbn in E, Hro, Hf, Hg, Ed.
  unfold after, answers. cbn [p_req p_msg p_ro p_map]. rewrite Hro. unfold owes. cbn [p_msg p_req].
  assert (∀ c, to_client q (reply_mini (queued_req q) c)) as Hm by by intros; apply to_client_queued.
  assert (∀ c v, to_client q (reply_long (queued_req q) c v)) as Hl by by intros; apply to_client_queued.
  destruct m; cbn in E; try discriminate E; injection E as <-; unfold a_process;
    cbn [a_operation queued a_key a_val a_newval a_req].
  - cbn. rewrite Ed. split; [done|]. rewrite (Hg _ eq_refl).
    destruct (M !! k) as [v|]; cbn; eexists; (split; [done|]); auto.
  - cbn. rewrite Ed, sync_flag_queued. split; [done|].
    destruct (sync_flag q); [|done]. by eexists.
  - cbn. rewrite Ed, sync_flag_queued. split; [done|].
    destruct (sync_flag q); [|done]. eexists; split; [done|]. split; [apply Hm|].
    cbn. rewrite (rel_del Hrel), Ed. by destruct (M !! k); cbn.
  - cbn. rewrite Ed. destruct (M !! k) as [v|]; cbn.
    + destruct (decide (v = old)) as [->|Hne].
      * rewrite decide_True by done. cbn. split; [done|]. by eexists.
      * rewrite decide_False by congruence. cbn. split; [done|]. by eexists.
    + split; [done|]. by eexists.
  - cbn [Z.eqb REQ_INCR REQ_SET REQ_GET REQ_DEL REQ_CAS Pos.eqb default]. unfold id.
    rewrite Ed, incr_arg_store by done. cbn [effect].
    destruct (M !! k) as [v|]; cbn; [|split; [done|by eexists]].
    destruct (ends_nul v); cbn; (split; [done|]); by eexists.
  - cbn. split; [done|]. eexists. split; [done|].
    destruct db_firstkey as [f|] eqn:Ef; [|split; [by apply to_client_queued|by left]].
    apply (key_result (Point q AFirstkey ro M)). intros k Hk. rewrite <-Ed. by eapply db_firstkey_in.
  - cbn. split; [done|]. eexists. split; [done|].
    destruct db_nextkey as [f|] eqn:Ef; [|split; [by apply to_client_queued|by left]].
    apply (key_result (Point q (ANextkey k) ro M)). intros k' Hk. rewrite <-Ed. by eapply db_nextkey_in.
Qed.

Lemma answer_one p r : answers p r → Forall2 answers [p] [r].
Proof. intros Ha. constructor; [exact Ha|constructor]. Qed.

Lemma pending_steps d l d' rs ps M :
  reliable → pending (db_view d) l ps M → db_steps d l d' rs →
  Forall2 answers ps rs ∧ db_view d' = M.
Proof.
  intros Hrel Hp Hs. revert ps Hp. induction Hs as [d|d x xs rs d1 d2 rs2 E Hs IH]; intros ps Hp.
  - inversion Hp; subst. by split.
  - inversion Hp as [|p x0 xs0 ps0 M0 Hx Hp0 Em]; subst.
    destruct (process_deferred p x d Hrel Hx (eq_sym Em)) as [E2 Ha].
    unfold set_ok in E. rewrite (rel_set Hrel) in E. rewrite E in E2, Ha. cbn in E2, Ha.
    rewrite <-E2 in Hp0. destruct (IH _ Hp0) as [IH1 IH2]. split; [|done].
    apply Forall2_app; [|done]. destruct (owes p); [|by subst].
    destruct Ha as (r & -> & Ha). by apply answer_one.
Qed.

(** ** The invariant of an execution *)

(** After the requests [ps], that left the map [M]: the cache agrees with [M],
    the database leads to [M] through the queued entries, and every request
    was answered or is owed its answer by the database thread. *)
Record inv (y : system D) (st : astate) (ps : list point) (M : store) : Prop := Inv {
  iv_server : server_is (y_server y) st;
  iv_stop : y_stop y = false;
  iv_cache : coherent (as_cache st) M;
  iv_fit : vals_fit M;
  iv_db : vals_fit (db_view (y_db y));
  iv_answers : ∃ sent owed, ps ≡ₚ sent ++ owed ∧ Forall2 answers sent (as_out st) ∧
    pending (db_view (y_db y)) (as_queue st) owed M;
}.

(** How a step moves the queue: a round that serves takes its first entry and
    processes it, any other step only adds to its end. *)
Definition advanced (serves : bool) (d : D) (st : astate) (d' : D) (st' : astate) : Prop :=
  match serves, as_queue st with
  | true, x :: l => as_queue st' = l ∧
      ∃ rs, as_out st' = as_out st ++ rs ∧ a_process x true d = (rs, db_view d')
  | _, _ => db_view d' = db_view d ∧
      ∃ xs rs, as_queue st' = as_queue st ++ xs ∧ as_out st' = as_out st ++ rs
  end.

Lemma advanced_same serves (d : D) st st' :
  as_queue st' = as_queue st → as_out st' = as_out st → (serves = false ∨ as_queue st = []) →
  advanced serves d st d st'.
Proof.
  intros Hq Ho Hs. assert (∃ xs rs, as_queue st' = as_queue st ++ xs ∧ as_out st' = as_out st ++ rs).
  { exists [], []. by rewrite !app_nil_r. }
  unfold advanced. destruct Hs as [->|Hs]; [done|]. rewrite Hs in *. by destruct serves.
Qed.

Lemma advanced_handled (d : D) p st st' : handled p st st' → advanced false d st d st'.
Proof.
  intros [_ _ [(_ & Hq & r & Ho & _)|(x & _ & Hq & Ho)]]; (split; [done|]).
  - exists [], [r]. by rewrite app_nil_r.
  - destruct (owes p); [|destruct Ho as (r & Ho & _); by exists [x], [r]].
    exists [x], []. by rewrite app_nil_r.
Qed.

(** What a step adds. *)
Record stepped (serves : bool) (y : system D) (st : astate) (ps : list point) (M : store)
    (ro : bool) (n : nat) (t : mem (system D)) : Prop := Stepped {
  sp_heap : never_fails (heap t);
  sp_inv : ∃ st', inv (obj t) st' ps M ∧ a_read_only st' = ro ∧
    (length (as_queue st') ≤ n + length (as_queue st))%nat ∧
    advanced serves (y_db y) st (y_db (obj t)) st';
}.

(** The rounds that look at the queue. *)
Definition serves (ev : event) : bool :=
  match ev with EvDb rv => (rv =? 0) || (rv =? ETIMEDOUT) | _ => false end.

Lemma inv_queue_len y st ps M : inv y st ps M → queue_is (s_queue (y_server y)) (as_queue st).
Proof. intros [Hs _ _ _ _ _]. apply Hs. Qed.

Lemma inv_handled y s' st st' p ps M :
  inv y st ps M → p_map p = M → server_is s' st' → fits (p_req p) (p_msg p) →
  handled p st st' → inv (set_server s' y) st' (ps ++ [p]) (after p).
Proof.
  intros [Hs Hstop Hc HM Hdb (sent & owed & Hps & Hsent & Hpend)] Hp Hs' Hf [_ Hc' Hcase].
  split; [done|done|done| |done|].
  { unfold after. case_match; [by subst|]. rewrite Hp. by eapply effect_fits. }
  destruct Hcase as [(Haf & Hq & r & Ho & Ha)|(x & Hx & Hq & Ho)].
  - exists (sent ++ [p]), owed. rewrite Hq, Ho, Haf, Hp. split_and!; [|by apply Forall2_app; [|apply answer_one]|done].
    rewrite Hps. solve_Permutation.
  - rewrite <-Hp in Hpend. pose proof (pending_snoc _ _ _ _ _ Hpend Hx) as Hpend'.
    destruct (owes p).
    + exists sent, (owed ++ [p]). rewrite Hq, Ho. split_and!; [|done|done].
      rewrite Hps. solve_Permutation.
    + destruct Ho as (r & Ho & Ha). rewrite app_nil_r in Hpend'.
      exists (sent ++ [p]), owed. rewrite Hq, Ho. split_and!; [|by apply Forall2_app; [|apply answer_one]|done].
      rewrite Hps. solve_Permutation.
Qed.

Lemma handled_queue p st st' :
  handled p st st' → (length (as_queue st') ≤ 1 + length (as_queue st))%nat.
Proof.
  intros [_ _ [(_ & -> & _)|(x & _ & -> & _)]]; [lia|]. rewrite length_app. cbn. lia.
Qed.

Lemma wp_message y a st ps M req buf len (Q : () → mem (system D) → Prop) :
  never_fails a → inv y st ps M → queue_room st → event_ok (EvMessage req buf len) →
  (∀ m t, decode (msg_cmd buf) (w64 (len - 8)) (drop 8 buf) = Some m →
     let p := Point (filled req buf len) m (a_read_only st) M in
     stepped false y st (ps ++ [p]) (after p) (a_read_only st) 1 t → Q tt t) →
  wp (run_event (EvMessage req buf len)) Q (Mem y a).
Proof.
  intros Ha Hi Hroom (Hr & Hlen & Hv & Hw & m & Hm & Hf) HQ. cbn [run_event].
  apply wp_bind, wp_on_server.
  pose proof (iv_server _ _ _ _ Hi) as Hs. pose proof (iv_cache _ _ _ _ Hi) as Hc.
  eapply wp_parse_message; [done..| |]; [done|]. intros _. exists m. split_and!; [done| |done|].
  { destruct m; try done. cbn. unfold incr_defined.
    destruct (a_lookup k (as_cache st)) as [v|] eqn:E; [|done]. apply (proj2 Hc) in E.
    destruct (iv_fit _ _ _ _ Hi _ _ E) as (_ & Hne & Hl). unfold db_buf_size in Hl. split; [done|]. lia. }
  intros t [Ht Hst]. wp_simpl. apply (HQ m); [done|].
  pose proof (handle_point (filled req buf len) st M Hc m Hf) as Hh.
  split; [done|]. eexists. split_and!;
    [by eapply inv_handled| |by eapply handled_queue|by eapply advanced_handled].
  unfold a_read_only. by rewrite (hd_settings _ _ _ Hh).
Qed.

Lemma wp_db_round y a st ps M rv (Q : () → mem (system D) → Prop) :
  reliable → never_fails a → inv y st ps M → queue_room st →
  (∀ t, stepped (serves (EvDb rv)) y st ps M (a_read_only st) 0 t →
     s_settings (y_server (obj t)) = s_settings (y_server y) → Q tt t) →
  wp (run_event (EvDb rv)) Q (Mem y a).
Proof.
  intros Hrel Ha Hi Hroom HQ. cbn [run_event]. unfold queue_room in Hroom.
  assert (∀ b, b = false ∨ as_queue st = [] → stepped b y st ps M (a_read_only st) 0 (Mem y a))
    as Hsame.
  { intros b Hb. split; [done|]. exists st. split_and!; [done..|]. by apply advanced_same. }
  apply wp_bind. destruct (serves (EvDb rv)) eqn:Hrv; cbn in Hrv.
  2:{ apply orb_false_iff in Hrv as [E1 E2]. unfold db_iteration. rewrite E1, E2. cbn [negb andb].
    wp_simpl. apply HQ; [|done]. apply Hsame. by left. }
  apply orb_true_iff in Hrv. rewrite !Z.eqb_eq in Hrv.
  destruct Hi as [Hs Hstop Hc HM Hdb (sent & owed & Hps & Hsent & Hpend)].
  destruct (pending_ok _ _ _ _ Hpend) as [Hok Hfit].
  eapply (wp_db_iteration rv y a (as_queue st)); try done; [apply Hs|lia|..].
  { intros Hnil. wp_simpl. apply HQ; [|done]. apply Hsame. by right. }
  intros x l' rs q' y' a' Hl Ha' Hq' E Es Estop _. wp_simpl. apply HQ; [|cbn; by rewrite Es]. split; [done|].
  rewrite Hl in Hpend, Hfit. inversion Hpend as [|p x0 xs0 ps0 M0 Hx Hp0 Em]; subst.
  destruct (process_deferred p x (y_db y) Hrel Hx (eq_sym Em)) as [E2 Hans].
  apply Forall_cons in Hfit as [Hfx _].
  pose proof (a_process_fits x true (y_db y) Hfx Hdb) as Hdb'.
  unfold set_ok in E. rewrite (rel_set Hrel) in E. rewrite E in E2, Hans, Hdb'. cbn in E2, Hans, Hdb'.
  exists (AState (as_cache st) l' (as_stats st) (as_settings st) (as_out st ++ rs)).
  split_and!; [|done|rewrite Hl; cbn; lia|unfold advanced; rewrite Hl; split; [done|by exists rs]].
  destruct Hs as [S1 S2 S3 S4 S5].
  split; cbn; [split; cbn; rewrite Es; cbn; try done; by rewrite S5|congruence|done|done|done|].
  rewrite <-E2 in Hp0. destruct (owes p).
  - destruct Hans as (r & -> & Hr). exists (sent ++ [p]), ps0. split_and!; [|by apply Forall2_app; [|apply answer_one]|done].
    rewrite Hps. solve_Permutation.
  - subst rs. exists sent, ps0. by rewrite app_nil_r.
Qed.

Lemma wp_signal y a st ps M (m : MT server ()) (f : settings → settings) (Q : () → mem (system D) → Prop) :
  never_fails a → inv y st ps M →
  (∀ s b, m (Mem s b) = Some (tt, Mem (set_settings (f (s_settings s)) s) b)) →
  (∀ t, stepped false y st ps M (truth (read_only (f (as_settings st)))) 0 t → Q tt t) →
  wp (on_server m) Q (Mem y a).
Proof.
  intros Ha [Hs Hstop Hc HM Hdb Hans] Hm HQ. apply wp_on_server. apply wp_exec.
  eexists _, _. split; [apply Hm|]. apply HQ. split; [done|].
  exists (AState (as_cache st) (as_queue st) (as_stats st) (f (as_settings st)) (as_out st)).
  split_and!; [|done|cbn; lia|by apply advanced_same; [..|left]]. split; try done. cbn. destruct Hs as [S1 S2 S3 S4 S5].
  split; cbn; try done. by rewrite S4.
Qed.

Definition ro_after (ro : bool) (ev : event) : bool :=
  match ev with EvReadOnly => true | _ => ro end.

Lemma final_app M ps ps' : final M (ps ++ ps') = final (final M ps) ps'.
Proof. unfold final. rewrite last_app. by destruct (last ps'), (last ps). Qed.

Lemma points_cons ro M ev evs :
  points ro M (ev :: evs) =
  points ro M [ev] ++ points (ro_after ro ev) (final M (points ro M [ev])) evs.
Proof. destruct ev; cbn; try done. by case_match. Qed.

Lemma wp_run_event ev y a st ps M (Q : () → mem (system D) → Prop) :
  reliable → never_fails a → inv y st ps M → queue_room st → event_ok ev →
  (∀ t, let qs := points (a_read_only st) M [ev] in
     stepped (serves ev) y st (ps ++ qs) (final M qs) (ro_after (a_read_only st) ev) 1 t → Q tt t) →
  wp (run_event ev) Q (Mem y a).
Proof.
  intros Hrel Ha Hi Hroom Hok HQ.
  assert (∀ b ro t, stepped b y st ps M ro 0 t → stepped b y st (ps ++ []) M ro 1 t) as Hweak.
  { intros b ro t [Ht (st' & H1 & H2 & H3 & H4)]. rewrite app_nil_r. split; [done|].
    exists st'. split_and!; [done..|lia|done]. }
  destruct ev as [req buf len|rv| |]; cbn [points final last] in HQ.
  - eapply wp_message; [done..|]. intros m t Hm p Ht. apply HQ. by rewrite Hm.
  - eapply wp_db_round; [done..|]. intros t Ht _. by apply HQ, Hweak.
  - eapply (wp_signal _ _ _ _ _ _ (λ s, set_passive (if truth (passive s) then 0 else 1) s));
      [done..|]. intros t Ht. by apply HQ, Hweak.
  - eapply (wp_signal _ _ _ _ _ _ (λ s, if truth (read_only s) then s else set_read_only 1 s));
      [done|done| |].
    + intros s b. unfold enable_read_only_sighandler, mbind, M_bind, get_obj, gets. cbn [obj].
      destruct (truth _); cbn; [by destruct s|done].
    + intros t Ht. apply HQ, Hweak. cbn [ro_after].
      destruct (truth (read_only (as_settings st))) eqn:E; [by rewrite E in Ht|done].
Qed.

Lemma wp_run_events evs y a st ps M (Q : () → mem (system D) → Prop) :
  reliable → never_fails a → inv y st ps M →
  Z.of_nat (length evs + length (as_queue st)) < 2 ^ 64 → Forall event_ok evs →
  (∀ t st', let qs := points (a_read_only st) M evs in
     never_fails (heap t) → inv (obj t) st' (ps ++ qs) (final M qs) →
     (length (as_queue st') ≤ length evs + length (as_queue st))%nat → Q tt t) →
  wp (run_events evs) Q (Mem y a).
Proof.
  intros Hrel Ha Hi Hn Hok. revert y a st ps M Ha Hi Hn.
  induction Hok as [|ev evs Hev Hok IH]; intros y a st ps M Ha Hi Hn HQ; cbn [run_events].
  - wp_simpl. apply (HQ _ st); [done| |cbn; lia]. cbn. by rewrite app_nil_r.
  - apply wp_bind. eapply wp_run_event; [done|done|done| |done|].
    { unfold queue_room. cbn in Hn. lia. }
    intros [y1 a1] qs [Ha1 (st1 & Hi1 & Hro & Hl & _)].
    eapply IH; [done|exact Hi1|cbn in Hn; lia|].
    intros t st' qs' Ht Hi' Hl'. apply (HQ t st'); [done| |cbn; lia].
    rewrite points_cons, final_app, (assoc_L (++)). subst qs qs'. by rewrite Hro in Hi'.
Qed.
End threads.

(** ** Shutting down *)

Section shutdown.
Context {D : Type} `{DbLaws D}.

(** An execution, and then a shutdown; [rvs] is how the waits of the database
    thread end from then on. *)
Definition execution (evs : list event) (rvs : list Z) : MT (system D) bool :=
  run_events evs;; db_loop_stop;; db_loop rvs.

Definition wait_ends (rv : Z) : Prop := rv = 0 ∨ rv = ETIMEDOUT.

(** Once the loop is left, no more waits happen. *)
Lemma wp_db_loop_prefix rvs rvs' y a (Q : bool → mem (system D) → Prop) :
  wp (db_loop rvs) (λ r t, r = false ∧ Q r t) (Mem y a) → wp (db_loop (rvs ++ rvs')) Q (Mem y a).
Proof.
  revert y a. induction rvs as [|rv rvs IH]; intros y a; cbn [db_loop app].
  - wp_simpl. by intros [? _].
  - rewrite !wp_bind. intros Hw. eapply wp_mono; [exact Hw|]. cbn beta.
    intros again [y' a']. destruct again; [by apply IH|]. rewrite !wp_ret. by intros [_ ?].
Qed.

Lemma wp_shutdown rvs y a st ps M (Q : bool → mem (system D) → Prop) :
  reliable (D := D) → never_fails a → inv y st ps M →
  Z.of_nat (length (as_queue st)) < 2 ^ 64 →
  Forall wait_ends rvs → (length (as_queue st) < length rvs)%nat →
  (∀ t rs, s_out (y_server (obj t)) ≡ₚ rs → Forall2 answers ps rs →
     db_view (y_db (obj t)) = M → cache_is (s_cache (y_server (obj t))) (as_cache st) →
     queue_is (s_queue (y_server (obj t))) [] → Q false t) →
  wp (db_loop rvs) Q (Mem (set_stop true y) a).
Proof.
  intros Hrel Ha [Hs Hstop Hc HM Hdb (sent & owed & Hps & Hsent & Hpend)] Hl Hrvs Hn HQ.
  destruct (pending_ok _ _ _ _ Hpend) as [Hok Hfit].
  rewrite <-(take_drop (S (length (as_queue st))) rvs). apply wp_db_loop_prefix.
  eapply wp_mono.
  { apply (wp_db_loop_drains _ (set_stop true y) a (as_queue st)); try done.
    - by apply Forall_take.
    - rewrite length_take. lia.
    - apply Hs. }
  intros r t (-> & rs & q' & Hq' & Hsteps & Es).
  destruct (pending_steps _ _ _ _ _ _ Hrel Hpend Hsteps) as [Hans Hview].
  assert (Forall2 answers (sent ++ owed) (as_out st ++ rs)) as Hall by by apply Forall2_app.
  destruct (Permutation_Forall2 (symmetry Hps) Hall) as (rs' & Hp & Hall').
  destruct Hs as [S1 S2 S3 S4 S5]. split; [done|].
  apply (HQ t rs'); [|done|done|..]; rewrite Es; cbn; [by rewrite S5|done..].
Qed.
End shutdown.

(** ** Properties *)

(** C1: linearizability. Start from an empty queue and a cache that agrees with
    the database, and let the two threads run in any interleaving of messages,
    signals and rounds of the database loop, with a backend that accepts every
    value and tells whether a deleted key was there. Then nothing is undefined,
    the database thread ends after the shutdown (its waits need not be more
    than the events and one), and by then every request got exactly one reply:
    the one it gets when the requests are run on a single map, one after the other, in the order in which they arrived; the database
    holds exactly that map at the end, and the cache agrees with it. In
    particular a get sees every earlier set and del, asynchronous ones
    included, whether or not the database thread got to them. *)
Theorem server_linearizable {D} `{DbLaws D} (evs : list event) (rvs : list Z) (y : system D) (a : alloc)
  (st : astate) (M : store)
  (Hrel : reliable (D := D)) (Ha : never_fails a)
  (Hs : server_is (y_server y) st) (Hq : as_queue st = []) (Ho : as_out st = [])
  (Hstop : y_stop y = false) (HM : db_view (y_db y) = M) (Hfit : vals_fit M)
  (Hc : coherent (as_cache st) M) (Hok : Forall event_ok evs)
  (Hn : Z.of_nat (length evs) < 2 ^ 64)
  (Hrvs : Forall wait_ends rvs) (Hl : (length evs < length rvs)%nat) :
  ∃ y' a' rs bs, execution evs rvs (Mem y a) = Some (false, Mem y' a') ∧
    s_out (y_server y') ≡ₚ rs ∧ Forall2 answers (points (a_read_only st) M evs) rs ∧
    db_view (y_db y') = final M (points (a_read_only st) M evs) ∧
    cache_is (s_cache (y_server y')) bs ∧
    coherent bs (final M (points (a_read_only st) M evs)).
Proof.
  assert (inv y st [] M) as Hi.
  { split; try done; [by rewrite HM|]. exists [], []. rewrite Hq, Ho, HM.
    split_and!; [done|constructor|constructor]. }
  enough (wp (execution evs rvs) (λ r t, r = false ∧ ∃ rs bs,
    s_out (y_server (obj t)) ≡ₚ rs ∧ Forall2 answers (points (a_read_only st) M evs) rs ∧
    db_view (y_db (obj t)) = final M (points (a_read_only st) M evs) ∧
    cache_is (s_cache (y_server (obj t))) bs ∧
    coherent bs (final M (points (a_read_only st) M evs))) (Mem y a)) as Hw.
  { apply wp_exec in Hw as (r & [y2 a2] & Hw & -> & rs & bs & Hr). by exists y2, a2, rs, bs. }
  unfold execution. apply wp_bind. eapply wp_run_events; [done|done|exact Hi|rewrite Hq; cbn; lia|done|].
  rewrite Hq. intros [y1 a1] st' qs Ha1 Hi1 Hl1. cbn [obj heap length] in *. apply wp_bind.
  unfold db_loop_stop. wp_simpl.
  eapply wp_shutdown; [done|done|exact Hi1|lia|done|lia|]. intros t rs H1 H2 H3 H4 _. split; [done|].
  exists rs, (as_cache st'). split_and!; try done. apply (iv_cache _ _ _ _ Hi1).
Qed.

(** C17: the invariant of the whole server. Any event, a message, a signal or a
    round of the database thread, is defined in a state that satisfies the
    invariant, and re-establishes it: the cache still agrees with the map that
    the requests so far define, the database still leads to that map through
    the queued entries, each request was answered or is owed exactly one
    answer, and a read-only server stays read-only. *)
Theorem event_preserves_inv {D} `{DbLaws D} (ev : event) (y : system D) (a : alloc)
  (st : astate) (ps : list point) (M : store)
  (Hrel : reliable (D := D)) (Ha : never_fails a)
  (Hi : inv y st ps M) (Hroom : queue_room st) (Hok : event_ok ev) :
  ∃ y' a' st', run_event ev (Mem y a) = Some (tt, Mem y' a') ∧
    inv y' st' (ps ++ points (a_read_only st) M [ev]) (final M (points (a_read_only st) M [ev])) ∧
    a_read_only st' = ro_after (a_read_only st) ev.
Proof.
  assert (wp (run_event ev) (λ _ t, ∃ st',
    inv (obj t) st' (ps ++ points (a_read_only st) M [ev]) (final M (points (a_read_only st) M [ev])) ∧
    a_read_only st' = ro_after (a_read_only st) ev) (Mem y a)) as Hw.
  { eapply wp_run_event; [done..|]. intros t qs [_ (st' & H1 & H2 & _)]. by exists st'. }
  apply wp_exec in Hw as ([] & [y' a'] & Hrun & st' & H1 & H2). by exists y', a', st'.
Qed.

(** An encoded request that may be followed by other bytes. *)
Lemma encoded_event_ok req i f m junk :
  req_ok req → 0 ≤ i < 2 ^ 28 → 0 ≤ f < 2 ^ 16 → msg_ok m → storable m →
  (truth (Z.land f FLAGS_CACHE_ONLY) = true → writes m = false) →
  event_ok (EvMessage req (encode i f m ++ junk) (Z.of_nat (length (encode i f m)))).
Proof.
  intros Hr Hi Hf Hm Hs Hco. destruct (msg_of_encode i f m junk Hi Hf)
    as (H1 & H2 & H3 & H4 & H5 & H6 & H7). pose proof (encode_bounds i f m Hm) as Hb.
  split_and!; [done|done|done|rewrite H3, H5; by apply incr_no_wrap_ok|].
  exists m. split.
  - rewrite H3, H5. apply decode_encode_args; [done|]. rewrite H7. apply w64_small.
    unfold max_size in Hb. lia.
  - split; [done|]. unfold cache_only, filled, set_msg. cbn [r_flags]. by rewrite H4.
Qed.

Definition fresh_cache : cache := Cache 4 0 1 [chain_init].
Definition fresh_system : system store :=
  System (Server fresh_cache (Queue 0 None None ∅) (λ _, 0) sample_settings []) sample_store false.
Definition fresh_state : astate := AState (empty_cache 1) [] (λ _, 0) sample_settings [].

Definition sample_message (i f : Z) (m : areq) : event :=
  EvMessage sample_req (encode i f m ++ [NUL]) (Z.of_nat (length (encode i f m))).
Definition sample_events : list event :=
  [sample_message 1 0 (ASet [Byte.x61] [Byte.x32; NUL]); EvDb ETIMEDOUT;
   sample_message 2 0 (AIncr [Byte.x61] 5); sample_message 3 FLAGS_SYNC (ADel [Byte.x62]);
   EvReadOnly; sample_message 4 0 (ADel [Byte.x61]); EvDb 0; sample_message 5 0 (AGet [Byte.x62])].

Lemma sample_events_ok : Forall event_ok sample_events.
Proof.
  repeat apply Forall_cons_2; try apply Forall_nil_2; try done; apply encoded_event_ok;
    try apply sample_req_ok; try done; try (vm_compute; repeat split; discriminate).
Qed.

Lemma a_lookup_empty n k : a_lookup k (empty_cache n) = None.
Proof.
  unfold a_lookup, empty_cache. destruct (replicate n [] !! _) as [l|] eqn:E; [|done].
  by apply lookup_replicate in E as [-> _].
Qed.

Lemma store_reliable : reliable (D := store).
Proof. by split. Qed.

Lemma fresh_server_is : server_is (y_server fresh_system) fresh_state.
Proof.
  split; try done.
  - by apply (cache_is_empty 4 0).
  - apply empty_queue_is.
Qed.

Lemma server_linearizable_witness :
  ∃ y' a' rs bs, execution sample_events (replicate 9 0) (Mem fresh_system sample_alloc) = Some (false, Mem y' a') ∧
    s_out (y_server y') ≡ₚ rs ∧ Forall2 answers (points (a_read_only fresh_state) sample_store sample_events) rs ∧
    db_view (y_db y') = final sample_store (points (a_read_only fresh_state) sample_store sample_events) ∧
    cache_is (s_cache (y_server y')) bs ∧
    coherent bs (final sample_store (points (a_read_only fresh_state) sample_store sample_events)).
Proof.
  apply (server_linearizable sample_events (replicate 9 0) fresh_system sample_alloc fresh_state sample_store);
    try done; try apply fresh_server_is; try apply sample_vals_fit.
  - split; [cbn; lia|]. intros k v. cbn [as_cache fresh_state]. by rewrite a_lookup_empty.
  - apply sample_events_ok.
  - apply Forall_replicate. by left.
  - cbn. lia.
Defined.

Lemma fresh_inv : inv fresh_system fresh_state [] sample_store.
Proof.
  split; try done; try apply fresh_server_is; try apply sample_vals_fit.
  - split; [cbn; lia|]. intros k v. cbn [as_cache fresh_state]. by rewrite a_lookup_empty.
  - exists [], []. split_and!; [done|constructor|constructor].
Qed.

Definition set_event : event := sample_message 1 0 (ASet [Byte.x61] [Byte.x32; NUL]).

Lemma event_preserves_inv_witness :
  ∃ y' a' st', run_event set_event (Mem fresh_system sample_alloc) = Some (tt, Mem y' a') ∧
    inv y' st' ([] ++ points (a_read_only fresh_state) sample_store [set_event])
      (final sample_store (points (a_read_only fresh_state) sample_store [set_event])) ∧
    a_read_only st' = ro_after (a_read_only fresh_state) set_event.
Proof.
  apply (event_preserves_inv set_event fresh_system sample_alloc fresh_state [] sample_store);
    try done; [apply fresh_inv|].
  apply encoded_event_ok; try apply sample_req_ok; try done;
    (vm_compute; repeat split; discriminate).
Defined.
