(* ===== verification/Progress.v ===== *)
(** * Progress and sizes

    Two more facts about executions of the two threads (System.v): no request
    waits forever (the queue is served in order, so a request is answered after
    as many rounds of the database loop as there are entries before it,
    whatever else happens), and no reply is larger than the buffers that carry
    it. *)

From S2P Require Import Prelude Words Text Chain ChainSpec Cache Net Queue Backend Server Parse ParseSpec DbLoop DbSpec Transport System.

(** ** Progress *)

(** The rounds of the database loop that take an entry when there is one. *)
Definition db_rounds (evs : list event) : nat := length (filter (λ ev, serves ev = true) evs).

Section progress.
Context {D : Type} `{DbLaws D} (Hrel : reliable (D := D)).

Implicit Types (d : D) (st : astate) (l : list aentry) (o : list point).

(** The entries [l] are the first of the queue, and the requests [o] wait for
    them to be processed. *)
Definition waiting d st l o : Prop :=
  (l = [] ∧ o = []) ∨ ∃ M1 l2, pending (db_view d) l o M1 ∧ as_queue st = l ++ l2.

(** A round takes the first of the entries that wait. *)
Lemma pending_advanced d st d' st' (x : aentry) l l2 o (M1 : store) :
  pending (db_view d) (x :: l) o M1 → as_queue st = (x :: l) ++ l2 →
  advanced true d st d' st' →
  ∃ o1 o2 rs, o = o1 ++ o2 ∧ waiting d' st' l o2 ∧
    as_out st' = as_out st ++ rs ∧ Forall2 answers o1 rs.
Proof.
  intros Hp Hl Hadv. unfold advanced in Hadv. rewrite Hl in Hadv. cbn in Hadv.
  destruct Hadv as (Hq & rs & Ho & Ea).
  inversion Hp as [|p x0 xs0 ps0 M0 Hx Hp0 Em]; subst.
  destruct (process_deferred p x d Hrel Hx (eq_sym Em)) as [E2 Hans].
  rewrite Ea in E2, Hans. cbn in E2, Hans. rewrite <-E2 in Hp0.
  exists (if owes p then [p] else []), ps0, rs.
  split_and!; [done|by right; exists M1, l2|done|].
  destruct (owes p); [|by subst rs; constructor].
  destruct Hans as (r & -> & Hr). by apply answer_one.
Qed.

Lemma advanced_out b d st d' st' :
  advanced b d st d' st' → ∃ rs, as_out st' = as_out st ++ rs.
Proof. unfold advanced. destruct b, (as_queue st); naive_solver. Qed.

Lemma waiting_step b d st d' st' l o :
  waiting d st l o → advanced b d st d' st' →
  ∃ o1 o2 l' rs R, o = o1 ++ o2 ∧ waiting d' st' l' o2 ∧ as_out st' = as_out st ++ rs ∧
    R `sublist_of` rs ∧ Forall2 answers o1 R ∧
    (length l' ≤ length l - (if b then 1 else 0))%nat.
Proof.
  intros [[-> ->]|(M1 & l2 & Hp & Hl)] Hadv.
  { destruct (advanced_out _ _ _ _ _ Hadv) as [rs Ho].
    exists [], [], [], rs, []. split_and!; [done|by left|done|apply sublist_nil_l|done|cbn; lia]. }
  destruct l as [|x l].
  { inversion Hp; subst. destruct (advanced_out _ _ _ _ _ Hadv) as [rs Ho].
    exists [], [], [], rs, []. split_and!; [done|by left|done|apply sublist_nil_l|done|cbn; lia]. }
  destruct b.
  - destruct (pending_advanced _ _ _ _ _ _ _ _ _ Hp Hl Hadv) as (o1 & o2 & rs & -> & Hw & Ho & Ha).
    exists o1, o2, l, rs, rs. split_and!; [done..|cbn; lia].
  - destruct Hadv as (Hv & xs & rs & Hq & Ho).
    exists [], o, (x :: l), rs, []. split_and!; [done| |done|apply sublist_nil_l|done|cbn; lia].
    right. exists M1, (l2 ++ xs). rewrite Hv, Hq, Hl. by rewrite <-(assoc_L (++)).
Qed.

Lemma db_rounds_cons ev evs :
  db_rounds (ev :: evs) = ((if serves ev then 1 else 0) + db_rounds evs)%nat.
Proof. unfold db_rounds. rewrite filter_cons. destruct (serves ev); by case_decide. Qed.

Lemma waiting_nil d st o : waiting d st [] o → o = [].
Proof. intros [[_ ->]|(M1 & l2 & Hp & _)]; [done|]. by inversion Hp. Qed.

(** Once as many rounds have run as entries wait, their requests are answered. *)
Lemma wp_progress evs (y : system D) a st ps M l o (Q : () → mem (system D) → Prop) :
  never_fails a → inv y st ps M → waiting (y_db y) st l o →
  Z.of_nat (length evs + length (as_queue st)) < 2 ^ 64 → Forall event_ok evs →
  (length l ≤ db_rounds evs)%nat →
  (∀ t rs R, s_out (y_server (obj t)) = as_out st ++ rs → R `sublist_of` rs →
     Forall2 answers o R → Q tt t) →
  wp (run_events evs) Q (Mem y a).
Proof.
  intros Ha Hi Hw Hn Hok. revert y a st ps M l o Q Ha Hi Hw Hn.
  induction Hok as [|ev evs Hev Hok IH]; intros y a st ps M l o Q Ha Hi Hw Hn Hl HQ; cbn [run_events].
  - destruct l; [|cbn in Hl; lia]. apply waiting_nil in Hw as ->. wp_simpl.
    apply (HQ _ [] []); [|done|constructor]. rewrite app_nil_r.
    by destruct (iv_server _ _ _ _ Hi).
  - apply wp_bind. eapply wp_run_event; [done|done|exact Hi| |done|].
    { unfold queue_room. cbn in Hn. lia. }
    intros [y1 a1] qs [Ha1 (st1 & Hi1 & Hro & Hlen & Hadv)].
    destruct (waiting_step _ _ _ _ _ _ _ Hw Hadv)
      as (o1 & o2 & l' & rs1 & R1 & -> & Hw' & Ho & HR1 & Hans & Hl').
    rewrite db_rounds_cons in Hl. cbn in Hn.
    eapply (IH _ _ _ _ _ l' o2); [done|exact Hi1|done|lia|destruct (serves ev); lia|].
    intros t rs2 R2 Et HR2 Hans2.
    apply (HQ t (rs1 ++ rs2) (R1 ++ R2)); [|by apply sublist_app|by apply Forall2_app].
    by rewrite Et, Ho, (assoc_L (++)).
Qed.
End progress.

(** ** Sizes *)

(** The size of the value a reply carries. *)
Definition reply_size (r : reply) : Z :=
  match r with reply_long _ _ v => Z.of_nat (length v) | _ => 0 end.

Lemma answers_size p r : vals_fit (p_map p) → answers p r → reply_size r ≤ db_buf_size.
Proof.
  intros Hm [_ Ha]. assert (∀ k v, p_map p !! k = Some v → Z.of_nat (length v) ≤ db_buf_size) as Hv
    by (intros k v Hk; by apply (Hm k v)).
  assert (0 ≤ db_buf_size) as H0 by by unfold db_buf_size.
  case_match; [by rewrite Ha|]. destruct (p_msg p); cbn in Ha.
  - destruct (p_map p !! k) eqn:Ek; [|rewrite Ha; by case_match].
    destruct Ha as [Ha|Ha]; [rewrite Ha; by eapply Hv|].
    destruct (cache_only _); rewrite Ha; [done|by eapply Hv].
  - by rewrite Ha.
  - by rewrite Ha.
  - by rewrite Ha.
  - by repeat case_match; rewrite Ha.
  - destruct Ha as [Ha|[Ha|(k & Ha & v & Hk)]]; rewrite Ha; [done..|]. by apply (Hm k v).
  - destruct Ha as [Ha|[Ha|(k' & Ha & v & Hk)]]; rewrite Ha; [done..|]. by apply (Hm k' v).
  - destruct Ha as [t Ha]. by rewrite Ha.
  - by rewrite Ha.
  - by rewrite Ha.
Qed.

Lemma points_fit (ro : bool) (M : store) (evs : list event) :
  vals_fit M → Forall event_ok evs → Forall (λ p, vals_fit (p_map p)) (points ro M evs).
Proof.
  intros HM Hok. revert ro M HM. induction Hok as [|ev evs Hev Hok IH]; intros ro M HM; [done|].
  destruct ev as [req buf len|rv| |]; cbn [points]; [|by apply IH..].
  destruct Hev as (_ & _ & _ & _ & m & Hm & Hf). rewrite Hm. constructor; [done|].
  apply IH. unfold after. cbn. case_match; [done|]. by eapply effect_fits.
Qed.

(** ** Properties *)

(** C18: no request waits forever. Take any state of the running server, with
    the requests [ps] received so far, and let any events follow, among them
    at least as many rounds of the database loop as there are entries in the
    queue. Then every one of the requests [ps] has been answered, the answers
    to those that waited being among the replies sent meanwhile. *)
Theorem requests_are_answered {D} `{DbLaws D} (evs : list event) (y : system D) (a : alloc)
  (st : astate) (ps : list point) (M : store)
  (Hrel : reliable (D := D)) (Ha : never_fails a)
  (Hi : inv y st ps M) (Hok : Forall event_ok evs)
  (Hn : Z.of_nat (length evs + length (as_queue st)) < 2 ^ 64)
  (Hrounds : (length (as_queue st) ≤ db_rounds evs)%nat) :
  ∃ y' a' rs R, run_events evs (Mem y a) = Some (tt, Mem y' a') ∧
    R ⊆+ s_out (y_server y') ∧ ps ≡ₚ rs ∧ Forall2 answers rs R.
Proof.
  assert (∃ sent owed, ps ≡ₚ sent ++ owed ∧ Forall2 answers sent (as_out st) ∧
    pending (db_view (y_db y)) (as_queue st) owed M) as (sent & owed & Hps & Hsent & Hp)
    by apply Hi.
  assert (wp (run_events evs) (λ _ t, ∃ R, R ⊆+ s_out (y_server (obj t)) ∧
    Forall2 answers (sent ++ owed) R) (Mem y a)) as Hw.
  { eapply wp_progress; [done|done|exact Hi| |done|done|exact Hrounds|].
    { right. exists M, []. split; [exact Hp|by rewrite app_nil_r]. }
    intros t rs R E HR Hans. exists (as_out st ++ R). split; [|by apply Forall2_app].
    rewrite E. by apply submseteq_skips_l, sublist_submseteq. }
  apply wp_exec in Hw as ([] & [y' a'] & Hrun & R & H1 & H2).
  by exists y', a', (sent ++ owed), R.
Qed.

(** C31: bounds. In an execution with any interleaving, no reply carries more
    than 64 kB, so that every reply fits the 68 kB buffers of the server and
    of the client, with the header, and its length fits the 32-bit field. *)
Theorem reply_bounds {D} `{DbLaws D} (evs : list event) (y : system D) (a : alloc)
  (st : astate) (ps : list point) (M : store)
  (Hrel : reliable (D := D)) (Ha : never_fails a)
  (Hi : inv y st ps M) (Hps : Forall (λ p, vals_fit (p_map p)) ps)
  (Hok : Forall event_ok evs) (Hn : Z.of_nat (length evs + length (as_queue st)) < 2 ^ 64) :
  ∃ y' a', run_events evs (Mem y a) = Some (tt, Mem y' a') ∧
    Forall (λ r, reply_size r ≤ db_buf_size ∧ reply_size r + 4 + 12 ≤ SBSIZE ∧
      reply_size r < 2 ^ 32) (s_out (y_server y')).
Proof.
  assert (wp (run_events evs) (λ _ t, Forall (λ r, reply_size r ≤ db_buf_size)
    (s_out (y_server (obj t)))) (Mem y a)) as Hw.
  { eapply wp_run_events; [done|done|exact Hi|done|done|].
    intros t st' qs Ht [Hs _ _ _ _ (sent & owed & Hp & Hsent & _)] _.
    assert (s_out (y_server (obj t)) = as_out st') as -> by apply Hs.
    assert (Forall (λ p, vals_fit (p_map p)) (sent ++ owed)) as Hfit.
    { rewrite <-Hp. apply Forall_app. split; [done|]. apply points_fit; [|done]. apply Hi. }
    apply Forall_app in Hfit as [Hfit _]. clear -Hsent Hfit. revert Hfit.
    induction Hsent as [|p r ps rs Ha Hall IH]; intros Hf; [done|].
    apply Forall_cons in Hf as [Hf1 Hf2]. constructor; [by eapply answers_size|by apply IH]. }
  apply wp_exec in Hw as ([] & [y' a'] & Hrun & Hall). exists y', a'. split; [done|].
  eapply Forall_impl; [exact Hall|]. cbn. unfold db_buf_size, SBSIZE. lia.
Qed.

(** ** Examples *)

Definition busy_events : list event :=
  [set_event; sample_message 2 FLAGS_SYNC (ADel [Byte.x62]); EvDb 0; EvPassive; EvDb ETIMEDOUT].

Lemma busy_events_ok : Forall event_ok busy_events.
Proof.
  repeat apply Forall_cons_2; try apply Forall_nil_2; try done; apply encoded_event_ok;
    try apply sample_req_ok; try done; vm_compute; repeat split; discriminate.
Qed.

(** The server after a synchronous delete, which waits for its answer. *)
Definition sync_event : event := sample_message 2 FLAGS_SYNC (ADel [Byte.x62]).
Definition waiting_system : system store :=
  match run_event sync_event (Mem fresh_system sample_alloc) with
  | Some (_, t) => obj t
  | None => fresh_system
  end.

Lemma waiting_system_inv :
  ∃ st, inv waiting_system st (points false sample_store [sync_event])
    (final sample_store (points false sample_store [sync_event])) ∧ length (as_queue st) = 1%nat.
Proof.
  enough (wp (run_event sync_event) (λ _ t, ∃ st,
    inv (obj t) st (points false sample_store [sync_event])
      (final sample_store (points false sample_store [sync_event])))
    (Mem fresh_system sample_alloc)) as (r & t & E & st & Hi)%wp_exec.
  - exists st. unfold waiting_system. rewrite E. split; [done|].
    pose proof (inv_queue_len _ _ _ _ Hi) as Hq. apply queue_is_length in Hq.
    assert (q_size (s_queue (y_server waiting_system)) = 1) as E1 by by vm_compute.
    unfold waiting_system in E1. rewrite E in E1. lia.
  - eapply wp_run_event; [done|done|apply fresh_inv|done| |].
    + apply encoded_event_ok; try apply sample_req_ok; try done;
        vm_compute; repeat split; discriminate.
    + intros t qs [_ (st' & H1 & _)]. by exists st'.
Qed.

Lemma requests_are_answered_witness :
  ∃ y' a' rs R, run_events busy_events (Mem waiting_system sample_alloc) = Some (tt, Mem y' a') ∧
    R ⊆+ s_out (y_server y') ∧ points false sample_store [sync_event] ≡ₚ rs ∧
    Forall2 answers rs R.
Proof.
  destruct waiting_system_inv as (st & Hi & Hl).
  apply (requests_are_answered busy_events waiting_system sample_alloc st
    (points false sample_store [sync_event]) _) with (3 := Hi);
    try done; [apply busy_events_ok|by rewrite Hl|rewrite Hl; vm_compute; lia].
Defined.

Lemma reply_bounds_witness :
  ∃ y' a', run_events busy_events (Mem fresh_system sample_alloc) = Some (tt, Mem y' a') ∧
    Forall (λ r, reply_size r ≤ db_buf_size ∧ reply_size r + 4 + 12 ≤ SBSIZE ∧
      reply_size r < 2 ^ 32) (s_out (y_server y')).
Proof.
  apply (reply_bounds busy_events fresh_system sample_alloc fresh_state [] sample_store);
    try done; [apply fresh_inv|apply busy_events_ok].
Defined.
