(* ===== verification/Settings.v ===== *)
(** * Command line (nmdb/main.c: load_settings, free_settings)

    [getopt] belongs to the C library; what the server uses of it is defined
    here: clusters of flags, arguments in the same word or in the next one,
    ["--"], and words that are no options, which are skipped. [load_settings]
    runs through the options it finds, in order, and then fills in the
    defaults; [settings_of] says what each setting ends up to be. *)

From S2P Require Import Prelude Words Text Net Backend.
From stdpp Require Import strings.

#[local] Open Scope Z_scope.

(** A C string, without the NUL. *)
Definition bs (s : string) : bytes := String.list_byte_of_string s.

(** ** The C library *)

Definition s32 (z : Z) : Z := (z + 2 ^ 31) mod 2 ^ 32 - 2 ^ 31.
Definition in_int (z : Z) : bool := (- 2 ^ 31 <=? z) && (z <? 2 ^ 31).

(** [atoi] converts what [strtol] gives to an [int]. *)
Definition atoi (s : bytes) : Z := s32 (strtoll s).

(** [strdup]: NULL when there is no memory. *)
Definition strdup {T} (s : bytes) : MT T (option bytes) :=
  p ← malloc (Z.of_nat (length s) + 1);
  mret (match p with Null => None | _ => Some s end).

(** Whether an option is in the option string, and takes an argument. *)
Fixpoint find_option (opts : bytes) (c : byte) : option bool :=
  match opts with
  | [] => None
  | o :: opts =>
      if decide (o = Byte.x3a) then find_option opts c
      else if decide (o = c) then Some (bool_decide (head opts = Some Byte.x3a))
      else find_option opts c
  end.

Definition copt := (byte * bytes)%type.
Definition bad_option : copt := (Byte.x3f, []).

(** The options of one word, and the one that still wants an argument. *)
Fixpoint scan_word (opts : bytes) (w : bytes) : list copt * option byte :=
  match w with
  | [] => ([], None)
  | c :: w =>
      match find_option opts c with
      | None => let '(l, o) := scan_word opts w in (bad_option :: l, o)
      | Some false => let '(l, o) := scan_word opts w in ((c, []) :: l, o)
      | Some true => match w with [] => ([], Some c) | _ => ([(c, w)], None) end
      end
  end.

(** What the calls of [getopt] give, until it gives -1. *)
Fixpoint getopt (opts : bytes) (argv : list bytes) : list copt :=
  match argv with
  | [] => []
  | w :: argv =>
      match w with
      | Byte.x2d :: c :: w' =>
          if decide (c :: w' = [Byte.x2d]) then [] else
          let '(l, o) := scan_word opts (c :: w') in
          l ++ match o with
               | None => getopt opts argv
               | Some c =>
                   match argv with
                   | [] => [bad_option]
                   | v :: argv => (c, v) :: getopt opts argv
                   end
               end
      | _ => getopt opts argv
      end
  end.

(** ** Assignments of settings *)

Definition set_tipc_lower (x : Z) (s : settings) : settings :=
  Settings x (tipc_upper s) (tcp_addr s) (tcp_port s) (udp_addr s) (udp_port s) (sctp_addr s)
    (sctp_port s) (st_numobjs s) (foreground s) (passive s) (read_only s) (dbname s) (logfname s)
    (backend s) (pidfile s).
Definition set_tipc_upper (x : Z) (s : settings) : settings :=
  Settings (tipc_lower s) x (tcp_addr s) (tcp_port s) (udp_addr s) (udp_port s) (sctp_addr s)
    (sctp_port s) (st_numobjs s) (foreground s) (passive s) (read_only s) (dbname s) (logfname s)
    (backend s) (pidfile s).
Definition set_tcp (a : option bytes) (x : Z) (s : settings) : settings :=
  Settings (tipc_lower s) (tipc_upper s) a x (udp_addr s) (udp_port s) (sctp_addr s)
    (sctp_port s) (st_numobjs s) (foreground s) (passive s) (read_only s) (dbname s) (logfname s)
    (backend s) (pidfile s).
Definition set_udp (a : option bytes) (x : Z) (s : settings) : settings :=
  Settings (tipc_lower s) (tipc_upper s) (tcp_addr s) (tcp_port s) a x (sctp_addr s)
    (sctp_port s) (st_numobjs s) (foreground s) (passive s) (read_only s) (dbname s) (logfname s)
    (backend s) (pidfile s).
Definition set_sctp (a : option bytes) (x : Z) (s : settings) : settings :=
  Settings (tipc_lower s) (tipc_upper s) (tcp_addr s) (tcp_port s) (udp_addr s) (udp_port s)
    a x (st_numobjs s) (foreground s) (passive s) (read_only s) (dbname s) (logfname s)
    (backend s) (pidfile s).
Definition set_numobjs (x : Z) (s : settings) : settings :=
  Settings (tipc_lower s) (tipc_upper s) (tcp_addr s) (tcp_port s) (udp_addr s) (udp_port s)
    (sctp_addr s) (sctp_port s) x (foreground s) (passive s) (read_only s) (dbname s) (logfname s)
    (backend s) (pidfile s).
Definition set_foreground (x : Z) (s : settings) : settings :=
  Settings (tipc_lower s) (tipc_upper s) (tcp_addr s) (tcp_port s) (udp_addr s) (udp_port s)
    (sctp_addr s) (sctp_port s) (st_numobjs s) x (passive s) (read_only s) (dbname s) (logfname s)
    (backend s) (pidfile s).
Definition set_names (d l p : option bytes) (s : settings) : settings :=
  Settings (tipc_lower s) (tipc_upper s) (tcp_addr s) (tcp_port s) (udp_addr s) (udp_port s)
    (sctp_addr s) (sctp_port s) (st_numobjs s) (foreground s) (passive s) (read_only s) d l
    (backend s) p.
Definition set_backend (x : Z) (s : settings) : settings :=
  Settings (tipc_lower s) (tipc_upper s) (tcp_addr s) (tcp_port s) (udp_addr s) (udp_port s)
    (sctp_addr s) (sctp_port s) (st_numobjs s) (foreground s) (passive s) (read_only s) (dbname s)
    (logfname s) x (pidfile s).

(** ** load_settings *)

(** [enum backend_type], and [DEFAULT_BE]; the build without any backend does
    not compile. *)
Definition be_enum (t : backend_type) : Z :=
  match t with
  | BE_UNKNOWN => -2 | BE_UNSUPPORTED => -1
  | BE_QDBM => 1 | BE_BDB => 2 | BE_TC => 3 | BE_TDB => 4 | BE_LEVELDB => 5 | BE_NULL => 6
  end.

Definition DEFAULT_BE (b : build) : backend_type :=
  if enable_tdb b then BE_TDB else if enable_tc b then BE_TC else if enable_qdbm b then BE_QDBM
  else if enable_bdb b then BE_BDB else if enable_leveldb b then BE_LEVELDB else BE_NULL.

Definition DEFDBNAME : bytes := bs "database".
Definition OPTSTRING : bytes := bs "b:d:l:L:t:T:u:U:s:S:c:o:i:fprh?".
Definition TCP_SERVER_ADDR : bytes := bs "0.0.0.0".
Definition UDP_SERVER_ADDR : bytes := bs "0.0.0.0".
Definition SCTP_SERVER_ADDR : bytes := bs "0.0.0.0".

Section load.
Context (b : build).

(** One option; [false]: the function returns 0. *)
Definition apply_option (o : copt) : MT settings bool :=
  let '(c, optarg) := o in
  match c with
  | Byte.x62 => (* b *)
      mod_obj (set_backend (be_enum (be_type_from_str b (String.string_of_list_byte optarg))));;
      mret true
  | Byte.x64 => (* d *)
      n ← strdup optarg; mod_obj (λ s, set_names n (logfname s) (pidfile s) s);; mret true
  | Byte.x6c => (* l *) mod_obj (set_tipc_lower (atoi optarg));; mret true
  | Byte.x4c => (* L *) mod_obj (set_tipc_upper (atoi optarg));; mret true
  | Byte.x74 => (* t *) mod_obj (λ s, set_tcp (tcp_addr s) (atoi optarg) s);; mret true
  | Byte.x54 => (* T *) mod_obj (λ s, set_tcp (Some optarg) (tcp_port s) s);; mret true
  | Byte.x75 => (* u *) mod_obj (λ s, set_udp (udp_addr s) (atoi optarg) s);; mret true
  | Byte.x55 => (* U *) mod_obj (λ s, set_udp (Some optarg) (udp_port s) s);; mret true
  | Byte.x73 => (* s *) mod_obj (λ s, set_sctp (sctp_addr s) (atoi optarg) s);; mret true
  | Byte.x53 => (* S *) mod_obj (λ s, set_sctp (Some optarg) (sctp_port s) s);; mret true
  | Byte.x63 => (* c *)
      let n := atoi optarg * 1024 in
      if in_int n then mod_obj (set_numobjs n);; mret true else ub
  | Byte.x6f => (* o *)
      n ← strdup optarg; mod_obj (λ s, set_names (dbname s) n (pidfile s) s);; mret true
  | Byte.x69 => (* i *)
      n ← strdup optarg; mod_obj (λ s, set_names (dbname s) (logfname s) n s);; mret true
  | Byte.x66 => (* f *) mod_obj (set_foreground 1);; mret true
  | Byte.x70 => (* p *) mod_obj (set_passive 1);; mret true
  | Byte.x72 => (* r *) mod_obj (set_read_only 1);; mret true
  | _ => mret false
  end.

Fixpoint option_loop (l : list copt) : MT settings bool :=
  match l with
  | [] => mret true
  | o :: l => ok ← apply_option o; if ok : bool then option_loop l else mret false
  end.

(** The assignments before the loop, and after it. *)
Definition initial_settings : settings :=
  Settings (-1) (-1) None (-1) None (-1) None (-1) (-1) 0 0 0 None None
    (be_enum (DEFAULT_BE b)) None.

Definition if_unset (x dflt : Z) : Z := if x =? -1 then dflt else x.
Definition if_null (a : option bytes) (dflt : bytes) : option bytes :=
  Some (default dflt a).

Definition fill_defaults (s : settings) : settings :=
  let s := set_tipc_lower (if_unset (tipc_lower s) TIPC_SERVER_INST) s in
  let s := set_tipc_upper (if_unset (tipc_upper s) (tipc_lower s)) s in
  let s := set_tcp (if_null (tcp_addr s) TCP_SERVER_ADDR) (if_unset (tcp_port s) TCP_SERVER_PORT) s in
  let s := set_udp (if_null (udp_addr s) UDP_SERVER_ADDR) (if_unset (udp_port s) UDP_SERVER_PORT) s in
  let s := set_sctp (if_null (sctp_addr s) SCTP_SERVER_ADDR) (if_unset (sctp_port s) SCTP_SERVER_PORT) s in
  set_numobjs (if_unset (st_numobjs s) (128 * 1024)) s.

(** [argv] without the program's name. *)
Definition load_settings (argv : list bytes) : MT settings bool :=
  mod_obj (λ _, initial_settings);;
  d ← strdup DEFDBNAME;
  mod_obj (λ s, set_names d (logfname s) (pidfile s) s);;
  l ← strdup (bs "-");
  mod_obj (λ s, set_names (dbname s) l (pidfile s) s);;
  ok ← option_loop (getopt OPTSTRING argv);
  if negb (ok : bool) then mret false else
  mod_obj fill_defaults;;
  s ← get_obj;
  mret (negb ((backend s =? be_enum BE_UNKNOWN) || (backend s =? be_enum BE_UNSUPPORTED))).
End load.

(** [free_settings]: the names are released. *)
Definition free_settings : MT settings () := mod_obj (set_names None None None).

(** ** What the settings are *)

(** The argument of the last option [c], if it was given. *)
Definition last_of (c : byte) (l : list copt) : option bytes :=
  snd <$> last (filter (λ o, o.1 = c) l).

Definition given (c : byte) (l : list copt) : Z := if last_of c l is Some _ then 1 else 0.
Definition int_of (c : byte) (l : list copt) : Z :=
  match last_of c l with Some v => atoi v | None => -1 end.

(** The settings once the options [l] have been run through. *)
Definition raw_settings (b : build) (l : list copt) : settings :=
  Settings (int_of Byte.x6c l) (int_of Byte.x4c l)
    (last_of Byte.x54 l) (int_of Byte.x74 l)
    (last_of Byte.x55 l) (int_of Byte.x75 l)
    (last_of Byte.x53 l) (int_of Byte.x73 l)
    (match last_of Byte.x63 l with Some v => atoi v * 1024 | None => -1 end)
    (given Byte.x66 l) (given Byte.x70 l) (given Byte.x72 l)
    (Some (default DEFDBNAME (last_of Byte.x64 l))) (Some (default (bs "-") (last_of Byte.x6f l)))
    (match last_of Byte.x62 l with
     | Some v => be_enum (be_type_from_str b (String.string_of_list_byte v))
     | None => be_enum (DEFAULT_BE b)
     end)
    (last_of Byte.x69 l).
Definition settings_of (b : build) (l : list copt) : settings := fill_defaults (raw_settings b l).

(** The letters of the options that [load_settings] accepts. *)
Definition letters : list byte := bs "bdlLtTuUsScoifpr".
Definition accepted (l : list copt) : Prop := Forall (λ o, o.1 ∈ letters) l.

(** A cache size, in thousands, that an [int] can hold. *)
Definition size_ok (o : copt) : Prop := o.1 = Byte.x63 → in_int (atoi o.2 * 1024) = true.

Lemma last_option_snoc c l o :
  last_of c (l ++ [o]) = if decide (o.1 = c) then Some o.2 else last_of c l.
Proof.
  unfold last_of. rewrite filter_app. case_decide as E.
  - rewrite filter_cons_True, filter_nil by done. by rewrite last_snoc.
  - rewrite filter_cons_False, filter_nil by done. by rewrite app_nil_r.
Qed.

Section load_spec.
Context (b : build).

Lemma wp_strdup {T} (s : bytes) (t : T) a (Q : option bytes → mem T → Prop) :
  never_fails a → (∀ a', never_fails a' → Q (Some s) (Mem t a')) → wp (strdup s) Q (Mem t a).
Proof. intros Ha HQ. unfold strdup. apply wp_bind, wp_malloc; [done|]. wp_simpl. by apply HQ. Qed.

Lemma apply_option_rejected c v : c ∉ letters → apply_option b (c, v) = mret false.
Proof. intros Hc. destruct c; try reflexivity; by destruct Hc; vm_compute; repeat constructor. Qed.

(** One option, after the options [l]. *)
Lemma wp_apply_option l o a (Q : bool → mem settings → Prop) :
  never_fails a → size_ok o →
  (o.1 ∉ letters → Q false (Mem (raw_settings b l) a)) →
  (o.1 ∈ letters → ∀ a', never_fails a' → Q true (Mem (raw_settings b (l ++ [o])) a')) →
  wp (apply_option b o) Q (Mem (raw_settings b l) a).
Proof.
  intros Ha Hc Hno Hyes. destruct o as [c v].
  destruct (decide (c ∈ letters)) as [Hin|Hin];
    [|rewrite apply_option_rejected by done; by apply Hno].
  specialize (Hyes Hin). unfold raw_settings, int_of, given in Hyes. rewrite !last_option_snoc in Hyes.
  cbn [fst snd] in Hyes. change letters with (bs "bdlLtTuUsScoifpr") in Hin. cbn in Hin.
  repeat (apply elem_of_cons in Hin as [->|Hin]); try (by apply elem_of_nil in Hin);
    unfold apply_option; wp_simpl; try (by apply Hyes).
  - apply wp_strdup; [done|]. intros a' Ha'. wp_simpl. by apply Hyes.
  - rewrite Hc by done. wp_simpl. by apply Hyes.
  - apply wp_strdup; [done|]. intros a' Ha'. wp_simpl. by apply Hyes.
  - apply wp_strdup; [done|]. intros a' Ha'. wp_simpl. by apply Hyes.
Qed.

Lemma wp_option_loop l0 l a (Q : bool → mem settings → Prop) :
  never_fails a → Forall size_ok l →
  (¬ accepted l → ∀ t, Q false t) →
  (accepted l → ∀ a', never_fails a' → Q true (Mem (raw_settings b (l0 ++ l)) a')) →
  wp (option_loop b l) Q (Mem (raw_settings b l0) a).
Proof.
  intros Ha Hl. revert l0 a Ha. induction Hl as [|o l Ho Hl IH]; intros l0 a Ha Hno Hyes; cbn [option_loop].
  - wp_simpl. rewrite app_nil_r in Hyes. by apply Hyes; [constructor|].
  - apply wp_bind, wp_apply_option; [done|done| |].
    + intros Hin. wp_simpl. apply Hno. intros Hacc. by apply Forall_cons in Hacc as [? _].
    + intros Hin a' Ha'. apply IH; [done| |].
      * intros Hacc t. apply Hno. intros Hacc'. apply Hacc. by apply Forall_cons in Hacc' as [_ ?].
      * intros Hacc a2 Ha2. rewrite <-(assoc_L (++)). by apply Hyes; [constructor|].
Qed.

(** The backend that was asked for is there. *)
Definition backend_ok (s : settings) : Prop := ∃ t, enabled b t = true ∧ backend s = be_enum t.

Lemma load_settings_wp argv s0 a (Q : bool → mem settings → Prop) :
  let l := getopt OPTSTRING argv in
  never_fails a → Forall size_ok l →
  (¬ accepted l → ∀ t, Q false t) →
  (accepted l → ∀ a', never_fails a' → let s := settings_of b l in
     Q (negb ((backend s =? be_enum BE_UNKNOWN) || (backend s =? be_enum BE_UNSUPPORTED))) (Mem s a')) →
  wp (load_settings b argv) Q (Mem s0 a).
Proof.
  intros l Ha Hl Hno Hyes. unfold load_settings. wp_simpl.
  apply wp_strdup; [done|]. intros a1 Ha1. wp_simpl. apply wp_strdup; [done|]. intros a2 Ha2. wp_simpl.
  apply (wp_option_loop []); [done|done| |].
  - intros Hacc t. cbn [negb]. wp_simpl. by apply Hno.
  - intros Hacc a3 Ha3. cbn [negb]. wp_simpl. by apply Hyes.
Qed.
End load_spec.

(** ** What they can be *)

(** Every setting has a value of its type: the integers are [int]s, the flags
    are truth values, no address or name that is used is NULL, the cache's
    size is in thousands, and the backend is there. *)
Record settings_typed (b : build) (s : settings) : Prop := SettingsTyped {
  ty_ints : Forall (λ z, in_int z = true) [tipc_lower s; tipc_upper s; tcp_port s; udp_port s;
    sctp_port s; st_numobjs s; backend s];
  ty_flags : Forall (λ z, z = 0 ∨ z = 1) [foreground s; passive s; read_only s];
  ty_names : Forall is_Some [tcp_addr s; udp_addr s; sctp_addr s; dbname s; logfname s];
  ty_numobjs : (1024 | st_numobjs s);
  ty_backend : backend_ok b s;
}.

Lemma atoi_range v : in_int (atoi v) = true.
Proof.
  unfold in_int, atoi, s32. pose proof (Z.mod_pos_bound (strtoll v + 2 ^ 31) (2 ^ 32) ltac:(lia)).
  apply andb_true_iff. rewrite Z.leb_le, Z.ltb_lt. lia.
Qed.

Lemma if_unset_range x y : in_int x = true → in_int y = true → in_int (if_unset x y) = true.
Proof. unfold if_unset. by case_match. Qed.

Lemma int_of_range c l : in_int (int_of c l) = true.
Proof. unfold int_of. case_match; [apply atoi_range|done]. Qed.

Lemma given_flag c l : given c l = 0 ∨ given c l = 1.
Proof. unfold given. case_match; auto. Qed.

Lemma last_of_elem c l v : last_of c l = Some v → (c, v) ∈ l.
Proof.
  unfold last_of. intros ([c' v'] & Hl & ->)%fmap_Some.
  by apply last_Some_elem_of, list_elem_of_filter in Hl as [<- Hl].
Qed.

Lemma be_type_cases b name :
  let t := be_type_from_str b name in t = BE_UNKNOWN ∨ t = BE_UNSUPPORTED ∨ enabled b t = true.
Proof. unfold be_type_from_str. repeat (case_match; cbn; auto). Qed.

(** The last test accepts exactly the backends that were compiled in. *)
Lemma backend_test b l :
  enabled b (DEFAULT_BE b) = true → let s := settings_of b l in
  negb ((backend s =? be_enum BE_UNKNOWN) || (backend s =? be_enum BE_UNSUPPORTED)) = true ↔
  backend_ok b s.
Proof.
  intros Hb s.
  assert (∀ t, t = BE_UNKNOWN ∨ t = BE_UNSUPPORTED ∨ enabled b t = true →
    negb ((be_enum t =? be_enum BE_UNKNOWN) || (be_enum t =? be_enum BE_UNSUPPORTED)) = true ↔
    ∃ t', enabled b t' = true ∧ be_enum t = be_enum t') as Ht.
  { intros t Ht. split; [|intros (t' & Ht' & ->); by destruct t'].
    destruct Ht as [->|[->|Ht]]; [done|done|]. by exists t. }
  unfold backend_ok, s. cbn [settings_of fill_defaults raw_settings backend set_numobjs set_sctp
    set_udp set_tcp set_tipc_upper set_tipc_lower].
  destruct (last_of Byte.x62 l) as [v|]; apply Ht; [apply be_type_cases|by right; right].
Qed.

Lemma settings_of_typed b l :
  Forall size_ok l → backend_ok b (settings_of b l) → settings_typed b (settings_of b l).
Proof.
  intros Hl Hb. assert (st_numobjs (settings_of b l) = 128 * 1024 ∨
    ∃ v, (Byte.x63, v) ∈ l ∧ st_numobjs (settings_of b l) = atoi v * 1024) as Hn.
  { unfold settings_of. cbn. destruct (last_of Byte.x63 l) as [v|] eqn:E; [|by left].
    right. exists v. split; [by apply last_of_elem|]. unfold if_unset.
    rewrite (proj2 (Z.eqb_neq _ _)) by lia. done. }
  split; [| | | |done].
  - assert (in_int (backend (settings_of b l)) = true) as Hbe
      by by destruct Hb as ([] & _ & ->).
    assert (in_int (st_numobjs (settings_of b l)) = true) as Hni.
    { destruct Hn as [->|(v & Hv & ->)]; [done|]. rewrite Forall_forall in Hl.
      by apply (Hl _ Hv). }
    repeat apply Forall_cons_2; [..|apply Hni|apply Hbe|constructor]; cbn;
      repeat apply if_unset_range; done || apply int_of_range.
  - repeat apply Forall_cons_2; [apply given_flag..|constructor].
  - repeat apply Forall_cons_2; [by eexists..|constructor].
  - destruct Hn as [->|(v & _ & ->)]; [by exists 128|by exists (atoi v)].
Qed.

(** ** Writing the command line of given settings *)

Definition optional (w : bytes) (flag : Z) : list bytes := if truth flag then [w] else [].

Definition argv_of (t : backend_type) (s : settings) : list bytes :=
  [bs "-b"; bs (be_str_from_type t); bs "-d"; default [] (dbname s);
   bs "-l"; fmt_lld (tipc_lower s); bs "-L"; fmt_lld (tipc_upper s);
   bs "-t"; fmt_lld (tcp_port s); bs "-T"; default [] (tcp_addr s);
   bs "-u"; fmt_lld (udp_port s); bs "-U"; default [] (udp_addr s);
   bs "-s"; fmt_lld (sctp_port s); bs "-S"; default [] (sctp_addr s);
   bs "-c"; fmt_lld (st_numobjs s / 1024); bs "-o"; default [] (logfname s)] ++
  match pidfile s with Some p => [bs "-i"; p] | None => [] end ++
  optional (bs "-f") (foreground s) ++ optional (bs "-p") (passive s) ++
  optional (bs "-r") (read_only s).

Definition opt_flag (c : byte) (flag : Z) : list copt := if truth flag then [(c, [])] else [].

(** The options of that command line. *)
Definition opts_of (t : backend_type) (s : settings) : list copt :=
  [(Byte.x62, bs (be_str_from_type t)); (Byte.x64, default [] (dbname s));
   (Byte.x6c, fmt_lld (tipc_lower s)); (Byte.x4c, fmt_lld (tipc_upper s));
   (Byte.x74, fmt_lld (tcp_port s)); (Byte.x54, default [] (tcp_addr s));
   (Byte.x75, fmt_lld (udp_port s)); (Byte.x55, default [] (udp_addr s));
   (Byte.x73, fmt_lld (sctp_port s)); (Byte.x53, default [] (sctp_addr s));
   (Byte.x63, fmt_lld (st_numobjs s / 1024)); (Byte.x6f, default [] (logfname s))] ++
  match pidfile s with Some p => [(Byte.x69, p)] | None => [] end ++
  opt_flag Byte.x66 (foreground s) ++ opt_flag Byte.x70 (passive s) ++
  opt_flag Byte.x72 (read_only s).

Lemma getopt_argv_of t s : getopt OPTSTRING (argv_of t s) = opts_of t s.
Proof.
  unfold argv_of, opts_of, optional, opt_flag.
  by destruct (pidfile s), (truth (foreground s)), (truth (passive s)), (truth (read_only s)).
Qed.

Lemma strtoll_fmt_lld x : INT64_MIN ≤ x ≤ INT64_MAX → strtoll (fmt_lld x) = x.
Proof.
  intros Hx. rewrite <-(strtoll_fmt x Hx) at 2. unfold fmt_23lld, strtoll. by rewrite skip_space_pad.
Qed.

Lemma in_int_spec z : in_int z = true ↔ - 2 ^ 31 ≤ z < 2 ^ 31.
Proof. unfold in_int. by rewrite andb_true_iff, Z.leb_le, Z.ltb_lt. Qed.

Lemma atoi_fmt x : in_int x = true → atoi (fmt_lld x) = x.
Proof.
  rewrite in_int_spec. intros Hx. unfold atoi.
  rewrite strtoll_fmt_lld by by unfold INT64_MIN, INT64_MAX; lia.
  unfold s32. rewrite Z.mod_small by lia. lia.
Qed.

(** Integers for which -1 stands are not written. *)
Definition ints_set (s : settings) : Prop :=
  Forall (λ z, z ≠ -1) [tipc_lower s; tipc_upper s; tcp_port s; udp_port s; sctp_port s].

Lemma if_unset_id x y : x ≠ -1 → if_unset x y = x.
Proof. intros Hx. unfold if_unset. by rewrite (proj2 (Z.eqb_neq _ _)). Qed.

Lemma settings_of_opts b t s :
  settings_typed b s → ints_set s → enabled b t = true → backend s = be_enum t →
  be_type_from_str b (be_str_from_type t) = t → settings_of b (opts_of t s) = s.
Proof.
  intros [Hi Hf Hn [k Hk] _] Hu Ht Hb Hbe. unfold ints_set in Hu.
  rewrite !Forall_cons in Hi; rewrite !Forall_cons in Hf; rewrite !Forall_cons in Hu;
  rewrite !Forall_cons in Hn.
  destruct Hi as (I1 & I2 & I3 & I4 & I5 & I6 & _ & _), Hf as (F1 & F2 & F3 & _),
    Hn as ([n1 N1] & [n2 N2] & [n3 N3] & [n4 N4] & [n5 N5] & _), Hu as (U1 & U2 & U3 & U4 & U5 & _).
  destruct s as [lo up ta tp ua upt sa sp no fg pa ro dn ln be pf]. cbn in * |-. subst.
  assert (in_int k = true) as Hk by (rewrite in_int_spec in *; lia).
  assert (settings_of b (opts_of t (Settings lo up (Some n1) tp (Some n2) upt (Some n3) sp
    (k * 1024) fg pa ro (Some n4) (Some n5) (be_enum t) pf)) =
    fill_defaults (Settings (atoi (fmt_lld lo)) (atoi (fmt_lld up)) (Some n1) (atoi (fmt_lld tp))
      (Some n2) (atoi (fmt_lld upt)) (Some n3) (atoi (fmt_lld sp))
      (atoi (fmt_lld (k * 1024 / 1024)) * 1024) fg pa ro (Some n4) (Some n5)
      (be_enum (be_type_from_str b (String.string_of_list_byte (bs (be_str_from_type t))))) pf)) as ->.
  { unfold settings_of, opts_of, opt_flag. by destruct pf, F1 as [-> | ->], F2 as [-> | ->], F3 as [-> | ->]. }
  rewrite Z.div_mul by lia. rewrite !atoi_fmt by done.
  unfold bs. rewrite String.string_of_list_byte_of_string, Hbe.
  unfold fill_defaults. cbn -[if_unset Z.mul]. by rewrite !if_unset_id by lia.
Qed.

(** ** Properties *)


(** C32: the settings' types. Whatever the command line, the settings that
    [load_settings] accepts are well typed: every integer is an [int], every
    flag a truth value, no address that a transport or the log uses is NULL,
    the size of the cache is a multiple of 1024 and the backend is one that
    was compiled in. *)
Theorem load_settings_typed (b : build) (argv : list bytes) (s0 : settings) (a : alloc)
  (Ha : never_fails a) (Hb : enabled b (DEFAULT_BE b) = true)
  (Hl : Forall size_ok (getopt OPTSTRING argv)) :
  ∃ ok s a', load_settings b argv (Mem s0 a) = Some (ok, Mem s a') ∧
    (ok = true → settings_typed b s).
Proof.
  enough (wp (load_settings b argv) (λ ok t, ok = true → settings_typed b (obj t)) (Mem s0 a)) as Hw.
  { apply wp_exec in Hw as (ok & [s a'] & Hw & H1). by exists ok, s, a'. }
  apply load_settings_wp; [done|done|done|]. intros Hacc a' Ha' s Hok.
  apply settings_of_typed; [done|]. by apply backend_test.
Qed.

(** C27: settings written as a command line are read back as they were,
    whatever the names and addresses (even if they look like options) and for
    every [int] but -1, which stands for the default. *)
Theorem load_settings_roundtrip (b : build) (t : backend_type) (s s0 : settings) (a : alloc)
  (Ha : never_fails a) (Hs : settings_typed b s) (Hu : ints_set s)
  (Ht : enabled b t = true) (Hbe : backend s = be_enum t) :
  ∃ a', load_settings b (argv_of t s) (Mem s0 a) = Some (true, Mem s a').
Proof.
  assert (be_type_from_str b (be_str_from_type t) = t) as Hn
    by by destruct b, t; cbn in *; rewrite ?Ht.
  pose proof (settings_of_opts b t s Hs Hu Ht Hbe Hn) as Hso.
  assert (accepted (opts_of t s)) as Hacc.
  { unfold accepted, opts_of, opt_flag.
    destruct (pidfile s), (truth (foreground s)), (truth (passive s)), (truth (read_only s));
      apply (bool_decide_unpack (Forall _ _)); by vm_compute. }
  enough (wp (load_settings b (argv_of t s)) (λ ok m, ok = true ∧ obj m = s) (Mem s0 a)) as Hw.
  { apply wp_exec in Hw as (ok & [s' a'] & Hw & -> & H2). cbn in H2. subst s'. by exists a'. }
  apply load_settings_wp; rewrite ?getopt_argv_of; [done| |done|].
  - apply Forall_forall. intros [c v] Hin Hc. cbn in Hc. subst c.
    assert (v = fmt_lld (st_numobjs s / 1024)) as ->.
    { unfold opts_of, opt_flag in Hin. destruct (pidfile s), (truth (foreground s)),
        (truth (passive s)), (truth (read_only s)); set_solver. }
    destruct Hs as [Hi _ _ [k Hk] _]. rewrite !Forall_cons in Hi.
    destruct Hi as (_ & _ & _ & _ & _ & Hi & _). cbn [snd]. rewrite Hk in *.
    rewrite Z.div_mul by lia. rewrite atoi_fmt; [done|]. rewrite in_int_spec in *. lia.
  - intros _ a' Ha'. rewrite Hso. split; [|done]. rewrite Hbe. by destruct t.
Qed.

(** ** Examples *)

Definition full_build : build := Build true true true true true true.
Definition plenty : alloc := Alloc (λ _, true) 0 NUL.
Definition sample_argv : list bytes :=
  [bs "-fp"; bs "-c2"; bs "ignored"; bs "-t"; bs "-u"; bs "-d"; bs "db"; bs "-u80"; bs "-u"; bs "81"].

Example getopt_sample : getopt OPTSTRING sample_argv =
  [(Byte.x66, []); (Byte.x70, []); (Byte.x63, bs "2"); (Byte.x74, bs "-u"); (Byte.x64, bs "db");
   (Byte.x75, bs "80"); (Byte.x75, bs "81")].
Proof. reflexivity. Qed.

Lemma sample_sizes : Forall size_ok (getopt OPTSTRING sample_argv).
Proof.
  rewrite getopt_sample.
  repeat (apply Forall_cons_2; [intros Hc; first [discriminate Hc|reflexivity]|]). apply Forall_nil_2.
Qed.

Definition sample_result : settings := settings_of full_build (getopt OPTSTRING sample_argv).


Lemma load_settings_typed_witness :
  ∃ ok s a', load_settings full_build sample_argv (Mem sample_result plenty) = Some (ok, Mem s a') ∧
    (ok = true → settings_typed full_build s).
Proof.
  apply (load_settings_typed full_build sample_argv sample_result plenty);
    [done|done|apply sample_sizes].
Defined.

Lemma load_settings_roundtrip_witness :
  ∃ a', load_settings full_build (argv_of BE_TDB sample_result) (Mem sample_result plenty) =
    Some (true, Mem sample_result a').
Proof.
  apply (load_settings_roundtrip full_build BE_TDB sample_result sample_result plenty); try done.
  - apply settings_of_typed; [apply sample_sizes|]. by exists BE_TDB.
  - by repeat apply Forall_cons_2; try apply Forall_nil_2; vm_compute.
Defined.
