(* ===== verification/NetLoop.v ===== *)
(** * Sockets and the event loop (nmdb/net.c; the init and close functions of udp.c, tcp.c, tipc.c, sctp.c and of their stubs)

    The kernel is a set of sockets by descriptor, and a script that says which
    of the coming system calls fail. libevent is a table of the sources that
    are registered, each with its handler; [event_dispatch] runs through what
    happens, and what each handler does to the server is an event of
    System.v. *)

From S2P Require Import Prelude Words Text Net Queue Backend Server Parse DbLoop Transport Tcp System Settings.
From stdpp Require Import strings.

#[local] Open Scope Z_scope.

(** ** The kernel *)

Inductive sock_kind := TipcRdm | TcpStream | UdpDgram | SctpSeqpacket.
Inductive sock_addr :=
  | SaInet (ip port : Z)
  | SaTipc (nameseq : bool) (type lower upper : Z).

Record ksock := KSock {
  ks_kind : sock_kind;
  ks_reuse : bool;
  ks_nodelay : bool;
  ks_nonblock : bool;
  ks_addr : option sock_addr;
  ks_listening : bool;
}.
Definition fresh_sock (k : sock_kind) : ksock := KSock k false false false None false.
Definition with_reuse (s : ksock) : ksock :=
  KSock (ks_kind s) true (ks_nodelay s) (ks_nonblock s) (ks_addr s) (ks_listening s).
Definition with_nodelay (s : ksock) : ksock :=
  KSock (ks_kind s) (ks_reuse s) true (ks_nonblock s) (ks_addr s) (ks_listening s).
Definition with_nonblock (s : ksock) : ksock :=
  KSock (ks_kind s) (ks_reuse s) (ks_nodelay s) true (ks_addr s) (ks_listening s).
Definition with_addr (a : sock_addr) (s : ksock) : ksock :=
  KSock (ks_kind s) (ks_reuse s) (ks_nodelay s) (ks_nonblock s) (Some a) (ks_listening s).
Definition with_listening (s : ksock) : ksock :=
  KSock (ks_kind s) (ks_reuse s) (ks_nodelay s) (ks_nonblock s) (ks_addr s) true.

(** The open sockets, and for each coming call whether it fails; calls behind
    the end of the script succeed. *)
Record knet := KNet { kn_socks : gmap nat ksock; kn_fails : list bool }.

Definition failing (fl : list bool) : bool := match fl with b :: _ => b | [] => false end.
Definition call_fails : MT knet bool :=
  n ← get_obj; mod_obj (λ n, KNet (kn_socks n) (tail (kn_fails n)));;
  mret (failing (kn_fails n)).

(** [socket] and [accept]: a descriptor that is not in use, or -1. *)
Definition new_fd (s : ksock) : MT knet Z :=
  f ← call_fails;
  if f : bool then mret (-1) else
  n ← get_obj;
  let fd := fresh (dom (kn_socks n)) in
  mod_obj (λ n, KNet (<[fd := s]> (kn_socks n)) (kn_fails n));; mret (Z.of_nat fd).
Definition socket (k : sock_kind) : MT knet Z := new_fd (fresh_sock k).

(** [setsockopt], [bind], [listen], [fcntl]: 0, or -1. *)
Definition on_fd (fd : Z) (f : ksock → ksock) : MT knet Z :=
  e ← call_fails;
  if e || (fd <? 0) then mret (-1) else
  mod_obj (λ n, KNet (alter f (Z.to_nat fd) (kn_socks n)) (kn_fails n));; mret 0.

Definition close (fd : Z) : MT knet () :=
  if fd <? 0 then mret tt else
  mod_obj (λ n, KNet (delete (Z.to_nat fd) (kn_socks n)) (kn_fails n)).

(** ** The init functions *)

(** A step that can fail: then the socket is closed and the result is -1. *)
Definition or_close (fd rv : Z) (k : MT knet Z) : MT knet Z :=
  if rv <? 0 then close fd;; mret (-1) else k.

Definition udp_init (st : settings) : MT knet Z :=
  addr ← lift_opt (udp_addr st);
  match inet_pton addr with
  | None => mret (-1)
  | Some ia =>
      let srvsa := SaInet ia (htons (udp_port st)) in
      fd ← socket UdpDgram;
      if fd <? 0 then mret (-1) else
      rv ← on_fd fd with_reuse; or_close fd rv (
      rv ← on_fd fd (with_addr srvsa); or_close fd rv (
      mret fd))
  end.

Definition tcp_init (st : settings) : MT knet Z :=
  addr ← lift_opt (tcp_addr st);
  match inet_pton addr with
  | None => mret (-1)
  | Some ia =>
      let srvsa := SaInet ia (htons (tcp_port st)) in
      fd ← socket TcpStream;
      if fd <? 0 then mret (-1) else
      rv ← on_fd fd with_reuse; or_close fd rv (
      rv ← on_fd fd (with_addr srvsa); or_close fd rv (
      rv ← on_fd fd with_listening; or_close fd rv (
      rv ← on_fd fd with_nodelay; or_close fd rv (
      mret fd))))
  end.

Definition sctp_init (st : settings) : MT knet Z :=
  addr ← lift_opt (sctp_addr st);
  match inet_pton addr with
  | None => mret (-1)
  | Some ia =>
      let srvsa := SaInet ia (htons (sctp_port st)) in
      fd ← socket SctpSeqpacket;
      if fd <? 0 then mret (-1) else
      rv ← on_fd fd with_reuse; or_close fd rv (
      rv ← on_fd fd (with_addr srvsa); or_close fd rv (
      rv ← on_fd fd with_listening; or_close fd rv (
      rv ← on_fd fd with_nodelay; or_close fd rv (
      mret fd))))
  end.

Definition tipc_init (st : settings) : MT knet Z :=
  let srvsa := SaTipc (negb (tipc_lower st =? tipc_upper st)) TIPC_SERVER_TYPE
    (w32 (tipc_lower st)) (w32 (tipc_upper st)) in
  fd ← socket TipcRdm;
  if fd <? 0 then mret (-1) else
  rv ← on_fd fd (with_addr srvsa); or_close fd rv (
  mret fd).

Definition tipc_close (fd : Z) : MT knet () := close fd.
Definition tcp_close (fd : Z) : MT knet () := close fd.
Definition udp_close (fd : Z) : MT knet () := close fd.
Definition sctp_close (fd : Z) : MT knet () := close fd.

(** The stubs of the transports that are left out of the build. *)
Definition stub_init : MT knet Z := mret (-1).
Definition stub_close (fd : Z) : MT knet () := mret tt.

(** A new connection: [peer] is its address. [None]: it was given up. *)
Definition SIZEOF_TCP_SOCKET : Z := 152.
Definition SIZEOF_EVENT : Z := 152.
Definition tcp_newconnection (fd : Z) (peer : bytes) : MT knet (option tcp_socket) :=
  p ← malloc SIZEOF_TCP_SOCKET;
  match p with
  | Null => mret None
  | _ =>
      e ← malloc SIZEOF_EVENT;
      match e with
      | Null => free p;; mret None
      | _ =>
          newfd ← new_fd (fresh_sock TcpStream);
          rv ← on_fd newfd with_nonblock;
          if negb (rv =? 0) then close newfd;; free e;; free p;; mret None
          else mret (Some (new_socket newfd peer))
      end
  end.

(** ** net.c *)

(** The [ENABLE_*] constants of the build. *)
Record net_build := NetBuild {
  ENABLE_TIPC : bool; ENABLE_TCP : bool; ENABLE_UDP : bool; ENABLE_SCTP : bool;
}.

Inductive handler :=
  | h_receive (t : req_type)   (* tipc_recv, tcp_newconnection, udp_recv, sctp_recv *)
  | h_exit                     (* exit_sighandler *)
  | h_logfd_reopen             (* logfd_reopen_sighandler *)
  | h_enable_read_only         (* enable_read_only_sighandler *)
  | h_passive_to_active.       (* passive_to_active_sighandler *)

#[export] Instance handler_eq_decision : EqDecision handler.
Proof. solve_decision. Defined.

Inductive source := OnFd (fd : Z) | OnSignal (signo : Z).
#[export] Instance source_eq_decision : EqDecision source.
Proof. solve_decision. Defined.

Definition SIGHUP : Z := 1.
Definition SIGINT : Z := 2.
Definition SIGUSR1 : Z := 10.
Definition SIGUSR2 : Z := 12.
Definition SIGTERM : Z := 15.

(** libevent's table. *)
Abbreviation events := (list (source * handler)).
Definition event_del (s : source) (t : events) : events := filter (λ e, e.1 ≠ s) t.

Definition signal_events : events :=
  [(OnSignal SIGTERM, h_exit); (OnSignal SIGINT, h_exit); (OnSignal SIGHUP, h_logfd_reopen);
   (OnSignal SIGUSR1, h_enable_read_only); (OnSignal SIGUSR2, h_passive_to_active)].

(** What happens to the process: a message that a transport received, a
    signal, or a round of the database thread. *)
Inductive occurrence :=
  | OcMessage (req : req_info) (buf : bytes) (len : Z)
  | OcSignal (signo : Z)
  | OcDb (rv : Z).

Definition handler_of (s : source) (t : events) : option handler :=
  snd <$> head (filter (λ e, e.1 = s) t).

(** [event_dispatch], until [event_loopexit]: the events of the server. The
    second result: whether the loop was left. *)
Fixpoint event_dispatch (t : events) (ocs : list occurrence) : list event * bool :=
  match ocs with
  | [] => ([], false)
  | OcDb rv :: ocs => let '(evs, b) := event_dispatch t ocs in (EvDb rv :: evs, b)
  | OcSignal n :: ocs =>
      match handler_of (OnSignal n) t with
      | Some h_exit => ([], true)
      | Some h_enable_read_only => let '(evs, b) := event_dispatch t ocs in (EvReadOnly :: evs, b)
      | Some h_passive_to_active => let '(evs, b) := event_dispatch t ocs in (EvPassive :: evs, b)
      | _ => event_dispatch t ocs
      end
  | OcMessage req buf len :: ocs =>
      let '(evs, b) := event_dispatch t ocs in
      if decide (h_receive (r_type req) ∈ t.*2) then (EvMessage req buf len :: evs, b) else (evs, b)
  end.

(** The result of [net_loop]: [exit(1)], or what [event_dispatch] ran, whether
    it was left, and the events that are still registered then. *)
Inductive net_result := NetExit | NetDone (evs : list event) (left_loop : bool) (tbl : events).

(** The build links one or the other of two files. *)
Definition linked {A} (on : bool) (real stub : A) : A := if on then real else stub.

(** One transport: its socket is opened, and its event registered. *)
Definition enable (on : bool) (init : MT knet Z) (t : req_type) (tbl : events)
    (k : Z → events → MT knet net_result) : MT knet net_result :=
  if on then
    fd ← init;
    if fd <? 0 then mret NetExit else k fd (tbl ++ [(OnFd fd, h_receive t)])
  else k (-1) tbl.

Definition disable (on : bool) (fd : Z) (tbl : events) : events :=
  if on then event_del (OnFd fd) tbl else tbl.

(** [exit_sighandler] leaves the loop; SIGHUP stays registered. *)
Definition net_loop (nb : net_build) (st : settings) (ocs : list occurrence) : MT knet net_result :=
  enable (ENABLE_TIPC nb) (linked (ENABLE_TIPC nb) (tipc_init st) stub_init) REQTYPE_TIPC [] (λ tipc_fd tbl,
  enable (ENABLE_TCP nb) (linked (ENABLE_TCP nb) (tcp_init st) stub_init) REQTYPE_TCP tbl (λ tcp_fd tbl,
  enable (ENABLE_UDP nb) (linked (ENABLE_UDP nb) (udp_init st) stub_init) REQTYPE_UDP tbl (λ udp_fd tbl,
  enable (ENABLE_SCTP nb) (linked (ENABLE_SCTP nb) (sctp_init st) stub_init) REQTYPE_SCTP tbl (λ sctp_fd tbl,
  let tbl := tbl ++ signal_events in
  let '(evs, left_loop) := event_dispatch tbl ocs in
  if negb left_loop then mret (NetDone evs false tbl) else
  let tbl := disable (ENABLE_TIPC nb) tipc_fd tbl in
  let tbl := disable (ENABLE_TCP nb) tcp_fd tbl in
  let tbl := disable (ENABLE_UDP nb) udp_fd tbl in
  let tbl := disable (ENABLE_SCTP nb) sctp_fd tbl in
  let tbl := event_del (OnSignal SIGTERM) tbl in
  let tbl := event_del (OnSignal SIGINT) tbl in
  let tbl := event_del (OnSignal SIGUSR1) tbl in
  let tbl := event_del (OnSignal SIGUSR2) tbl in
  linked (ENABLE_TIPC nb) tipc_close stub_close tipc_fd;;
  linked (ENABLE_TCP nb) tcp_close stub_close tcp_fd;;
  linked (ENABLE_UDP nb) udp_close stub_close udp_fd;;
  linked (ENABLE_SCTP nb) sctp_close stub_close sctp_fd;;
  mret (NetDone evs true tbl))))).

(** ** What an init function gives *)

Definition transport_init (t : req_type) (st : settings) : MT knet Z :=
  match t with
  | REQTYPE_TIPC => tipc_init st
  | REQTYPE_TCP => tcp_init st
  | REQTYPE_UDP => udp_init st
  | REQTYPE_SCTP => sctp_init st
  end.

(** The address a setting stands for, and the socket that serves it. *)
Definition inet_sock (k : sock_kind) (stream : bool) (addr : option bytes) (port : Z) : option ksock :=
  a ← addr; ia ← inet_pton a; Some (KSock k true stream false (Some (SaInet ia (htons port))) stream).
Definition served_sock (t : req_type) (st : settings) : option ksock :=
  match t with
  | REQTYPE_TIPC =>
      Some (KSock TipcRdm false false false (Some (SaTipc (negb (tipc_lower st =? tipc_upper st))
        TIPC_SERVER_TYPE (w32 (tipc_lower st)) (w32 (tipc_upper st)))) false)
  | REQTYPE_TCP => inet_sock TcpStream true (tcp_addr st) (tcp_port st)
  | REQTYPE_UDP => inet_sock UdpDgram false (udp_addr st) (udp_port st)
  | REQTYPE_SCTP => inet_sock SctpSeqpacket true (sctp_addr st) (sctp_port st)
  end.

(** No address is NULL. *)
Definition addrs_given (st : settings) : Prop :=
  is_Some (tcp_addr st) ∧ is_Some (udp_addr st) ∧ is_Some (sctp_addr st).

Section init.
Context (a : alloc) (m : gmap nat ksock).
Implicit Types Q : Z → mem knet → Prop.

Lemma wp_new_fd s fl Q :
  (failing fl = true → Q (-1) (Mem (KNet m (tail fl)) a)) →
  (∀ fd, m !! fd = None → Q (Z.of_nat fd) (Mem (KNet (<[fd := s]> m) (tail fl)) a)) →
  wp (new_fd s) Q (Mem (KNet m fl) a).
Proof.
  intros Hno Hyes. unfold new_fd, call_fails. wp_simpl. cbn [kn_fails kn_socks].
  destruct (failing fl); wp_simpl; [by apply Hno|].
  apply Hyes. apply not_elem_of_dom, is_fresh.
Qed.

Lemma wp_opened k fl (K : Z → MT knet Z) Q :
  (failing fl = true → Q (-1) (Mem (KNet m (tail fl)) a)) →
  (∀ fd, m !! fd = None → wp (K (Z.of_nat fd)) Q (Mem (KNet (<[fd := fresh_sock k]> m) (tail fl)) a)) →
  wp (fd ← socket k; if fd <? 0 then mret (-1) else K fd) Q (Mem (KNet m fl) a).
Proof.
  intros Hno Hyes. apply wp_bind, wp_new_fd; [done|]. intros fd Hfd.
  rewrite (proj2 (Z.ltb_ge (Z.of_nat fd) 0)) by lia. by apply Hyes.
Qed.

Lemma wp_setup fd s fl f (k : MT knet Z) Q :
  m !! fd = None →
  (failing fl = true → Q (-1) (Mem (KNet m (tail fl)) a)) →
  wp k Q (Mem (KNet (<[fd := f s]> m) (tail fl)) a) →
  wp (rv ← on_fd (Z.of_nat fd) f; or_close (Z.of_nat fd) rv k) Q (Mem (KNet (<[fd := s]> m) fl) a).
Proof.
  intros Hfd Hno Hyes. apply wp_bind. unfold on_fd, call_fails. wp_simpl. cbn [kn_fails kn_socks].
  rewrite (proj2 (Z.ltb_ge (Z.of_nat fd) 0)), orb_false_r by lia. unfold or_close.
  destruct (failing fl); wp_simpl; cbn [Z.ltb Z.compare].
  - unfold close. rewrite (proj2 (Z.ltb_ge (Z.of_nat fd) 0)) by lia. wp_simpl.
    cbn [kn_fails kn_socks]. rewrite Nat2Z.id, delete_insert_id by done. by apply Hno.
  - cbn [kn_fails kn_socks]. rewrite Nat2Z.id, alter_insert_eq. by apply Hyes.
Qed.

(** The outcome of an init function: nothing changed, or the one socket. *)
Definition init_outcome (t : req_type) (st : settings) (fl : list bool) (rv : Z) (u : mem knet) : Prop :=
  heap u = a ∧ (fl = [] → kn_fails (obj u) = []) ∧
  ((rv = -1 ∧ kn_socks (obj u) = m ∧ (fl = [] → served_sock t st = None)) ∨
   ∃ fd s, rv = Z.of_nat fd ∧ m !! fd = None ∧ served_sock t st = Some s ∧
     kn_socks (obj u) = <[fd := s]> m).

Lemma outcome_failed t st fl fl' :
  (fl = [] → failing fl' = false) → failing fl' = true →
  init_outcome t st fl (-1) (Mem (KNet m (tail fl')) a).
Proof. intros H1 H2. split; [done|]. destruct fl; [by rewrite H1 in H2|]. split; [done|]. by left. Qed.

Lemma outcome_ready t st fl fl' fd s :
  (fl = [] → fl' = []) → m !! fd = None → served_sock t st = Some s →
  init_outcome t st fl (Z.of_nat fd) (Mem (KNet (<[fd := s]> m) fl') a).
Proof. intros. split; [done|]. split; [done|]. right. by exists fd, s. Qed.

(** One call of an init function: it can fail, and then nothing has changed. *)
Ltac init_failed := intros Hf; eapply outcome_failed; [|exact Hf]; by intros ->.
Ltac init_step := apply wp_setup; [done|init_failed|].

Lemma wp_transport_init t st fl :
  addrs_given st → wp (transport_init t st) (init_outcome t st fl) (Mem (KNet m fl) a).
Proof.
  intros ([ta Ht] & [ua Hu] & [sa Hs]).
  assert (∀ t, served_sock t st = None → init_outcome t st fl (-1) (Mem (KNet m fl) a)) as Hbad
    by (intros t' Ht'; split; [done|]; split; [done|]; by left).
  destruct t; cbn [transport_init]; unfold tipc_init, tcp_init, udp_init, sctp_init.
  - apply wp_opened; [init_failed|]. intros fd Hfd. init_step. wp_simpl.
    by apply outcome_ready; [intros ->|..].
  - rewrite Ht. wp_simpl. destruct (inet_pton ta) as [ia|] eqn:E.
    2:{ wp_simpl. apply Hbad. cbn. unfold inet_sock. by rewrite Ht; cbn; rewrite E. }
    apply wp_opened; [init_failed|]. intros fd Hfd. do 4 init_step. wp_simpl.
    apply outcome_ready; [by intros ->|done|]. cbn. unfold inet_sock. by rewrite Ht; cbn; rewrite E.
  - rewrite Hu. wp_simpl. destruct (inet_pton ua) as [ia|] eqn:E.
    2:{ wp_simpl. apply Hbad. cbn. unfold inet_sock. by rewrite Hu; cbn; rewrite E. }
    apply wp_opened; [init_failed|]. intros fd Hfd. do 2 init_step. wp_simpl.
    apply outcome_ready; [by intros ->|done|]. cbn. unfold inet_sock. by rewrite Hu; cbn; rewrite E.
  - rewrite Hs. wp_simpl. destruct (inet_pton sa) as [ia|] eqn:E.
    2:{ wp_simpl. apply Hbad. cbn. unfold inet_sock. by rewrite Hs; cbn; rewrite E. }
    apply wp_opened; [init_failed|]. intros fd Hfd. do 4 init_step. wp_simpl.
    apply outcome_ready; [by intros ->|done|]. cbn. unfold inet_sock. by rewrite Hs; cbn; rewrite E.
Qed.
End init.

(** A new connection, with any memory and whatever the calls do: either it is
    given up and nothing is left of it, or its socket is open, does not block,
    and the connection is idle. *)
Lemma wp_tcp_newconnection fd peer (m : gmap nat ksock) fl a :
  wp (tcp_newconnection fd peer) (λ r u, match r with
    | None => kn_socks (obj u) = m
    | Some t => ∃ nfd, t = new_socket (Z.of_nat nfd) peer ∧ m !! nfd = None ∧
        kn_socks (obj u) = <[nfd := with_nonblock (fresh_sock TcpStream)]> m
    end) (Mem (KNet m fl) a).
Proof.
  unfold tcp_newconnection. apply wp_bind, wp_exec. unfold malloc at 1. cbn [heap obj].
  eexists _, _. split; [reflexivity|]. destruct (al_ok a (al_next a)); [|by wp_simpl].
  apply wp_bind, wp_exec. unfold malloc. cbn [heap obj].
  eexists _, _. split; [reflexivity|].
  destruct (al_ok (al_tick a) (al_next (al_tick a))); [|by cbn [free]; wp_simpl].
  apply wp_bind. apply (wp_new_fd _ _ (fresh_sock TcpStream)).
  - intros _. unfold on_fd, call_fails. wp_simpl. rewrite orb_true_r. wp_simpl.
    cbn [Z.eqb negb free]. unfold close. wp_simpl. done.
  - intros nfd Hfd. apply wp_bind. unfold on_fd, call_fails. wp_simpl. cbn [kn_fails kn_socks].
    rewrite (proj2 (Z.ltb_ge (Z.of_nat nfd) 0)), orb_false_r by lia.
    destruct (failing _); wp_simpl; cbn [Z.eqb negb free].
    + unfold close. rewrite (proj2 (Z.ltb_ge (Z.of_nat nfd) 0)) by lia. wp_simpl.
      cbn [kn_fails kn_socks]. by rewrite Nat2Z.id, delete_insert_id.
    + exists nfd. cbn [kn_socks]. by rewrite Nat2Z.id, alter_insert_eq.
Qed.

(** ** What the loop does *)

Definition receives (nb : net_build) (t : req_type) : bool :=
  match t with
  | REQTYPE_TIPC => ENABLE_TIPC nb | REQTYPE_TCP => ENABLE_TCP nb
  | REQTYPE_UDP => ENABLE_UDP nb | REQTYPE_SCTP => ENABLE_SCTP nb
  end.

(** The server's events that come of what happens, until SIGTERM or SIGINT. *)
Definition exits (o : occurrence) : bool :=
  match o with OcSignal n => (n =? SIGTERM) || (n =? SIGINT) | _ => false end.
Definition event_of (nb : net_build) (o : occurrence) : option event :=
  match o with
  | OcDb rv => Some (EvDb rv)
  | OcSignal n =>
      if n =? SIGUSR1 then Some EvReadOnly else if n =? SIGUSR2 then Some EvPassive else None
  | OcMessage req buf len => if receives nb (r_type req) then Some (EvMessage req buf len) else None
  end.
Fixpoint events_of (nb : net_build) (ocs : list occurrence) : list event :=
  match ocs with
  | [] => []
  | o :: ocs =>
      if exits o then [] else
      match event_of nb o with Some ev => ev :: events_of nb ocs | None => events_of nb ocs end
  end.

Definition fd_events (fds : list (Z * req_type)) : events :=
  (λ x, (OnFd x.1, h_receive x.2)) <$> fds.

Lemma handler_of_signal n fds :
  handler_of (OnSignal n) (fd_events fds ++ signal_events) = handler_of (OnSignal n) signal_events.
Proof.
  unfold handler_of. rewrite filter_app. replace (filter _ (fd_events fds)) with (@nil (source * handler)); [done|].
  symmetry. induction fds as [|x fds IH]; [done|].
  change (fd_events (x :: fds)) with ((OnFd x.1, h_receive x.2) :: fd_events fds).
  by rewrite filter_cons_False.
Qed.

Lemma handler_of_cons s x t :
  handler_of s (x :: t) = if decide (x.1 = s) then Some x.2 else handler_of s t.
Proof. unfold handler_of. rewrite filter_cons. by case_decide. Qed.

Lemma signal_handler n :
  handler_of (OnSignal n) signal_events =
  if n =? SIGTERM then Some h_exit else if n =? SIGINT then Some h_exit
  else if n =? SIGHUP then Some h_logfd_reopen else if n =? SIGUSR1 then Some h_enable_read_only
  else if n =? SIGUSR2 then Some h_passive_to_active else None.
Proof.
  unfold signal_events. rewrite !handler_of_cons. cbn [fst snd].
  repeat (case_decide as Hd; [injection Hd as <-; reflexivity|];
    rewrite (proj2 (Z.eqb_neq n _)) by congruence; clear Hd). done.
Qed.

Lemma receive_registered t fds :
  h_receive t ∈ (fd_events fds ++ signal_events).*2 ↔ t ∈ fds.*2.
Proof.
  rewrite fmap_app, elem_of_app. unfold fd_events. rewrite <-list_fmap_compose. split.
  - intros [(x & [= ->] & Hx)%list_elem_of_fmap|Hs].
    + apply list_elem_of_fmap. by exists x.
    + exfalso. cbn in Hs. by repeat (apply elem_of_cons in Hs as [[=]|Hs]); apply elem_of_nil in Hs.
  - intros (x & -> & Hx)%list_elem_of_fmap. left. apply list_elem_of_fmap. by exists x.
Qed.

Lemma dispatch_spec nb fds ocs :
  (∀ t, t ∈ fds.*2 ↔ receives nb t = true) →
  event_dispatch (fd_events fds ++ signal_events) ocs = (events_of nb ocs, existsb exits ocs).
Proof.
  intros Hfds. set (tbl := fd_events fds ++ signal_events).
  induction ocs as [|[req buf len|n|rv] ocs IH]; cbn [event_dispatch events_of existsb exits event_of orb];
    [done|..].
  - rewrite IH. case_decide as Hd; unfold tbl in Hd; rewrite receive_registered, Hfds in Hd.
    + by rewrite Hd.
    + by apply not_true_is_false in Hd as ->.
  - unfold tbl. rewrite handler_of_signal, signal_handler. fold tbl. rewrite IH.
    destruct (n =? SIGTERM); [done|]. destruct (n =? SIGINT); [done|]. cbn [orb].
    destruct (n =? SIGHUP) eqn:Eh.
    + apply Z.eqb_eq in Eh as ->. done.
    + destruct (n =? SIGUSR1); [done|]. by destruct (n =? SIGUSR2).
  - by rewrite IH.
Qed.

(** ** The whole of [net_loop] *)

(** The sockets with one more, or one less, when the transport is enabled. *)
Definition ins (on : bool) (fd : nat) (s : ksock) (m : gmap nat ksock) : gmap nat ksock :=
  if on then <[fd := s]> m else m.
Definition del (on : bool) (fd : nat) (m : gmap nat ksock) : gmap nat ksock :=
  if on then delete fd m else m.

Lemma del_ins on fd s m : (on = true → m !! fd = None) → del on fd (ins on fd s m) = m.
Proof. destruct on; cbn; [|done]. intros Hm. by rewrite delete_insert_id by auto. Qed.

Lemma del_comm on fd on' fd' m : del on fd (del on' fd' m) = del on' fd' (del on fd m).
Proof. destruct on, on'; cbn; try done. apply delete_delete. Qed.

Definition fd_of (on : bool) (fd : nat) : Z := if on then Z.of_nat fd else -1.
Definition row (on : bool) (fd : nat) (t : req_type) : list (Z * req_type) :=
  if on then [(Z.of_nat fd, t)] else [].

Section loop.
Context (st : settings) (Hst : addrs_given st) (a : alloc).

(** Either the transport's init fails, or its socket and its event are there. *)
Lemma wp_enable on t fds m fl (k : Z → events → MT knet net_result) (Q : net_result → mem knet → Prop) :
  (on = true → (fl = [] → served_sock t st = None) → ∀ n, Q NetExit (Mem n a)) →
  (∀ fd s fl', (on = true → m !! fd = None) → (fl = [] → fl' = []) →
     wp (k (fd_of on fd) (fd_events (fds ++ row on fd t))) Q (Mem (KNet (ins on fd s m) fl') a)) →
  wp (enable on (linked on (transport_init t st) stub_init) t (fd_events fds) k) Q (Mem (KNet m fl) a).
Proof.
  intros Hno Hyes. unfold enable, linked. destruct on.
  - apply wp_bind. eapply wp_mono; [by apply wp_transport_init|].
    intros rv [n a'] (E & Hfl & [(-> & Hm & Hs)|(fd & s & -> & Hm & Hs & Hn)]); cbn [heap obj] in *; subst a'.
    + change (-1 <? 0) with true. wp_simpl. by apply Hno.
    + rewrite (proj2 (Z.ltb_ge (Z.of_nat fd) 0)) by lia.
      destruct n as [m' fl']. cbn in Hn, Hfl. subst m'.
      specialize (Hyes fd s fl' (λ _, Hm) Hfl). cbn [ins fd_of row] in Hyes.
      unfold fd_events in *. by rewrite fmap_app in Hyes.
  - specialize (Hyes 0%nat (fresh_sock UdpDgram) fl). cbn [ins fd_of row] in Hyes.
    rewrite app_nil_r in Hyes. by apply Hyes.
Qed.

Lemma wp_linked_close on fd m fl (Q : () → mem knet → Prop) :
  Q tt (Mem (KNet (del on fd m) fl) a) →
  wp (linked on close stub_close (fd_of on fd)) Q (Mem (KNet m fl) a).
Proof.
  intros HQ. unfold linked, close, stub_close, fd_of. destruct on; [|by wp_simpl].
  rewrite (proj2 (Z.ltb_ge (Z.of_nat fd) 0)) by lia. wp_simpl. by rewrite Nat2Z.id.
Qed.
End loop.

Lemma event_del_app s t1 t2 : event_del s (t1 ++ t2) = event_del s t1 ++ event_del s t2.
Proof. apply filter_app. Qed.

Lemma elem_of_event_del s e t : e ∈ event_del s t ↔ e.1 ≠ s ∧ e ∈ t.
Proof. unfold event_del. by rewrite list_elem_of_filter. Qed.

Lemma elem_of_disable on fd t0 fds e :
  e ∈ disable on (fd_of on fd) fds → e ∈ fds ∧ e ∉ fd_events (row on fd t0).
Proof.
  unfold disable, fd_of, row. destruct on; [|by split; [|apply not_elem_of_nil]].
  rewrite elem_of_event_del. intros [He Hin]. split; [done|]. cbn.
  rewrite list_elem_of_singleton. by intros ->.
Qed.

(** Signals stay when the descriptors' events are deleted. *)
Lemma disable_signals on fd t :
  disable on (fd_of on fd) (t ++ signal_events) = disable on (fd_of on fd) t ++ signal_events.
Proof. unfold disable. destruct on; [|done]. by rewrite event_del_app. Qed.

(** Once every handler but those of the signals is deleted, SIGHUP's is left. *)
Lemma disabled_all nb f1 f2 f3 f4 :
  let row1 := fd_events (row (ENABLE_TIPC nb) f1 REQTYPE_TIPC) in
  let row2 := fd_events (row (ENABLE_TCP nb) f2 REQTYPE_TCP) in
  let row3 := fd_events (row (ENABLE_UDP nb) f3 REQTYPE_UDP) in
  let row4 := fd_events (row (ENABLE_SCTP nb) f4 REQTYPE_SCTP) in
  disable (ENABLE_SCTP nb) (fd_of (ENABLE_SCTP nb) f4) (disable (ENABLE_UDP nb) (fd_of (ENABLE_UDP nb) f3)
    (disable (ENABLE_TCP nb) (fd_of (ENABLE_TCP nb) f2)
      (disable (ENABLE_TIPC nb) (fd_of (ENABLE_TIPC nb) f1) (row1 ++ row2 ++ row3 ++ row4)))) = [].
Proof.
  intros row1 row2 row3 row4. apply elem_of_nil_inv. intros e He.
  apply (elem_of_disable _ _ REQTYPE_SCTP) in He as [He N4].
  apply (elem_of_disable _ _ REQTYPE_UDP) in He as [He N3].
  apply (elem_of_disable _ _ REQTYPE_TCP) in He as [He N2].
  apply (elem_of_disable _ _ REQTYPE_TIPC) in He as [He N1].
  rewrite !elem_of_app in He. tauto.
Qed.

(** What [net_loop] does from the sockets [m] and the script [fl]. *)
Definition loop_outcome (nb : net_build) (st : settings) (ocs : list occurrence)
    (m : gmap nat ksock) (fl : list bool) (r : net_result) (n : knet) : Prop :=
  match r with
  | NetExit => fl = [] → ∃ t, receives nb t = true ∧ served_sock t st = None
  | NetDone evs left_loop tbl =>
      evs = events_of nb ocs ∧ left_loop = existsb exits ocs ∧
      (left_loop = true → kn_socks n = m ∧ tbl = [(OnSignal SIGHUP, h_logfd_reopen)])
  end.

Lemma wp_net_loop nb st ocs m fl a :
  addrs_given st →
  wp (net_loop nb st ocs) (λ r t, heap t = a ∧ loop_outcome nb st ocs m fl r (obj t)) (Mem (KNet m fl) a).
Proof.
  intros Hst. unfold net_loop.
  apply (wp_enable st Hst a _ REQTYPE_TIPC []).
  { intros Hon Hs n. split; [done|]. intros Hfl. exists REQTYPE_TIPC. split; [exact Hon|by auto]. }
  intros f1 s1 fl1 H1 Hfl1. apply (wp_enable st Hst a _ REQTYPE_TCP).
  { intros Hon Hs n. split; [done|]. intros Hfl. exists REQTYPE_TCP. split; [exact Hon|by auto]. }
  intros f2 s2 fl2 H2 Hfl2. apply (wp_enable st Hst a _ REQTYPE_UDP).
  { intros Hon Hs n. split; [done|]. intros Hfl. exists REQTYPE_UDP. split; [exact Hon|by auto]. }
  intros f3 s3 fl3 H3 Hfl3. apply (wp_enable st Hst a _ REQTYPE_SCTP).
  { intros Hon Hs n. split; [done|]. intros Hfl. exists REQTYPE_SCTP. split; [exact Hon|by auto]. }
  intros f4 s4 fl4 H4 Hfl4. rewrite (dispatch_spec nb).
  2:{ intros t. rewrite !fmap_app, !elem_of_app. unfold row, receives. clear.
      destruct nb as [[] [] [] []], t; cbn; set_solver. }
  destruct (existsb exits ocs) eqn:Hex; cbn [negb]; [|by wp_simpl].
  apply wp_bind, wp_linked_close, wp_bind, wp_linked_close, wp_bind, wp_linked_close,
    wp_bind, wp_linked_close. wp_simpl. cbn [heap obj kn_socks].
  split; [done|]. split_and!; [done|done|]. intros _. split.
  - cbn [kn_socks]. rewrite (del_comm _ f4 _ f3), (del_comm _ f4 _ f2), (del_comm _ f4 _ f1),
      (del_comm _ f3 _ f2), (del_comm _ f3 _ f1), (del_comm _ f2 _ f1).
    by rewrite !del_ins.
  - rewrite !disable_signals, !event_del_app. pose proof (disabled_all nb f1 f2 f3 f4) as E.
    cbn zeta in E. unfold fd_events in *. rewrite !fmap_app, <-!(assoc_L (++)), app_nil_l, E. reflexivity.
Qed.

(** ** Properties *)


(** Setting up a socket. Each init function is defined when its address
    is given; either it returns -1 and has closed what it opened, so that no
    socket is left and none of the others is touched, or it returns a new
    descriptor for a socket of its transport, bound to the address and port of
    the settings, listening and without Nagle's delay if it is a stream; it
    does the latter if the address is well formed and no call fails. *)
Theorem transport_init_spec (t : req_type) (st : settings) (n : knet) (a : alloc)
  (Hst : addrs_given st) :
  ∃ rv n', transport_init t st (Mem n a) = Some (rv, Mem n' a) ∧
    ((rv = -1 ∧ kn_socks n' = kn_socks n) ∨
     ∃ fd s, rv = Z.of_nat fd ∧ kn_socks n !! fd = None ∧ served_sock t st = Some s ∧
       kn_socks n' = <[fd := s]> (kn_socks n)) ∧
    (kn_fails n = [] → is_Some (served_sock t st) → 0 ≤ rv).
Proof.
  destruct n as [m fl]. pose proof (wp_transport_init a m t st fl Hst) as Hw.
  apply wp_exec in Hw as (rv & [n' a'] & Hw & Ha & Hfl & Hr). cbn in Ha. subst a'.
  exists rv, n'. split; [done|]. cbn [kn_socks kn_fails obj] in *.
  destruct Hr as [(-> & Hm & Hs)|(fd & s & -> & Hm & Hs & Hn)].
  - split; [by left|]. intros Hnil [s Hs']. by rewrite Hs in Hs'.
  - split; [right; by exists fd, s|]. lia.
Qed.

(** ** Examples *)

Definition net_settings : settings := settings_of full_build [].
Definition full_net : net_build := NetBuild true true true true.
Definition sample_ocs : list occurrence :=
  [OcSignal SIGUSR2; OcDb ETIMEDOUT; OcSignal SIGHUP; OcSignal SIGUSR1; OcSignal SIGTERM; OcSignal SIGUSR2].

Example inet_pton_any : inet_pton (bs "0.0.0.0") = Some 0.
Proof. reflexivity. Qed.
Example inet_pton_local : inet_pton (bs "127.0.0.1") = Some 0x0100007f.
Proof. reflexivity. Qed.
Example inet_pton_bad : inet_pton <$> [bs "1.2.3"; bs "1.2.3.256"; bs "01.2.3.4"; bs "1..2.3"; bs "1.2.3.4.5"; bs "host"] =
  [None; None; None; None; None; None].
Proof. reflexivity. Qed.

Example sample_events_of : events_of full_net sample_ocs = [EvPassive; EvDb ETIMEDOUT; EvReadOnly].
Proof. reflexivity. Qed.

Lemma net_addrs : addrs_given net_settings.
Proof. repeat split; by eexists. Qed.


Lemma transport_init_spec_witness :
  ∃ rv n', transport_init REQTYPE_TCP net_settings (Mem (KNet ∅ [false; false; false; true]) plenty) =
      Some (rv, Mem n' plenty) ∧
    ((rv = -1 ∧ kn_socks n' = ∅) ∨
     ∃ fd s, rv = Z.of_nat fd ∧ (∅ : gmap nat ksock) !! fd = None ∧
       served_sock REQTYPE_TCP net_settings = Some s ∧ kn_socks n' = <[fd := s]> ∅) ∧
    ([false; false; false; true] = [] → is_Some (served_sock REQTYPE_TCP net_settings) → 0 ≤ rv).
Proof.
  apply (transport_init_spec REQTYPE_TCP net_settings (KNet ∅ [false; false; false; true]) plenty net_addrs).
Defined.
