(* ===== verification/Log.v ===== *)
(** * The log and the PID file (nmdb/log.c)

    [logfd] is the file's own static variable; [-1] disables the log. What is
    written is kept as a list of writes, each with its descriptor. The time
    that starts each line is the C library's and is left out; [errlog] gets the
    text of [errno] as an argument. *)

From S2P Require Import Prelude Words Text Net Settings.
From stdpp Require Import strings.

#[local] Open Scope Z_scope.

Record logger := Logger { logfd : Z; lg_written : list (Z * bytes) }.

Definition MAX_LOG_STR : Z := 512.

(** [fd]: what [open] gives for the log file. *)
Definition log_init (st : settings) (fd : Z) : MT logger bool :=
  match logfname st with
  | None => mod_obj (λ l, Logger (-1) (lg_written l));; mret true
  | Some name =>
      if decide (name = bs "-") then mod_obj (λ l, Logger 1 (lg_written l));; mret true
      else mod_obj (λ l, Logger fd (lg_written l));; mret (negb (fd <? 0))
  end.

Definition log_reopen (st : settings) (fd : Z) : MT logger bool := log_init st fd.

(** [vsnprintf] writes at most [MAX_LOG_STR] bytes into the buffer, and returns
    the length of the whole line, which [write] then reads from the buffer. *)
Definition wlog (line : bytes) : MT logger () :=
  lg ← get_obj;
  if logfd lg =? -1 then mret tt else
  let str := take (Z.to_nat (MAX_LOG_STR - 1)) line ++ [NUL] in
  let r := Z.of_nat (length line) in
  if MAX_LOG_STR <? r then ub else
  mod_obj (λ lg, Logger (logfd lg) (lg_written lg ++ [(logfd lg, take (Z.to_nat r) str)])).

Definition NEWLINE : byte := Byte.x0a.
Definition line (s : bytes) : bytes := s ++ [NEWLINE].

Definition errlog (errno : bytes) (s : bytes) : MT logger () :=
  wlog (line (s ++ bs ": " ++ errno)).

(** [write_pid]: what becomes of the file, when [fopen] succeeds or not. *)
Definition pid_text (pid : Z) : bytes := line (fmt_lld pid).

(** [logfd_reopen_sighandler] of net.c. *)
Definition logfd_reopen_sighandler (st : settings) (fd : Z) : MT logger () :=
  ok ← log_reopen st fd;
  if ok : bool then wlog (line (bs "Log reopened")) else mret tt.

(** ** Lemmas *)

(** The descriptor that the log has once it is open. *)
Definition log_fd (st : settings) (fd : Z) : Z :=
  match logfname st with
  | None => -1
  | Some name => if decide (name = bs "-") then 1 else fd
  end.
Definition log_opens (st : settings) (fd : Z) : bool :=
  match logfname st with
  | None => true
  | Some name => if decide (name = bs "-") then true else negb (fd <? 0)
  end.

Lemma wp_log_init st fd lg a (Q : bool → mem logger → Prop) :
  Q (log_opens st fd) (Mem (Logger (log_fd st fd) (lg_written lg)) a) →
  wp (log_init st fd) Q (Mem lg a).
Proof.
  unfold log_init, log_opens, log_fd. intros HQ. destruct (logfname st) as [n|]; [|by wp_simpl].
  case_decide; by wp_simpl.
Qed.

(** Lines that fit are written as they are. *)
Definition line_fits (l : bytes) : Prop := Z.of_nat (length l) < MAX_LOG_STR.

(** What is written for the lines [ls]. *)
Definition log_lines (ls : list bytes) (lg : logger) : logger :=
  Logger (logfd lg)
    (lg_written lg ++ (if logfd lg =? -1 then [] else (λ l, (logfd lg, l)) <$> ls)).

Lemma log_lines_nil lg : log_lines [] lg = lg.
Proof. destruct lg as [fd w]. unfold log_lines. cbn. by destruct (fd =? -1); rewrite app_nil_r. Qed.

Lemma log_lines_app ls1 ls2 lg : log_lines ls2 (log_lines ls1 lg) = log_lines (ls1 ++ ls2) lg.
Proof.
  destruct lg as [fd w]. unfold log_lines. cbn. destruct (fd =? -1); [by rewrite !app_nil_r|].
  by rewrite fmap_app, (assoc_L (++)).
Qed.

Lemma wp_wlog l lg a (Q : () → mem logger → Prop) :
  line_fits l → Q tt (Mem (log_lines [l] lg) a) → wp (wlog l) Q (Mem lg a).
Proof.
  unfold line_fits. intros Hl HQ. unfold wlog. wp_simpl. destruct lg as [fd w].
  unfold log_lines in HQ. cbn in *. destruct (fd =? -1); wp_simpl.
  - by rewrite app_nil_r in HQ.
  - rewrite (proj2 (Z.ltb_ge _ _)) by lia. wp_simpl. cbn [logfd lg_written].
    rewrite (take_ge l) by lia. by rewrite take_app_full by lia.
Qed.

(** [write] reads behind the buffer for any longer line. *)
Lemma wlog_overrun l lg a :
  logfd lg ≠ -1 → MAX_LOG_STR < Z.of_nat (length l) → wlog l (Mem lg a) = None.
Proof.
  intros Hfd Hl. unfold wlog, get_obj, gets, mbind, M_bind. cbn [obj].
  rewrite (proj2 (Z.eqb_neq _ _)) by done. by rewrite (proj2 (Z.ltb_lt _ _)).
Qed.
