(* ===== verification/Main.v ===== *)
(** * The main program (nmdb/main.c)

    [main] puts the parts together: the settings of the command line, the log,
    the cache, the queue, the database, the process in the background, the two
    threads, and the way back when SIGTERM or SIGINT comes. What the system
    answers is the record [env]. *)

From S2P Require Import Prelude Words Text Chain ChainSpec Cache Net Queue Backend Server Parse ParseSpec DbLoop DbSpec System Settings NetLoop Log.
From stdpp Require Import strings.

#[local] Open Scope Z_scope.

(** What belongs to the process: the settings, the log, the files it writes
    (by name) and its sockets. *)
Record process := Process {
  pr_settings : settings;
  pr_log : logger;
  pr_files : gmap bytes bytes;
  pr_net : knet;
}.
Definition set_pr_settings (s : settings) (p : process) : process :=
  Process s (pr_log p) (pr_files p) (pr_net p).
Definition set_pr_log (l : logger) (p : process) : process :=
  Process (pr_settings p) l (pr_files p) (pr_net p).
Definition set_pr_files (f : gmap bytes bytes) (p : process) : process :=
  Process (pr_settings p) (pr_log p) f (pr_net p).
Definition set_pr_net (n : knet) (p : process) : process :=
  Process (pr_settings p) (pr_log p) (pr_files p) n.

Definition on_settings {A} (m : MT settings A) : MT process A :=
  zoom (λ p, Some (pr_settings p)) set_pr_settings m.
Definition on_log {A} (m : MT logger A) : MT process A :=
  zoom (λ p, Some (pr_log p)) set_pr_log m.
Definition on_net {A} (m : MT knet A) : MT process A :=
  zoom (λ p, Some (pr_net p)) set_pr_net m.

(** Computations that only allocate. *)
Definition on_heap {A} (m : MT () A) : MT process A := zoom (λ _, Some tt) (λ _ p, p) m.
Definition on_alloc {A} (m : M alloc A) : MT process A := λ s,
  match m (heap s) with
  | Some (r, a) => Some (r, Mem (obj s) a)
  | None => None
  end.

(** The system's answers: the backends' openers, what [open] gives for the log
    file, the text of [errno], [fork] and [getpid], whether the PID file can be
    opened, what happens while the loop runs, and how the waits of the database
    thread end after the stop. *)
Record env (D : Type) := Env {
  e_openers : openers D;
  e_log_fd : Z;
  e_errno : bytes;
  e_fork : Z;
  e_pid : Z;
  e_pid_open : bool;
  e_ocs : list occurrence;
  e_waits : list Z;
}.
Arguments Env {D}. Arguments e_openers {D}. Arguments e_log_fd {D}. Arguments e_errno {D}. Arguments e_fork {D}.
Arguments e_pid {D}. Arguments e_pid_open {D}. Arguments e_ocs {D}. Arguments e_waits {D}.

(** How [main] ends: with a code before the threads start, with code 0 after
    the shutdown (and what is then left of the server), or not yet. *)
Inductive outcome (D : Type) := Exit (code : Z) | ShutDown (y : system D) | Running (y : system D).
Arguments Exit {D}. Arguments ShutDown {D}. Arguments Running {D}.

(** The backend that [settings.backend] stands for. *)
Definition backend_of (z : Z) : backend_type :=
  if z =? be_enum BE_QDBM then BE_QDBM else if z =? be_enum BE_BDB then BE_BDB
  else if z =? be_enum BE_TC then BE_TC else if z =? be_enum BE_TDB then BE_TDB
  else if z =? be_enum BE_LEVELDB then BE_LEVELDB else if z =? be_enum BE_NULL then BE_NULL
  else if z =? be_enum BE_UNSUPPORTED then BE_UNSUPPORTED else BE_UNKNOWN.

Definition QUOTE : byte := Byte.x22.
Definition opened_line (name : bytes) (t : backend_type) : bytes :=
  line (bs "Opened database " ++ [QUOTE] ++ name ++ [QUOTE] ++ bs " with " ++
    bs (be_str_from_type t) ++ bs " backend").

Section main.
Context {D : Type} `{DbOps D} (b : build) (nb : net_build) (e : env D).

Definition write_pid : MT process () :=
  p ← get_obj;
  match pidfile (pr_settings p) with
  | None => mret tt
  | Some f =>
      if e_pid_open e
      then mod_obj (λ p, set_pr_files (<[f := pid_text (e_pid e)]> (pr_files p)) p)
      else on_log (errlog (e_errno e) (bs "Can't open pidfile for writing"))
  end.

(** [if (p == NULL) { errlog(msg); return 1; }] *)
Definition or_exit {A} (o : option A) (msg : string) (k : A → MT process (outcome D)) :
    MT process (outcome D) :=
  match o with
  | None => on_log (errlog (e_errno e) (bs msg));; mret (Exit 1)
  | Some x => k x
  end.

(** [fork], unless in the foreground: the parent exits. *)
Definition background (st : settings) (k : MT process (outcome D)) : MT process (outcome D) :=
  if truth (foreground st) then k else
  if 0 <? e_fork e then mret (Exit 0) else
  if e_fork e <? 0 then on_log (errlog (e_errno e) (bs "Error in fork()"));; mret (Exit 1) else k.

(** What the threads do to the server's globals. *)
Definition on_threads {A} (y : system D) (m : MT (system D) A) : MT process (A * system D) := λ s,
  match m (Mem y (heap s)) with
  | Some (r, t) => Some ((r, obj t), Mem (obj s) (heap t))
  | None => None
  end.

(** From [db_loop_start] on. The settings that the handlers change, [passive]
    and [read_only], are in the server's copy. *)
Definition serve (st : settings) (cd : cache) (q : queue) (d : D) : MT process (outcome D) :=
  r ← on_net (net_loop nb st (e_ocs e));
  match r with
  | NetExit => mret (Exit 1)
  | NetDone evs left_loop _ =>
      '(_, y) ← on_threads (System (Server cd q (stats_init (λ _, 0)) st []) d false) (run_events evs);
      if negb left_loop then mret (Running y) else
      '(again, y) ← on_threads y (db_loop_stop;; db_loop (e_waits e));
      if again : bool then mret (Running y) else
      '(_, y) ← on_threads y (on_server (on_queue queue_free));
      '(_, y) ← on_threads y (on_server (on_cache cache_free));
      match pidfile st with
      | Some f => mod_obj (λ p, set_pr_files (delete f (pr_files p)) p)
      | None => mret tt
      end;;
      on_settings free_settings;;
      mret (ShutDown y)
  end.

Definition main (argv : list bytes) : MT process (outcome D) :=
  ok ← on_settings (load_settings b argv);
  if negb (ok : bool) then mret (Exit 1) else
  p ← get_obj;
  let st := pr_settings p in
  ok ← on_log (log_init st (e_log_fd e));
  if negb (ok : bool) then mret (Exit 1) else
  cd ← on_heap (cache_create (w64 (st_numobjs st)) 0);
  or_exit cd "Error creating cache" (λ cd,
  q ← on_alloc queue_create;
  or_exit q "Error creating queue" (λ q,
  name ← lift_opt (dbname st);
  let t := backend_of (backend st) in
  or_exit (db_open (e_openers e) t (String.string_of_list_byte name) 0) "Error opening DB" (λ d,
  on_log (wlog (opened_line name t));;
  background st (
  on_log (wlog (line (bs "Starting nmdb")));;
  write_pid;;
  serve st cd q d)))).
End main.

(** ** Lemmas *)

Section process_wp.
Context (p : process) (a : alloc).

Lemma wp_on_settings {A} (m : MT settings A) (Q : A → mem process → Prop) :
  wp m (λ r t, Q r (Mem (set_pr_settings (obj t) p) (heap t))) (Mem (pr_settings p) a) →
  wp (on_settings m) Q (Mem p a).
Proof. intros H. unfold on_settings. by rewrite (wp_zoom _ _ _ _ _ _ (pr_settings p)). Qed.

Lemma wp_on_log {A} (m : MT logger A) (Q : A → mem process → Prop) :
  wp m (λ r t, Q r (Mem (set_pr_log (obj t) p) (heap t))) (Mem (pr_log p) a) →
  wp (on_log m) Q (Mem p a).
Proof. intros H. unfold on_log. by rewrite (wp_zoom _ _ _ _ _ _ (pr_log p)). Qed.

Lemma wp_on_net {A} (m : MT knet A) (Q : A → mem process → Prop) :
  wp m (λ r t, Q r (Mem (set_pr_net (obj t) p) (heap t))) (Mem (pr_net p) a) →
  wp (on_net m) Q (Mem p a).
Proof. intros H. unfold on_net. by rewrite (wp_zoom _ _ _ _ _ _ (pr_net p)). Qed.

Lemma wp_on_heap {A} (m : MT () A) (Q : A → mem process → Prop) :
  wp m (λ r t, Q r (Mem p (heap t))) (Mem tt a) → wp (on_heap m) Q (Mem p a).
Proof. intros H. unfold on_heap. by rewrite (wp_zoom _ _ _ _ _ _ tt). Qed.

Lemma wp_queue_create (Q : option queue → mem process → Prop) :
  never_fails a → Q (Some (Queue 0 None None ∅)) (Mem p (al_tick a)) →
  wp (on_alloc queue_create) Q (Mem p a).
Proof.
  intros Ha HQ. apply wp_exec. eexists _, _. split; [|exact HQ].
  unfold on_alloc, queue_create. cbn. by rewrite Ha.
Qed.

Lemma wp_on_threads {D A} (y : system D) (m : MT (system D) A) (Q : A * system D → mem process → Prop) :
  wp m (λ r t, Q (r, obj t) (Mem p (heap t))) (Mem y a) → wp (on_threads y m) Q (Mem p a).
Proof.
  intros (r & t & E & HQ)%wp_exec. apply wp_exec. eexists _, _. split; [|exact HQ].
  unfold on_threads. cbn. by rewrite E.
Qed.
End process_wp.

(** The log with the lines [ls] behind what it has. *)
Definition logged (ls : list bytes) (p : process) : process := set_pr_log (log_lines ls (pr_log p)) p.

Lemma wp_log_line l p a (Q : () → mem process → Prop) :
  line_fits l → Q tt (Mem (logged [l] p) a) → wp (on_log (wlog l)) Q (Mem p a).
Proof. intros Hl HQ. apply wp_on_log, wp_wlog; [done|]. exact HQ. Qed.

Lemma backend_of_enum t : backend_of (be_enum t) = t.
Proof. by destruct t. Qed.

Section serve.
Context {D : Type} `{DbLaws D} (b : build) (nb : net_build) (e : env D).
Context (s : settings) (d : D).

(** The server once everything is set up. *)
Record can_serve : Prop := CanServe {
  cs_addrs : addrs_given s;
  cs_socks : ∀ t, receives nb t = true → is_Some (served_sock t s);
  cs_exit : existsb exits (e_ocs e) = true;
  cs_events : Forall event_ok (events_of nb (e_ocs e));
  cs_count : Z.of_nat (length (events_of nb (e_ocs e))) < 2 ^ 64;
  cs_waits : Forall wait_ends (e_waits e);
  cs_drain : (length (events_of nb (e_ocs e)) < length (e_waits e))%nat;
  cs_db : reliable (D := D);
  cs_fits : vals_fit (db_view d);
}.

(** The requests that the process serves, as the specification runs them. *)
Definition served : list point :=
  points (truth (read_only s)) (db_view d) (events_of nb (e_ocs e)).

(** What is left when the process ends. *)
Record cleaned_up (p : process) (y : system D) (p' : process) : Prop := CleanedUp {
  cu_replies : ∃ rs, s_out (y_server y) ≡ₚ rs ∧ Forall2 answers served rs;
  cu_db : db_view (y_db y) = final (db_view d) served;
  cu_queue : q_store (s_queue (y_server y)) = ∅;
  cu_cache : Forall released (table (s_cache (y_server y)));
  cu_socks : kn_socks (pr_net p') = kn_socks (pr_net p);
  cu_pidfile : ∀ f, pidfile s = Some f → pr_files p' = delete f (pr_files p);
  cu_files : pidfile s = None → pr_files p' = pr_files p;
  cu_names : Forall (λ n, n = None)
    [dbname (pr_settings p'); logfname (pr_settings p'); pidfile (pr_settings p')];
}.

(** The way back, after the database thread has ended. *)
Lemma wp_cleanup (p : process) (y : system D) a cd (Q : outcome D → mem process → Prop) :
  queue_is (s_queue (y_server y)) [] → cache_is (s_cache (y_server y)) cd →
  (∀ y' p', s_out (y_server y') = s_out (y_server y) → y_db y' = y_db y →
     q_store (s_queue (y_server y')) = ∅ → Forall released (table (s_cache (y_server y'))) →
     pr_net p' = pr_net p → pr_settings p' = set_names None None None (pr_settings p) →
     pr_files p' = match pidfile s with Some f => delete f (pr_files p) | None => pr_files p end →
     Q (ShutDown y') (Mem p' a)) →
  wp ('(_, y) ← on_threads y (on_server (on_queue queue_free));
      '(_, y) ← on_threads y (on_server (on_cache cache_free));
      match pidfile s with
      | Some f => mod_obj (λ p, set_pr_files (delete f (pr_files p)) p)
      | None => mret tt
      end;;
      on_settings free_settings;;
      mret (ShutDown y)) Q (Mem p a).
Proof.
  intros Hq Hc HQ. apply wp_bind, wp_on_threads, wp_on_server, wp_on_queue.
  eapply wp_queue_free; [done|done|]. intros q' Hq'. cbn [obj heap].
  apply wp_bind, wp_on_threads, wp_on_server, wp_on_cache. cbn [y_server set_server set_queue s_cache].
  eapply wp_cache_free; [exact Hc|]. intros cd' Hcd'. cbn [obj heap].
  specialize (HQ (set_server (set_cache cd' (set_queue q' (y_server y)))
    (set_server (set_queue q' (y_server y)) y))).
  destruct (pidfile s) as [f|]; wp_simpl; apply wp_on_settings; unfold free_settings; wp_simpl;
    apply HQ; try done; by apply rep_nil_store.
Qed.

Lemma wp_main_serve (p : process) cd n a (Q : outcome D → mem process → Prop) :
  can_serve → never_fails a → kn_fails (pr_net p) = [] →
  cache_is cd (empty_cache n) → (0 < n)%nat →
  (∀ y p' a', cleaned_up p y p' → Q (ShutDown y) (Mem p' a')) →
  wp (serve nb e s cd (Queue 0 None None ∅) d) Q (Mem p a).
Proof.
  intros [Hst Hsk Hex Hev Hn Hw Hdr Hrel Hfit] Ha Hnet Hcd Hpos HQ. unfold serve.
  apply wp_bind, wp_on_net. destruct p as [s0 lg fs [m fl]]. cbn [pr_net kn_fails] in *. subst fl.
  eapply wp_mono; [by apply wp_net_loop|]. intros r [n' a'] [Ha' Hr]. cbn [heap obj] in *. subst a'.
  destruct r as [|evs left_loop tbl]; cbn [loop_outcome] in Hr.
  { exfalso. destruct Hr as (t & Ht & Hs); [done|]. destruct (Hsk t Ht) as [? E]. congruence. }
  rewrite Hex in Hr. destruct Hr as (-> & -> & Hsocks). destruct (Hsocks eq_refl) as [Hm _].
  cbn [negb]. clear Hsocks.
  set (y0 := System (Server cd (Queue 0 None None ∅) (stats_init (λ _, 0)) s []) d false).
  set (st := AState (empty_cache n) [] (stats_init (λ _, 0)) s []).
  assert (inv y0 st [] (db_view d)) as Hi.
  { split; try done.
    - split; try done. apply empty_queue_is.
    - split; [cbn [as_cache st]; unfold empty_cache; by rewrite length_replicate|].
      intros k v. cbn [as_cache st]. by rewrite a_lookup_empty.
    - exists [], []. split_and!; [done|constructor|constructor]. }
  apply wp_bind, wp_on_threads. eapply wp_run_events; [done|done|exact Hi|cbn; lia|done|].
  intros [y1 a1] st1 qs Ha1 Hi1 Hl1. cbn [obj heap length as_queue st] in *. change (a_read_only st) with (truth (read_only s)) in *.
  apply wp_bind, wp_on_threads. apply wp_bind. unfold db_loop_stop. wp_simpl.
  eapply wp_shutdown; [done|done|exact Hi1|lia|done|lia|]. intros [y2 a2] rs H1 H2 H3 H4 H5.
  cbn [obj heap] in *. eapply wp_cleanup; [done|done|].
  intros y3 p3 E1 E2 E3 E4 E5 E6 E7. apply HQ. split.
  - exists rs. by rewrite E1.
  - by rewrite E2.
  - done.
  - done.
  - by rewrite E5.
  - intros f Hf. by rewrite E7, Hf.
  - intros Hf. by rewrite E7, Hf.
  - rewrite E6. by repeat apply Forall_cons_2; try apply Forall_nil_2.
Qed.
End serve.

Section start.
Context {D : Type} `{DbLaws D} (b : build) (nb : net_build) (e : env D) (argv : list bytes).

Abbreviation opts := (getopt OPTSTRING argv).
Abbreviation st := (settings_of b opts).

(** The name of the database. *)
Definition db_path : bytes := default DEFDBNAME (last_of Byte.x64 opts).

(** The settings are accepted, the log can be opened and its lines fit its
    buffer. *)
Record good_settings : Prop := GoodSettings {
  gs_default : enabled b (DEFAULT_BE b) = true;
  gs_sizes : Forall size_ok opts;
  gs_accepted : accepted opts;
  gs_backend : backend_ok b st;
  gs_numobjs : Z.of_nat CHAINLEN ≤ st_numobjs st;
  gs_errno : (length (e_errno e) ≤ 256)%nat;
  gs_line : line_fits (opened_line db_path (backend_of (backend st)));
}.

Definition open_db : option D :=
  db_open (e_openers e) (backend_of (backend st)) (String.string_of_list_byte db_path) 0.

(** The process that goes on to serve. *)
Definition is_server : Prop := truth (foreground st) = true ∨ e_fork e = 0.

Definition pid_written (f : gmap bytes bytes) : gmap bytes bytes :=
  match pidfile st with
  | Some n => if e_pid_open e then <[n := pid_text (e_pid e)]> f else f
  | None => f
  end.

Lemma line_fits_le l n : (length l ≤ n)%nat → (n < 511)%nat → line_fits (line l).
Proof. intros H1 H2. unfold line_fits, line, MAX_LOG_STR. rewrite length_app. cbn. lia. Qed.

Lemma errlog_fits msg :
  (length (e_errno e) ≤ 256)%nat → (length (bs msg) ≤ 100)%nat →
  line_fits (line (bs msg ++ bs ": " ++ e_errno e)).
Proof.
  intros H1 H2. apply (line_fits_le _ 400); [|lia]. rewrite !length_app.
  change (length (bs ": ")) with 2%nat. lia.
Qed.

Lemma wp_errlog msg p a (Q : () → mem process → Prop) :
  (length (e_errno e) ≤ 256)%nat → (length (bs msg) ≤ 100)%nat →
  Q tt (Mem (logged [line (bs msg ++ bs ": " ++ e_errno e)] p) a) →
  wp (on_log (errlog (e_errno e) (bs msg))) Q (Mem p a).
Proof. intros H1 H2 HQ. unfold errlog. apply wp_log_line; [|done]. by apply errlog_fits. Qed.

Lemma wp_write_pid p a (Q : () → mem process → Prop) :
  (length (e_errno e) ≤ 256)%nat → pr_settings p = st →
  (∀ p', pr_settings p' = st → pr_net p' = pr_net p → pr_files p' = pid_written (pr_files p) →
     Q tt (Mem p' a)) →
  wp (write_pid e) Q (Mem p a).
Proof.
  intros He Hs HQ. unfold write_pid, pid_written in *. wp_simpl. rewrite Hs.
  destruct (pidfile st) as [f|]; [|wp_simpl; by apply HQ].
  destruct (e_pid_open e); [wp_simpl; by apply HQ|].
  apply wp_errlog; [done|cbn; lia|]. by apply HQ.
Qed.

(** The size of the cache is within what [cache_create] needs. *)
Lemma numobjs_fits :
  good_settings → let n := st_numobjs st in
  w64 n = n ∧ SIZEOF_CHAIN * (n / Z.of_nat CHAINLEN) < 2 ^ 64 ∧ n < 2 ^ 64 ∧
  (0 < Z.to_nat (n / Z.of_nat CHAINLEN))%nat.
Proof.
  intros [_ Hl _ Hb Hn _ _]. cbn zeta. destruct (settings_of_typed b opts Hl Hb) as [Hi _ _ _ _].
  rewrite !Forall_cons in Hi. destruct Hi as (_ & _ & _ & _ & _ & Hi & _). apply in_int_spec in Hi.
  unfold SIZEOF_CHAIN in *. change (Z.of_nat CHAINLEN) with 4 in *.
  pose proof (Z.div_le_lower_bound (st_numobjs st) 4 1 ltac:(lia) ltac:(lia)).
  pose proof (Z.div_le_upper_bound (st_numobjs st) 4 (2 ^ 31) ltac:(lia) ltac:(lia)).
  split_and!; [|lia..]. apply w64_small. lia.
Qed.

(** The stages up to the database. *)
Lemma wp_main_stages (p : process) a (Q : outcome D → mem process → Prop) :
  never_fails a → good_settings →
  (log_opens st (e_log_fd e) = false → ∀ p' a', pr_settings p' = st →
     pr_files p' = pr_files p → pr_net p' = pr_net p → Q (Exit 1) (Mem p' a')) →
  (log_opens st (e_log_fd e) = true → ∀ cd n a', never_fails a' →
     cache_is cd (empty_cache n) → (0 < n)%nat →
     let p' := set_pr_log (Logger (log_fd st (e_log_fd e)) (lg_written (pr_log p)))
       (set_pr_settings st p) in
     wp (or_exit e open_db "Error opening DB" (λ d,
           on_log (wlog (opened_line db_path (backend_of (backend st))));;
           background e st (
           on_log (wlog (line (bs "Starting nmdb")));;
           write_pid e;;
           serve nb e st cd (Queue 0 None None ∅) d))) Q (Mem p' a')) →
  wp (main b nb e argv) Q (Mem p a).
Proof.
  intros Ha Hg Hno Hyes. destruct (numobjs_fits Hg) as (E & H1 & H2 & H3).
  destruct Hg as [Hdef Hl Hacc Hb Hn He Hline].
  unfold main. apply wp_bind, wp_on_settings, load_settings_wp; [done|done|done|].
  intros _ a1 Ha1. cbn zeta. rewrite (proj2 (backend_test b opts Hdef)) by done. cbn [negb obj heap].
  wp_simpl. apply wp_on_log, wp_log_init. cbn [obj heap pr_settings set_pr_settings set_pr_log].
  destruct (log_opens st (e_log_fd e)); cbn [negb]; [|wp_simpl; by apply Hno].
  wp_simpl. apply wp_on_heap. rewrite E. apply wp_cache_create; [done..|].
  intros cd a2 Ha2 _ Hcd. cbn [or_exit]. wp_simpl. apply wp_queue_create; [done|]. cbn [or_exit].
  change (dbname st) with (Some db_path). wp_simpl. by eapply Hyes.
Qed.
End start.

(** Nothing outside the process has changed. *)
Definition gave_up (p p' : process) : Prop := pr_files p' = pr_files p ∧ pr_net p' = pr_net p.

Lemma wp_rejected {D} `{DbOps D} (b : build) (nb : net_build) (e : env D) (argv : list bytes)
    (p : process) a (Q : outcome D → mem process → Prop) :
  never_fails a → enabled b (DEFAULT_BE b) = true → Forall size_ok (getopt OPTSTRING argv) →
  ¬ (accepted (getopt OPTSTRING argv) ∧ backend_ok b (settings_of b (getopt OPTSTRING argv))) →
  (∀ p' a', gave_up p p' → Q (Exit 1) (Mem p' a')) →
  wp (main b nb e argv) Q (Mem p a).
Proof.
  intros Ha Hdef Hl Hbad HQ. unfold main. apply wp_bind, wp_on_settings, load_settings_wp; [done|done|..].
  - intros _ t. cbn [negb]. wp_simpl. by apply HQ.
  - intros Hacc a' _. cbn zeta.
    destruct (negb (_ || _)) eqn:E; cbn [negb]; [|wp_simpl; by apply HQ].
    exfalso. apply Hbad. split; [done|]. by apply backend_test.
Qed.

(** ** A system for the examples *)

(** A system whose only backend is the map of Backend.v, which holds [M]. *)
Definition map_openers (M : store) : openers store :=
  Openers store (λ _ _, None) (λ _ _, None) (λ _ _, None) (λ _ _, Some M) (λ _ _, None) (λ _ _, None).

Definition main_argv : list bytes := [bs "-d"; bs "db"; bs "-c"; bs "1"; bs "-i"; bs "pid"].
Definition oc_of (ev : event) : occurrence :=
  match ev with
  | EvMessage req buf len => OcMessage req buf len
  | EvDb rv => OcDb rv
  | EvReadOnly => OcSignal SIGUSR1
  | EvPassive => OcSignal SIGUSR2
  end.
Definition until_sigterm (evs : list event) : list occurrence :=
  (oc_of <$> evs) ++ [OcSignal SIGTERM].
Definition main_ocs : list occurrence := until_sigterm sample_events.
Definition main_env (fork : Z) : env store :=
  Env (map_openers sample_store) 3 (bs "error") fork 4711 true main_ocs (replicate 9 0).
Definition main_process : process := Process net_settings (Logger (-1) []) ∅ (KNet ∅ []).
Definition long_argv : list bytes := [bs "-f"; bs "-c"; bs "1"; bs "-d"; replicate 500 Byte.x61].

(** ** Properties *)


(** C36: starts that fail. If the command line is not accepted, the log or the
    database cannot be opened or the fork fails, [main] returns 1; in the
    parent, once the fork has succeeded, it returns 0. Either way no socket and
    no file was touched, and there is no server. *)
Theorem main_startup_errors {D} `{DbLaws D} (b : build) (nb : net_build) (e : env D)
  (argv : list bytes) (p : process) (a : alloc)
  (Ha : never_fails a) (Hdef : enabled b (DEFAULT_BE b) = true)
  (Hl : Forall size_ok (getopt OPTSTRING argv)) :
  let s := settings_of b (getopt OPTSTRING argv) in
  let starts := log_opens s (e_log_fd e) = true ∧ is_Some (open_db b e argv) in
  (¬ (accepted (getopt OPTSTRING argv) ∧ backend_ok b s) ∨
     good_settings b e argv ∧ ¬ (starts ∧ is_server b e argv)) →
  ∃ code p' a', main b nb e argv (Mem p a) = Some (Exit code, Mem p' a') ∧
    pr_files p' = pr_files p ∧ pr_net p' = pr_net p ∧
    (code = 0 ↔ good_settings b e argv ∧ starts ∧ 0 < e_fork e) ∧ (code = 0 ∨ code = 1).
Proof.
  intros s starts Hbad.
  enough (wp (main b nb e argv) (λ r t, ∃ code, r = Exit code ∧ gave_up p (obj t) ∧
    (code = 0 ↔ good_settings b e argv ∧ starts ∧ 0 < e_fork e) ∧ (code = 0 ∨ code = 1)) (Mem p a))
    as (r & [p' a'] & Hw & code & -> & [H1 H2] & H3 & H4)%wp_exec by by exists code, p', a'.
  assert (∀ q, gave_up p q → ¬ (good_settings b e argv ∧ starts ∧ 0 < e_fork e) →
    ∃ code, Exit 1 = Exit (D := D) code ∧ gave_up p q ∧
    (code = 0 ↔ good_settings b e argv ∧ starts ∧ 0 < e_fork e) ∧ (code = 0 ∨ code = 1)) as Hone.
  { intros q Hq Hn. exists 1. split_and!; [done|done| |by right]. split; [done|by intros ?%Hn]. }
  destruct Hbad as [Hbad|[Hg Hbad]].
  { apply wp_rejected; [done..|]. intros q a' Hq. apply Hone; [done|].
    intros [[_ _ Hacc Hb _ _ _] _]. by apply Hbad. }
  pose proof (gs_errno _ _ _ Hg) as He.
  apply wp_main_stages; [done|done| |].
  { intros Hlog q a' _ Hf Hn. apply Hone; [done|]. intros (_ & [Hlog' _] & _). fold s in Hlog.
    congruence. }
  intros Hlog cd n a1 Ha1 Hcd Hn. cbn zeta. fold s in Hlog.
  destruct (open_db b e argv) as [d|] eqn:Hdb; cbn [or_exit].
  2:{ apply wp_bind, wp_errlog; [done|cbn; lia|]. wp_simpl. apply Hone; [done|].
      intros (_ & [_ [d Hd]] & _). congruence. }
  assert (starts) as Hst by by split; [|by exists d].
  apply wp_bind, wp_log_line; [apply Hg|]. unfold background. unfold is_server in Hbad.
  destruct (truth (foreground _)); [tauto|]. destruct (Z.ltb_spec 0 (e_fork e)) as [Hf|Hf].
  { wp_simpl. exists 0. split_and!; [done|done| |by left]. done. }
  rewrite (proj2 (Z.ltb_lt (e_fork e) 0)).
  2:{ assert (e_fork e ≠ 0); [tauto|lia]. }
  apply wp_bind, wp_errlog; [done|cbn; lia|]. wp_simpl. apply Hone; [done|]. lia.
Qed.

(** A log line longer than the buffer. [wlog] writes as many bytes as the
    line would have had, so the start of the server with a name of the database
    of 500 characters reads behind the buffer on the stack. *)
Theorem long_db_path_overrun :
  main full_build full_net (main_env 0) long_argv (Mem main_process plenty) = None.
Proof. vm_compute. reflexivity. Qed.

(** ** Examples *)

Lemma main_opts : getopt OPTSTRING main_argv =
  [(Byte.x64, bs "db"); (Byte.x63, bs "1"); (Byte.x69, bs "pid")].
Proof. reflexivity. Qed.

Lemma main_good fork : good_settings full_build (main_env fork) main_argv.
Proof.
  split; try done.
  - rewrite main_opts. repeat (apply Forall_cons_2; [intros Hc; first [discriminate Hc|reflexivity]|]). apply Forall_nil_2.
  - by apply (bool_decide_unpack (Forall _ _)); vm_compute.
  - by exists BE_TDB.
  - cbn. lia.
Qed.

Lemma events_until_sigterm evs :
  events_of full_net (until_sigterm evs) = evs ∧ existsb exits (until_sigterm evs) = true.
Proof.
  induction evs as [|ev evs [IH1 IH2]]; [done|].
  change (until_sigterm (ev :: evs)) with (oc_of ev :: until_sigterm evs).
  cbn [events_of existsb]. rewrite IH1, IH2, orb_true_r. split; [|done].
  destruct ev as [req buf len|rv| |]; cbn; [|done..]. by destruct (r_type req).
Qed.

Lemma main_can_serve fork :
  can_serve full_net (main_env fork) (settings_of full_build (getopt OPTSTRING main_argv)) sample_store.
Proof.
  destruct (events_until_sigterm sample_events) as [E1 E2].
  change (until_sigterm sample_events) with (e_ocs (main_env fork)) in E1, E2.
  split; rewrite ?E1.
  - by split_and!; apply (bool_decide_unpack (is_Some _)); vm_compute.
  - intros t _. by destruct t; apply (bool_decide_unpack (is_Some _)); vm_compute.
  - exact E2.
  - apply sample_events_ok.
  - done.
  - apply Forall_replicate. by left.
  - cbn. lia.
  - apply store_reliable.
  - apply sample_vals_fit.
Qed.


Lemma main_startup_errors_witness :
  ∃ code p' a', main full_build full_net (main_env (-1)) main_argv (Mem main_process plenty) =
      Some (Exit code, Mem p' a') ∧
    pr_files p' = ∅ ∧ pr_net p' = KNet ∅ [] ∧
    (code = 0 ↔ good_settings full_build (main_env (-1)) main_argv ∧
       (log_opens (settings_of full_build (getopt OPTSTRING main_argv)) 3 = true ∧
        is_Some (open_db full_build (main_env (-1)) main_argv)) ∧ 0 < -1) ∧ (code = 0 ∨ code = 1).
Proof.
  apply (main_startup_errors full_build full_net (main_env (-1)) main_argv main_process plenty);
    [done|done|apply (gs_sizes _ _ _ (main_good 0))|].
  right. split; [apply main_good|]. intros [_ [Hf|Hf]]; vm_compute in Hf; discriminate Hf.
Defined.
