(* ===== verification/Client.v ===== *)
(** * The client library (libnmdb/libnmdb.c, tcp.c, udp.c, tipc.c, sctp.c, internal.h.in)

    A connection is a sorted array of servers. An operation selects one by a
    hash of the key, builds a packet in a buffer, sends it, receives the reply
    in the same buffer and decodes it. The kernel is the class [Kernel]: any
    state that sockets, sends and receives read and change. A buffer is the
    block of memory that the C function owns; each write is checked against
    its bounds, so a packet too big for its buffer is undefined behaviour. *)

From S2P Require Import Prelude Words Text Chain Net.

(** ** internal.h.in, net-const.h *)

Definition TIPC_CONN : Z := 1.
Definition TCP_CONN : Z := 2.
Definition UDP_CONN : Z := 3.
Definition SCTP_CONN : Z := 4.

Definition ID_CODE : Z := 1.

Definition TIPC_MSG_OFFSET : Z := 0.
Definition TCP_MSG_OFFSET : Z := 4.
Definition UDP_MSG_OFFSET : Z := 0.
Definition SCTP_MSG_OFFSET : Z := 0.

(** [struct nmdb_srv]. [sv_port] is [info.tipc.port] or
    [info.in.srvsa.sin_port] (in network order), [sv_addr] is
    [info.in.srvsa.sin_addr.s_addr]; what else the socket addresses hold are
    constants. *)
Record nmdb_srv := Srv {
  sv_fd : Z;
  sv_type : Z;
  sv_port : Z;
  sv_addr : Z;
}.

Definition SIZEOF_SRV : Z := 48.

(** What the library asks of the kernel. [k_send] and [k_sendto] give the
    return value; [k_recv fd n] gives the bytes read, at most [n] of them, and
    [None] for an error. *)
Class Kernel (E : Type) := {
  k_socket : Z → E → option Z * E;
  k_connect : Z → Z → Z → E → bool * E;
  k_nodelay : Z → E → bool * E;
  k_close : Z → E → E;
  k_send : Z → bytes → E → Z * E;
  k_sendto : nmdb_srv → bytes → E → Z * E;
  k_recv : Z → Z → E → option bytes * E;
}.

(** [struct nmdb_conn], with the kernel beside it. *)
Record client (E : Type) := Client { c_servers : list nmdb_srv; c_net : E }.
Arguments Client {E}.
Arguments c_servers {E}.
Arguments c_net {E}.

(** ** Sorting and selecting servers *)

Definition compare_servers (srv1 srv2 : nmdb_srv) : Z :=
  if negb (sv_type srv1 =? sv_type srv2) then
    if sv_type srv1 <? sv_type srv2 then -1 else 1
  else if sv_type srv1 =? TIPC_CONN then
    if sv_port srv1 <? sv_port srv2 then -1
    else if sv_port srv1 =? sv_port srv2 then 0
    else 1
  else if (sv_type srv1 =? TCP_CONN) || (sv_type srv1 =? UDP_CONN) ||
          (sv_type srv1 =? SCTP_CONN) then
    let a1 := sv_addr srv1 in
    let a2 := sv_addr srv2 in
    if a1 <? a2 then -1
    else if a1 =? a2 then
      let p1 := sv_port srv1 in
      let p2 := sv_port srv2 in
      if p1 <? p2 then -1 else if p1 =? p2 then 0 else 1
    else 1
  else 0.

(** [qsort(db->servers, ..., compare_servers)] *)
Fixpoint qsort_insert (s : nmdb_srv) (l : list nmdb_srv) : list nmdb_srv :=
  match l with
  | [] => [s]
  | x :: l => if compare_servers s x <=? 0 then s :: x :: l else x :: qsort_insert s l
  end.
Definition qsort_servers (l : list nmdb_srv) : list nmdb_srv := foldr qsort_insert [] l.

(** [checksum]: [buf] advances by one byte where two are counted. *)
Fixpoint checksum_loop {S} (fuel : nat) (buf : bytes) (bsize sum : Z) : M S Z :=
  if 1 <? bsize then
    match fuel with
    | O => ub
    | S fuel =>
        w ← load 2 buf 0;
        checksum_loop fuel (drop 1 buf) (bsize - 2) (w32 (sum + w))
    end
  else if 0 <? bsize then b ← byte_at buf 0; mret (w32 (sum + byte.unsigned b))
  else mret sum.

Fixpoint checksum_fold (fuel : nat) (sum : Z) : Z :=
  match fuel with
  | O => sum
  | S fuel =>
      if truth (Z.shiftr sum 16)
      then checksum_fold fuel (w32 (Z.land sum 0xffff + Z.shiftr sum 16))
      else sum
  end.

(** Two rounds fold any 32-bit sum; [3] is enough fuel. *)
Definition checksum {S} (buf : bytes) (bsize : Z) : M S Z :=
  sum ← checksum_loop (length buf) buf bsize 0;
  mret (w32 (Z.lnot (checksum_fold 3 sum))).

(** [memcpy(buf + off, d, n)] *)
Definition memcpy_at {S} (buf : bytes) (off : Z) (d : bytes) (n : Z) : M S bytes :=
  if bool_decide (0 ≤ off) && in_block buf off then
    b ← memcpy (drop (Z.to_nat off) buf) d n;
    mret (take (Z.to_nat off) buf ++ b)
  else ub.

(** [p = buf + off] read for [n] bytes. *)
Definition read_at {S} (buf : bytes) (off n : Z) : M S bytes :=
  if bool_decide (0 ≤ off) && bool_decide (0 ≤ n) && in_block buf (off + n)
  then mret (take (Z.to_nat n) (drop (Z.to_nat off) buf))
  else ub.

Section library.
Context {E : Type} `{Kernel E}.

Definition set_servers (l : list nmdb_srv) (c : client E) : client E := Client l (c_net c).
Definition set_net (e : E) (c : client E) : client E := Client (c_servers c) e.

(** A system call. *)
Definition sys {A} (f : E → A * E) : MT (client E) A :=
  c ← get_obj; let '(r, e) := f (c_net c) in mod_obj (set_net e);; mret r.

Definition close (fd : Z) : MT (client E) () := sys (λ e, (tt, k_close fd e)).

(** [recv(fd, buf + off, n, 0)]: the return value and the buffer after it. *)
Definition recv (fd : Z) (buf : bytes) (off n : Z) : MT (client E) (Z * bytes) :=
  r ← sys (k_recv fd n);
  match r with
  | None => mret (-1, buf)
  | Some d => b ← memcpy_at buf off d (Z.of_nat (length d)); mret (Z.of_nat (length d), b)
  end.

(** ** Connections *)

Definition nmdb_init : MT (client E) bool :=
  p ← malloc 16;
  match p with
  | Null => mret false
  | _ => mod_obj (set_servers []);; mret true
  end.

Fixpoint close_all (l : list nmdb_srv) : MT (client E) () :=
  match l with [] => mret tt | s :: l => close (sv_fd s);; close_all l end.

Definition nmdb_free : MT (client E) Z :=
  c ← get_obj; close_all (c_servers c);; mret 1.

(** [realloc(db->servers, n * sizeof(struct nmdb_srv))] *)
Definition realloc_servers (n : nat) : MT (client E) bool :=
  p ← malloc (SIZEOF_SRV * Z.of_nat n); mret (bool_decide (p ≠ Null)).

(** The array with the new server at its end, sorted. *)
Definition add_sorted (srv : nmdb_srv) : MT (client E) Z :=
  mod_obj (λ c, set_servers (qsort_servers (c_servers c ++ [srv])) c);; mret 1.

Definition default_port (port dflt : Z) : Z := if port <? 0 then dflt else port.

Definition nmdb_add_tipc_server (port : Z) : MT (client E) Z :=
  fd ← sys (k_socket TIPC_CONN);
  match fd with
  | None => mret 0
  | Some fd =>
      c ← get_obj;
      ok ← realloc_servers (S (length (c_servers c)));
      if negb (ok : bool) then close fd;; mret 0 else
      add_sorted (Srv fd TIPC_CONN (w32 (default_port port TIPC_SERVER_INST)) 0)
  end.

Definition add_udp_server_addr (inetaddr port : Z) : MT (client E) Z :=
  fd ← sys (k_socket UDP_CONN);
  match fd with
  | None => mret 0
  | Some fd =>
      c ← get_obj;
      ok ← realloc_servers (S (length (c_servers c)));
      if negb (ok : bool) then close fd;; mret 0 else
      add_sorted (Srv fd UDP_CONN (htons (default_port port UDP_SERVER_PORT)) inetaddr)
  end.

Definition add_sctp_server_addr (inetaddr port : Z) : MT (client E) Z :=
  fd ← sys (k_socket SCTP_CONN);
  match fd with
  | None => mret 0
  | Some fd =>
      nd ← sys (k_nodelay fd);
      if negb (nd : bool) then close fd;; mret 0 else
      c ← get_obj;
      ok ← realloc_servers (S (length (c_servers c)));
      if negb (ok : bool) then close fd;; mret 0 else
      add_sorted (Srv fd SCTP_CONN (htons (default_port port SCTP_SERVER_PORT)) inetaddr)
  end.

(** The error label of [add_tcp_server_addr]: the array is shrunk to what it
    was; when even that fails, every server is forgotten. *)
Definition tcp_error_exit (fd : Z) : MT (client E) Z :=
  close fd;;
  c ← get_obj;
  ok ← realloc_servers (length (c_servers c));
  (if negb (ok : bool) then mod_obj (set_servers []) else mret tt);;
  mret 0.

Definition add_tcp_server_addr (inetaddr port : Z) : MT (client E) Z :=
  fd ← sys (k_socket TCP_CONN);
  match fd with
  | None => mret 0
  | Some fd =>
      c ← get_obj;
      ok ← realloc_servers (S (length (c_servers c)));
      if negb (ok : bool) then close fd;; mret 0 else
      let sin_port := htons (default_port port TCP_SERVER_PORT) in
      rv ← sys (k_connect fd inetaddr sin_port);
      if negb (rv : bool) then tcp_error_exit fd else
      nd ← sys (k_nodelay fd);
      if negb (nd : bool) then tcp_error_exit fd else
      add_sorted (Srv fd TCP_CONN sin_port inetaddr)
  end.

(** The address of a host: [gethostbyname] gives the first one of those it
    finds. *)
Definition resolve (gethostbyname : bytes → option Z) (addr : bytes) : option Z :=
  match inet_pton addr with Some ia => Some ia | None => gethostbyname addr end.

Definition nmdb_add_tcp_server (gethostbyname : bytes → option Z) (addr : bytes) (port : Z)
    : MT (client E) Z :=
  match resolve gethostbyname addr with Some ia => add_tcp_server_addr ia port | None => mret 0 end.
Definition nmdb_add_udp_server (gethostbyname : bytes → option Z) (addr : bytes) (port : Z)
    : MT (client E) Z :=
  match resolve gethostbyname addr with Some ia => add_udp_server_addr ia port | None => mret 0 end.
Definition nmdb_add_sctp_server (gethostbyname : bytes → option Z) (addr : bytes) (port : Z)
    : MT (client E) Z :=
  match resolve gethostbyname addr with Some ia => add_sctp_server_addr ia port | None => mret 0 end.

(** ** Reading and writing whole buffers *)

(** [srecv(fd, buf + off, count)] and its loop, [c] bytes being read. *)
Fixpoint srecv_loop (fuel : nat) (fd : Z) (buf : bytes) (off count c : Z)
    : MT (client E) (Z * bytes) :=
  if c <? count then
    match fuel with
    | O => ub
    | S fuel =>
        r ← recv fd buf (off + c) (count - c);
        let '(rv, buf) := r : Z * bytes in
        if rv =? count then mret (count, buf)
        else if rv <? 0 then mret (rv, buf)
        else if rv =? 0 then mret (c, buf)
        else srecv_loop fuel fd buf off count (c + rv)
    end
  else mret (count, buf).
Definition srecv (fd : Z) (buf : bytes) (off count : Z) : MT (client E) (Z * bytes) :=
  srecv_loop (Z.to_nat count) fd buf off count 0.

Fixpoint ssend_loop (fuel : nat) (fd : Z) (buf : bytes) (count c : Z) : MT (client E) Z :=
  if c <? count then
    match fuel with
    | O => ub
    | S fuel =>
        d ← read_at buf c (count - c);
        rv ← sys (k_send fd d);
        if rv =? count then mret count
        else if rv <? 0 then mret rv
        else if rv =? 0 then mret c
        else ssend_loop fuel fd buf count (c + rv)
    end
  else mret count.
Definition ssend (fd : Z) (buf : bytes) (count : Z) : MT (client E) Z :=
  ssend_loop (Z.to_nat count) fd buf count 0.

(** ** Packets *)

Definition srv_get_msg_offset (srv : option nmdb_srv) : Z :=
  match srv with
  | None => 0
  | Some s =>
      if sv_type s =? TIPC_CONN then TIPC_MSG_OFFSET
      else if sv_type s =? TCP_CONN then TCP_MSG_OFFSET
      else if sv_type s =? UDP_CONN then UDP_MSG_OFFSET
      else if sv_type s =? SCTP_CONN then SCTP_MSG_OFFSET
      else 0
  end.

Definition select_srv (key : bytes) : MT (client E) (option nmdb_srv) :=
  c ← get_obj;
  let nservers := Z.of_nat (length (c_servers c)) in
  if nservers =? 0 then mret None else
  n ← checksum key (Z.of_nat (length key));
  s ← lift_opt (c_servers c !! Z.to_nat (n mod nservers));
  mret (Some s).

(** A new packet: its buffer, the size of it, the offset of the payload. *)
Record packet_buf := Pkt { pk_buf : bytes; pk_size : Z; pk_payload : Z }.

Definition new_packet (srv : option nmdb_srv) (request flags payload_size : Z)
    : MT (client E) (option packet_buf) :=
  let moff := srv_get_msg_offset srv in
  let bufsize := if payload_size =? -1 then 68 * 1024 else moff + 8 + payload_size in
  p ← malloc bufsize;
  match p with
  | Null => mret None
  | _ =>
      buf ← deref p;
      buf ← memcpy_at buf moff (store_le 4 (htonl (Z.lor (Z.shiftl PROTO_VER 28) ID_CODE))) 4;
      buf ← memcpy_at buf (moff + 4) (store_le 2 (htons request)) 2;
      buf ← memcpy_at buf (moff + 6) (store_le 2 (htons flags)) 2;
      mret (Some (Pkt buf bufsize (moff + 8)))
  end.

(** The payload is written at [off]; the result is its size. *)
Definition append_1v (buf : bytes) (off : Z) (datum : bytes) : MT (client E) (bytes * Z) :=
  let dsize := Z.of_nat (length datum) in
  buf ← memcpy_at buf off (store_le 4 (htonl dsize)) 4;
  buf ← memcpy_at buf (off + 4) datum dsize;
  mret (buf, 4 + dsize).

Definition append_2v (buf : bytes) (off : Z) (datum1 datum2 : bytes) : MT (client E) (bytes * Z) :=
  let dsize1 := Z.of_nat (length datum1) in
  let dsize2 := Z.of_nat (length datum2) in
  buf ← memcpy_at buf off (store_le 4 (htonl dsize1)) 4;
  buf ← memcpy_at buf (off + 4) (store_le 4 (htonl dsize2)) 4;
  buf ← memcpy_at buf (off + 8) datum1 dsize1;
  buf ← memcpy_at buf (off + 8 + dsize1) datum2 dsize2;
  mret (buf, 8 + dsize1 + dsize2).

Definition append_3v (buf : bytes) (off : Z) (datum1 datum2 datum3 : bytes)
    : MT (client E) (bytes * Z) :=
  let dsize1 := Z.of_nat (length datum1) in
  let dsize2 := Z.of_nat (length datum2) in
  let dsize3 := Z.of_nat (length datum3) in
  buf ← memcpy_at buf off (store_le 4 (htonl dsize1)) 4;
  buf ← memcpy_at buf (off + 4) (store_le 4 (htonl dsize2)) 4;
  buf ← memcpy_at buf (off + 8) (store_le 4 (htonl dsize3)) 4;
  buf ← memcpy_at buf (off + 12) datum1 dsize1;
  buf ← memcpy_at buf (off + 12 + dsize1) datum2 dsize2;
  buf ← memcpy_at buf (off + 12 + dsize1 + dsize2) datum3 dsize3;
  mret (buf, 12 + dsize1 + dsize2 + dsize3).

(** ** Sending and receiving *)

(** The three datagram transports. *)
Definition dgram_srv_send (s : nmdb_srv) (buf : bytes) (bsize : Z) : MT (client E) (Z * bytes) :=
  d ← read_at buf 0 bsize;
  rv ← sys (k_sendto s d);
  mret (if rv <=? 0 then 0 else 1, buf).
Definition udp_srv_send := dgram_srv_send.
Definition tipc_srv_send := dgram_srv_send.
Definition sctp_srv_send := dgram_srv_send.

Definition tcp_srv_send (s : nmdb_srv) (buf : bytes) (bsize : Z) : MT (client E) (Z * bytes) :=
  buf ← memcpy_at buf 0 (store_le 4 (htonl bsize)) 4;
  rv ← ssend (sv_fd s) buf bsize;
  mret (if negb (rv =? bsize) then 0 else 1, buf).

(** The result, and the buffer, in which TCP writes the length. *)
Definition srv_send (srv : option nmdb_srv) (buf : bytes) (bsize : Z) : MT (client E) (Z * bytes) :=
  match srv with
  | None => mret (0, buf)
  | Some s =>
      if sv_type s =? TIPC_CONN then tipc_srv_send s buf bsize
      else if sv_type s =? TCP_CONN then tcp_srv_send s buf bsize
      else if sv_type s =? UDP_CONN then udp_srv_send s buf bsize
      else if sv_type s =? SCTP_CONN then sctp_srv_send s buf bsize
      else mret (0, buf)
  end.

(** A reply: its code (-1 as a [uint32_t] for an error), the buffer, and the
    offset and size of the payload. *)
Record answer := Answer { an_code : Z; an_buf : bytes; an_payload : Z; an_psize : Z }.

Definition no_answer (buf : bytes) : answer := Answer (w32 (-1)) buf 0 0.

Definition dgram_get_rep (s : nmdb_srv) (buf : bytes) (bsize : Z) : MT (client E) answer :=
  r ← recv (sv_fd s) buf 0 bsize;
  let '(rv, buf) := r : Z * bytes in
  if rv <? 4 + 4 then mret (no_answer buf) else
  id ← load 4 buf 0;
  reply ← load 4 buf 4;
  if negb (ntohl id =? ID_CODE) then mret (no_answer buf) else
  mret (Answer (ntohl reply) buf (4 + 4) (w64 (rv - 4 - 4))).
Definition udp_get_rep := dgram_get_rep.
Definition tipc_get_rep := dgram_get_rep.
Definition sctp_get_rep := dgram_get_rep.

(** Receives the rest of a message of which [rv] bytes are there; the result
    is the size of it, or not positive. *)
Definition recv_rest (fd : Z) (buf : bytes) (rv total : Z) : MT (client E) (Z * bytes) :=
  if rv <? total then
    r ← srecv fd buf rv (total - rv);
    let '(t, buf) := r : Z * bytes in
    mret (if t <=? 0 then t else rv + t, buf)
  else mret (rv, buf).

Definition recv_msg (fd : Z) (buf : bytes) (bsize : Z) : MT (client E) (Z * bytes) :=
  r ← recv fd buf 0 bsize;
  let '(rv, buf) := r : Z * bytes in
  if rv <=? 0 then mret (rv, buf) else
  r ← recv_rest fd buf rv 4;
  let '(rv, buf) := r : Z * bytes in
  if rv <=? 0 then mret (rv, buf) else
  msgsize ← load 4 buf 0;
  let msgsize := ntohl msgsize in
  if bsize <? msgsize then mret (-1, buf) else
  recv_rest fd buf rv msgsize.

Definition tcp_get_rep (s : nmdb_srv) (buf : bytes) (bsize : Z) : MT (client E) answer :=
  r ← recv_msg (sv_fd s) buf bsize;
  let '(rv, buf) := r : Z * bytes in
  if rv <=? 0 then mret (no_answer buf) else
  id ← load 4 buf 4;
  reply ← load 4 buf 8;
  if negb (ntohl id =? ID_CODE) then mret (no_answer buf) else
  mret (Answer (ntohl reply) buf (4 + 4 + 4) (w64 (rv - 4 - 4 - 4))).

Definition get_rep (srv : option nmdb_srv) (buf : bytes) (bsize : Z) : MT (client E) answer :=
  match srv with
  | None => mret (no_answer buf)
  | Some s =>
      if sv_type s =? TIPC_CONN then tipc_get_rep s buf bsize
      else if sv_type s =? TCP_CONN then tcp_get_rep s buf bsize
      else if sv_type s =? UDP_CONN then udp_get_rep s buf bsize
      else if sv_type s =? SCTP_CONN then sctp_get_rep s buf bsize
      else mret (Answer 0 buf 0 0)
  end.

(** What the library has in place of a transport that is left out of its
    build. *)
Definition add_server_stub : MT (client E) Z := mret 0.
Definition srv_send_stub (s : nmdb_srv) (buf : bytes) (bsize : Z) : MT (client E) (Z * bytes) :=
  mret (0, buf).
Definition get_rep_stub (s : nmdb_srv) (buf : bytes) (bsize : Z) : MT (client E) answer :=
  mret (no_answer buf).

(** ** Operations

    [goto exit] is the release of the buffer and the return of [rv]. *)

Definition NMDB_CACHE_ONLY : Z := 1.
Definition NMDB_SYNC : Z := 2.

Definition exit_with {A} (buf : bytes) (rv : A) : MT (client E) A :=
  free (Block buf);; mret rv.

(** The value in a reply, copied to a buffer of [vsize] bytes: its size and
    the bytes copied; -2 when it does not fit the reply or the buffer. *)
Definition read_value (a : answer) (vsize : Z) : MT (client E) (Z * bytes) :=
  w ← load 4 (an_buf a) (an_payload a);
  let rv := ntohl w in
  if (w64 (an_psize a - 4) <? rv) || (vsize <? rv) then mret (-2, []) else
  v ← read_at (an_buf a) (an_payload a + 4) rv;
  mret (rv, v).

Definition do_get (key : bytes) (vsize flags : Z) : MT (client E) (Z * bytes) :=
  let flags := Z.land flags NMDB_CACHE_ONLY in
  srv ← select_srv key;
  p ← new_packet srv REQ_GET flags (-1);
  match p with
  | None => mret (-1, [])
  | Some p =>
      r ← append_1v (pk_buf p) (pk_payload p) key;
      let '(buf, n) := r : bytes * Z in
      r ← srv_send srv buf (pk_payload p + n);
      let '(t, buf) := r : Z * bytes in
      if t <=? 0 then exit_with buf (-2, []) else
      a ← get_rep srv buf (pk_size p);
      let reply := an_code a in
      if (reply =? REP_CACHE_MISS) || (reply =? REP_NOTIN) then exit_with (an_buf a) (-1, [])
      else if reply =? REP_ERR then exit_with (an_buf a) (-2, [])
      else if negb (reply =? REP_OK) && negb (reply =? REP_CACHE_HIT)
      then exit_with (an_buf a) (-2, [])
      else rv ← read_value a vsize; exit_with (an_buf a) rv
  end.

Definition nmdb_get (key : bytes) (vsize : Z) := do_get key vsize 0.
Definition nmdb_cache_get (key : bytes) (vsize : Z) := do_get key vsize NMDB_CACHE_ONLY.

Definition do_set (key val : bytes) (flags : Z) : MT (client E) Z :=
  let flags := Z.land flags (Z.lor NMDB_CACHE_ONLY NMDB_SYNC) in
  srv ← select_srv key;
  p ← new_packet srv REQ_SET flags (4 * 2 + Z.of_nat (length key) + Z.of_nat (length val));
  match p with
  | None => mret (-1)
  | Some p =>
      r ← append_2v (pk_buf p) (pk_payload p) key val;
      let '(buf, n) := r : bytes * Z in
      r ← srv_send srv buf (pk_payload p + n);
      let '(t, buf) := r : Z * bytes in
      if t <=? 0 then exit_with buf (-1) else
      a ← get_rep srv buf (pk_size p);
      if an_code a =? REP_OK then exit_with (an_buf a) 1 else exit_with (an_buf a) (-1)
  end.

Definition nmdb_set (key val : bytes) := do_set key val 0.
Definition nmdb_set_sync (key val : bytes) := do_set key val NMDB_SYNC.
Definition nmdb_cache_set (key val : bytes) := do_set key val NMDB_CACHE_ONLY.

Definition do_del (key : bytes) (flags : Z) : MT (client E) Z :=
  let flags := Z.land flags (Z.lor NMDB_CACHE_ONLY NMDB_SYNC) in
  srv ← select_srv key;
  p ← new_packet srv REQ_DEL flags (4 + Z.of_nat (length key));
  match p with
  | None => mret (-1)
  | Some p =>
      r ← append_1v (pk_buf p) (pk_payload p) key;
      let '(buf, n) := r : bytes * Z in
      r ← srv_send srv buf (pk_payload p + n);
      let '(t, buf) := r : Z * bytes in
      if t <=? 0 then exit_with buf (-1) else
      a ← get_rep srv buf (pk_size p);
      if an_code a =? REP_OK then exit_with (an_buf a) 1
      else if an_code a =? REP_NOTIN then exit_with (an_buf a) 0
      else exit_with (an_buf a) (-1)
  end.

Definition nmdb_del (key : bytes) := do_del key 0.
Definition nmdb_del_sync (key : bytes) := do_del key NMDB_SYNC.
Definition nmdb_cache_del (key : bytes) := do_del key NMDB_CACHE_ONLY.

Definition do_cas (key oldval newval : bytes) (flags : Z) : MT (client E) Z :=
  let flags := Z.land flags NMDB_CACHE_ONLY in
  srv ← select_srv key;
  p ← new_packet srv REQ_CAS flags
    (4 * 3 + Z.of_nat (length key) + Z.of_nat (length oldval) + Z.of_nat (length newval));
  match p with
  | None => mret (-1)
  | Some p =>
      r ← append_3v (pk_buf p) (pk_payload p) key oldval newval;
      let '(buf, n) := r : bytes * Z in
      r ← srv_send srv buf (pk_payload p + n);
      let '(t, buf) := r : Z * bytes in
      if t <=? 0 then exit_with buf (-1) else
      a ← get_rep srv buf (pk_size p);
      if an_code a =? REP_OK then exit_with (an_buf a) 2
      else if an_code a =? REP_NOMATCH then exit_with (an_buf a) 1
      else if an_code a =? REP_NOTIN then exit_with (an_buf a) 0
      else exit_with (an_buf a) (-1)
  end.

Definition nmdb_cas (key oldval newval : bytes) := do_cas key oldval newval 0.
Definition nmdb_cache_cas (key oldval newval : bytes) := do_cas key oldval newval NMDB_CACHE_ONLY.

(** The increment's result is the return value, and what is written to
    [*newval] when it is not NULL ([want]). *)
Definition do_incr (key : bytes) (increment : Z) (want : bool) (flags : Z)
    : MT (client E) (Z * option Z) :=
  let flags := Z.land flags NMDB_CACHE_ONLY in
  srv ← select_srv key;
  let increment := htonll (w64 increment) in
  p ← new_packet srv REQ_INCR flags (4 + Z.of_nat (length key) + 8);
  match p with
  | None => mret (-1, None)
  | Some p =>
      r ← append_1v (pk_buf p) (pk_payload p) key;
      let '(buf, n) := r : bytes * Z in
      let reqsize := pk_payload p + n in
      buf ← memcpy_at buf reqsize (store_le 8 increment) 8;
      r ← srv_send srv buf (reqsize + 8);
      let '(t, buf) := r : Z * bytes in
      if t <=? 0 then exit_with buf (-1, None) else
      a ← get_rep srv buf (pk_size p);
      if an_code a =? REP_OK then
        if want && (an_psize a =? 8 + 4) then
          w ← load 8 (an_buf a) (an_payload a + 4);
          exit_with (an_buf a) (2, Some (s64 (ntohll w)))
        else exit_with (an_buf a) (2, None)
      else if an_code a =? REP_NOMATCH then exit_with (an_buf a) (1, None)
      else if an_code a =? REP_NOTIN then exit_with (an_buf a) (0, None)
      else exit_with (an_buf a) (-1, None)
  end.

Definition nmdb_incr (key : bytes) (increment : Z) (want : bool) := do_incr key increment want 0.
Definition nmdb_cache_incr (key : bytes) (increment : Z) (want : bool) :=
  do_incr key increment want NMDB_CACHE_ONLY.

(** The common end of firstkey and nextkey. *)
Definition key_answer (a : answer) (ksize : Z) : MT (client E) (Z * bytes) :=
  let reply := an_code a in
  if reply =? REP_NOTIN then exit_with (an_buf a) (-1, [])
  else if reply =? REP_ERR then exit_with (an_buf a) (-2, [])
  else if negb (reply =? REP_OK) then exit_with (an_buf a) (-2, [])
  else rv ← read_value a ksize; exit_with (an_buf a) rv.

Definition nmdb_firstkey (ksize : Z) : MT (client E) (Z * bytes) :=
  c ← get_obj;
  match c_servers c with
  | [s] =>
      p ← new_packet (Some s) REQ_FIRSTKEY 0 (-1);
      match p with
      | None => mret (-2, [])
      | Some p =>
          r ← srv_send (Some s) (pk_buf p) (pk_payload p);
          let '(t, buf) := r : Z * bytes in
          if t <=? 0 then exit_with buf (-2, []) else
          a ← get_rep (Some s) buf (pk_size p);
          key_answer a ksize
      end
  | _ => mret (-2, [])
  end.

Definition nmdb_nextkey (key : bytes) (nksize : Z) : MT (client E) (Z * bytes) :=
  c ← get_obj;
  match c_servers c with
  | [s] =>
      p ← new_packet (Some s) REQ_NEXTKEY 0 (-1);
      match p with
      | None => mret (-1, [])
      | Some p =>
          r ← append_1v (pk_buf p) (pk_payload p) key;
          let '(buf, n) := r : bytes * Z in
          r ← srv_send (Some s) buf (pk_payload p + n);
          let '(t, buf) := r : Z * bytes in
          if t <=? 0 then exit_with buf (-2, []) else
          a ← get_rep (Some s) buf (pk_size p);
          key_answer a nksize
      end
  | _ => mret (-2, [])
  end.

(** ** Statistics *)

Record stats_answer := StatsAnswer {
  sa_rv : Z; sa_buf : bytes; sa_nservers : option Z; sa_nstats : Z;
}.

(** The loop over the servers: [buf] from [off] on has [bsize] bytes left;
    [tmpbuf] is the array on the stack that the replies go to. *)
Fixpoint stats_loop (srvs : list nmdb_srv) (nservers : Z) (tmpbuf buf : bytes) (off bsize nstats : Z)
    : MT (client E) stats_answer :=
  match srvs with
  | [] => mret (StatsAnswer 1 buf (Some nservers) nstats)
  | srv :: srvs =>
      p ← new_packet (Some srv) REQ_STATS 0 0;
      p ← lift_opt p;
      r ← srv_send (Some srv) (pk_buf p) (pk_size p);
      let '(t, request) := r : Z * bytes in
      free (Block request);;
      if t <=? 0 then mret (StatsAnswer (-2) buf None nstats) else
      a ← get_rep (Some srv) tmpbuf (32 * 8);
      if negb (an_code a =? REP_OK) then mret (StatsAnswer (-1) buf None nstats) else
      let psize := an_psize a in
      if bsize <? psize then mret (StatsAnswer (-3) buf None nstats) else
      d ← read_at (an_buf a) (an_payload a + 4) psize;
      buf ← memcpy_at buf off d psize;
      let n := psize / 8 in
      if nstats =? 0 then
        stats_loop srvs nservers (an_buf a) buf (off + psize) (bsize - psize) n
      else if negb (nstats =? n) then mret (StatsAnswer (-4) buf None nstats)
      else stats_loop srvs nservers (an_buf a) buf (off + psize) (bsize - psize) nstats
  end.

(** [tmpbuf]: the indeterminate content of the array of 256 bytes. A failed
    allocation of the request is not tested. *)
Definition nmdb_stats (tmpbuf buf : bytes) : MT (client E) stats_answer :=
  c ← get_obj;
  stats_loop (c_servers c) (Z.of_nat (length (c_servers c))) tmpbuf buf 0
    (Z.of_nat (length buf)) 0.
End library.
