(* ===== verification/ClientSpec.v ===== *)
(** * What the client's operations do

    [MapService] is what a server promises a client: a request, encoded as the
    protocol says, is answered with the wire form of a right answer (System.v),
    and the map it stands for changes as the request says. Against this
    interface the library's operations are proved to be the operations of a
    map; Host.v shows that the server provides it. *)

From S2P Require Import Prelude Words Text Chain ChainSpec Cache Net Queue Backend Server Parse ParseSpec DbLoop DbSpec Transport System Client.

(** ** Building packets *)

Section buffers.
Context {S : Type}.

(** Writing at the end of what is filled in. *)
Lemma wp_memcpy_at p t off d n (Q : bytes → S → Prop) s :
  off = Z.of_nat (length p) → n = Z.of_nat (length d) → (length d ≤ length t)%nat →
  (∀ t', (length t' + length d)%nat = length t → Q ((p ++ d) ++ t') s) →
  wp (memcpy_at (p ++ t) off d n) Q s.
Proof.
  intros -> -> Hl HQ. unfold memcpy_at.
  rewrite bool_decide_true by lia. rewrite in_block_true by (rewrite ?length_app; lia). cbn [andb].
  rewrite Nat2Z.id, drop_app_length, take_app_length. apply wp_bind.
  apply wp_memcpy; [lia..|]. wp_simpl. rewrite Nat2Z.id, firstn_all, (assoc_L (++)).
  apply HQ. rewrite length_drop. lia.
Qed.

Lemma wp_read_prefix p t n (Q : bytes → S → Prop) s :
  n = Z.of_nat (length p) → Q p s → wp (read_at (p ++ t) 0 n) Q s.
Proof.
  intros -> HQ. unfold read_at. rewrite !bool_decide_true by lia.
  rewrite in_block_true by (rewrite ?length_app; lia). cbn [andb]. wp_simpl.
  change (Z.to_nat 0) with 0%nat. by rewrite Nat2Z.id, drop_0, take_app_length.
Qed.

Lemma wp_read_at p d t off n (Q : bytes → S → Prop) s :
  off = Z.of_nat (length p) → n = Z.of_nat (length d) → Q d s →
  wp (read_at (p ++ d ++ t) off n) Q s.
Proof.
  intros -> -> HQ. unfold read_at. rewrite !bool_decide_true by lia.
  rewrite in_block_true by (rewrite ?length_app; lia). cbn [andb]. wp_simpl.
  by rewrite !Nat2Z.id, drop_app_length, take_app_length.
Qed.
End buffers.

Lemma store_htonl x : store_le 4 (htonl x) = be_split 4 x.
Proof. apply le_split_htonl. Qed.
Lemma store_htons x : store_le 2 (htons x) = be_split 2 x.
Proof. apply le_split_htons. Qed.

(** One write at the end of what is filled in. *)
Ltac sizes := rewrite ?length_app, ?length_be_size, ?length_be_split; cbn [length]; lia.
Ltac put_next :=
  apply wp_memcpy_at; [sizes|sizes|sizes|];
  let t := fresh "t" in let Ht := fresh "Ht" in
  intros t Ht; rewrite ?length_be_size, ?length_be_split in Ht; wp_simpl.

Section packets.
Context {E : Type} `{Kernel E}.

(** A new packet is the header at the message's offset, whatever precedes it. *)
Lemma wp_new_packet srv request flags size bufsize moff c a
    (Q : option packet_buf → mem (client E) → Prop) :
  never_fails a → moff = srv_get_msg_offset srv → 0 ≤ moff →
  bufsize = (if size =? -1 then 68 * 1024 else moff + 8 + size) → moff + 8 ≤ bufsize →
  (∀ p0 t a' buf, never_fails a' → Z.of_nat (length p0) = moff →
     Z.of_nat (length t) = bufsize - moff - 8 →
     buf = (p0 ++ encode_header ID_CODE request flags) ++ t →
     Q (Some (Pkt buf bufsize (moff + 8))) (Mem c a')) →
  wp (new_packet srv request flags size) Q (Mem c a).
Proof.
  intros Ha Hm Hm0 Hb Hle HQ. unfold new_packet. rewrite <-Hm, <-Hb. wp_simpl.
  apply wp_malloc; [done|]. cbn iota. cbn [deref]. wp_simpl.
  set (b := replicate (Z.to_nat bufsize) (al_junk a)).
  assert (length b = Z.to_nat bufsize) as Hlb by apply length_replicate.
  rewrite <-(take_drop (Z.to_nat moff) b). set (p0 := take _ b). set (t0 := drop _ b).
  assert (length p0 = Z.to_nat moff) as Hp0 by (unfold p0; rewrite length_take; lia).
  assert (length t0 = Z.to_nat (bufsize - moff)) as Ht0 by (unfold t0; rewrite length_drop; lia).
  rewrite store_htonl, !store_htons. do 3 put_next.
  match goal with |- context [Pkt (_ ++ ?t)] => apply (HQ p0 t) end; [by auto with nmdb|lia| |by unfold encode_header; rewrite !(assoc_L (++))]. lia.
Qed.

(** Appending to a buffer of which [p] is filled in. *)
Lemma wp_append_1v p t off d c a (Q : bytes * Z → mem (client E) → Prop) :
  off = Z.of_nat (length p) → (4 + length d ≤ length t)%nat →
  (∀ buf n t', buf = (p ++ be_size d ++ d) ++ t' → (length buf = length (p ++ t))%nat →
     n = Z.of_nat (length (be_size d ++ d)) → Q (buf, n) (Mem c a)) →
  wp (append_1v (p ++ t) off d) Q (Mem c a).
Proof.
  intros Ho Hl HQ. unfold append_1v. rewrite store_htonl. fold (be_size d). wp_simpl.
  do 2 put_next. match goal with |- Q (_ ++ ?t, _) _ => apply (HQ _ _ t) end; [by rewrite !(assoc_L (++))|sizes|sizes].
Qed.

Lemma wp_append_2v p t off d1 d2 c a (Q : bytes * Z → mem (client E) → Prop) :
  off = Z.of_nat (length p) → (8 + length d1 + length d2 ≤ length t)%nat →
  (∀ buf n t', let e := be_size d1 ++ be_size d2 ++ d1 ++ d2 in
     buf = (p ++ e) ++ t' → (length buf = length (p ++ t))%nat →
     n = Z.of_nat (length e) → Q (buf, n) (Mem c a)) →
  wp (append_2v (p ++ t) off d1 d2) Q (Mem c a).
Proof.
  intros Ho Hl HQ. unfold append_2v. rewrite !store_htonl. fold (be_size d1) (be_size d2). wp_simpl.
  do 4 put_next. match goal with |- Q (_ ++ ?t, _) _ => apply (HQ _ _ t) end; [by rewrite !(assoc_L (++))|sizes|sizes].
Qed.

Lemma wp_append_3v p t off d1 d2 d3 c a (Q : bytes * Z → mem (client E) → Prop) :
  off = Z.of_nat (length p) → (12 + length d1 + length d2 + length d3 ≤ length t)%nat →
  (∀ buf n t', let e := be_size d1 ++ be_size d2 ++ be_size d3 ++ d1 ++ d2 ++ d3 in
     buf = (p ++ e) ++ t' → (length buf = length (p ++ t))%nat →
     n = Z.of_nat (length e) → Q (buf, n) (Mem c a)) →
  wp (append_3v (p ++ t) off d1 d2 d3) Q (Mem c a).
Proof.
  intros Ho Hl HQ. unfold append_3v. rewrite !store_htonl.
  fold (be_size d1) (be_size d2) (be_size d3). wp_simpl.
  do 6 put_next. match goal with |- Q (_ ++ ?t, _) _ => apply (HQ _ _ t) end; [by rewrite !(assoc_L (++))|sizes|sizes].
Qed.
End packets.

(** ** Selecting a server *)

Lemma checksum_loop_total fuel buf bsize sum :
  (Z.to_nat bsize ≤ 2 * fuel)%nat → bsize ≤ Z.of_nat (length buf) → 0 ≤ bsize →
  ∃ n, ∀ S (s : S), checksum_loop fuel buf bsize sum s = Some (n, s).
Proof.
  revert buf bsize sum. induction fuel as [|fuel IH]; intros buf bsize sum Hf Hl H0;
    cbn [checksum_loop]; destruct (1 <? bsize) eqn:E1.
  - apply Z.ltb_lt in E1. lia.
  - apply Z.ltb_ge in E1. rewrite (proj2 (Z.ltb_ge 0 bsize)) by lia. by eexists.
  - apply Z.ltb_lt in E1.
    destruct (IH (drop 1 buf) (bsize - 2) (w32 (sum + le_combine (take 2 (drop (Z.to_nat 0) buf)))))
      as [n Hn]; [lia|rewrite length_drop; lia|lia|].
    exists n. intros S s.
    pose proof (wp_load 2 buf 0 (λ w t, w = le_combine (take 2 (drop (Z.to_nat 0) buf)) ∧ t = s) s) as Hw.
    unfold mbind, M_bind.
    destruct (proj1 (wp_exec _ _ _) (Hw ltac:(lia) ltac:(lia) ltac:(done))) as (w & t & -> & -> & ->).
    apply Hn.
  - apply Z.ltb_ge in E1. destruct (0 <? bsize) eqn:E2; [|by eexists].
    apply Z.ltb_lt in E2. destruct buf as [|x buf]; [cbn in Hl; lia|].
    eexists. intros S s. unfold byte_at. rewrite bool_decide_true by (cbn; lia). reflexivity.
Qed.

(** The hash of a key, and the server it selects. *)
Definition key_sum (key : bytes) : Z :=
  match checksum key (Z.of_nat (length key)) tt with Some (n, _) => n | None => 0 end.

Lemma checksum_total key S (s : S) :
  checksum key (Z.of_nat (length key)) s = Some (key_sum key, s).
Proof.
  unfold key_sum, checksum.
  destruct (checksum_loop_total (length key) key (Z.of_nat (length key)) 0) as [n Hn]; [lia..|].
  unfold mbind, M_bind. by rewrite !Hn.
Qed.

Lemma key_sum_range key : 0 ≤ key_sum key < 2 ^ 32.
Proof.
  unfold key_sum, checksum, mbind, M_bind.
  destruct (checksum_loop_total (length key) key (Z.of_nat (length key)) 0) as [n Hn]; [lia..|].
  rewrite Hn. apply w32_range.
Qed.

Definition server_for (srvs : list nmdb_srv) (key : bytes) : option nmdb_srv :=
  if decide (srvs = []) then None
  else srvs !! Z.to_nat (key_sum key mod Z.of_nat (length srvs)).

Lemma server_for_total srvs key : srvs ≠ [] → is_Some (server_for srvs key).
Proof.
  intros Hne. unfold server_for. rewrite decide_False by done. apply lookup_lt_is_Some_2.
  assert (0 < Z.of_nat (length srvs)) by (destruct srvs; cbn; [done|lia]).
  pose proof (Z.mod_pos_bound (key_sum key) (Z.of_nat (length srvs)) ltac:(lia)). lia.
Qed.

(** ** What the hash looks at *)

Lemma load_prefix {S} n p t off (s : S) :
  0 ≤ off → off + Z.of_nat n ≤ Z.of_nat (length p) → load n (p ++ t) off s = load n p off s.
Proof.
  intros H0 Hl. unfold load. rewrite !bool_decide_true by done.
  rewrite !in_block_true by (rewrite ?length_app; lia). cbn [andb]. unfold load_le.
  rewrite drop_app_le by lia. rewrite take_app_le by (rewrite length_drop; lia). done.
Qed.

(** The loop reads the first half of the key, and one byte more. *)
Lemma checksum_loop_prefix {S} fuel p t bsize sum (s : S) :
  0 ≤ bsize → bsize / 2 + 1 ≤ Z.of_nat (length p) →
  checksum_loop fuel (p ++ t) bsize sum s = checksum_loop fuel p bsize sum s.
Proof.
  revert p bsize sum s. induction fuel as [|fuel IH]; intros p bsize sum s H0 Hp; cbn [checksum_loop];
    (destruct (1 <? bsize) eqn:E1; [apply Z.ltb_lt in E1|apply Z.ltb_ge in E1]); try done.
  - destruct (0 <? bsize) eqn:E2; [apply Z.ltb_lt in E2|done].
    pose proof (Z.div_pos bsize 2 ltac:(lia) ltac:(lia)). destruct p as [|x p]; [cbn [length] in Hp; lia|].
    unfold byte_at. by rewrite !bool_decide_true by (cbn; lia).
  - assert (bsize = (bsize - 2) + 1 * 2) as Eb by lia.
    assert (bsize / 2 = (bsize - 2) / 2 + 1) as Eh by (rewrite Eb at 1; by rewrite Z.div_add by lia).
    pose proof (Z.div_pos (bsize - 2) 2 ltac:(lia) ltac:(lia)).
    unfold mbind, M_bind. rewrite load_prefix by lia.
    destruct (load 2 p 0 s) as [[w s']|]; [|done].
    rewrite drop_app_le by lia. apply IH; [lia|]. rewrite length_drop. lia.
  - destruct (0 <? bsize) eqn:E2; [apply Z.ltb_lt in E2|done].
    pose proof (Z.div_pos bsize 2 ltac:(lia) ltac:(lia)). destruct p as [|x p]; [cbn [length] in Hp; lia|].
    unfold byte_at. by rewrite !bool_decide_true by (cbn; lia).
Qed.

Lemma key_sum_prefix p t1 t2 :
  length t1 = length t2 → (length t1 < length p)%nat → key_sum (p ++ t1) = key_sum (p ++ t2).
Proof.
  intros Ht Hl. unfold key_sum, checksum. rewrite !length_app, Ht. unfold mbind, M_bind.
  pose proof (Z.mul_div_le (Z.of_nat (length p + length t2)) 2 ltac:(lia)).
  rewrite !checksum_loop_prefix by lia. done.
Qed.

Section operations.
Context {E : Type} `{Kernel E}.

Lemma wp_select_srv key c a (Q : option nmdb_srv → mem (client E) → Prop) :
  Q (server_for (c_servers c) key) (Mem c a) → wp (select_srv key) Q (Mem c a).
Proof.
  intros HQ. unfold select_srv. wp_simpl. unfold server_for in HQ.
  destruct (decide (c_servers c = [])) as [->|Hne]; [by cbn; wp_simpl|].
  assert (0 < Z.of_nat (length (c_servers c))) by (destruct (c_servers c); cbn; [done|lia]).
  rewrite (proj2 (Z.eqb_neq _ 0)) by lia. apply wp_bind, wp_exec.
  eexists _, _. split; [apply checksum_total|].
  pose proof (server_for_total (c_servers c) key Hne) as [s Hs].
  unfold server_for in Hs. rewrite decide_False in Hs by done. rewrite Hs in HQ |- *. by wp_simpl.
Qed.
End operations.

(** ** What a server promises *)

(** The code of a reply, as the client reads it. *)
Definition rep_code (r : reply) : Z :=
  match r with reply_mini _ c => c | reply_err _ _ => REP_ERR | reply_long _ c _ => c end.

(** A request that the protocol can carry, with its flags. *)
Record sendable (f : Z) (m : areq) : Prop := Sendable {
  sd_msg : msg_ok m;
  sd_store : storable m;
  sd_flags : 0 ≤ f < 2 ^ 16;
  sd_cache : truth (Z.land f FLAGS_CACHE_ONLY) = true → writes m = false;
}.

Lemma length_wire r :
  length (wire r) = match r with
                    | reply_mini _ _ => 8 | reply_err _ _ => 12
                    | reply_long _ _ v => 12 + length v
                    end%nat.
Proof. destruct r; cbn; rewrite ?length_app, ?length_be_split; reflexivity. Qed.

Lemma wire_head r : ∃ t, wire r = put32 (r_id (reply_req r)) ++ be_split 4 (rep_code r) ++ t.
Proof.
  destruct r; cbn; [exists []; by rewrite !app_nil_r|by eexists|by eexists].
Qed.

(** The size of the packet of a request. *)
Definition packet_len (m : areq) : Z := Z.of_nat (length (encode ID_CODE 0 m)).

Lemma packet_len_flags f m : Z.of_nat (length (encode ID_CODE f m)) = packet_len m.
Proof.
  unfold packet_len, encode, encode_header.
  by destruct m; rewrite !length_app, !length_be_split.
Qed.

(** [exchanged s c a p0 pkt t r e]: the library sends the packet [pkt], which
    lies behind [p0] in a buffer that ends with [t], and receives [r] in the
    same buffer; the network is then [e]. *)
Definition exchanged {E} `{Kernel E} (s : nmdb_srv) (c : client E) (a : alloc) (p0 pkt t : bytes)
    (r : reply) (e : E) : Prop :=
  ∃ buf e1 p1 t1, length p1 = length p0 ∧
    srv_send (Some s) (p0 ++ pkt ++ t) (Z.of_nat (length (p0 ++ pkt))) (Mem c a) =
      Some ((1, buf), Mem (set_net e1 c) a) ∧
    get_rep (Some s) buf (Z.of_nat (length (p0 ++ pkt ++ t))) (Mem (set_net e1 c) a) =
      Some (Answer (rep_code r) (p1 ++ wire r ++ t1) (Z.of_nat (length p1) + 8)
              (Z.of_nat (length (wire r)) - 8), Mem (set_net e c) a).

(** The request [m], with the flags [f], is answered right over the transport of
    [s], by a server that has the map [M] when it handles it, provided that the
    answer fits the buffer; [R] is what is known of the answer and of the
    network after it. *)
Definition promised {E} `{Kernel E} (s : nmdb_srv) (c : client E) (M : store) (f : Z) (m : areq)
    (R : reply → E → Prop) : Prop :=
  ∀ a p0 t,
    Z.of_nat (length p0) = srv_get_msg_offset (Some s) →
    Z.of_nat (length (p0 ++ encode ID_CODE f m ++ t)) < 2 ^ 32 →
    ∃ q r, r_flags q = f ∧ answers (Point q m false M) r ∧
      ((length p0 + length (wire r) ≤ length (p0 ++ encode ID_CODE f m ++ t))%nat →
       ∃ e, exchanged s c a p0 (encode ID_CODE f m) t r e ∧ R r e).

(** The server [s] stands for a map: every request whose packet has at most
    [svc_limit] bytes is answered right, and the map changes as the request
    says. [svc_more] is what else a server promises of an exchange. *)
Class MapService (E : Type) `{Kernel E} (s : nmdb_srv) := {
  svc_is : E → store → Prop;
  svc_more : E → areq → reply → E → Prop;
  svc_limit : Z;
  svc_fits e M : svc_is e M → vals_fit M;
  svc_exchange c M f m :
    svc_is (c_net c) M → sendable f m → packet_len m ≤ svc_limit →
    promised s c M f m (λ r e, svc_more (c_net c) m r e ∧ svc_is e (effect m M));
}.

Section sys.
Context {E : Type} `{Kernel E}.

Lemma wp_sys {A} (g : E → A * E) c a x e (Q : A → mem (client E) → Prop) :
  g (c_net c) = (x, e) → Q x (Mem (set_net e c) a) → wp (sys g) Q (Mem c a).
Proof. intros Hg HQ. unfold sys. wp_simpl. rewrite Hg. by wp_simpl. Qed.

Lemma msg_offset_range s : 0 ≤ srv_get_msg_offset (Some s) ≤ 4.
Proof. unfold srv_get_msg_offset. by repeat case_match. Qed.

Lemma wp_exit {A} buf (rv : A) (Q : A → mem (client E) → Prop) t :
  Q rv t → wp (exit_with buf rv) Q t.
Proof. intros HQ. unfold exit_with. cbn [free]. by wp_simpl. Qed.
End sys.

Lemma length_header i q f : length (encode_header i q f) = 8%nat.
Proof. unfold encode_header. by rewrite !length_app, !length_be_split. Qed.

Lemma answer_code r x : r = x → rep_code r = rep_code x.
Proof. by intros ->. Qed.

Lemma rep_code_range p r : answers p r → 0 ≤ rep_code r < 2 ^ 32.
Proof.
  intros [_ Hr]. assert (∀ x, r = x → 0 ≤ rep_code x < 2 ^ 32 → 0 ≤ rep_code r < 2 ^ 32) as Hx
    by by intros ? ->.
  destruct (p_ro p && writes (p_msg p)); [by eapply Hx|].
  destruct (p_msg p) as [k|k v|k|k o n|k n| |k| | |].
  - destruct (p_map p !! k); [destruct Hr as [Hr|Hr]|]; [by eapply Hx| |];
      destruct (cache_only (p_req p)); by eapply Hx.
  - by eapply Hx.
  - eapply Hx; [exact Hr|]. cbn. by case_match.
  - eapply Hx; [exact Hr|]. cbn. by repeat case_match.
  - destruct (p_map p !! k) as [v|]; [destruct (ends_nul v)|]; by eapply Hx.
  - destruct Hr as [Hr|[Hr|(x & Hr & _)]]; by eapply Hx.
  - destruct Hr as [Hr|[Hr|(x & Hr & _)]]; by eapply Hx.
  - destruct Hr as [x Hr]. by eapply Hx.
  - by eapply Hx.
  - by eapply Hx.
Qed.

(** ** Datagram transports *)

Definition is_dgram (s : nmdb_srv) : Prop :=
  sv_type s = TIPC_CONN ∨ sv_type s = UDP_CONN ∨ sv_type s = SCTP_CONN.

(** The promise at the level of the kernel's datagrams: each request is one,
    and each reply is one, with the ID of the request. *)
Class DgramService (E : Type) `{Kernel E} (s : nmdb_srv) := {
  dg_is : E → store → Prop;
  dg_more : E → areq → reply → E → Prop;
  dg_fits e M : dg_is e M → vals_fit M;
  dg_exchange e M f m : dg_is e M → sendable f m →
    ∃ e1 e2 q r,
      k_sendto s (encode ID_CODE f m) e = (Z.of_nat (length (encode ID_CODE f m)), e1) ∧
      (∀ n, Z.of_nat (length (wire r)) ≤ n → k_recv (sv_fd s) n e1 = (Some (wire r), e2)) ∧
      put32 (r_id (reply_req r)) = be_split 4 ID_CODE ∧
      r_flags q = f ∧ answers (Point q m false M) r ∧
      dg_more e m r e2 ∧ dg_is e2 (effect m M);
}.

Section dgram.
Context {E : Type} `{Kernel E} (s : nmdb_srv) (Hs : is_dgram s).

Lemma srv_send_dgram buf n : srv_send (Some s) buf n = dgram_srv_send s buf n.
Proof. unfold srv_send. by destruct Hs as [-> | [-> | ->]]. Qed.

Lemma get_rep_dgram buf n : get_rep (Some s) buf n = dgram_get_rep s buf n.
Proof. unfold get_rep. by destruct Hs as [-> | [-> | ->]]. Qed.

Lemma msg_offset_dgram : srv_get_msg_offset (Some s) = 0.
Proof. unfold srv_get_msg_offset. by destruct Hs as [-> | [-> | ->]]. Qed.

(** A datagram goes as a whole. *)
Lemma wp_dgram_srv_send p t n e c a (Q : Z * bytes → mem (client E) → Prop) :
  n = Z.of_nat (length p) → (0 < length p)%nat →
  k_sendto s p (c_net c) = (n, e) → Q (1, p ++ t) (Mem (set_net e c) a) →
  wp (srv_send (Some s) (p ++ t) n) Q (Mem c a).
Proof.
  intros Hn Hp Hk HQ. rewrite srv_send_dgram. unfold dgram_srv_send.
  apply wp_bind, wp_read_prefix; [done|]. apply wp_bind. eapply wp_sys; [done|].
  wp_simpl. by rewrite (proj2 (Z.leb_gt n 0)) by lia.
Qed.

(** A reply to the request of this client is read as its code and payload. *)
Lemma wp_dgram_get_rep buf r e c a (Q : answer → mem (client E) → Prop) :
  (length (wire r) ≤ length buf)%nat → Z.of_nat (length buf) < 2 ^ 32 → 0 ≤ rep_code r < 2 ^ 32 →
  put32 (r_id (reply_req r)) = be_split 4 ID_CODE →
  (∀ n, Z.of_nat (length (wire r)) ≤ n → k_recv (sv_fd s) n (c_net c) = (Some (wire r), e)) →
  (∀ t, (length (wire r ++ t) = length buf)%nat →
     Q (Answer (rep_code r) (wire r ++ t) 8 (Z.of_nat (length (wire r)) - 8)) (Mem (set_net e c) a)) →
  wp (get_rep (Some s) buf (Z.of_nat (length buf))) Q (Mem c a).
Proof.
  intros Hl Hb Hc Hid Hk HQ. rewrite get_rep_dgram. unfold dgram_get_rep, recv.
  apply wp_bind, wp_bind. eapply wp_sys; [apply Hk; lia|]. apply wp_bind.
  apply (wp_memcpy_at [] buf); [done|done|done|]. intros t Ht. cbn [app]. wp_simpl.
  destruct (wire_head r) as [w Hw]. pose proof (length_wire r) as Hlw.
  assert (8 ≤ length (wire r))%nat by (rewrite Hlw; destruct r; lia).
  rewrite (proj2 (Z.ltb_ge _ (4 + 4))) by lia.
  assert (wire r ++ t = be_split 4 ID_CODE ++ be_split 4 (rep_code r) ++ w ++ t) as Eb
    by by rewrite Hw, Hid, <-!(assoc_L (++)).
  apply wp_bind. rewrite Eb at 1. apply (wp_load_at 4 []); [done|by rewrite length_be_split|].
  apply wp_bind. rewrite Eb at 1.
  apply (wp_load_at 4); [by rewrite length_be_split|by rewrite length_be_split|].
  rewrite !ntohl_le_combine, !be_combine_split by by rewrite length_be_split.
  change (ID_CODE mod _) with ID_CODE. cbn [negb Z.eqb ID_CODE Pos.eqb]. wp_simpl.
  change (2 ^ (Z.of_nat 4 * 8)) with (2 ^ 32). rewrite (Z.mod_small (rep_code r)) by done.
  rewrite w64_small by lia.
  replace (Z.of_nat _ - 4 - 4) with (Z.of_nat (length (wire r)) - 8) by lia.
  apply HQ. rewrite length_app. lia.
Qed.

(** A kernel that takes the request's datagram and then has the reply's. *)
Lemma dgram_promised c M f m R q r e1 e2 :
  msg_ok m → r_flags q = f → answers (Point q m false M) r →
  put32 (r_id (reply_req r)) = be_split 4 ID_CODE →
  k_sendto s (encode ID_CODE f m) (c_net c) = (Z.of_nat (length (encode ID_CODE f m)), e1) →
  (∀ n, Z.of_nat (length (wire r)) ≤ n → k_recv (sv_fd s) n e1 = (Some (wire r), e2)) →
  R r e2 → promised s c M f m R.
Proof.
  intros Hm Hf Hr Hid Hk1 Hk2 HR a p0 t Hp0 Hl. exists q, r. split; [done|]. split; [done|]. intros Hfit.
  rewrite msg_offset_dgram in Hp0. destruct p0; [|cbn [length] in Hp0; lia]. cbn [app length] in *.
  pose proof (encode_bounds ID_CODE f m Hm) as Hb.
  assert (wp (srv_send (Some s) (encode ID_CODE f m ++ t) (Z.of_nat (length (encode ID_CODE f m))))
    (λ x u, x = (1, encode ID_CODE f m ++ t) ∧ u = Mem (set_net e1 c) a) (Mem c a)) as Hw1
    by by eapply wp_dgram_srv_send; [..|done|]; [|lia|].
  assert (wp (get_rep (Some s) (encode ID_CODE f m ++ t) (Z.of_nat (length (encode ID_CODE f m ++ t))))
    (λ x u, ∃ t1, x = Answer (rep_code r) (wire r ++ t1) 8 (Z.of_nat (length (wire r)) - 8) ∧
       u = Mem (set_net e2 c) a) (Mem (set_net e1 c) a)) as Hw2.
  { eapply (wp_dgram_get_rep _ r e2); [lia|done|by eapply rep_code_range|done|done|]. intros t1 _. by exists t1. }
  apply wp_eq in Hw1. apply wp_exec in Hw2 as (x & u & Hw2 & t1 & -> & ->).
  exists e2. split; [|done]. by exists (encode ID_CODE f m ++ t), e1, [], t1.
Qed.

(** Datagrams as a transport, which carries every packet. *)
Definition dgram_map `{!DgramService E s} : MapService E s.
Proof.
  refine {| svc_is := dg_is; svc_more := dg_more; svc_limit := 8 + 12 + max_size; svc_fits := dg_fits |}.
  intros c M f m HM Hsd _.
  destruct (dg_exchange (c_net c) M f m HM Hsd) as (e1 & e2 & q & r & Hk1 & Hk2 & Hid & Hf & Hr & Hmore & HM').
  by eapply dgram_promised; [apply Hsd|..].
Defined.
End dgram.

Arguments dgram_map {E _ s} _ {_}.

(** ** The operations of a map *)

(** The sizes of a packet of which [e] are the arguments. *)
Ltac packet_size :=
  repeat match goal with e := _ : list _ |- _ => subst e end;
  unfold encode, encode_args in *;
  rewrite ?length_app, ?length_header, ?length_be_size, ?length_be_split in *; lia.

Section ops.
Context {E : Type} `{Kernel E} (s : nmdb_srv) (c : client E).

Abbreviation moff := (srv_get_msg_offset (Some s)).

(** What every operation comes to, once its packet is built: [k] is what it
    does with the answer, [err] what it does when the packet is not sent. *)
Definition ask {A} (f : Z) (m : areq) (p0 t : bytes) (k : answer → MT (client E) A)
    (err : bytes → MT (client E) A) : MT (client E) A :=
  r ← srv_send (Some s) ((p0 ++ encode ID_CODE f m) ++ t) (Z.of_nat (length (p0 ++ encode ID_CODE f m)));
  let '(n, buf) := r : Z * bytes in
  if n <=? 0 then err buf else
  an ← get_rep (Some s) buf (Z.of_nat (length ((p0 ++ encode ID_CODE f m) ++ t))); k an.

Lemma wp_as_ask {A} f m p0 t n bufsize k err (Q : A → mem (client E) → Prop) a :
  n = Z.of_nat (length (p0 ++ encode ID_CODE f m)) →
  bufsize = Z.of_nat (length ((p0 ++ encode ID_CODE f m) ++ t)) →
  wp (ask f m p0 t k err) Q (Mem c a) →
  wp (r ← srv_send (Some s) ((p0 ++ encode ID_CODE f m) ++ t) n;
      let '(t, buf) := r : Z * bytes in
      if t <=? 0 then err buf else
      an ← get_rep (Some s) buf bufsize; k an) Q (Mem c a).
Proof. by intros -> ->. Qed.

(** The promised answer. *)
Lemma wp_ask {A} M f m p0 t R k err (Q : A → mem (client E) → Prop) a :
  promised s c M f m R → Z.of_nat (length p0) = moff →
  Z.of_nat (length ((p0 ++ encode ID_CODE f m) ++ t)) < 2 ^ 32 →
  (∀ q r, r_flags q = f → answers (Point q m false M) r →
     (length p0 + length (wire r) ≤ length ((p0 ++ encode ID_CODE f m) ++ t))%nat) →
  (∀ e q r p1 t1, R r e → r_flags q = f → answers (Point q m false M) r →
     wp (k (Answer (rep_code r) (p1 ++ wire r ++ t1) (Z.of_nat (length p1) + 8)
              (Z.of_nat (length (wire r)) - 8))) Q (Mem (set_net e c) a)) →
  wp (ask f m p0 t k err) Q (Mem c a).
Proof.
  intros Hpr Hp0 Hb Hlen HQ. unfold ask. rewrite <-(assoc_L (++)) in *.
  destruct (Hpr a p0 t Hp0 Hb) as (q & r & Hf & Hr & Hex).
  destruct Hex as (e & (buf & e1 & p1 & t1 & Hp1 & Hw1 & Hw2) & HR); [by eapply Hlen|].
  apply wp_bind, wp_exec. exists (1, buf), (Mem (set_net e1 c) a). split; [exact Hw1|].
  cbn [Z.leb Z.compare]. apply wp_bind, wp_exec. eexists _, _. split; [exact Hw2|].
  by eapply HQ.
Qed.

(** What the operations do with an answer. *)
Definition set_end (an : answer) : MT (client E) Z :=
  if an_code an =? REP_OK then exit_with (an_buf an) 1 else exit_with (an_buf an) (-1).
Definition del_end (an : answer) : MT (client E) Z :=
  if an_code an =? REP_OK then exit_with (an_buf an) 1
  else if an_code an =? REP_NOTIN then exit_with (an_buf an) 0
  else exit_with (an_buf an) (-1).
Definition cas_end (an : answer) : MT (client E) Z :=
  if an_code an =? REP_OK then exit_with (an_buf an) 2
  else if an_code an =? REP_NOMATCH then exit_with (an_buf an) 1
  else if an_code an =? REP_NOTIN then exit_with (an_buf an) 0
  else exit_with (an_buf an) (-1).
Definition incr_end (want : bool) (an : answer) : MT (client E) (Z * option Z) :=
  if an_code an =? REP_OK then
    if want && (an_psize an =? 8 + 4) then
      w ← load 8 (an_buf an) (an_payload an + 4);
      exit_with (an_buf an) (2, Some (s64 (ntohll w)))
    else exit_with (an_buf an) (2, None)
  else if an_code an =? REP_NOMATCH then exit_with (an_buf an) (1, None)
  else if an_code an =? REP_NOTIN then exit_with (an_buf an) (0, None)
  else exit_with (an_buf an) (-1, None).
Definition get_end (vsize : Z) (an : answer) : MT (client E) (Z * bytes) :=
  let reply := an_code an in
  if (reply =? REP_CACHE_MISS) || (reply =? REP_NOTIN) then exit_with (an_buf an) (-1, [])
  else if reply =? REP_ERR then exit_with (an_buf an) (-2, [])
  else if negb (reply =? REP_OK) && negb (reply =? REP_CACHE_HIT)
  then exit_with (an_buf an) (-2, [])
  else rv ← read_value an vsize; exit_with (an_buf an) rv.

(** *** Building the packets *)

Section packet.
Context (a : alloc) (Ha : never_fails a).

Lemma wp_packet request flags size bufsize (Q : option packet_buf → mem (client E) → Prop) :
  bufsize = (if size =? -1 then 68 * 1024 else moff + 8 + size) → moff + 8 ≤ bufsize →
  (∀ p0 t a', never_fails a' → Z.of_nat (length p0) = moff →
     Z.of_nat (length t) = bufsize - moff - 8 →
     Q (Some (Pkt ((p0 ++ encode_header ID_CODE request flags) ++ t) bufsize (moff + 8))) (Mem c a')) →
  wp (new_packet (Some s) request flags size) Q (Mem c a).
Proof.
  intros Hb Hle HQ. pose proof (msg_offset_range s).
  eapply (wp_new_packet _ _ _ _ bufsize moff); [done|done|lia|done|done|].
  intros p0 t a' buf Ha' Hp Ht ->. by apply HQ.
Qed.

(** The buffer of a request: [bufsize] bytes, the packet behind the room that
    the transport needs. *)
Definition packet_for (f : Z) (m : areq) (bufsize : Z) (p0 t : bytes) : Prop :=
  Z.of_nat (length p0) = moff ∧ Z.of_nat (length ((p0 ++ encode ID_CODE f m) ++ t)) = bufsize.

Context (key : bytes) (Hsel : server_for (c_servers c) key = Some s).

Ltac start size :=
  pose proof (msg_offset_range s); apply wp_bind, wp_select_srv; rewrite Hsel; apply wp_bind;
  eapply (wp_packet _ _ _ size); [first [done|by rewrite (proj2 (Z.eqb_neq _ _)) by lia]|lia|];
  let p0 := fresh "p0" in intros p0 t a' Ha' Hp0 Ht; cbn iota;
  cbn [pk_buf pk_size pk_payload]; apply wp_bind.
Ltac asks HQ :=
  apply wp_as_ask; [packet_size|packet_size|]; apply HQ; [done|split; [done|packet_size]].

Lemma wp_do_set_asks val flags (Q : Z → mem (client E) → Prop) :
  let f := Z.land flags (Z.lor NMDB_CACHE_ONLY NMDB_SYNC) in
  let m := ASet key val in
  msg_ok m →
  (∀ p0 t a', never_fails a' →
     packet_for f m (moff + 8 + (8 + Z.of_nat (length key) + Z.of_nat (length val))) p0 t →
     wp (ask f m p0 t set_end (λ buf, exit_with buf (-1))) Q (Mem c a')) →
  wp (do_set key val flags) Q (Mem c a).
Proof.
  intros f m Hm HQ. cbn in Hm. unfold max_size in Hm. unfold do_set. fold f.
  start (moff + 8 + (4 * 2 + Z.of_nat (length key) + Z.of_nat (length val))).
  apply wp_append_2v; [rewrite length_app, length_header; lia|lia|]. intros buf n t' e -> Hl ->. cbn iota.
  rewrite <-(assoc_L (++) p0) in *. change (encode_header ID_CODE REQ_SET f ++ e) with (encode ID_CODE f m) in *.
  subst m. asks HQ.
Qed.

Lemma wp_do_del_asks flags (Q : Z → mem (client E) → Prop) :
  let f := Z.land flags (Z.lor NMDB_CACHE_ONLY NMDB_SYNC) in
  let m := ADel key in
  msg_ok m →
  (∀ p0 t a', never_fails a' → packet_for f m (moff + 8 + (4 + Z.of_nat (length key))) p0 t →
     wp (ask f m p0 t del_end (λ buf, exit_with buf (-1))) Q (Mem c a')) →
  wp (do_del key flags) Q (Mem c a).
Proof.
  intros f m Hm HQ. cbn in Hm. unfold max_size in Hm. unfold do_del. fold f.
  start (moff + 8 + (4 + Z.of_nat (length key))).
  apply wp_append_1v; [rewrite length_app, length_header; lia|lia|]. intros buf n t' -> Hl ->. cbn iota.
  rewrite <-(assoc_L (++) p0) in *.
  change (encode_header ID_CODE REQ_DEL f ++ be_size key ++ key) with (encode ID_CODE f m) in *.
  subst m. asks HQ.
Qed.

Lemma wp_do_cas_asks oldval newval flags (Q : Z → mem (client E) → Prop) :
  let f := Z.land flags NMDB_CACHE_ONLY in
  let m := ACas key oldval newval in
  msg_ok m →
  (∀ p0 t a', never_fails a' →
     packet_for f m (moff + 8 + (12 + Z.of_nat (length key) + Z.of_nat (length oldval) + Z.of_nat (length newval))) p0 t →
     wp (ask f m p0 t cas_end (λ buf, exit_with buf (-1))) Q (Mem c a')) →
  wp (do_cas key oldval newval flags) Q (Mem c a).
Proof.
  intros f m Hm HQ. cbn in Hm. unfold max_size in Hm. unfold do_cas. fold f.
  start (moff + 8 + (4 * 3 + Z.of_nat (length key) + Z.of_nat (length oldval) + Z.of_nat (length newval))).
  apply wp_append_3v; [rewrite length_app, length_header; lia|lia|]. intros buf n t' e -> Hl ->. cbn iota.
  rewrite <-(assoc_L (++) p0) in *. change (encode_header ID_CODE REQ_CAS f ++ e) with (encode ID_CODE f m) in *.
  subst m. asks HQ.
Qed.

Lemma wp_do_incr_asks increment want flags (Q : Z * option Z → mem (client E) → Prop) :
  let f := Z.land flags NMDB_CACHE_ONLY in
  let m := AIncr key increment in
  msg_ok m →
  (∀ p0 t a', never_fails a' → packet_for f m (moff + 8 + (4 + Z.of_nat (length key) + 8)) p0 t →
     wp (ask f m p0 t (incr_end want) (λ buf, exit_with buf (-1, None))) Q (Mem c a')) →
  wp (do_incr key increment want flags) Q (Mem c a).
Proof.
  intros f m Hm HQ. cbn in Hm. unfold max_size in Hm. unfold do_incr. fold f.
  start (moff + 8 + (4 + Z.of_nat (length key) + 8)).
  apply wp_append_1v; [rewrite length_app, length_header; lia|lia|]. intros buf n t' -> Hl Hn. cbn iota.
  rewrite !length_app, length_header, length_be_size in Hl. rewrite length_app, length_be_size in Hn.
  change (store_le 8 (htonll (w64 increment))) with (le_split 8 (htonll (w64 increment))).
  rewrite le_split_htonll. apply wp_bind.
  apply wp_memcpy_at; [rewrite !length_app, length_header, length_be_size; lia|
    by rewrite length_be_split|rewrite length_be_split; lia|].
  intros t2 Ht2. rewrite length_be_split in Ht2. cbn zeta.
  assert ((((p0 ++ encode_header ID_CODE REQ_INCR f) ++ be_size key ++ key) ++ be_split 8 (w64 increment)) =
    p0 ++ encode ID_CODE f m) as ->
    by by unfold encode; cbn [encode_args op_code m]; rewrite <-!(assoc_L (++)).
  subst m. asks HQ.
Qed.

Lemma wp_do_get_asks vsize flags (Q : Z * bytes → mem (client E) → Prop) :
  let f := Z.land flags NMDB_CACHE_ONLY in
  let m := AGet key in
  msg_ok m →
  (∀ p0 t a', never_fails a' → packet_for f m (68 * 1024) p0 t →
     wp (ask f m p0 t (get_end vsize) (λ buf, exit_with buf (-2, []))) Q (Mem c a')) →
  wp (do_get key vsize flags) Q (Mem c a).
Proof.
  intros f m Hm HQ. cbn in Hm. unfold max_size in Hm. unfold do_get. fold f.
  start (68 * 1024).
  apply wp_append_1v; [rewrite length_app, length_header; lia|lia|]. intros buf n t' -> Hl ->. cbn iota.
  rewrite <-(assoc_L (++) p0) in *.
  change (encode_header ID_CODE REQ_GET f ++ be_size key ++ key) with (encode ID_CODE f m) in *.
  subst m. apply (wp_as_ask _ _ _ _ _ _ (get_end vsize)); [packet_size|packet_size|].
  apply HQ; [done|split; [done|packet_size]].
Qed.

(** *** The promised answers *)

Context (M : store) (R : reply → E → Prop).

(** What an operation leaves: the same connection, and the network that was
    promised. *)
Definition left_by (t : mem (client E)) : Prop :=
  never_fails (heap t) ∧ c_servers (obj t) = c_servers c ∧ ∃ r, R r (c_net (obj t)).

Ltac answered Hpr := eapply wp_ask; [exact Hpr|done|packet_size|..].
Ltac ends := apply wp_exit; split; [|split; [done|split; [done|by eexists]]].

Lemma wp_do_set_on val flags :
  let f := Z.land flags (Z.lor NMDB_CACHE_ONLY NMDB_SYNC) in
  msg_ok (ASet key val) → promised s c M f (ASet key val) R →
  wp (do_set key val flags) (λ rv t, rv = 1 ∧ left_by t) (Mem c a).
Proof.
  intros f Hm Hpr. pose proof (msg_offset_range s). apply wp_do_set_asks; [done|]. fold f. cbn in Hm. unfold max_size in Hm.
  intros p0 t a' Ha' [Hp0 Hb]. answered Hpr.
  - intros q r Hf [_ Hr]. cbn in Hr. rewrite Hr, length_wire. packet_size.
  - intros e q r p1 t1 HR Hf [_ Hr]. cbn in Hr. unfold set_end. cbn [an_code]. rewrite (answer_code _ _ Hr).
    cbn [rep_code Z.eqb REP_OK Pos.eqb]. by ends.
Qed.

Lemma wp_do_del_on flags :
  let f := Z.land flags (Z.lor NMDB_CACHE_ONLY NMDB_SYNC) in
  msg_ok (ADel key) → promised s c M f (ADel key) R →
  wp (do_del key flags) (λ rv t,
    rv = (if truth (Z.land f FLAGS_SYNC) && bool_decide (M !! key = None) then 0 else 1) ∧
    left_by t) (Mem c a).
Proof.
  intros f Hm Hpr. pose proof (msg_offset_range s). apply wp_do_del_asks; [done|]. fold f. cbn in Hm. unfold max_size in Hm.
  intros p0 t a' Ha' [Hp0 Hb]. answered Hpr.
  - intros q r Hf [_ Hr]. cbn in Hr. rewrite Hr, length_wire. packet_size.
  - intros e q r p1 t1 HR Hf [_ Hr]. cbn in Hr. unfold del_end. cbn [an_code]. rewrite (answer_code _ _ Hr).
    unfold sync_flag in *. cbn [p_req] in *. rewrite Hf. cbn [rep_code an_buf].
    destruct (truth (Z.land f FLAGS_SYNC) && bool_decide (M !! key = None));
      cbn [Z.eqb REP_OK REP_NOTIN Pos.eqb]; by ends.
Qed.

Lemma wp_do_cas_on oldval newval flags :
  let f := Z.land flags NMDB_CACHE_ONLY in
  msg_ok (ACas key oldval newval) → promised s c M f (ACas key oldval newval) R →
  wp (do_cas key oldval newval flags) (λ rv t,
    rv = match M !! key with None => 0 | Some v => if decide (v = oldval) then 2 else 1 end ∧
    left_by t) (Mem c a).
Proof.
  intros f Hm Hpr. pose proof (msg_offset_range s). apply wp_do_cas_asks; [done|]. fold f. cbn in Hm. unfold max_size in Hm.
  intros p0 t a' Ha' [Hp0 Hb]. answered Hpr.
  - intros q r Hf [_ Hr]. cbn in Hr. rewrite Hr, length_wire. packet_size.
  - intros e q r p1 t1 HR Hf [_ Hr]. cbn in Hr. unfold cas_end. cbn [an_code]. rewrite (answer_code _ _ Hr).
    cbn [rep_code an_buf]. destruct (M !! key) as [v|]; [destruct (decide (v = oldval))|];
      cbn [Z.eqb REP_OK REP_NOMATCH REP_NOTIN Pos.eqb]; by ends.
Qed.

Lemma wp_do_incr_on increment want flags :
  let f := Z.land flags NMDB_CACHE_ONLY in
  msg_ok (AIncr key increment) → promised s c M f (AIncr key increment) R →
  wp (do_incr key increment want flags) (λ rv t,
    rv = match M !! key with
         | None => (0, None)
         | Some v => if ends_nul v then (2, if want then Some (incr_num v increment) else None)
                     else (1, None)
         end ∧
    left_by t) (Mem c a).
Proof.
  intros f Hm Hpr. pose proof (msg_offset_range s). apply wp_do_incr_asks; [done|]. fold f. cbn in Hm. unfold max_size in Hm.
  intros p0 t a' Ha' [Hp0 Hb]. answered Hpr.
  - intros q r Hf [_ Hr]. cbn in Hr. repeat case_match; rewrite Hr, length_wire;
      rewrite ?length_be_split; packet_size.
  - intros e q r p1 t3 HR Hf [_ Hr]. cbn in Hr. unfold incr_end. cbn [an_code an_buf an_psize an_payload].
    destruct (M !! key) as [v|]; [destruct (ends_nul v)|];
      rewrite (answer_code _ _ Hr); cbn [rep_code]; cbn [Z.eqb REP_OK REP_NOMATCH REP_NOTIN Pos.eqb];
      [|by ends..].
    assert (length (wire r) = 20%nat) as -> by by rewrite Hr, length_wire, length_be_split.
    destruct want; cbn [andb Z.eqb Z.of_nat Z.sub Z.add Z.pos_sub Pos.eqb]; [|by ends].
    change (Z.of_nat 20 - 8 =? 8 + 4) with true. cbn iota.
    apply wp_bind. rewrite Hr. cbn [wire]. rewrite length_be_split, <-!(assoc_L (++)).
    rewrite (assoc_L (++) p1), (assoc_L (++) (p1 ++ _)), (assoc_L (++) ((p1 ++ _) ++ _)).
    apply (wp_load_at 8); [rewrite !length_app, !length_be_split, length_put32; lia|by rewrite length_be_split|].
    rewrite ntohll_le_combine by by rewrite length_be_split.
    rewrite be_combine_split. change (2 ^ (Z.of_nat 8 * 8)) with (2 ^ 64).
    fold (w64 (w64 (incr_num v increment))). rewrite (w64_small (w64 _)) by apply w64_range.
    rewrite s64_w64, s64_small by apply incr_num_range. by ends.
Qed.

(** The value of a long reply. *)
Definition fetched (v : bytes) (vsize : Z) : Z * bytes :=
  if vsize <? Z.of_nat (length v) then (-2, []) else (Z.of_nat (length v), v).

Lemma wp_read_value p q code v t code' vsize (Q : Z * bytes → mem (client E) → Prop) st :
  Z.of_nat (length v) < 2 ^ 32 → Q (fetched v vsize) st →
  wp (read_value (Answer code' (p ++ wire (reply_long q code v) ++ t) (Z.of_nat (length p) + 8)
    (Z.of_nat (length (wire (reply_long q code v))) - 8)) vsize) Q st.
Proof.
  intros Hv HQ. unfold read_value. cbn [an_buf an_payload an_psize].
  rewrite length_wire. cbn [wire]. rewrite <-!(assoc_L (++)), (assoc_L (++) p), (assoc_L (++) (p ++ _)).
  apply wp_bind. apply (wp_load_at 4); [rewrite !length_app, length_be_split, length_put32; lia|
    by rewrite length_be_split|].
  rewrite ntohl_le_combine by by rewrite length_be_split. rewrite be_combine_split.
  change (2 ^ (Z.of_nat 4 * 8)) with (2 ^ 32). rewrite Z.mod_small by lia. cbn zeta.
  rewrite w64_small by lia. rewrite (proj2 (Z.ltb_ge _ _)) by lia. cbn [orb].
  unfold fetched in HQ. destruct (vsize <? Z.of_nat (length v)) eqn:Ev; [by wp_simpl|].
  apply wp_bind. rewrite (assoc_L (++) (_ ++ _)).
  apply wp_read_at; [rewrite !length_app, !length_be_split, length_put32; lia|done|]. by wp_simpl.
Qed.

Lemma wp_do_get_on vsize flags :
  let f := Z.land flags NMDB_CACHE_ONLY in
  vals_fit M → msg_ok (AGet key) → promised s c M f (AGet key) R →
  wp (do_get key vsize flags) (λ rv t,
    match M !! key with
    | Some v => rv = fetched v vsize ∨ truth (Z.land f FLAGS_CACHE_ONLY) = true ∧ rv = (-1, [])
    | None => rv = (-1, [])
    end ∧ left_by t) (Mem c a).
Proof.
  intros f HM Hm Hpr. pose proof (msg_offset_range s). apply wp_do_get_asks; [done|]. fold f. cbn in Hm. unfold max_size in Hm.
  assert (∀ v, M !! key = Some v → Z.of_nat (length v) ≤ 65536) as Hv
    by (intros v Ev; by destruct (HM key v Ev) as (_ & _ & Hv)).
  intros p0 t a' Ha' [Hp0 Hb]. answered Hpr.
  - intros q r Hf [_ Hr]. cbn in Hr. rewrite length_wire.
    destruct (M !! key) as [v|] eqn:Ev.
    + specialize (Hv v eq_refl). destruct Hr as [Hr|Hr]; [|destruct (cache_only q)]; rewrite Hr; packet_size.
    + rewrite Hr. packet_size.
  - intros e2 q r p1 t3 HR Hf [_ Hr]. cbn in Hr. unfold get_end.
    unfold cache_only in Hr. rewrite Hf in Hr. cbn [an_code an_buf].
    destruct (M !! key) as [v|] eqn:Ev.
    + specialize (Hv v eq_refl). destruct Hr as [Hr|Hr]; [|destruct (truth (Z.land f FLAGS_CACHE_ONLY))];
        rewrite Hr; cbn [rep_code]; cbn [Z.eqb REP_OK REP_CACHE_HIT REP_CACHE_MISS REP_NOTIN REP_ERR Pos.eqb orb andb negb].
      * apply wp_bind, wp_read_value; [lia|]. ends. by left.
      * ends. by right.
      * apply wp_bind, wp_read_value; [lia|]. ends. by left.
    + rewrite Hr. cbn [rep_code]. destruct (truth (Z.land f FLAGS_CACHE_ONLY));
        cbn [Z.eqb REP_CACHE_MISS REP_NOTIN Pos.eqb orb]; by ends.
Qed.
End packet.
End ops.

Section map.
Context {E : Type} `{Kernel E} (s : nmdb_srv) `{!MapService E s}.
Context (c : client E) (a : alloc) (M : store).
Context (Ha : never_fails a) (HM : svc_is (c_net c) M).

(** What an operation leaves: the same connection, and the map it says. *)
Definition served (M' : store) (t : mem (client E)) : Prop :=
  never_fails (heap t) ∧ c_servers (obj t) = c_servers c ∧ svc_is (c_net (obj t)) M'.

Abbreviation moff := (srv_get_msg_offset (Some s)).

(** Sending a packet and receiving its reply. *)
Lemma wp_request_more {A} f m p0 t n bufsize (k : answer → MT (client E) A) (err : bytes → MT (client E) A)
    (Q : A → mem (client E) → Prop) a' :
  sendable f m → packet_len m ≤ svc_limit → Z.of_nat (length p0) = moff →
  n = Z.of_nat (length (p0 ++ encode ID_CODE f m)) →
  bufsize = Z.of_nat (length ((p0 ++ encode ID_CODE f m) ++ t)) → bufsize < 2 ^ 32 →
  (∀ q r, r_flags q = f → answers (Point q m false M) r →
     moff + Z.of_nat (length (wire r)) ≤ bufsize) →
  (∀ e q r p1 t1, svc_more (c_net c) m r e → svc_is e (effect m M) → r_flags q = f →
     answers (Point q m false M) r →
     wp (k (Answer (rep_code r) (p1 ++ wire r ++ t1) (Z.of_nat (length p1) + 8)
              (Z.of_nat (length (wire r)) - 8))) Q
       (Mem (set_net e c) a')) →
  wp (r ← srv_send (Some s) ((p0 ++ encode ID_CODE f m) ++ t) n;
      let '(t, buf) := r : Z * bytes in
      if t <=? 0 then err buf else
      an ← get_rep (Some s) buf bufsize; k an) Q (Mem c a').
Proof.
  intros Hsd Hlim Hp0 Hn -> Hb Hlen HQ. apply wp_as_ask; [done|done|].
  eapply wp_ask; [by apply svc_exchange|done|done| |].
  - intros q r Hf Hr. pose proof (Hlen q r Hf Hr). lia.
  - intros e q r p1 t1 [Hmore HM']. by eapply HQ.
Qed.

Section keyed.
Context (key : bytes) (Hsel : server_for (c_servers c) key = Some s).

(** An operation as the service promises it. *)
Ltac by_service L :=
  intros f Hsd Hlim; eapply wp_mono;
  [eapply (L E _ s c a Ha key Hsel M); try exact (svc_fits _ _ HM); [apply Hsd|by apply svc_exchange]|];
  intros rv t [Hrv (Ht & Hc & r & _ & HM')]; by split.

Lemma wp_do_set val flags :
  let f := Z.land flags (Z.lor NMDB_CACHE_ONLY NMDB_SYNC) in
  sendable f (ASet key val) → packet_len (ASet key val) ≤ svc_limit →
  wp (do_set key val flags) (λ rv t, rv = 1 ∧ served (<[key := val]> M) t) (Mem c a).
Proof. by_service @wp_do_set_on. Qed.

Lemma wp_do_del flags :
  let f := Z.land flags (Z.lor NMDB_CACHE_ONLY NMDB_SYNC) in
  sendable f (ADel key) → packet_len (ADel key) ≤ svc_limit →
  wp (do_del key flags) (λ rv t,
    rv = (if truth (Z.land f FLAGS_SYNC) && bool_decide (M !! key = None) then 0 else 1) ∧
    served (delete key M) t) (Mem c a).
Proof. by_service @wp_do_del_on. Qed.

Lemma wp_do_cas oldval newval flags :
  let f := Z.land flags NMDB_CACHE_ONLY in
  sendable f (ACas key oldval newval) → packet_len (ACas key oldval newval) ≤ svc_limit →
  wp (do_cas key oldval newval flags) (λ rv t,
    rv = match M !! key with None => 0 | Some v => if decide (v = oldval) then 2 else 1 end ∧
    served (effect (ACas key oldval newval) M) t) (Mem c a).
Proof. by_service @wp_do_cas_on. Qed.

Lemma wp_do_incr increment want flags :
  let f := Z.land flags NMDB_CACHE_ONLY in
  sendable f (AIncr key increment) → packet_len (AIncr key increment) ≤ svc_limit →
  wp (do_incr key increment want flags) (λ rv t,
    rv = match M !! key with
         | None => (0, None)
         | Some v => if ends_nul v then (2, if want then Some (incr_num v increment) else None)
                     else (1, None)
         end ∧
    served (effect (AIncr key increment) M) t) (Mem c a).
Proof. by_service @wp_do_incr_on. Qed.

Lemma wp_do_get vsize flags :
  let f := Z.land flags NMDB_CACHE_ONLY in
  sendable f (AGet key) → packet_len (AGet key) ≤ svc_limit →
  wp (do_get key vsize flags) (λ rv t,
    match M !! key with
    | Some v => rv = fetched v vsize ∨ truth (Z.land f FLAGS_CACHE_ONLY) = true ∧ rv = (-1, [])
    | None => rv = (-1, [])
    end ∧ served M t) (Mem c a).
Proof. by_service @wp_do_get_on. Qed.
End keyed.
End map.

(** ** Sequences of calls *)

Inductive call :=
  | CGet (k : bytes) (vsize : Z)
  | CSet (sync : bool) (k v : bytes)
  | CDel (sync : bool) (k : bytes)
  | CCas (k old new : bytes)
  | CIncr (k : bytes) (n : Z).

(** What a call returns, and what it writes to its caller's buffer. *)
Inductive result :=
  | RInt (rv : Z)
  | RVal (rv : Z) (v : bytes)
  | RNum (rv : Z) (v : option Z).

(** The request a call sends. *)
Definition call_msg (x : call) : areq :=
  match x with
  | CGet k _ => AGet k
  | CSet _ k v => ASet k v
  | CDel _ k => ADel k
  | CCas k o n => ACas k o n
  | CIncr k n => AIncr k n
  end.
Definition call_ok (x : call) : Prop := sendable 0 (call_msg x).
Definition call_fits (limit : Z) (x : call) : Prop := packet_len (call_msg x) ≤ limit.

(** The flags it sends. *)
Definition call_flags (x : call) : Z :=
  match x with CSet true _ _ | CDel true _ => FLAGS_SYNC | _ => 0 end.

Lemma call_flags_range x : 0 ≤ call_flags x < 2 ^ 16.
Proof. by destruct x as [|[]|[]| |]. Qed.

Lemma call_flags_cache x : truth (Z.land (call_flags x) FLAGS_CACHE_ONLY) = false.
Proof. by destruct x as [|[]|[]| |]. Qed.

(** The key a call is about. *)
Definition call_key (x : call) : bytes :=
  match x with CGet k _ | CSet _ k _ | CDel _ k | CCas k _ _ | CIncr k _ => k end.

(** A packet of any call fits a datagram. *)
Lemma calls_fit xs : Forall call_ok xs → Forall (call_fits (8 + 12 + max_size)) xs.
Proof.
  intros Hok. eapply Forall_impl; [exact Hok|]. intros x Hx. pose proof (encode_bounds ID_CODE 0 _ (sd_msg _ _ Hx)).
  unfold call_fits, packet_len. lia.
Qed.

(** The calls on a map. *)
Definition call_result (x : call) (M : store) : result :=
  match x with
  | CGet k vsize => match M !! k with
                    | Some v => let '(rv, b) := fetched v vsize in RVal rv b
                    | None => RVal (-1) []
                    end
  | CSet _ _ _ => RInt 1
  | CDel sync k => RInt (if sync && bool_decide (M !! k = None) then 0 else 1)
  | CCas k o _ => RInt (match M !! k with
                        | None => 0
                        | Some v => if decide (v = o) then 2 else 1
                        end)
  | CIncr k n => match M !! k with
                 | None => RNum 0 None
                 | Some v => if ends_nul v then RNum 2 (Some (incr_num v n)) else RNum 1 None
                 end
  end.

Fixpoint map_calls (xs : list call) (M : store) : list result * store :=
  match xs with
  | [] => ([], M)
  | x :: xs =>
      let '(rs, M') := map_calls xs (effect (call_msg x) M) in (call_result x M :: rs, M')
  end.

Section calls.
Context {E : Type} `{Kernel E}.

Definition run_call (x : call) : MT (client E) result :=
  match x with
  | CGet k vsize => r ← nmdb_get k vsize; mret (RVal r.1 r.2)
  | CSet sync k v => r ← (if sync : bool then nmdb_set_sync k v else nmdb_set k v); mret (RInt r)
  | CDel sync k => r ← (if sync : bool then nmdb_del_sync k else nmdb_del k); mret (RInt r)
  | CCas k o n => r ← nmdb_cas k o n; mret (RInt r)
  | CIncr k n => r ← nmdb_incr k n true; mret (RNum r.1 r.2)
  end.

Fixpoint run_calls (xs : list call) : MT (client E) (list result) :=
  match xs with
  | [] => mret []
  | x :: xs => r ← run_call x; rs ← run_calls xs; mret (r :: rs)
  end.

Lemma server_for_one s key : server_for [s] key = Some s.
Proof. unfold server_for. rewrite decide_False by done. cbn. by rewrite Z.mod_1_r. Qed.

Lemma sendable_flags f f' m :
  0 ≤ f' < 2 ^ 16 → truth (Z.land f' FLAGS_CACHE_ONLY) = false → sendable f m → sendable f' m.
Proof. intros Hf Hc [H1 H2 _ _]. split; try done. by rewrite Hc. Qed.

Context (s : nmdb_srv).

(** A call to a server that will answer it right. *)
Lemma wp_run_call_on x c a M R (Q : result → mem (client E) → Prop) :
  never_fails a → server_for (c_servers c) (call_key x) = Some s → vals_fit M → msg_ok (call_msg x) →
  promised s c M (call_flags x) (call_msg x) R →
  (∀ t, left_by c R t → Q (call_result x M) t) →
  wp (run_call x) Q (Mem c a).
Proof.
  intros Ha Hsel HM Hok Hpr HQ.
  destruct x as [k vsize|sync k v|sync k|k o n|k n]; cbn [run_call call_msg call_key] in *.
  - apply wp_bind. eapply wp_mono; [by apply (wp_do_get_on s c a Ha k Hsel M R vsize 0)|].
    intros r t [Hr Ht]. wp_simpl. specialize (HQ t Ht). cbn [call_result] in HQ.
    destruct (M !! k) as [v|]; [destruct Hr as [-> | [[=] _]]|subst r]; [|done].
    by destruct (fetched v vsize).
  - apply wp_bind. destruct sync; (eapply wp_mono; [by eapply (wp_do_set_on s c a Ha k Hsel M R v)|]);
      intros r t [-> Ht]; wp_simpl; by apply HQ.
  - apply wp_bind. destruct sync; (eapply wp_mono; [by eapply (wp_do_del_on s c a Ha k Hsel M R)|]);
      intros r t [-> Ht]; wp_simpl; by apply HQ.
  - apply wp_bind. eapply wp_mono; [by apply (wp_do_cas_on s c a Ha k Hsel M R o n 0)|].
    intros r t [-> Ht]. wp_simpl. by apply HQ.
  - apply wp_bind. eapply wp_mono; [by apply (wp_do_incr_on s c a Ha k Hsel M R n true 0)|].
    intros r t [-> Ht]. wp_simpl. specialize (HQ t Ht). cbn [call_result] in HQ.
    destruct (M !! k) as [v|]; [|done]. by destruct (ends_nul v).
Qed.

Context `{!MapService E s}.

Lemma wp_run_call x c a M (Q : result → mem (client E) → Prop) :
  never_fails a → server_for (c_servers c) (call_key x) = Some s → svc_is (c_net c) M → call_ok x → call_fits svc_limit x →
  (∀ t, served s c (effect (call_msg x) M) t → Q (call_result x M) t) →
  wp (run_call x) Q (Mem c a).
Proof.
  intros Ha Hsel HM Hok Hlim HQ.
  eapply wp_run_call_on; [done|done|by apply (svc_fits (c_net c))|apply Hok| |].
  - apply svc_exchange; [done| |done]. eapply sendable_flags; [apply call_flags_range|apply call_flags_cache|exact Hok].
  - intros t (H1 & H2 & r & _ & H3). by apply HQ.
Qed.

Lemma wp_run_calls xs c a M (Q : list result → mem (client E) → Prop) :
  never_fails a → c_servers c = [s] → svc_is (c_net c) M → Forall call_ok xs →
  Forall (call_fits svc_limit) xs →
  (∀ t, served s c (map_calls xs M).2 t → Q (map_calls xs M).1 t) →
  wp (run_calls xs) Q (Mem c a).
Proof.
  intros Ha Hc HM Hok Hlim. revert Hlim c a M Q Ha Hc HM.
  induction Hok as [|x xs Hx Hok IH]; intros Hlim c a M Q Ha Hc HM HQ; cbn [run_calls].
  - wp_simpl. by apply HQ.
  - apply Forall_cons in Hlim as [Hlx Hlim].
    apply wp_bind. eapply wp_run_call; [done|by rewrite Hc; apply server_for_one|done..|]. intros [c1 a1] (Ha1 & Hc1 & HM1).
    cbn [obj heap] in *. apply wp_bind. eapply (IH Hlim c1); [done|by rewrite Hc1|done|].
    intros t (Ht1 & Ht2 & Ht3). wp_simpl. revert HQ. cbn [map_calls].
    destruct (map_calls xs (effect (call_msg x) M)) as [rs M'] eqn:Em. cbn in *.
    intros HQ. apply HQ. split_and!; [done|congruence|done].
Qed.
End calls.

(** ** Properties *)

(** C13: the client library is correct against any server that keeps its promise.
    On a connection to one server that stands for a map, over any transport, any sequence
    of get, set, del, cas and incr calls whose packets the server takes is
    defined (no buffer is overrun),
    and returns and writes to the caller's buffers what the same operations on
    the map give. *)
Theorem client_refines_map {E} `{Kernel E} (s : nmdb_srv) `{!MapService E s} (xs : list call)
  (c : client E) (a : alloc) (M : store)
  (Ha : never_fails a) (Hc : c_servers c = [s])
  (HM : svc_is (c_net c) M) (Hok : Forall call_ok xs) (Hlim : Forall (call_fits svc_limit) xs) :
  ∃ c' a', run_calls xs (Mem c a) = Some ((map_calls xs M).1, Mem c' a') ∧
    svc_is (c_net c') (map_calls xs M).2.
Proof.
  assert (wp (run_calls xs) (λ r t, r = (map_calls xs M).1 ∧ served s c (map_calls xs M).2 t)
    (Mem c a)) as Hw by by eapply wp_run_calls.
  apply wp_exec in Hw as (r & [c' a'] & Hw & -> & _ & _ & H3). by exists c', a'.
Qed.

(** The hash only covers the first half of the key: keys of the same length
    that agree on their first half and one byte more go to the same server,
    although the comment refers to RFC 1071, whose sum covers every byte. *)
Theorem hash_ignores_second_half (srvs : list nmdb_srv) (p t1 t2 : bytes)
  (Ht : length t1 = length t2) (Hl : (length t1 < length p)%nat) :
  server_for srvs (p ++ t1) = server_for srvs (p ++ t2).
Proof. unfold server_for. by rewrite (key_sum_prefix p t1 t2). Qed.

Lemma hash_ignores_second_half_witness :
  let srvs := [Srv 3 UDP_CONN 1 1; Srv 4 UDP_CONN 1 2; Srv 5 UDP_CONN 1 3] in
  server_for srvs ([Byte.x61; Byte.x62; Byte.x63] ++ [Byte.x31; Byte.x32]) =
  server_for srvs ([Byte.x61; Byte.x62; Byte.x63] ++ [Byte.x39; Byte.x38]).
Proof. apply hash_ignores_second_half; [reflexivity|cbn; lia]. Defined.
