(* ===== verification/ClientSelect.v ===== *)
(** * Which server a key goes to (libnmdb/libnmdb.c)

    Clients of a group of servers must agree on the server of a key, whatever
    the order in which each of them added the servers: the array is sorted
    after every addition, by an order on what identifies a server. It is proved
    here. *)

From S2P Require Import Prelude Words Chain Net Client ClientSpec.
From stdpp Require Import sorting.

#[local] Open Scope Z_scope.

(** ** The order of [compare_servers] *)

(** What identifies a server: the type, the address and the port. *)
Definition srv_id (s : nmdb_srv) : Z * Z * Z :=
  (sv_type s, if sv_type s =? TIPC_CONN then 0 else sv_addr s, sv_port s).

Definition valid_type (s : nmdb_srv) : Prop := 1 ≤ sv_type s ≤ 4.

(** The lexicographic order. *)
Definition id_le (x y : Z * Z * Z) : Prop :=
  x.1.1 < y.1.1 ∨ (x.1.1 = y.1.1 ∧ (x.1.2 < y.1.2 ∨ (x.1.2 = y.1.2 ∧ x.2 ≤ y.2))).

#[export] Instance id_le_trans : Transitive id_le.
Proof. intros [[]] [[]] [[]]. unfold id_le; cbn. lia. Qed.
#[export] Instance id_le_antisymm : AntiSymm (=) id_le.
Proof. intros [[a b] c] [[x y] z]. unfold id_le; cbn. intros. repeat f_equal; lia. Qed.

Lemma id_le_total x y : id_le x y ∨ id_le y x.
Proof. destruct x as [[]], y as [[]]. unfold id_le; cbn. lia. Qed.

Ltac cmp :=
  match goal with
  | |- context [?x =? ?y] => destruct (Z.eqb_spec x y)
  | |- context [?x <? ?y] => destruct (Z.ltb_spec x y)
  end.

(** [compare_servers] decides the order, and gives 0 for equal identifiers. *)
Lemma compare_servers_spec s t :
  valid_type s → valid_type t →
  (compare_servers s t ≤ 0 ↔ id_le (srv_id s) (srv_id t)) ∧
  (compare_servers s t = 0 ↔ srv_id s = srv_id t).
Proof.
  unfold valid_type, compare_servers, srv_id, id_le, TIPC_CONN, TCP_CONN, UDP_CONN, SCTP_CONN.
  destruct s as [f1 t1 p1 a1], t as [f2 t2 p2 a2]. cbn. intros H1 H2.
  split; (repeat cmp); cbn; rewrite ?pair_equal_spec; lia.
Qed.

Lemma qsort_insert_perm s l : qsort_insert s l ≡ₚ s :: l.
Proof.
  induction l as [|x l IH]; [done|]. cbn. case_match; [done|]. rewrite IH. apply perm_swap.
Qed.

Lemma qsort_servers_perm l : qsort_servers l ≡ₚ l.
Proof. induction l as [|s l IH]; [done|]. cbn. by rewrite qsort_insert_perm, IH. Qed.

Lemma qsort_insert_sorted s l :
  valid_type s → Forall valid_type l →
  StronglySorted id_le (srv_id <$> l) → StronglySorted id_le (srv_id <$> qsort_insert s l).
Proof.
  intros Hs. induction l as [|x l IH]; intros Hl Hsort; cbn in *; [repeat constructor|].
  apply Forall_cons in Hl as [Hx Hl]. apply StronglySorted_inv in Hsort as [Hsort Hall].
  destruct (compare_servers_spec s x Hs Hx) as [Hle _].
  destruct (compare_servers s x <=? 0) eqn:E; cbn.
  - apply Z.leb_le, Hle in E. constructor; [by constructor|]. constructor; [done|].
    eapply Forall_impl; [exact Hall|]. intros y Hy. by etrans.
  - apply Z.leb_gt in E. constructor; [by apply IH|].
    rewrite qsort_insert_perm. cbn. constructor; [|done].
    destruct (id_le_total (srv_id x) (srv_id s)) as [|H]; [done|]. apply Hle in H. lia.
Qed.

Lemma qsort_servers_sorted l :
  Forall valid_type l → StronglySorted id_le (srv_id <$> qsort_servers l).
Proof.
  induction 1 as [|s l Hs Hl IH]; cbn; [constructor|]. apply qsort_insert_sorted; [done| |done].
  by rewrite qsort_servers_perm.
Qed.

(** ** Adding servers *)

Inductive add_req :=
  | AddTipc (port : Z)
  | AddTcp (inetaddr port : Z)
  | AddUdp (inetaddr port : Z)
  | AddSctp (inetaddr port : Z).

(** The identifier of the server a call adds. *)
Definition req_id (r : add_req) : Z * Z * Z :=
  match r with
  | AddTipc p => (TIPC_CONN, 0, w32 (default_port p TIPC_SERVER_INST))
  | AddTcp i p => (TCP_CONN, i, htons (default_port p TCP_SERVER_PORT))
  | AddUdp i p => (UDP_CONN, i, htons (default_port p UDP_SERVER_PORT))
  | AddSctp i p => (SCTP_CONN, i, htons (default_port p SCTP_SERVER_PORT))
  end.

Section adding.
Context {E : Type} `{Kernel E}.

Definition run_add (r : add_req) : MT (client E) Z :=
  match r with
  | AddTipc p => nmdb_add_tipc_server p
  | AddTcp i p => add_tcp_server_addr i p
  | AddUdp i p => add_udp_server_addr i p
  | AddSctp i p => add_sctp_server_addr i p
  end.

(** The calls' return values. *)
Fixpoint run_adds (rs : list add_req) : MT (client E) (list Z) :=
  match rs with
  | [] => mret []
  | r :: rs => rv ← run_add r; rvs ← run_adds rs; mret (rv :: rvs)
  end.

(** A call always returns; on success it has added one server and sorted the
    array, on failure the array is as it was, or empty. *)
Definition added (r : add_req) (l : list nmdb_srv) (rv : Z) (t : mem (client E)) : Prop :=
  (rv = 1 ∧ ∃ s, srv_id s = req_id r ∧ valid_type s ∧ c_servers (obj t) = qsort_servers (l ++ [s])) ∨
  (rv = 0 ∧ (c_servers (obj t) = l ∨ c_servers (obj t) = [])).

Lemma wp_sys_any {A} (g : E → A * E) c a (Q : A → mem (client E) → Prop) :
  (∀ x e, Q x (Mem (set_net e c) a)) → wp (sys g) Q (Mem c a).
Proof. intros HQ. unfold sys. wp_simpl. destruct (g (c_net c)). by wp_simpl. Qed.

Lemma wp_realloc n c a (Q : bool → mem (client E) → Prop) :
  (∀ b a', Q b (Mem c a')) → wp (realloc_servers n) Q (Mem c a).
Proof.
  intros HQ. unfold realloc_servers. wp_simpl. apply wp_exec. eexists _, _. split; [done|].
  by wp_simpl.
Qed.

Lemma wp_close_fail fd c a r l :
  c_servers c = l → wp (close fd;; mret 0) (added r l) (Mem c a).
Proof.
  intros Hc. unfold close. apply wp_bind, wp_sys_any. intros x e. wp_simpl. right. by split; [|left].
Qed.

Lemma wp_add_sorted s c a r l :
  c_servers c = l → srv_id s = req_id r → valid_type s →
  wp (add_sorted s) (added r l) (Mem c a).
Proof.
  intros <- Hs Hv. unfold add_sorted. wp_simpl. left. split; [done|]. by exists s.
Qed.

Lemma wp_tcp_error fd c a r l :
  c_servers c = l → wp (tcp_error_exit fd) (added r l) (Mem c a).
Proof.
  intros Hc. unfold tcp_error_exit, close. apply wp_bind, wp_sys_any. intros x e. wp_simpl.
  apply wp_realloc. intros b a'. destruct b; wp_simpl; right; split; auto.
Qed.

Lemma wp_ret_fail c a r l : c_servers c = l → wp (mret 0) (added r l) (Mem c a).
Proof. intros Hc. wp_simpl. right. by split; [|left]. Qed.

(** Growing the array, and what follows. *)
Lemma wp_grow fd (k : MT (client E) Z) c a r l :
  c_servers c = l → (∀ a', wp k (added r l) (Mem c a')) →
  wp (x ← get_obj; ok ← realloc_servers (S (length (c_servers x)));
      if negb ok then close fd;; mret 0 else k) (added r l) (Mem c a).
Proof.
  intros Hc Hk. apply wp_bind, wp_get_obj. apply wp_bind, wp_realloc.
  intros [] a'; cbn [negb]; [apply Hk|by apply wp_close_fail].
Qed.

Ltac valid := unfold valid_type; cbn; unfold UDP_CONN, TIPC_CONN, TCP_CONN, SCTP_CONN; lia.

Lemma wp_run_add r c a : wp (run_add r) (added r (c_servers c)) (Mem c a).
Proof.
  destruct r as [p|i p|i p|i p]; cbn [run_add]; unfold nmdb_add_tipc_server, add_tcp_server_addr,
    add_udp_server_addr, add_sctp_server_addr; apply wp_bind, wp_sys_any; intros [fd|] e;
    try by apply wp_ret_fail.
  - apply wp_grow; [done|]. intros a'. apply wp_add_sorted; [done|done|valid].
  - apply wp_grow; [done|]. intros a'. cbn zeta.
    apply wp_bind, wp_sys_any. intros [] e1; cbn [negb]; [|by apply wp_tcp_error].
    apply wp_bind, wp_sys_any. intros [] e2; cbn [negb]; [|by apply wp_tcp_error].
    apply wp_add_sorted; [done|done|valid].
  - apply wp_grow; [done|]. intros a'. apply wp_add_sorted; [done|done|valid].
  - apply wp_bind, wp_sys_any. intros [] e1; cbn [negb]; [|by apply wp_close_fail].
    apply wp_grow; [done|]. intros a'. apply wp_add_sorted; [done|done|valid].
Qed.

Lemma wp_run_adds_total rs c a : wp (run_adds rs) (λ _ _, True) (Mem c a).
Proof.
  revert c a. induction rs as [|r rs IH]; intros c a; cbn [run_adds]; [done|].
  apply wp_bind. eapply wp_mono; [apply wp_run_add|]. intros rv [c1 a1] _.
  apply wp_bind. eapply wp_mono; [apply IH|]. intros rvs t _. by wp_simpl.
Qed.

(** The array holds the servers of [ids], sorted. *)
Record holds_ids (l : list nmdb_srv) (ids : list (Z * Z * Z)) : Prop := HoldsIds {
  hi_valid : Forall valid_type l;
  hi_perm : srv_id <$> l ≡ₚ ids;
  hi_sorted : StronglySorted id_le (srv_id <$> l);
}.

Lemma wp_run_adds rs c a ids :
  holds_ids (c_servers c) ids →
  wp (run_adds rs) (λ rvs t, Forall (λ rv, rv = 1) rvs →
    holds_ids (c_servers (obj t)) (ids ++ (req_id <$> rs))) (Mem c a).
Proof.
  revert c a ids. induction rs as [|r rs IH]; intros c a ids [Hv Hp Hs]; cbn [run_adds].
  - wp_simpl. intros _. cbn. by rewrite app_nil_r.
  - apply wp_bind. eapply wp_mono; [apply wp_run_add|]. intros rv [c1 a1] Hadd.
    destruct Hadd as [(-> & s & Hid & Hvs & Hc1)|(-> & Hc1)]; cbn [obj] in Hc1.
    + apply wp_bind. eapply wp_mono; [apply (IH c1 a1 (ids ++ [req_id r]))|].
      * assert (Forall valid_type (c_servers c ++ [s])) as Hv' by by apply Forall_app_2; [|repeat constructor; apply Hvs].
        rewrite Hc1. split; [by rewrite qsort_servers_perm| |by apply qsort_servers_sorted].
        rewrite qsort_servers_perm, fmap_app, Hp. cbn. by rewrite Hid.
      * intros rvs t Ht. wp_simpl. intros [_ Hall]%Forall_cons. cbn.
        specialize (Ht Hall). by rewrite <-(assoc_L (++)) in Ht.
    + apply wp_bind.
      assert (wp (run_adds rs) (λ _ _, True) (Mem c1 a1)) as Hw by apply wp_run_adds_total.
      eapply wp_mono; [exact Hw|]. intros rvs t _. wp_simpl. intros [? _]%Forall_cons. done.
Qed.
End adding.

(** ** Properties *)

(** C30: reliable selection. Two clients that successfully added the same servers,
    each in an order of its own, hold arrays with the same servers at the same
    places, and send every key to the same server. *)
Theorem selection_agrees {E} `{Kernel E} (rs1 rs2 : list add_req) (c1 c2 : client E) (a1 a2 : alloc)
  (rvs1 rvs2 : list Z) (t1 t2 : mem (client E)) (key : bytes)
  (Hrs : rs1 ≡ₚ rs2) (Hc1 : c_servers c1 = []) (Hc2 : c_servers c2 = [])
  (H1 : run_adds rs1 (Mem c1 a1) = Some (rvs1, t1)) (Hok1 : Forall (λ rv, rv = 1) rvs1)
  (H2 : run_adds rs2 (Mem c2 a2) = Some (rvs2, t2)) (Hok2 : Forall (λ rv, rv = 1) rvs2) :
  srv_id <$> c_servers (obj t1) = srv_id <$> c_servers (obj t2) ∧
  srv_id <$> server_for (c_servers (obj t1)) key = srv_id <$> server_for (c_servers (obj t2)) key.
Proof.
  assert (holds_ids (c_servers c1) []) as Hi1 by by rewrite Hc1; split; [constructor| |constructor].
  assert (holds_ids (c_servers c2) []) as Hi2 by by rewrite Hc2; split; [constructor| |constructor].
  pose proof (wp_run_adds rs1 c1 a1 [] Hi1) as Hw1. pose proof (wp_run_adds rs2 c2 a2 [] Hi2) as Hw2.
  apply wp_exec in Hw1 as (? & ? & E1 & Hh1). apply wp_exec in Hw2 as (? & ? & E2 & Hh2).
  rewrite H1 in E1. rewrite H2 in E2.
  injection E1 as <- <-. injection E2 as <- <-.
  destruct (Hh1 Hok1) as [_ Hp1 Hs1]. destruct (Hh2 Hok2) as [_ Hp2 Hs2]. cbn in Hp1, Hp2.
  assert (srv_id <$> c_servers (obj t1) = srv_id <$> c_servers (obj t2)) as Heq.
  { eapply (StronglySorted_unique id_le); [done|done|]. by rewrite Hp1, Hp2, Hrs. }
  split; [done|]. assert (length (c_servers (obj t1)) = length (c_servers (obj t2))) as El
    by by rewrite <-(length_fmap srv_id), Heq, length_fmap.
  unfold server_for. rewrite El.
  destruct (decide (c_servers (obj t1) = [])) as [Hd1|Hd1],
    (decide (c_servers (obj t2) = [])) as [Hd2|Hd2].
  - done.
  - rewrite Hd1 in El. by destruct (c_servers (obj t2)).
  - rewrite Hd2 in El. by destruct (c_servers (obj t1)).
  - by rewrite <-!list_lookup_fmap, Heq.
Qed.

#[local] Instance sample_kernel : Kernel () := {|
  k_socket _ e := (Some 3, e); k_connect _ _ _ e := (true, e); k_nodelay _ e := (true, e);
  k_close _ e := e; k_send _ d e := (Z.of_nat (length d), e);
  k_sendto _ d e := (Z.of_nat (length d), e); k_recv _ _ e := (None, e);
|}.
Definition sample_ok_alloc : alloc := Alloc (λ _, true) 0 Byte.x00.
Definition sample_adds : list add_req := [AddUdp 5 (-1); AddTipc 12; AddTcp 5 100; AddUdp 4 7].

Lemma selection_agrees_witness :
  match run_adds sample_adds (Mem (Client [] tt) sample_ok_alloc),
        run_adds (rev sample_adds) (Mem (Client [] tt) sample_ok_alloc) with
  | Some (_, t1), Some (_, t2) =>
      srv_id <$> c_servers (obj t1) = srv_id <$> c_servers (obj t2) ∧
      srv_id <$> server_for (c_servers (obj t1)) [Byte.x61; Byte.x62] =
      srv_id <$> server_for (c_servers (obj t2)) [Byte.x61; Byte.x62]
  | _, _ => False
  end.
Proof.
  destruct (run_adds sample_adds (Mem (Client [] tt) sample_ok_alloc)) as [[v1 t1]|] eqn:E1;
    [|vm_compute in E1; discriminate E1].
  destruct (run_adds (rev sample_adds) (Mem (Client [] tt) sample_ok_alloc)) as [[v2 t2]|] eqn:E2;
    [|vm_compute in E2; discriminate E2].
  apply (selection_agrees sample_adds (rev sample_adds) (Client [] tt) (Client [] tt)
    sample_ok_alloc sample_ok_alloc v1 v2 t1 t2 [Byte.x61; Byte.x62]); try done.
  - apply Permutation_rev.
  - vm_compute in E1. injection E1 as <- _. by repeat constructor.
  - vm_compute in E2. injection E2 as <- _. by repeat constructor.
Defined.
