(* ===== verification/ClientTcp.v ===== *)
(** * The client over TCP (libnmdb/tcp.c, and srecv and ssend of libnmdb.c)

    A TCP connection may take a packet in pieces and deliver a reply in pieces.
    [StreamSocket] is what the library relies on: a send takes something, and a
    receive gives something while bytes are to come. Against it, a packet is
    proved to go out as its frame, and a frame to come in as its reply. The
    instance at the end is a script: how many bytes each send takes, and the
    segments in which the peer's bytes arrive. *)

From S2P Require Import Prelude Words Text Chain ChainSpec Cache Net Queue Backend Server Parse ParseSpec DbLoop DbSpec Transport Tcp TcpSpec System Client ClientSpec.

(** ** What a stream promises

    [sk_sending w]: the bytes [w] were sent since the exchange began;
    [sk_coming w]: the bytes [w] are still to be received. *)
Class StreamSocket (E : Type) `{Kernel E} (fd : Z) := {
  sk_sending : bytes → E → Prop;
  sk_coming : bytes → E → Prop;
  sk_send w d e : sk_sending w e → d ≠ [] →
    ∃ n e', k_send fd d e = (n, e') ∧ 1 ≤ n ≤ Z.of_nat (length d) ∧
      sk_sending (w ++ take (Z.to_nat n) d) e';
  sk_recv w n e : sk_coming w e → 0 < n → w ≠ [] →
    ∃ d w' e', k_recv fd n e = (Some d, e') ∧ d ≠ [] ∧ Z.of_nat (length d) ≤ n ∧
      w = d ++ w' ∧ sk_coming w' e';
}.

Lemma split_short (d rest d1 w' : bytes) :
  d ++ rest = d1 ++ w' → (length d1 ≤ length d)%nat → ∃ k, d = d1 ++ k ∧ w' = k ++ rest.
Proof.
  intros [(k & -> & ->)|(k & -> & ->)]%app_eq_inv Hl; [by exists k|].
  rewrite length_app in Hl. assert (k = []) as -> by (apply nil_length_inv; lia).
  exists []. by rewrite !app_nil_r.
Qed.

Lemma set_net_same {E} `{Kernel E} (c : client E) : set_net (c_net c) c = c.
Proof. by destruct c. Qed.

Section loops.
Context {E : Type} `{Kernel E} (fd : Z) `{!StreamSocket E fd}.
Abbreviation conn := (client E).

(** ** The loops *)

Lemma wp_recv p t off n w c a (Q : Z * bytes → mem conn → Prop) :
  off = Z.of_nat (length p) → 0 < n ≤ Z.of_nat (length t) → sk_coming w (c_net c) → w ≠ [] →
  (∀ d w' t' e, d ≠ [] → Z.of_nat (length d) ≤ n → w = d ++ w' → sk_coming w' e →
     (length t' + length d)%nat = length t →
     Q (Z.of_nat (length d), (p ++ d) ++ t') (Mem (set_net e c) a)) →
  wp (recv fd (p ++ t) off n) Q (Mem c a).
Proof.
  intros Ho [Hn Ht] Hw Hne HQ. unfold recv.
  destruct (sk_recv w n (c_net c) Hw Hn Hne) as (d & w' & e & Hr & Hd & Hdl & Hw' & He).
  apply wp_bind. eapply wp_sys; [exact Hr|]. cbn iota. apply wp_bind.
  apply wp_memcpy_at; [done|done|lia|]. intros t' Ht'. wp_simpl. by eapply HQ.
Qed.

Lemma wp_srecv_loop fuel p dc t off count c0 d rest c a (Q : Z * bytes → mem conn → Prop) :
  off = Z.of_nat (length p) → c0 = Z.of_nat (length dc) →
  count = c0 + Z.of_nat (length d) → (length d ≤ fuel)%nat → (length d ≤ length t)%nat →
  sk_coming (d ++ rest) (c_net c) →
  (∀ t' e, sk_coming rest e → (length t' + length d)%nat = length t →
     Q (count, (p ++ dc ++ d) ++ t') (Mem (set_net e c) a)) →
  wp (srecv_loop fuel fd ((p ++ dc) ++ t) off count c0) Q (Mem c a).
Proof.
  revert dc t c0 d c. induction fuel as [|fuel IH]; intros dc t c0 d c Ho Hc0 Hcount Hf Ht Hp HQ;
    cbn [srecv_loop]; destruct (c0 <? count) eqn:E1; [apply Z.ltb_lt in E1; lia| | |].
  2:{ apply Z.ltb_lt in E1. assert (d ++ rest ≠ []) as Hne by (destruct d; cbn in *; [lia|done]).
    apply wp_bind. eapply wp_recv; [rewrite length_app; lia|lia|exact Hp|done|].
    intros d1 w' t1 e Hd1 Hl1 Hw He Ht1. cbn iota.
    destruct (split_short _ _ _ _ Hw) as (k & -> & ->); [lia|]. rewrite length_app in *.
    assert (0 < Z.of_nat (length d1)) by (destruct d1; cbn; [done|lia]).
    destruct (Z.of_nat (length d1) =? count) eqn:Ec; [apply Z.eqb_eq in Ec|].
    - assert (dc = []) as -> by (apply nil_length_inv; lia).
      assert (k = []) as -> by (apply nil_length_inv; lia). wp_simpl.
      rewrite !app_nil_r in *. apply HQ; [done|lia].
    - rewrite (proj2 (Z.ltb_ge _ 0)), (proj2 (Z.eqb_neq _ 0)) by lia.
      rewrite <-(assoc_L (++) p).
      eapply (IH (dc ++ d1) t1 _ k); [done|by rewrite length_app, Nat2Z.inj_add, Hc0|lia|lia|lia|exact He|].
      intros t' e' He' Hl'. rewrite <-(assoc_L (++) dc). apply HQ; [done|lia]. }
  all: apply Z.ltb_ge in E1; assert (d = []) as -> by (apply nil_length_inv; lia); wp_simpl;
    specialize (HQ t (c_net c)); rewrite set_net_same, app_nil_r in HQ; by apply HQ.
Qed.

Lemma wp_srecv p t off count d rest c a (Q : Z * bytes → mem conn → Prop) :
  off = Z.of_nat (length p) → count = Z.of_nat (length d) → (length d ≤ length t)%nat →
  sk_coming (d ++ rest) (c_net c) →
  (∀ t' e, sk_coming rest e → (length t' + length d)%nat = length t →
     Q (count, (p ++ d) ++ t') (Mem (set_net e c) a)) →
  wp (srecv fd (p ++ t) off count) Q (Mem c a).
Proof.
  intros Ho Hc Ht Hp HQ. unfold srecv. rewrite <-(app_nil_r p) at 1.
  eapply (wp_srecv_loop _ _ []); [done|done|by rewrite Hc|lia|done|exact Hp|done].
Qed.

(** Everything is sent, whatever each send takes. *)
Lemma wp_ssend_loop fuel p d t count c0 c a (Q : Z → mem conn → Prop) :
  c0 = Z.of_nat (length p) → count = c0 + Z.of_nat (length d) → (length d ≤ fuel)%nat →
  sk_sending p (c_net c) →
  (∀ e, sk_sending (p ++ d) e → Q count (Mem (set_net e c) a)) →
  wp (ssend_loop fuel fd (p ++ d ++ t) count c0) Q (Mem c a).
Proof.
  revert p d c0 c. induction fuel as [|fuel IH]; intros p d c0 c Hc0 Hcount Hf Hl HQ;
    cbn [ssend_loop]; destruct (c0 <? count) eqn:E1; [apply Z.ltb_lt in E1; lia| | |].
  2:{ apply Z.ltb_lt in E1. assert (d ≠ []) as Hne by (destruct d; cbn in *; [lia|done]).
    apply wp_bind, wp_read_at; [done|lia|]. apply wp_bind.
    destruct (sk_send p d (c_net c) Hl Hne) as (n & e & Hs & Hn & He).
    eapply wp_sys; [exact Hs|].
    destruct (n =? count) eqn:Ec; [apply Z.eqb_eq in Ec|].
    - wp_simpl. rewrite take_ge in He by lia. by apply HQ.
    - rewrite (proj2 (Z.ltb_ge _ 0)), (proj2 (Z.eqb_neq _ 0)) by lia.
      rewrite <-(take_drop (Z.to_nat n) d) at 1. rewrite <-(assoc_L (++)), (assoc_L (++) p).
      assert (length (take (Z.to_nat n) d) = Z.to_nat n) as Hlen by (rewrite length_take; lia).
      eapply IH; [rewrite length_app, Hlen; lia|rewrite length_drop; lia|rewrite length_drop; lia|done|].
      intros e' He'. apply HQ. by rewrite <-(assoc_L (++)), take_drop in He'. }
  all: apply Z.ltb_ge in E1; assert (d = []) as -> by (apply nil_length_inv; lia); wp_simpl;
    specialize (HQ (c_net c)); rewrite set_net_same, app_nil_r in HQ; by apply HQ.
Qed.

(** ** Messages *)

(** The rest of a message: [p] was received, [d] is missing. *)
Lemma wp_recv_rest p t rv total d c a (Q : Z * bytes → mem conn → Prop) :
  rv = Z.of_nat (length p) → total = rv + Z.of_nat (length d) → (0 < length p)%nat →
  (length d ≤ length t)%nat → sk_coming d (c_net c) →
  (∀ t' e, sk_coming [] e → (length t' + length d)%nat = length t →
     Q (total, (p ++ d) ++ t') (Mem (set_net e c) a)) →
  wp (recv_rest fd (p ++ t) rv total) Q (Mem c a).
Proof.
  intros Hrv Htot Hp Ht Hd HQ. unfold recv_rest.
  destruct (rv <? total) eqn:E1; [apply Z.ltb_lt in E1|apply Z.ltb_ge in E1].
  - apply wp_bind. eapply (wp_srecv _ _ _ _ d []); [done|lia|done|by rewrite app_nil_r|].
    intros t' e He Hl. wp_simpl. rewrite (proj2 (Z.leb_gt _ 0)) by lia.
    replace (rv + (total - rv)) with total by lia. by apply HQ.
  - assert (d = []) as -> by (apply nil_length_inv; lia). wp_simpl.
    replace rv with total by (cbn in Htot; lia).
    specialize (HQ t (c_net c)). rewrite set_net_same, app_nil_r in HQ. by apply HQ.
Qed.

(** The first bytes of a message, up to the length that begins it. *)
Lemma wp_recv_head p t rv w rest c a (Q : Z * bytes → mem conn → Prop) :
  rv = Z.of_nat (length p) → (0 < length p)%nat → (length w ≤ length p + length t)%nat →
  w = p ++ rest → (4 ≤ length w)%nat → sk_coming rest (c_net c) →
  (∀ p' rest' t' e, w = p' ++ rest' → (4 ≤ length p')%nat → sk_coming rest' e →
     (length p' + length t')%nat = (length p + length t)%nat →
     Q (Z.of_nat (length p'), p' ++ t') (Mem (set_net e c) a)) →
  wp (recv_rest fd (p ++ t) rv 4) Q (Mem c a).
Proof.
  intros -> Hp Hw Hpw H4 Hr HQ. unfold recv_rest. subst w. rewrite length_app in *.
  destruct (Z.of_nat (length p) <? 4) eqn:E1; [apply Z.ltb_lt in E1|apply Z.ltb_ge in E1].
  - apply wp_bind. set (n := (4 - length p)%nat).
    assert (length (take n rest) = n) as Hn by (rewrite length_take; lia).
    eapply (wp_srecv _ _ _ _ (take n rest) (drop n rest)); [done|lia|lia|by rewrite take_drop|].
    intros t' e He Hl. wp_simpl. rewrite (proj2 (Z.leb_gt _ 0)) by lia.
    replace (Z.of_nat (length p) + (4 - Z.of_nat (length p))) with
      (Z.of_nat (length (p ++ take n rest))) by (rewrite length_app; lia).
    apply (HQ _ (drop n rest)); [by rewrite <-(assoc_L (++)), take_drop|rewrite length_app; lia|
      done|rewrite length_app; lia].
  - wp_simpl. specialize (HQ p rest t (c_net c)). rewrite set_net_same in HQ. apply HQ; auto; lia.
Qed.

(** [recv_msg] reassembles a frame, however it was cut. *)
Lemma wp_recv_msg t bsize m c a (Q : Z * bytes → mem conn → Prop) :
  Z.of_nat (length (frame m)) < 2 ^ 32 → (length (frame m) ≤ length t)%nat →
  bsize = Z.of_nat (length t) → sk_coming (frame m) (c_net c) →
  (∀ t' e, sk_coming [] e → (length t' + length (frame m))%nat = length t →
     Q (Z.of_nat (length (frame m)), frame m ++ t') (Mem (set_net e c) a)) →
  wp (recv_msg fd t bsize) Q (Mem c a).
Proof.
  intros H32 Hl Hb Hp HQ. pose proof (length_frame m) as Hfr. unfold recv_msg.
  assert (frame m ≠ []) as Hne by (intros En; rewrite En in Hfr; cbn in Hfr; lia).
  apply wp_bind. eapply (wp_recv [] t); [done|rewrite Hb; split; [lia|done]|exact Hp|done|].
  intros d w' t1 e1 Hd Hdl Hw He1 Ht1. cbn [app].
  assert (0 < length d)%nat by (destruct d; cbn; [done|lia]).
  rewrite (proj2 (Z.leb_gt _ 0)) by lia. apply wp_bind.
  eapply (wp_recv_head d t1 _ (frame m) w'); [done|lia|lia|done|lia|done|].
  intros p rest t2 e2 Hpw H4 He2 Ht2. cbn iota.
  rewrite (proj2 (Z.leb_gt _ 0)) by lia.
  assert (take 4 (p ++ t2) = be_split 4 (4 + Z.of_nat (length m))) as Ehd.
  { rewrite take_app_le by lia. rewrite <-(take_app_le p rest) by lia. rewrite <-Hpw.
    unfold frame. by rewrite take_app_full by by rewrite length_be_split. }
  apply wp_bind, wp_load; [lia|rewrite length_app; lia|].
  change (Z.to_nat 0) with 0%nat. rewrite drop_0, Ehd, ntohl_le_combine by by rewrite length_be_split.
  rewrite be_combine_split. change (2 ^ (Z.of_nat 4 * 8)) with (2 ^ 32).
  rewrite Z.mod_small by lia. cbn zeta. rewrite (proj2 (Z.ltb_ge _ _)) by lia.
  assert (length (frame m) = length p + length rest)%nat as Hsum by by rewrite Hpw, length_app.
  eapply (wp_recv_rest p t2 _ _ rest); [done|lia|lia|lia|done|].
  intros t3 e3 He3 Ht3. rewrite <-Hpw.
  replace (4 + Z.of_nat (length m)) with (Z.of_nat (length (frame m))) by lia.
  apply HQ; [done|lia].
Qed.

Lemma wp_memcpy_head p t d n (Q : bytes → mem conn → Prop) st :
  n = Z.of_nat (length d) → length p = length d → Q (d ++ t) st →
  wp (memcpy_at (p ++ t) 0 d n) Q st.
Proof.
  intros -> Hp HQ. unfold memcpy_at. rewrite bool_decide_true by lia.
  rewrite in_block_true by lia. cbn [andb]. change (Z.to_nat 0) with 0%nat. rewrite drop_0.
  apply wp_bind. apply wp_memcpy; [lia|rewrite length_app; lia|lia|]. wp_simpl. cbn [take app].
  by rewrite Nat2Z.id, firstn_all, <-Hp, drop_app_length.
Qed.
End loops.

(** ** Packets and replies *)

Section tcp.
Context {E : Type} `{Kernel E} (s : nmdb_srv) (Hs : sv_type s = TCP_CONN) `{!StreamSocket E (sv_fd s)}.
Abbreviation conn := (client E).

(** A packet with room for its length goes out as a frame. *)
Lemma wp_tcp_srv_send p0 pkt t n c a (Q : Z * bytes → mem conn → Prop) :
  length p0 = 4%nat → n = 4 + Z.of_nat (length pkt) → n < 2 ^ 32 → sk_sending [] (c_net c) →
  (∀ e, sk_sending (frame pkt) e → Q (1, frame pkt ++ t) (Mem (set_net e c) a)) →
  wp (srv_send (Some s) (p0 ++ pkt ++ t) n) Q (Mem c a).
Proof.
  intros Hp Hn H32 Hl HQ. unfold srv_send. rewrite Hs. cbn [Z.eqb TCP_CONN TIPC_CONN Pos.eqb].
  unfold tcp_srv_send. rewrite store_htonl. apply wp_bind.
  apply wp_memcpy_head; [by rewrite length_be_split|by rewrite length_be_split|].
  rewrite (assoc_L (++)), Hn. fold (frame pkt). apply wp_bind. unfold ssend.
  eapply (wp_ssend_loop _ _ [] (frame pkt)); [done|rewrite length_frame; lia|rewrite length_frame; lia|done|].
  intros e He. wp_simpl. rewrite Z.eqb_refl. cbn [negb]. by apply HQ.
Qed.

Lemma wp_tcp_get_rep r t c a (Q : answer → mem conn → Prop) :
  (length (frame (wire r)) ≤ length t)%nat → Z.of_nat (length t) < 2 ^ 32 →
  0 ≤ rep_code r < 2 ^ 32 → put32 (r_id (reply_req r)) = be_split 4 ID_CODE →
  sk_coming (frame (wire r)) (c_net c) →
  (∀ t' e, sk_coming [] e →
     Q (Answer (rep_code r) (frame (wire r) ++ t') 12 (Z.of_nat (length (wire r)) - 8))
       (Mem (set_net e c) a)) →
  wp (get_rep (Some s) t (Z.of_nat (length t))) Q (Mem c a).
Proof.
  intros Hl H32 Hc Hid Hp HQ. unfold get_rep. rewrite Hs. cbn [Z.eqb TCP_CONN TIPC_CONN Pos.eqb].
  pose proof (length_frame (wire r)) as Hfr.
  unfold tcp_get_rep. apply wp_bind. eapply (wp_recv_msg _ t _ (wire r)); [lia|lia|done|done|].
  intros t' e He Ht. cbn iota. rewrite (proj2 (Z.leb_gt _ 0)) by lia.
  destruct (wire_head r) as [w Hw]. pose proof (length_wire r) as Hlw.
  set (len := be_split 4 (4 + Z.of_nat (length (wire r)))).
  assert (frame (wire r) ++ t' = len ++ be_split 4 ID_CODE ++ be_split 4 (rep_code r) ++ w ++ t') as Eb.
  { unfold frame. fold len. by rewrite Hw, Hid, <-!(assoc_L (++)). }
  apply wp_bind. rewrite Eb at 1.
  apply (wp_load_at 4 len); [by unfold len; rewrite length_be_split|by rewrite length_be_split|].
  apply wp_bind. rewrite Eb at 1. rewrite (assoc_L (++) len).
  apply (wp_load_at 4); [by unfold len; rewrite length_app, !length_be_split|by rewrite length_be_split|].
  rewrite !ntohl_le_combine, !be_combine_split by by rewrite length_be_split.
  change (ID_CODE mod _) with ID_CODE. cbn [negb Z.eqb ID_CODE Pos.eqb]. wp_simpl.
  change (2 ^ (Z.of_nat 4 * 8)) with (2 ^ 32). rewrite (Z.mod_small (rep_code r)) by done.
  assert (8 ≤ length (wire r))%nat by (rewrite Hlw; destruct r; lia).
  rewrite w64_small by lia.
  replace (Z.of_nat _ - 4 - 4 - 4) with (Z.of_nat (length (wire r)) - 8) by lia.
  by apply HQ.
Qed.
End tcp.

(** ** A stream as a transport *)

(** What a server promises over TCP: for every request, the connection takes
    the request's frame and then gives the frame of a right answer. *)
Class StreamService (E : Type) `{Kernel E} (s : nmdb_srv) := {
  ss_is : E → store → Prop;
  ss_more : E → areq → reply → E → Prop;
  ss_limit : Z;
  ss_fits e M : ss_is e M → vals_fit M;
  ss_exchange e M f m : ss_is e M → sendable f m → packet_len m ≤ ss_limit →
    ∃ (so : StreamSocket E (sv_fd s)) q r,
      r_flags q = f ∧ answers (Point q m false M) r ∧
      put32 (r_id (reply_req r)) = be_split 4 ID_CODE ∧ sk_sending [] e ∧
      (∀ e1, sk_sending (frame (encode ID_CODE f m)) e1 → sk_coming (frame (wire r)) e1) ∧
      (∀ e2, sk_coming [] e2 → ss_more e m r e2 ∧ ss_is e2 (effect m M));
}.

Definition tcp_map {E} `{Kernel E} (s : nmdb_srv) (Hs : sv_type s = TCP_CONN) `{!StreamService E s} :
  MapService E s.
Proof.
  refine {| svc_is := ss_is; svc_more := ss_more; svc_limit := ss_limit; svc_fits := ss_fits |}.
  intros c M f m HM Hsd Hlim a p0 t Hp0 Hl.
  destruct (ss_exchange (c_net c) M f m HM Hsd Hlim) as (so & q & r & Hf & Hr & Hid & H0 & H1 & H2).
  exists q, r. split; [done|]. split; [done|]. intros Hfit.
  unfold srv_get_msg_offset in Hp0. rewrite Hs in Hp0. cbn [Z.eqb TCP_CONN TIPC_CONN Pos.eqb] in Hp0.
  unfold TCP_MSG_OFFSET in Hp0. set (pkt := encode ID_CODE f m) in *.
  assert (length (p0 ++ pkt ++ t) = length (frame pkt ++ t)) as El
    by (rewrite !length_app, length_frame; lia).
  assert (wp (srv_send (Some s) (p0 ++ pkt ++ t) (Z.of_nat (length (p0 ++ pkt))))
    (λ x u, x = (1, frame pkt ++ t) ∧ ∃ e1, sk_sending (frame pkt) e1 ∧ u = Mem (set_net e1 c) a)
    (Mem c a)) as Hw1.
  { rewrite length_app, Nat2Z.inj_add. rewrite !length_app in Hl.
    eapply wp_tcp_srv_send; [done|lia|lia|lia|done|]. intros e He. split; [done|]. by exists e. }
  apply wp_exec in Hw1 as (? & ? & Hw1 & -> & e1 & He1 & ->).
  assert (wp (get_rep (Some s) (frame pkt ++ t) (Z.of_nat (length (frame pkt ++ t))))
    (λ x u, ∃ t1 e2, x = Answer (rep_code r) (frame (wire r) ++ t1) 12 (Z.of_nat (length (wire r)) - 8) ∧
       sk_coming [] e2 ∧ u = Mem (set_net e2 c) a) (Mem (set_net e1 c) a)) as Hw2.
  { rewrite El in Hl, Hfit. eapply (wp_tcp_get_rep s Hs r);
      [rewrite length_frame; lia|done|by eapply rep_code_range|done|by apply H1|].
    intros t1 e2 He2. by exists t1, e2. }
  apply wp_exec in Hw2 as (? & ? & Hw2 & t1 & e2 & -> & He2 & ->).
  exists e2. split; [|by apply H2]. unfold frame in Hw2 at 3. rewrite <-El, <-(assoc_L (++)) in Hw2.
  exists (frame pkt ++ t), e1, (be_split 4 (4 + Z.of_nat (length (wire r)))), t1.
  split_and!; [rewrite length_be_split; lia|exact Hw1|]. by rewrite length_be_split.
Defined.

(** ** A connection as a script *)

Record stream := Stream {
  st_in : list bytes;    (* the segments that are still to be received *)
  st_takes : list Z;     (* how many bytes the coming sends take at most *)
  st_out : bytes;        (* what was sent *)
}.

Definition stream_send (d : bytes) (e : stream) : Z * stream :=
  let n := match st_takes e with [] => Z.of_nat (length d) | k :: _ => Z.min k (Z.of_nat (length d)) end in
  (n, Stream (st_in e) (tail (st_takes e)) (st_out e ++ take (Z.to_nat n) d)).

(** [recv]: nothing at the end of the stream, else the next segment, or the
    part of it that was asked for. *)
Definition stream_recv (n : Z) (e : stream) : option bytes * stream :=
  match st_in e with
  | [] => (Some [], e)
  | d :: ds =>
      if Z.of_nat (length d) <=? n then (Some d, Stream ds (st_takes e) (st_out e))
      else (Some (take (Z.to_nat n) d),
            Stream (drop (Z.to_nat n) d :: ds) (st_takes e) (st_out e))
  end.

#[export] Instance stream_kernel : Kernel stream := {|
  k_socket _ e := (Some 3, e);
  k_connect _ _ _ e := (true, e);
  k_nodelay _ e := (true, e);
  k_close _ e := e;
  k_send _ d e := stream_send d e;
  k_sendto _ d e := (-1, e);
  k_recv _ n e := stream_recv n e;
|}.

(** Every send takes something, and no segment is empty. *)
Record live_stream (e : stream) : Prop := LiveStream {
  ls_takes : Forall (λ k, 1 ≤ k) (st_takes e);
  ls_in : Forall (λ d, d ≠ []) (st_in e);
}.

Lemma stream_send_spec d e :
  live_stream e → d ≠ [] →
  ∃ n e', stream_send d e = (n, e') ∧ 1 ≤ n ≤ Z.of_nat (length d) ∧ live_stream e' ∧
    st_in e' = st_in e ∧ st_out e' = st_out e ++ take (Z.to_nat n) d.
Proof.
  intros [Ht Hi] Hd. assert (0 < Z.of_nat (length d)) by (destruct d; cbn; [done|lia]).
  unfold stream_send. eexists _, _. split; [done|].
  split_and!; [..|done|done].
  - destruct Ht; lia.
  - destruct Ht; lia.
  - split; cbn; [|done]. by destruct Ht.
Qed.

Lemma stream_recv_spec n e w :
  live_stream e → 0 < n → concat (st_in e) = w → w ≠ [] →
  ∃ d w' e', stream_recv n e = (Some d, e') ∧ d ≠ [] ∧ Z.of_nat (length d) ≤ n ∧
    w = d ++ w' ∧ concat (st_in e') = w' ∧ live_stream e' ∧ st_out e' = st_out e.
Proof.
  intros [Ht Hi] Hn Hw Hne. unfold stream_recv. destruct (st_in e) as [|x xs] eqn:Ei.
  { subst. by destruct Hne. }
  apply Forall_cons in Hi as [Hx Hxs]. cbn in Hw.
  destruct (Z.of_nat (length x) <=? n) eqn:E; [apply Z.leb_le in E|apply Z.leb_gt in E].
  - exists x, (concat xs). eexists. split_and!; try done.
  - exists (take (Z.to_nat n) x), (drop (Z.to_nat n) x ++ concat xs). eexists.
    assert (length (take (Z.to_nat n) x) = Z.to_nat n) as Hlen by (rewrite length_take; lia).
    split_and!; try done.
    + intros En. rewrite En in Hlen. cbn in Hlen. lia.
    + lia.
    + by rewrite (assoc_L (++)), take_drop.
    + split; cbn; [done|]. constructor; [|done]. intros En.
      apply (f_equal length) in En. rewrite length_drop in En. cbn in En. lia.
Qed.

(** The script as a stream: [i] is what is to come, [o] was sent before. *)
Definition script_socket (i o o' : bytes) (fd : Z) : StreamSocket stream fd.
Proof.
  refine {|
    sk_sending w e := live_stream e ∧ concat (st_in e) = i ∧ st_out e = o ++ w;
    sk_coming w e := live_stream e ∧ concat (st_in e) = w ∧ st_out e = o';
  |}.
  - intros w d e (Hl & Hi & Ho) Hd.
    destruct (stream_send_spec d e Hl Hd) as (n & e' & Hs & Hn & Hl' & Hi' & Ho').
    exists n, e'. split_and!; try done; [lia|lia|by rewrite Hi'|].
    by rewrite Ho', Ho, <-(assoc_L (++)).
  - intros w n e (Hl & Hi & Ho) Hn Hw.
    destruct (stream_recv_spec n e w Hl Hn Hi Hw) as (d & w' & e' & Hr & Hd & Hdl & Hw' & Hi' & Hl' & Ho').
    exists d, w', e'. split_and!; try done. by rewrite Ho'.
Defined.

(** ** Properties *)

(** The client's side of a TCP connection. Whatever part of the packet each
    send takes, and however the bytes of the reply's frame are cut on their
    way: exactly the frame of the packet is sent, exactly the reply's frame is
    received, and its code and payload are found in the buffer; neither goes
    past the buffer's end. *)
Theorem client_tcp_exchange (s : nmdb_srv) (p0 pkt t : bytes) (r : reply) (c : client stream) (a : alloc)
  (Hs : sv_type s = TCP_CONN) (Hp : length p0 = 4%nat)
  (Hb : Z.of_nat (length (p0 ++ pkt ++ t)) < 2 ^ 32) (Hl : live_stream (c_net c))
  (Hin : concat (st_in (c_net c)) = frame (wire r))
  (Hr : (length (frame (wire r)) ≤ length (p0 ++ pkt ++ t))%nat)
  (Hc : 0 ≤ rep_code r < 2 ^ 32) (Hid : put32 (r_id (reply_req r)) = be_split 4 ID_CODE) :
  ∃ an t' c', (x ← srv_send (Some s) (p0 ++ pkt ++ t) (4 + Z.of_nat (length pkt));
               y ← get_rep (Some s) x.2 (Z.of_nat (length (p0 ++ pkt ++ t)));
               mret (x.1, y)) (Mem c a) = Some ((1, an), Mem c' a) ∧
    an = Answer (rep_code r) (frame (wire r) ++ t') 12 (Z.of_nat (length (wire r)) - 8) ∧
    st_out (c_net c') = st_out (c_net c) ++ frame pkt ∧ concat (st_in (c_net c')) = [].
Proof.
  rewrite !length_app in *.
  assert (wp (x ← srv_send (Some s) (p0 ++ pkt ++ t) (4 + Z.of_nat (length pkt));
     y ← get_rep (Some s) x.2 (Z.of_nat (length p0 + (length pkt + length t)));
     mret (x.1, y)) (λ x t1, heap t1 = a ∧ x.1 = 1 ∧ ∃ t',
       x.2 = Answer (rep_code r) (frame (wire r) ++ t') 12 (Z.of_nat (length (wire r)) - 8) ∧
       st_out (c_net (obj t1)) = st_out (c_net c) ++ frame pkt ∧
       concat (st_in (c_net (obj t1))) = []) (Mem c a)) as Hw.
  { pose (so := script_socket (frame (wire r)) (st_out (c_net c)) (st_out (c_net c) ++ frame pkt) (sv_fd s)).
    apply wp_bind. eapply wp_tcp_srv_send; [done|done|done|lia|by split_and!; [..|rewrite app_nil_r]|].
    intros e (He & Hi & Ho). cbn [fst snd].
    assert (length (frame pkt ++ t) = (length p0 + (length pkt + length t))%nat) as El
      by (rewrite length_app, length_frame; lia).
    apply wp_bind. rewrite <-El. eapply (wp_tcp_get_rep s Hs r); [lia|lia|done|done|done|].
    intros t' e' (He' & Hn' & Ho'). wp_simpl. split; [done|]. split; [done|]. by exists t'. }
  apply wp_exec in Hw as ([x y] & [c' a'] & Hw & Ea & Ex & t' & Ey & H1 & H2).
  cbn in Ea, Ex, Ey, H1, H2. subst a' x. by exists y, t', c'.
Qed.

Definition sample_reply : reply := reply_long (set_id (htonl 1) sample_req) REP_OK [Byte.x2a; Byte.x2b].

Lemma client_tcp_exchange_witness :
  let c := Client [] (Stream [take 3 (frame (wire sample_reply)); drop 3 (frame (wire sample_reply))] [1; 2] []) in
  ∃ an t' c', (x ← srv_send (Some (Srv 3 TCP_CONN 1 1)) (replicate 4 NUL ++ encode 1 0 (AGet [Byte.x61]) ++ replicate 9 NUL) 17;
               y ← get_rep (Some (Srv 3 TCP_CONN 1 1)) x.2 26;
               mret (x.1, y)) (Mem c sample_alloc) = Some ((1, an), Mem c' sample_alloc) ∧
    an = Answer REP_OK (frame (wire sample_reply) ++ t') 12 6 ∧
    st_out (c_net c') = frame (encode 1 0 (AGet [Byte.x61])) ∧ concat (st_in (c_net c')) = [].
Proof.
  apply (client_tcp_exchange (Srv 3 TCP_CONN 1 1) (replicate 4 NUL) (encode 1 0 (AGet [Byte.x61]))
    (replicate 9 NUL) sample_reply (Client [] (Stream
      [take 3 (frame (wire sample_reply)); drop 3 (frame (wire sample_reply))] [1; 2] [])) sample_alloc);
    try done; try (vm_compute; lia).
  repeat constructor; discriminate.
Defined.
