(* ===== verification/Host.v ===== *)
(** * A client against a server

    The whole path of a request: the client library builds and sends a packet
    (Client.v), the UDP transport receives it (Transport.v), the handler and
    the database thread process it (Parse.v, DbLoop.v), the reply functions
    send their bytes, and the library decodes them. [host] is the server's
    process and the network between it and one client; it is an instance of
    the library's [Kernel], and a [DgramService]. *)

From S2P Require Import Prelude Words Text Chain ChainSpec Cache Net Queue Backend Server Parse ParseSpec DbLoop DbSpec Transport System Client ClientSpec.

(** ** The server's process *)

Record host (D : Type) := Host {
  ho_static : bytes;            (* the static buffer of udp.c *)
  ho_sys : system D;
  ho_heap : alloc;
  ho_inbox : list packet;       (* sent to the client, not yet received *)
}.
Arguments Host {D}.
Arguments ho_static {D}.
Arguments ho_sys {D}.
Arguments ho_heap {D}.
Arguments ho_inbox {D}.

(** The state of the server's threads and what the transports have sent. *)
Record process (D : Type) := Process { pr_static : bytes; pr_sys : system D; pr_sent : list packet }.
Arguments Process {D}.
Arguments pr_static {D}.
Arguments pr_sys {D}.
Arguments pr_sent {D}.

Section host.
Context {D : Type} `{DbOps D}.

Definition on_receiver {A} (m : MT receiver A) : MT (process D) A :=
  zoom (λ p, Some (Receiver (pr_static p) (y_server (pr_sys p))))
    (λ v p, Process (v_static v) (set_server (v_server v) (pr_sys p)) (pr_sent p)) m.

Definition on_system {A} (m : MT (system D) A) : MT (process D) A :=
  zoom (λ p, Some (pr_sys p)) (λ y p, Process (pr_static p) y (pr_sent p)) m.

(** The reply functions that each transport gave to its requests, against a
    kernel that accepts what it is given. *)
Definition reply_fn (r : reply) : MT net () :=
  match r with
  | reply_mini q c =>
      match r_type q with
      | REQTYPE_UDP => udp_reply_mini q c
      | REQTYPE_TIPC => tipc_reply_mini q c
      | REQTYPE_SCTP => sctp_reply_mini q c
      | REQTYPE_TCP => ub
      end
  | reply_err q c =>
      match r_type q with
      | REQTYPE_UDP => udp_reply_err q c
      | REQTYPE_TIPC => tipc_reply_err q c
      | REQTYPE_SCTP => sctp_reply_err q c
      | REQTYPE_TCP => ub
      end
  | reply_long q c v =>
      match r_type q with
      | REQTYPE_UDP => udp_reply_long q c v
      | REQTYPE_TIPC => tipc_reply_long q c v
      | REQTYPE_SCTP => sctp_reply_long q c v
      | REQTYPE_TCP => ub
      end
  end.

Definition send_one (r : reply) : MT (process D) () :=
  zoom (λ p, Some (Net (passive (s_settings (y_server (pr_sys p)))) [Sent 0; Sent 0] (pr_sent p)))
    (λ n p, Process (pr_static p) (pr_sys p) (n_sent n)) (reply_fn r).

Fixpoint send_all (rs : list reply) : MT (process D) () :=
  match rs with [] => mret tt | r :: rs => send_one r;; send_all rs end.

(** The replies that were emitted, sent. *)
Definition flush : MT (process D) () :=
  p ← get_obj;
  send_all (s_out (y_server (pr_sys p)));;
  on_system (on_server (mod_obj (set_out []))).

(** A datagram arrives: the event loop calls [udp_recv], and the database
    thread has its turn. *)
Definition serve (fd : Z) (pkt sa : bytes) : MT (process D) () :=
  on_receiver (udp_recv fd (Datagram pkt sa));;
  on_system (db_iteration 0);;
  flush.

(** ** The host as the client's kernel

    One UDP socket, whose address the server sees as [sa]; the other calls are
    not used by a client that has a connection. *)

Definition client_sa : bytes := replicate 16 Byte.x2a.

Definition host_sendto (s : nmdb_srv) (pkt : bytes) (h : host D) : Z * host D :=
  match serve 4 pkt client_sa (Mem (Process (ho_static h) (ho_sys h) []) (ho_heap h)) with
  | Some (_, t) =>
      (Z.of_nat (length pkt),
       Host (pr_static (obj t)) (pr_sys (obj t)) (heap t) (ho_inbox h ++ pr_sent (obj t)))
  | None => (-1, h)
  end.

Definition host_recv (fd n : Z) (h : host D) : option bytes * host D :=
  match ho_inbox h with
  | [] => (None, h)
  | p :: ps =>
      (Some (take (Z.to_nat n) (p_bytes p)), Host (ho_static h) (ho_sys h) (ho_heap h) ps)
  end.

#[export] Instance host_kernel : Kernel (host D) := {|
  k_socket _ h := (Some 3, h);
  k_connect _ _ _ h := (true, h);
  k_nodelay _ h := (true, h);
  k_close _ h := h;
  k_send _ _ h := (-1, h);
  k_sendto := host_sendto;
  k_recv := host_recv;
|}.
End host.

(** ** The host is a map *)

Section service.
Context {D : Type} `{DbLaws D} (Hrel : reliable (D := D)).

(** Between two requests: nothing is queued or owed, and cache and database
    agree on [M]. *)
Record settled (y : system D) (M : store) (st : astate) : Prop := Settled {
  se_server : server_is (y_server y) st;
  se_queue : as_queue st = [];
  se_out : as_out st = [];
  se_ro : a_read_only st = false;
  se_passive : passive (as_settings st) = 0;
  se_cache : coherent (as_cache st) M;
  se_db : db_view (y_db y) = M;
  se_fit : vals_fit M;
  se_stop : y_stop y = false;
}.

(** The same with the static buffer of a datagram transport. *)
Record quiet (static : bytes) (y : system D) (M : store) (st : astate) : Prop := Quiet {
  qu_static : Z.of_nat (length static) = SBSIZE;
  qu_settled : settled y M st;
}.

Lemma settled_room y M st : settled y M st → queue_room st.
Proof. intros Hy. unfold queue_room. by rewrite (se_queue _ _ _ Hy). Qed.

Lemma settled_incr_safe y M st m : settled y M st → incr_safe m st.
Proof.
  intros Hy. destruct m as [| | | |k n| | | | |]; try done. cbn. unfold incr_defined.
  destruct (a_lookup k (as_cache st)) as [v|] eqn:Ek; [|done].
  apply (proj2 (se_cache _ _ _ Hy)) in Ek. destruct (se_fit _ _ _ Hy _ _ Ek) as (_ & Hne & Hl).
  unfold db_buf_size in Hl. split; [done|lia].
Qed.

Lemma wp_on_receiver {A} p a (m : MT receiver A) (Q : A → mem (process D) → Prop) :
  wp m (λ r t, Q r (Mem (Process (v_static (obj t)) (set_server (v_server (obj t)) (pr_sys p))
    (pr_sent p)) (heap t))) (Mem (Receiver (pr_static p) (y_server (pr_sys p))) a) →
  wp (on_receiver m) Q (Mem p a).
Proof. intros Hm. unfold on_receiver. by rewrite (wp_zoom _ _ _ _ _ _ (Receiver (pr_static p) (y_server (pr_sys p)))). Qed.

Lemma wp_on_system {A} p a (m : MT (system D) A) (Q : A → mem (process D) → Prop) :
  wp m (λ r t, Q r (Mem (Process (pr_static p) (obj t) (pr_sent p)) (heap t))) (Mem (pr_sys p) a) →
  wp (on_system m) Q (Mem p a).
Proof. intros Hm. unfold on_system. by rewrite (wp_zoom _ _ _ _ _ _ (pr_sys p)). Qed.

(** One reply, sent by UDP. *)
Lemma wp_send_one r p a (Q : () → mem (process D) → Prop) :
  r_type (reply_req r) = REQTYPE_UDP → passive (s_settings (y_server (pr_sys p))) = 0 →
  never_fails a →
  (∀ a', never_fails a' →
     Q tt (Mem (Process (pr_static p) (pr_sys p) (pr_sent p ++ [packet_of r])) a')) →
  wp (send_one r) Q (Mem p a).
Proof.
  intros Hty Hp Ha HQ. unfold send_one. erewrite wp_zoom by done.
  assert (reply_fn r = dgram_send r) as ->
    by by destruct r; cbn in Hty; unfold reply_fn; rewrite Hty.
  apply wp_dgram_send; [split; [done|cbn; lia]|done|]. intros a' Ha'. by apply HQ.
Qed.

(** The answer to a request that lists keys is what the backend says, and the
    database stays as it is. *)
Definition list_answer (m : areq) (d : D) (q : req_info) : reply :=
  let from f := match f with None => reply_err q ERR_DB | Some f => reply_result q (f db_buf_size d) end in
  match m with
  | ANextkey k => from ((λ f, f k) <$> db_nextkey)
  | _ => from db_firstkey
  end.
Definition listed (m : areq) (d d' : D) (r : reply) : Prop :=
  listing m = true → d' = d ∧ r = list_answer m d (reply_req r).

(** What serving a request comes to. *)
Definition serves (M : store) (f : Z) (m : areq) (y : system D) (t : mem (process D)) : Prop :=
  never_fails (heap t) ∧ ∃ q r st', r_flags q = f ∧ r_id q = htonl ID_CODE ∧
    answers (Point q m false M) r ∧ pr_sent (obj t) = [packet_of r] ∧
    listed m (y_db y) (y_db (pr_sys (obj t))) r ∧
    quiet (pr_static (obj t)) (pr_sys (obj t)) (effect m M) st'.

Lemma wp_send_all rs p a (Q : () → mem (process D) → Prop) :
  Forall (λ r, r_type (reply_req r) = REQTYPE_UDP) rs →
  passive (s_settings (y_server (pr_sys p))) = 0 → never_fails a →
  (∀ a', never_fails a' →
     Q tt (Mem (Process (pr_static p) (pr_sys p) (pr_sent p ++ (packet_of <$> rs))) a')) →
  wp (send_all rs) Q (Mem p a).
Proof.
  intros Hty. revert p a. induction Hty as [|r rs Hr Hty IH]; intros p a Hp Ha HQ; cbn [send_all].
  - wp_simpl. cbn in HQ. rewrite app_nil_r in HQ. destruct p. by apply HQ.
  - apply wp_bind, wp_send_one; [done|done|done|]. intros a1 Ha1. apply IH; [done|done|].
    intros a2 Ha2. cbn [pr_static pr_sys pr_sent]. rewrite <-(assoc_L (++)). by apply HQ.
Qed.

Lemma wp_flush static y sent a st (Q : () → mem (process D) → Prop) :
  never_fails a → server_is (y_server y) st →
  passive (as_settings st) = 0 → Forall (λ r, r_type (reply_req r) = REQTYPE_UDP) (as_out st) →
  (∀ a', never_fails a' →
     Q tt (Mem (Process static (set_server (set_out [] (y_server y)) y) (sent ++ (packet_of <$> as_out st))) a')) →
  wp flush Q (Mem (Process static y sent) a).
Proof.
  intros Ha [_ _ _ Hse Ho] Hp Hty HQ. unfold flush. wp_simpl. cbn [pr_sys].
  rewrite Ho. apply wp_send_all; [done|cbn; by rewrite Hse|done|].
  intros a' Ha'. cbn [pr_static pr_sys pr_sent].
  apply wp_on_system, wp_on_server. wp_simpl. by apply HQ.
Qed.

(** The database thread's turn after a request was handled. *)
Lemma wp_turn y a p st st1 (Q : bool → mem (system D) → Prop) :
  never_fails a → server_is (y_server y) st1 → handled p st st1 →
  as_queue st = [] → as_out st = [] → db_view (y_db y) = p_map p → vals_fit (p_map p) →
  y_stop y = false →
  (∀ y' a' r st2, never_fails a' → server_is (y_server y') st2 → as_queue st2 = [] →
     as_out st2 = [r] → answers p r → as_settings st2 = as_settings st →
     coherent (as_cache st2) (after p) → db_view (y_db y') = after p → y_stop y' = false →
     (∀ x, as_queue st1 = [x] → lists x →
       y_db y' = y_db y ∧ [r] = (a_process x true (y_db y)).1) →
     Q true (Mem y' a')) →
  wp (db_iteration 0) Q (Mem y a).
Proof.
  intros Ha Hs1 [Hset Hc Hcase] Hq Ho Hdb Hfit Hstop HQ.
  unfold replied, deferring in Hcase. rewrite Hq, Ho in Hcase.
  destruct Hcase as [(Haf & Hq1 & r & Ho1 & Hr)|(x & Hx & Hq1 & Ho1)]; cbn in Hq1, Ho1.
  - eapply (wp_db_iteration 0 y a []); [by left|done|by rewrite <-Hq1; apply Hs1|done|by rewrite Hdb|constructor| |].
    + intros _. rewrite Hstop. eapply (HQ y a r st1); try done; [congruence|]. intros x. by rewrite Hq1.
    + intros ?????? [=].
  - destruct (deferred_ok p x Hx) as [Hok Hfx].
    eapply (wp_db_iteration 0 y a [x]); [by left|done|by rewrite <-Hq1; apply Hs1|done|by rewrite Hdb|by constructor|done|].
    intros x' l' rs q' y' a' [= <- <-] Ha' Hq' E Es Estop Hkeep.
    destruct (process_deferred p x (y_db y) Hrel Hx Hdb) as [E2 Hans].
    unfold set_ok in E. rewrite (rel_set Hrel) in E. rewrite E in E2, Hans. cbn in E2, Hans.
    destruct Hs1 as [S1 S2 S3 S4 S5].
    assert (∃ r, as_out st1 ++ rs = [r] ∧ answers p r ∧ (lists x → rs = [r])) as (r & Hr & Hans' & Hrs).
    { destruct (owes p) eqn:Eo.
      - destruct Hans as (r & -> & Hr). exists r. by rewrite Ho1.
      - destruct Ho1 as (r & -> & Hr). exists r. rewrite Hans. split_and!; [done|done|].
        intros Hl. exfalso. destruct Hx as [Hen _ _ _]. unfold owes, entry_of in *.
        destruct (p_msg p); try done; injection Hen as <-; by destruct Hl. }
    eapply (HQ y' a' r (AState (as_cache st1) [] (as_stats st1) (as_settings st1) [r])); try done.
    3:{ rewrite Hq1. intros x' [= <-] Hl. split; [by apply Hkeep|]. by rewrite E, <-(Hrs Hl). }
    + split; cbn; rewrite Es; cbn; try done. by rewrite S5.
    + congruence.
Qed.

(** The answer to a request of a settled server, once the handler is done:
    after the database thread's turn it is emitted, and the server is settled. *)
Lemma wp_answer counter y0 y a M st q f m (Q : bool → mem (system D) → Prop) :
  never_fails a → settled y0 M st → sendable f m → r_flags q = f →
  y_db y = y_db y0 → y_stop y = y_stop y0 →
  server_is (y_server y) (handle q m (to_stats counter st)) →
  (∀ y' a' r st2 st', never_fails a' → server_is (y_server y') st2 → as_out st2 = [r] →
     passive (as_settings st2) = 0 → answers (Point q m false M) r →
     listed m (y_db y) (y_db y') r →
     settled (set_server (set_out [] (y_server y')) y') (effect m M) st' → Q true (Mem y' a')) →
  wp (db_iteration 0) Q (Mem y a).
Proof.
  intros Ha [Hs Hq Ho Hro Hp Hc Hdb Hfit Hstop] [Hm Hst Hf Hco] Hfl Ey1 Ey2 Hs1 HQ.
  set (st0 := to_stats counter st) in *.
  assert (fits q m) as Hfits by (split; [done|]; unfold cache_only; by rewrite Hfl).
  pose proof (handle_point q st0 M Hc m Hfits) as Hh.
  assert (a_read_only st0 = false) as Hro0 by exact Hro. rewrite Hro0 in Hh.
  eapply (wp_turn _ _ _ st0 (handle q m st0)); try done; [by rewrite Ey1|by rewrite Ey2|].
  intros y' a2 r st2 Ha2 Hs2 Hq2 Ho2 Hr Hset Hc2 Hdb2 Hstop2 Hlist.
  assert (after (Point q m false M) = effect m M) as Haf by done. rewrite Haf in *.
  eapply (HQ y' a2 r st2 (AState (as_cache st2) [] (as_stats st2) (as_settings st2) []));
    try done; [by rewrite Hset| |].
  { intros Hl. destruct m; try done;
      (edestruct Hlist as [Ed Er]; [cbn; rewrite Hq; reflexivity|unfold lists; auto|]);
      (split; [done|]); injection Er as ->; unfold list_answer.
    - destruct db_firstkey; [|done]. by rewrite reply_result_req.
    - destruct db_nextkey; [|done]. cbn. by rewrite reply_result_req. }
  split; try done; cbn.
  - destruct Hs2 as [S1 S2 S3 S4 S5]. split; try done. by rewrite <-Hq2.
  - unfold a_read_only. cbn. by rewrite Hset.
  - by rewrite Hset.
  - by eapply (effect_fits q).
Qed.

Lemma wp_serve static y a M st fd sa f m (Q : () → mem (process D) → Prop) :
  never_fails a → quiet static y M st → sendable f m →
  (∀ t, serves M f m y t → Q tt t) →
  wp (serve fd (encode ID_CODE f m) sa) Q (Mem (Process static y []) a).
Proof.
  intros Ha [Hv Hy] Hsd HQ. unfold serve. apply wp_bind, wp_on_receiver. cbn [pr_static pr_sys].
  unfold udp_recv. pose proof (se_server _ _ _ Hy).
  apply (wp_recv_encoded REQTYPE_UDP msg_udp 0 fd sa ID_CODE f m _ _ st);
    [done|exact Ha|by eapply settled_room|lia|by unfold ID_CODE|apply Hsd|apply Hsd|
     by eapply settled_incr_safe|].
  intros v' a' q [Hs1 Hst1] Ha' Hid Hfl Hfd Hty Haddr. cbn [obj heap pr_static pr_sys pr_sent].
  apply wp_bind, wp_on_system. cbn [pr_sys].
  eapply (wp_answer msg_udp y); [done|exact Hy|exact Hsd|exact Hfl|done|done|exact Hs1|].
  intros y' a2 r st2 st' Ha2 Hs2 Ho2 Hp2 Hr Hlist Hy'. cbn [obj heap pr_static pr_sent].
  destruct (Hr) as [(Hrfd & Hrty & Hrid & _) _]. cbn in Hrty.
  eapply wp_flush; [done|exact Hs2|done|rewrite Ho2; constructor; [congruence|done]|].
  intros a3 Ha3. apply HQ. rewrite Ho2. split; [done|]. cbn [obj pr_sent pr_static pr_sys].
  by exists q, r, st'.
Qed.

(** A request for the statistics is answered with the counters, which have
    already counted it. *)
Lemma wp_serve_stats static y a M st fd sa (Q : () → mem (process D) → Prop) :
  never_fails a → quiet static y M st →
  (∀ t q, r_id q = htonl ID_CODE →
     pr_sent (obj t) = [packet_of (reply_long q REP_OK (stats_payload (bump msg_udp (as_stats st))))] →
     Q tt t) →
  wp (serve fd (encode ID_CODE 0 AStats) sa) Q (Mem (Process static y []) a).
Proof.
  intros Ha [Hv [Hsv Hq Ho Hro Hp Hc Hdb Hfit Hstop]] HQ. unfold serve.
  apply wp_bind, wp_on_receiver. cbn [pr_static pr_sys]. unfold udp_recv.
  apply (wp_recv_encoded REQTYPE_UDP msg_udp 0 fd sa ID_CODE 0 AStats _ _ st);
    [done|exact Ha|by unfold queue_room; rewrite Hq|lia|by unfold ID_CODE|done|done|done|].
  intros v' a' q [Hs1 Hst1] Ha' Hid Hfl Hfd Hty Haddr. cbn [obj heap pr_static pr_sys pr_sent].
  cbn [handle] in Hs1. set (st1 := to_out _ _) in Hs1.
  assert (as_queue st1 = []) as Hq1 by exact Hq.
  apply wp_bind, wp_on_system. cbn [pr_sys].
  eapply (wp_db_iteration 0 _ a' []); [by left|done|rewrite <-Hq1; apply Hs1|done|by cbn; rewrite Hdb|constructor| |].
  2:{ intros ?????? [=]. }
  intros _. cbn [obj heap pr_static pr_sent]. 
  assert (as_out st1 = [reply_long q REP_OK (stats_payload (as_stats (to_stats msg_udp st)))]) as Ho1
    by by unfold st1; cbn; rewrite Ho.
  eapply wp_flush; [done|exact Hs1|exact Hp|rewrite Ho1; constructor; [exact Hty|done]|].
  rewrite Ho1. intros a3 Ha3. eapply HQ; [exact Hid|done].
Qed.

Definition host_is (h : host D) (M : store) : Prop :=
  never_fails (ho_heap h) ∧ ho_inbox h = [] ∧ ∃ st, quiet (ho_static h) (ho_sys h) M st.

(** The server keeps the promise that the library's theorems rely on. *)
Definition host_service (s : nmdb_srv) : DgramService (host D) s.
Proof.
  refine {|
    dg_is := host_is;
    dg_more h m r h' := listed m (y_db (ho_sys h)) (y_db (ho_sys h')) r
  |}.
  - intros h M (_ & _ & st & Hq). apply (se_fit _ _ _ (qu_settled _ _ _ _ Hq)).
  - intros h M f m (Ha & Hin & st & Hq) Hsd.
    assert (wp (serve 4 (encode ID_CODE f m) client_sa) (λ _, serves M f m (ho_sys h))
      (Mem (Process (ho_static h) (ho_sys h) []) (ho_heap h))) as Hw by by eapply wp_serve.
    apply wp_exec in Hw as ([] & [p' a'] & Hw & Ha' & q & r & st' & Hfl & Hid & Hr & Hsent & Hlist & Hq').
    cbn [obj heap app] in *.
    exists (Host (pr_static p') (pr_sys p') a' [packet_of r]), (Host (pr_static p') (pr_sys p') a' []), q, r.
    split_and!; [| |destruct Hr as [(_ & _ & Hri & _) _]; cbn in Hri; rewrite Hri, Hid; apply put32_htonl|
      done|done|exact Hlist|].
    + cbn [k_sendto host_kernel]. unfold host_sendto. rewrite Hw. cbn [obj heap]. by rewrite Hin, Hsent.
    + intros n Hn. cbn [k_recv host_kernel]. unfold host_recv. cbn [ho_inbox packet_of p_bytes].
      by rewrite take_ge by lia.
    + split; [done|]. split; [done|]. by exists st'.
Defined.
End service.

(** ** Properties *)

(** C2: end to end. A client with a UDP connection to a server whose cache and
    database agree on a map: any sequence of its calls, each going through the
    library's packet, the transport's receive handler, the request handler, the
    cache, the queue, the database thread, the reply's bytes and the library's
    decoder, is defined and returns what the same operations on the map give;
    at the end the cache and the database agree on the resulting map. *)
Theorem end_to_end {D} `{DbLaws D} (s : nmdb_srv) (xs : list call) (c : client (host D))
  (a : alloc) (M : store)
  (Hrel : reliable (D := D)) (Hs : is_dgram s) (Ha : never_fails a)
  (Hc : c_servers c = [s]) (HM : host_is (c_net c) M) (Hok : Forall call_ok xs) :
  ∃ c' a', run_calls xs (Mem c a) = Some ((map_calls xs M).1, Mem c' a') ∧
    host_is (c_net c') (map_calls xs M).2.
Proof.
  assert (wp (run_calls xs) (λ r t, r = (map_calls xs M).1 ∧ host_is (c_net (obj t)) (map_calls xs M).2)
    (Mem c a)) as Hw.
  { eapply (wp_run_calls s (MapService0 := dgram_map Hs (DgramService0 := host_service Hrel s)));
      try done; [by apply calls_fit|]. intros t (_ & _ & Ht). by split. }
  apply wp_exec in Hw as (r & [c' a'] & Hw & -> & H3). by exists c', a'.
Qed.

Definition sample_srv : nmdb_srv := Srv 3 UDP_CONN (htons 26010) 0x0100007f.
Definition sample_host : host store := Host sample_static fresh_system sample_alloc [].
Definition sample_client : client (host store) := Client [sample_srv] sample_host.
Definition sample_calls : list call :=
  [CSet false [Byte.x62] [Byte.x35; NUL]; CIncr [Byte.x62] (-7); CGet [Byte.x62] 100;
   CDel true [Byte.x61]; CDel true [Byte.x61]; CCas [Byte.x62] [NUL] [Byte.x01]].

Lemma sample_host_is : host_is sample_host sample_store.
Proof.
  split; [apply sample_never_fails|]. split; [done|]. exists fresh_state.
  split; [apply sample_receiver_is|].
  split; [apply fresh_server_is|done|done|done|done|split; [cbn; lia|]|done|apply sample_vals_fit|done].
  intros k v. cbn [as_cache fresh_state]. by rewrite a_lookup_empty.
Qed.

(** The same with nothing in the database. *)
Definition empty_host : host store := Host sample_static (System (y_server fresh_system) ∅ false) sample_alloc [].

Lemma empty_host_is : host_is empty_host ∅.
Proof.
  split; [apply sample_never_fails|]. split; [done|]. exists fresh_state.
  split; [apply sample_receiver_is|].
  split; [apply fresh_server_is|done|done|done|done|split; [cbn; lia|]|done|done|done].
  intros k v. cbn [as_cache fresh_state]. by rewrite a_lookup_empty.
Qed.

Lemma sample_calls_ok : Forall call_ok sample_calls.
Proof. repeat constructor; vm_compute; try done; by repeat split. Qed.

Lemma end_to_end_witness :
  ∃ c' a', run_calls sample_calls (Mem sample_client sample_alloc) =
    Some ((map_calls sample_calls sample_store).1, Mem c' a') ∧
    host_is (c_net c') (map_calls sample_calls sample_store).2.
Proof.
  apply (end_to_end sample_srv sample_calls sample_client sample_alloc sample_store store_reliable);
    [by right; left|apply sample_never_fails|reflexivity|apply sample_host_is|apply sample_calls_ok].
Defined.

Lemma client_refines_map_witness :
  ∃ c' a', run_calls sample_calls (Mem sample_client sample_alloc) =
    Some ((map_calls sample_calls sample_store).1, Mem c' a') ∧
    host_is (c_net c') (map_calls sample_calls sample_store).2.
Proof.
  apply (client_refines_map (MapService0 := dgram_map (s := sample_srv) ltac:(by right; left)
      (DgramService0 := host_service store_reliable sample_srv))
    sample_srv sample_calls sample_client sample_alloc sample_store);
    [apply sample_never_fails|reflexivity|apply sample_host_is|apply sample_calls_ok|].
  apply calls_fit, sample_calls_ok.
Defined.
