(* ===== verification/HostTcp.v ===== *)
(** * A client and a server joined by TCP

    The client's half of a connection is Client.v's, the server's half is
    Tcp.v's: what the client sends arrives in segments at [tcp_recv], which
    reassembles the request; the handler and the database thread process it,
    the reply functions send the frame of the reply some bytes at a time, and
    the client reassembles it. A connection carries bytes and no boundaries: how
    they are cut in either direction, and how much each send takes, are the
    network's choice ([cuts]), another one for every exchange. *)

From S2P Require Import Prelude Words Text Chain ChainSpec Cache Net Queue Backend Server Parse ParseSpec DbLoop DbSpec Transport Tcp TcpSpec System Client ClientSpec ClientTcp Host.

(** ** Bytes in pieces *)

(** Bytes cut into segments of [S n] bytes; the last one has the rest. *)
Fixpoint cut (ns : list nat) (b : bytes) : list bytes :=
  match b, ns with
  | [], _ => []
  | _, [] => [b]
  | _, n :: ns => take (S n) b :: cut ns (drop (S n) b)
  end.

Lemma cut_concat ns b : concat (cut ns b) = b.
Proof.
  revert b. induction ns as [|n ns IH]; intros [|x b]; try done; [by cbn; rewrite app_nil_r|].
  cbn [cut concat]. by rewrite IH, take_drop.
Qed.

Lemma cut_nonempty ns b : Forall (λ d, d ≠ []) (cut ns b).
Proof.
  revert b. induction ns as [|n ns IH]; intros [|x b]; cbn [cut]; by repeat constructor.
Qed.

(** What the server's sends of [n] bytes give: [0] is a send that would block,
    [S k] one that takes at most [S k] bytes; the last one takes the rest. *)
Fixpoint send_script (ks : list nat) (n : nat) : list send_result :=
  match n, ks with
  | O, _ => []
  | _, [] => [Sent (Z.of_nat n)]
  | _, O :: ks => Again :: send_script ks n
  | _, k :: ks => Sent (Z.of_nat (min k n)) :: send_script ks (n - k)
  end.

Lemma send_script_takes ks n : takes (Z.of_nat n) (send_script ks n).
Proof.
  revert n. induction ks as [|k ks IH]; intros [|n]; try done; [cbn; lia|].
  destruct k as [|k]; [cbn [send_script takes]; split; [lia|apply (IH (S n))]|].
  cbn [send_script takes]. split; [lia|].
  replace (Z.of_nat (S n) - Z.of_nat (S k `min` S n)) with (Z.of_nat (S n - S k)) by lia. apply IH.
Qed.

(** The network's choices for one exchange. *)
Record cuts := Cuts {
  ct_takes : list Z;       (* what the client's sends take at most *)
  ct_request : list nat;   (* the segments in which the server gets the request *)
  ct_sends : list nat;     (* what the server's sends take *)
  ct_reply : list nat;     (* the segments in which the client gets the reply *)
}.

(** ** The server's process *)

Record tprocess (D : Type) := TProcess {
  tp_static : bytes;               (* the static buffer of tcp.c *)
  tp_sock : option tcp_socket;
  tp_closed : bool;
  tp_sys : system D;
  tp_sent : list packet;
}.
Arguments TProcess {D}.
Arguments tp_static {D}.
Arguments tp_sock {D}.
Arguments tp_closed {D}.
Arguments tp_sys {D}.
Arguments tp_sent {D}.

Section process.
Context {D : Type} `{DbOps D}.

Definition on_conn {A} (m : MT tconn A) : MT (tprocess D) A :=
  zoom (λ p, Some (TConn (tp_static p) (tp_sock p) (y_server (tp_sys p)) (tp_closed p)))
    (λ c p, TProcess (tc_static c) (tc_sock c) (tc_closed c) (set_server (tc_server c) (tp_sys p))
              (tp_sent p)) m.

Definition on_tsystem {A} (m : MT (system D) A) : MT (tprocess D) A :=
  zoom (λ p, Some (tp_sys p))
    (λ y p, TProcess (tp_static p) (tp_sock p) (tp_closed p) y (tp_sent p)) m.

(** The kernel takes the frame of a reply as the script says, and the 16 bytes
    of an error at once. *)
Definition reply_script (ks : list nat) (r : reply) : list send_result :=
  if is_err r then [Sent 16] else send_script ks (length (frame (wire r))).

Definition tsend_one (ks : list nat) (r : reply) : MT (tprocess D) () :=
  zoom (λ p, Some (Net (passive (s_settings (y_server (tp_sys p)))) (reply_script ks r) (tp_sent p)))
    (λ n p, TProcess (tp_static p) (tp_sock p) (tp_closed p) (tp_sys p) (n_sent n)) (tcp_send r).

Fixpoint tsend_all (ks : list nat) (rs : list reply) : MT (tprocess D) () :=
  match rs with [] => mret tt | r :: rs => tsend_one ks r;; tsend_all ks rs end.

Definition tflush (ks : list nat) : MT (tprocess D) () :=
  p ← get_obj;
  tsend_all ks (s_out (y_server (tp_sys p)));;
  on_tsystem (on_server (mod_obj (set_out []))).

(** The bytes of a request arrive, segment by segment, and the database
    thread has its turn. *)
Definition tserve (ct : cuts) (b : bytes) : MT (tprocess D) () :=
  on_conn (feed (cut (ct_request ct) b));;
  on_tsystem (db_iteration 0);;
  tflush (ct_sends ct).
End process.

(** ** The connection as the client's kernel *)

(** [th_stream] is the client's half: [st_out] holds what it sent and the
    server has not got yet, [st_in] what was sent back. *)
Record thost (D : Type) := THost {
  th_stream : stream;
  th_proc : tprocess D;
  th_heap : alloc;
  th_cuts : nat → cuts;     (* the choices for each exchange *)
  th_turn : nat;            (* the exchanges so far *)
}.
Arguments THost {D}.
Arguments th_stream {D}.
Arguments th_proc {D}.
Arguments th_heap {D}.
Arguments th_cuts {D}.
Arguments th_turn {D}.

(** The descriptor of the connection in the server. *)
Definition conn_fd : Z := 5.

Section kernel.
Context {D : Type} `{DbOps D}.

Definition set_stream (e : stream) (h : thost D) : thost D :=
  THost e (th_proc h) (th_heap h) (th_cuts h) (th_turn h).

(** What was sent reaches the server, and its replies are on their way. *)
Definition deliver (h : thost D) : option (thost D) :=
  let ct := th_cuts h (th_turn h) in
  let p := th_proc h in
  match tserve ct (st_out (th_stream h))
          (Mem (TProcess (tp_static p) (tp_sock p) (tp_closed p) (tp_sys p) []) (th_heap h)) with
  | None => None
  | Some (_, t) =>
      Some (THost (Stream (cut (ct_reply ct) (TcpSpec.stream conn_fd (tp_sent (obj t))))
                     (ct_takes (th_cuts h (S (th_turn h)))) [])
              (obj t) (heap t) (th_cuts h) (S (th_turn h)))
  end.

(** A client that waits for bytes lets the server run. No other moment could be
    told apart, since the connection is all that the client sees of it. *)
Definition arrive (h : thost D) : option (thost D) :=
  match st_in (th_stream h), st_out (th_stream h) with
  | [], _ :: _ => deliver h
  | _, _ => Some h
  end.

Definition thost_send (d : bytes) (h : thost D) : Z * thost D :=
  let '(n, e) := stream_send d (th_stream h) in (n, set_stream e h).

Definition thost_recv (n : Z) (h : thost D) : option bytes * thost D :=
  match arrive h with
  | None => (None, h)
  | Some h => let '(d, e) := stream_recv n (th_stream h) in (d, set_stream e h)
  end.

#[export] Instance thost_kernel : Kernel (thost D) := {|
  k_socket _ h := (Some 3, h);
  k_connect _ _ _ h := (true, h);
  k_nodelay _ h := (true, h);
  k_close _ h := h;
  k_send _ d h := thost_send d h;
  k_sendto _ _ h := (-1, h);
  k_recv _ n h := thost_recv n h;
|}.
End kernel.

(** ** The connection stands for a map *)

Section service.
Context {D : Type} `{DbLaws D} (Hrel : reliable (D := D)) (sa : bytes).

Abbreviation conn_of p :=
  (TConn (tp_static p) (tp_sock p) (y_server (tp_sys p)) (tp_closed p)).

(** Between two requests: the connection is idle, the server settled. *)
Record tquiet (p : tprocess D) (M : store) (st : astate) : Prop := TQuiet {
  tq_idle : idle (conn_of p) conn_fd sa st;
  tq_settled : settled (tp_sys p) M st;
}.

Lemma wp_on_conn {A} p a (m : MT tconn A) (Q : A → mem (tprocess D) → Prop) :
  wp m (λ r t, Q r (Mem (TProcess (tc_static (obj t)) (tc_sock (obj t)) (tc_closed (obj t))
    (set_server (tc_server (obj t)) (tp_sys p)) (tp_sent p)) (heap t))) (Mem (conn_of p) a) →
  wp (on_conn m) Q (Mem p a).
Proof. intros Hm. unfold on_conn. by rewrite (wp_zoom _ _ _ _ _ _ (conn_of p)). Qed.

Lemma wp_on_tsystem {A} p a (m : MT (system D) A) (Q : A → mem (tprocess D) → Prop) :
  wp m (λ r t, Q r (Mem (TProcess (tp_static p) (tp_sock p) (tp_closed p) (obj t) (tp_sent p)) (heap t)))
    (Mem (tp_sys p) a) →
  wp (on_tsystem m) Q (Mem p a).
Proof. intros Hm. unfold on_tsystem. by rewrite (wp_zoom _ _ _ _ _ _ (tp_sys p)). Qed.

(** One reply, whatever the sends take. *)
Lemma wp_tsend_one ks r p a (Q : () → mem (tprocess D) → Prop) :
  passive (s_settings (y_server (tp_sys p))) = 0 → never_fails a →
  (∀ sent a', never_fails a' →
     TcpSpec.stream (r_fd (req_of r)) sent = TcpSpec.stream (r_fd (req_of r)) (tp_sent p) ++ frame (wire r) →
     Q tt (Mem (TProcess (tp_static p) (tp_sock p) (tp_closed p) (tp_sys p) sent) a')) →
  wp (tsend_one ks r) Q (Mem p a).
Proof.
  intros Hp Ha HQ. unfold tsend_one. erewrite wp_zoom by done. destruct (is_err r) eqn:Er.
  - destruct r as [|q code|]; [done| |done]. cbn [tcp_send].
    unfold tcp_reply_err, tcp_rep_send_error. apply wp_bind, wp_is_passive. cbn [n_passive]. rewrite Hp.
    change (truth 0) with false. cbn iota. unfold send, reply_script. cbn [is_err]. wp_simpl.
    cbn [n_results]. wp_simpl.
    apply HQ; [done|]. cbn [n_sent add_sent set_results req_of]. rewrite stream_snoc. f_equal.
    rewrite !put32_htonl. rewrite take_ge; [done|].
    rewrite !length_app, !length_be_split, length_put32. lia.
  - eapply wp_tcp_send; [done|done|done| |].
    + cbn [n_results]. unfold reply_script. rewrite Er. apply send_script_takes.
    + intros n' a' Ha' Hs. by apply HQ.
Qed.

Lemma wp_tflush ks p a st r (Q : () → mem (tprocess D) → Prop) :
  never_fails a → server_is (y_server (tp_sys p)) st → as_out st = [r] →
  passive (as_settings st) = 0 → tp_sent p = [] →
  (∀ sent a', never_fails a' → TcpSpec.stream (r_fd (req_of r)) sent = frame (wire r) →
     Q tt (Mem (TProcess (tp_static p) (tp_sock p) (tp_closed p)
       (set_server (set_out [] (y_server (tp_sys p))) (tp_sys p)) sent) a')) →
  wp (tflush ks) Q (Mem p a).
Proof.
  intros Ha [_ _ _ Hse Ho] Hr Hp Hsent HQ. unfold tflush. wp_simpl.
  rewrite Ho, Hr. cbn [tsend_all]. wp_simpl.
  apply wp_tsend_one; [by rewrite Hse|done|]. intros sent a' Ha' Hs. wp_simpl.
  apply wp_on_tsystem, wp_on_server. wp_simpl. apply HQ; [done|].
  cbn [tp_sent]. by rewrite Hs, Hsent.
Qed.

(** What serving a request comes to. *)
Lemma wp_tserve ct p a M st f m (Q : () → mem (tprocess D) → Prop) :
  never_fails a → tquiet p M st → tp_sent p = [] → sendable f m → 4 + packet_len m ≤ 64 * 1024 →
  (∀ t q r st', never_fails (heap t) → r_flags q = f → put32 (r_id (reply_req r)) = be_split 4 ID_CODE →
     answers (Point q m false M) r → TcpSpec.stream conn_fd (tp_sent (obj t)) = frame (wire r) →
     listed m (y_db (tp_sys p)) (y_db (tp_sys (obj t))) r → tquiet (obj t) (effect m M) st' → Q tt t) →
  wp (tserve ct (frame (encode ID_CODE f m))) Q (Mem p a).
Proof.
  intros Ha [Hidle Hy] Hsent Hsd Hlim HQ. unfold tserve. apply wp_bind, wp_on_conn.
  pose proof (encode_bounds ID_CODE f m (sd_msg _ _ Hsd)) as Hb.
  rewrite <-(packet_len_flags f) in Hlim.
  assert (frame (encode ID_CODE f m) ≠ []) as Hne.
  { intros En. apply (f_equal length) in En. rewrite length_frame in En. cbn in En. lia. }
  eapply wp_mono.
  { eapply (wp_feed (encode ID_CODE f m) conn_fd sa st _ _ []); [lia|done| |done| |apply cut_nonempty| |].
    - apply handles_encoded; [by eapply settled_room|by unfold ID_CODE|apply Hsd|apply Hsd|
        by eapply settled_incr_safe|done].
    - unfold at_prefix. by rewrite decide_True.
    - intros En. apply Hne. by rewrite <-(cut_concat (ct_request ct) (frame _)), En.
    - apply cut_concat. }
  intros [] [c1 a1] (Ha1 & st1 & (q & (Hq1 & Hq2 & Hq3 & Hq4) & Hid & Hfl & ->) & Hid1).
  cbn [obj heap] in *. apply wp_bind, wp_on_tsystem. cbn [tp_sys tp_sent].
  eapply (wp_answer Hrel msg_tcp (tp_sys p)); [done|exact Hy|exact Hsd|exact Hfl|done|done|apply (id_server _ _ _ _ Hid1)|].
  intros y' a2 r st2 st' Ha2 Hs2 Ho2 Hp2 Hr Hlist Hy'. cbn [obj heap tp_sent tp_static tp_sock tp_closed].
  destruct (Hr) as [(Hrfd & Hrty & Hrid & _) _]. cbn in Hrfd, Hrid.
  eapply wp_tflush; [done|exact Hs2|done|done|done|].
  intros sent a3 Ha3 Hs. apply (HQ _ q r st'); [done|done| |done| |exact Hlist|].
  - by rewrite Hrid.
  - cbn [obj tp_sent]. rewrite <-Hs. f_equal. rewrite <-Hq1, <-Hrfd. by destruct r.
  - cbn [obj]. split; [|done]. destruct Hid1 as [I1 I2 I3 I4].
    split; [exact I1|exact I2|apply (se_server _ _ _ Hy')|exact I4].
Qed.
(** The network's choices: every send takes something. *)
Definition cuts_ok (cs : nat → cuts) : Prop := ∀ n, Forall (λ k, 1 ≤ k) (ct_takes (cs n)).

(** Nothing but [w] is on its way to the client, and the server stands for [M]. *)
Record inbound (h : thost D) (M : store) (w : bytes) : Prop := Inbound {
  in_heap : never_fails (th_heap h);
  in_cuts : cuts_ok (th_cuts h);
  in_live : live_stream (th_stream h);
  in_out : st_out (th_stream h) = [];
  in_in : concat (st_in (th_stream h)) = w;
  in_quiet : ∃ st, tquiet (th_proc h) M st;
}.

(** What the server says of its keys. *)
Definition tlisted (h : thost D) (m : areq) (r : reply) (h' : thost D) : Prop :=
  listed m (y_db (tp_sys (th_proc h))) (y_db (tp_sys (th_proc h'))) r.

Definition thost_is (h : thost D) (M : store) : Prop := inbound h M [].

Lemma live_nil e : live_stream e → concat (st_in e) = [] → st_in e = [].
Proof. intros [_ Hi] Hc. destruct Hi as [|d ds Hd Hds]; [done|]. by destruct d. Qed.

(** The server's turn, once the whole request was sent. *)
Lemma deliver_request h M f m :
  thost_is h M → sendable f m → 4 + packet_len m ≤ 64 * 1024 →
  ∃ q r, r_flags q = f ∧ answers (Point q m false M) r ∧
    put32 (r_id (reply_req r)) = be_split 4 ID_CODE ∧
    ∀ e, st_out e = frame (encode ID_CODE f m) →
      ∃ h', deliver (set_stream e h) = Some h' ∧ inbound h' (effect m M) (frame (wire r)) ∧
        tlisted h m r h'.
Proof.
  intros [Ha Hcs Hl _ _ [st [Hid Hy]]] Hsd Hlim. set (p := th_proc h) in *.
  assert (wp (tserve (th_cuts h (th_turn h)) (frame (encode ID_CODE f m)))
    (λ _ t, ∃ q r st', never_fails (heap t) ∧ r_flags q = f ∧
       put32 (r_id (reply_req r)) = be_split 4 ID_CODE ∧ answers (Point q m false M) r ∧
       TcpSpec.stream conn_fd (tp_sent (obj t)) = frame (wire r) ∧
       listed m (y_db (tp_sys p)) (y_db (tp_sys (obj t))) r ∧ tquiet (obj t) (effect m M) st')
    (Mem (TProcess (tp_static p) (tp_sock p) (tp_closed p) (tp_sys p) []) (th_heap h))) as Hw.
  { eapply wp_tserve; [done|by split|done|done|done|]. intros t q r st' H1 H2 H3 H4 H5 H6 H7. by exists q, r, st'. }
  apply wp_exec in Hw as ([] & [p' a'] & Hw & q & r & st' & Ha' & Hf & Hrid & Hr & Hs & Hlist & Hq').
  exists q, r. split_and!; [done..|]. intros e He. unfold deliver. cbn [th_stream set_stream th_proc th_cuts th_turn th_heap].
  rewrite He. fold p. rewrite Hw. eexists. split; [done|]. cbn [obj heap] in *. rewrite Hs.
  split; [|exact Hlist].
  split; cbn; [done|done| |done|apply cut_concat|by exists st'].
  split; [apply Hcs|apply cut_nonempty].
Qed.

(** The connection in one exchange: [pkt] on its way to the server that
    answers with [w]. *)
Definition thost_socket (h : thost D) (pkt w : bytes) (M' : store) (fd : Z) (P : tprocess D → Prop)
    (Hdel : ∀ e, st_out e = frame pkt →
      ∃ h', deliver (set_stream e h) = Some h' ∧ inbound h' M' w ∧ P (th_proc h')) :
  StreamSocket (thost D) fd.
Proof.
  refine {|
    sk_sending d h1 := h1 = set_stream (th_stream h1) h ∧ live_stream (th_stream h1) ∧
      st_in (th_stream h1) = [] ∧ st_out (th_stream h1) = d;
    sk_coming d h1 := inbound h1 M' d ∧ P (th_proc h1) ∨
      (h1 = set_stream (th_stream h1) h ∧ st_in (th_stream h1) = [] ∧
       st_out (th_stream h1) = frame pkt ∧ d = w);
  |}.
  - intros d b h1 (Hh & Hl & Hi & Ho) Hb.
    destruct (stream_send_spec b (th_stream h1) Hl Hb) as (n & e' & Hs & Hn & Hl' & Hi' & Ho').
    exists n, (set_stream e' h1). split_and!; [cbn [k_send thost_kernel]; unfold thost_send; by rewrite Hs|lia|lia| |done| |].
    + by rewrite Hh.
    + cbn. by rewrite Hi'.
    + cbn. by rewrite Ho', Ho.
  - intros d n h1 Hc Hn Hd.
    assert (∃ h2, arrive h1 = Some h2 ∧ inbound h2 M' d ∧ P (th_proc h2))
      as (h2 & Harr & [I1 I2 I3 I4 I5 I6] & HP).
    { unfold arrive. destruct Hc as [[Hc HP]|(Hh & Hi & Ho & ->)].
      - exists h1. split; [|done]. rewrite (in_out _ _ _ Hc). by destruct (st_in _).
      - destruct (Hdel (th_stream h1) Ho) as (h2 & Hh2 & Hin). exists h2. split; [|done].
        rewrite Hi, Ho, Hh. cbn [frame]. unfold frame. by destruct (be_split 4 _) eqn:Eb. }
    destruct (stream_recv_spec n (th_stream h2) d I3 Hn I5 Hd) as (b & w' & e' & Hr & Hb & Hbl & Hw & Hi' & Hl' & Ho').
    exists b, w', (set_stream e' h2). split_and!; try done.
    + cbn [k_recv thost_kernel]. unfold thost_recv. by rewrite Harr, Hr.
    + left. split; [|done]. split; try done. cbn. by rewrite Ho'.
Defined.

(** The server behind a TCP connection keeps the promise the library relies on. *)
Definition thost_service (s : nmdb_srv) : StreamService (thost D) s.
Proof.
  refine {| ss_is := thost_is; ss_more := tlisted; ss_limit := 64 * 1024 - 4 |}.
  - intros h M Hh. destruct (in_quiet _ _ _ Hh) as [st Hq]. apply (se_fit _ _ _ (tq_settled _ _ _ Hq)).
  - intros h M f m Hh Hsd Hlim.
    destruct (deliver_request h M f m Hh Hsd ltac:(lia)) as (q & r & Hf & Hr & Hid & Hdel).
    exists (thost_socket h (encode ID_CODE f m) (frame (wire r)) (effect m M) (sv_fd s)
      (λ p, listed m (y_db (tp_sys (th_proc h))) (y_db (tp_sys p)) r) Hdel), q, r.
    cbn. pose proof (live_nil _ (in_live _ _ _ Hh) (in_in _ _ _ Hh)).
    split_and!; try done; try apply Hh.
    + by destruct h.
    + intros h1 (E1 & E2 & E3 & E4). by right.
    + intros h2 [[Hin HP]|(_ & _ & _ & En)]; [done|].
      apply (f_equal length) in En. rewrite length_frame in En. cbn in En. lia.
Defined.
End service.

(** ** Properties *)

(** C3: end to end over TCP. A client with a TCP connection to a server whose
    cache and database agree on a map: whatever each send takes, and however the
    network cuts the bytes of the requests and of the replies, any sequence of
    calls whose packets have at most 64 KB with their length is defined and
    returns what the same operations on the map give; at the end the connection
    is idle and the cache and the database agree on the resulting map. *)
Theorem tcp_end_to_end {D} `{DbLaws D} (s : nmdb_srv) (sa : bytes) (xs : list call)
  (c : client (thost D)) (a : alloc) (M : store)
  (Hrel : reliable (D := D)) (Hs : sv_type s = TCP_CONN) (Ha : never_fails a)
  (Hc : c_servers c = [s]) (HM : thost_is sa (c_net c) M) (Hok : Forall call_ok xs)
  (Hlim : Forall (call_fits (64 * 1024 - 4)) xs) :
  ∃ c' a', run_calls xs (Mem c a) = Some ((map_calls xs M).1, Mem c' a') ∧
    thost_is sa (c_net c') (map_calls xs M).2.
Proof.
  assert (wp (run_calls xs) (λ r t, r = (map_calls xs M).1 ∧ thost_is sa (c_net (obj t)) (map_calls xs M).2)
    (Mem c a)) as Hw.
  { eapply (wp_run_calls s (MapService0 := tcp_map s Hs (StreamService0 := thost_service Hrel sa s)));
      try done. intros t (_ & _ & Ht). by split. }
  apply wp_exec in Hw as (r & [c' a'] & Hw & -> & H3). by exists c', a'.
Qed.

Definition sample_tsrv : nmdb_srv := Srv 3 TCP_CONN (htons 26010) 0x0100007f.
Definition sample_cuts (n : nat) : cuts := Cuts [1; 2; Z.of_nat n + 1] [0; n; 2]%nat [0; 3; 0; n]%nat [1; n]%nat.
Definition sample_thost : thost store :=
  THost (Stream [] [3; 1] [])
    (TProcess sample_static (Some (new_socket conn_fd [Byte.x01])) false fresh_system [])
    sample_alloc sample_cuts 0.

Lemma sample_thost_is : thost_is [Byte.x01] sample_thost sample_store.
Proof.
  pose proof sample_host_is as (_ & _ & st & [_ Hy]).
  split; [apply sample_never_fails| | |done|done|exists st; split; [|done]].
  - intros n. repeat constructor; lia.
  - split; repeat constructor; lia.
  - split; [by eexists|apply sample_receiver_is|apply (se_server _ _ _ Hy)|done].
Qed.

Lemma sample_calls_short : Forall (call_fits (64 * 1024 - 4)) sample_calls.
Proof. repeat constructor; vm_compute; discriminate. Qed.

Lemma tcp_end_to_end_witness :
  let c := Client [sample_tsrv] sample_thost in
  ∃ c' a', run_calls sample_calls (Mem c sample_alloc) =
    Some ((map_calls sample_calls sample_store).1, Mem c' a') ∧
    thost_is [Byte.x01] (c_net c') (map_calls sample_calls sample_store).2.
Proof.
  apply (tcp_end_to_end sample_tsrv [Byte.x01] sample_calls (Client [sample_tsrv] sample_thost)
    sample_alloc sample_store store_reliable);
    [reflexivity|apply sample_never_fails|reflexivity|apply sample_thost_is|apply sample_calls_ok|
     apply sample_calls_short].
Defined.
