(* ===== verification/Cluster.v ===== *)
(** * A client of several servers

    The library spreads the keys over the servers of a connection by a hash;
    each server only ever sees its own keys. [ClusterService] is what a group of
    servers promises: each stands for a map of its own. A client of the group
    is proved to see one map, their union. The instance is a group of the
    servers of Host.v, each with its process, its cache and its database. *)

From S2P Require Import Prelude Words Text Chain ChainSpec Cache Net Queue Backend Server Parse ParseSpec DbLoop DbSpec Transport System Client ClientSpec Host.

#[export] Instance nmdb_srv_eq_decision : EqDecision nmdb_srv.
Proof. solve_decision. Defined.

(** ** What a group promises *)

(** The server at [i] stands for the map at [i]: it answers every request
    right, and changes as the request says; the others do not change. *)
Class ClusterService (E : Type) `{Kernel E} (srvs : list nmdb_srv) := {
  cl_is : E → list store → Prop;
  cl_fits e Ms : cl_is e Ms → Forall vals_fit Ms;
  cl_exchange e Ms i s M f m :
    cl_is e Ms → srvs !! i = Some s → Ms !! i = Some M → sendable f m →
    ∃ e1 e2 q r,
      k_sendto s (encode ID_CODE f m) e = (Z.of_nat (length (encode ID_CODE f m)), e1) ∧
      (∀ n, Z.of_nat (length (wire r)) ≤ n → k_recv (sv_fd s) n e1 = (Some (wire r), e2)) ∧
      put32 (r_id (reply_req r)) = be_split 4 ID_CODE ∧
      r_flags q = f ∧ answers (Point q m false M) r ∧
      cl_is e2 (<[i := effect m M]> Ms);
}.

(** The server a key goes to. *)
Definition srv_index (srvs : list nmdb_srv) (key : bytes) : nat :=
  Z.to_nat (key_sum key mod Z.of_nat (length srvs)).

Lemma srv_index_lt srvs key : srvs ≠ [] → (srv_index srvs key < length srvs)%nat.
Proof.
  intros Hne. unfold srv_index. assert (length srvs ≠ 0%nat) by by destruct srvs.
  pose proof (Z.mod_pos_bound (key_sum key) (Z.of_nat (length srvs)) ltac:(lia)). lia.
Qed.

Lemma server_for_index srvs key s :
  srvs ≠ [] → srvs !! srv_index srvs key = Some s → server_for srvs key = Some s.
Proof. intros Hne Hs. unfold server_for. by rewrite decide_False. Qed.

(** [M] is the union of [Ms]: a key has the value that its own server has. *)
Definition joined (srvs : list nmdb_srv) (Ms : list store) (M : store) : Prop :=
  ∀ k Mi, Ms !! srv_index srvs k = Some Mi → M !! k = Mi !! k.

(** ** A call only looks at its own key *)

Lemma effect_other x M k : k ≠ call_key x → effect (call_msg x) M !! k = M !! k.
Proof.
  intros Hk. destruct x; cbn [call_key call_msg effect] in *; [done|..].
  all: repeat case_match; rewrite ?lookup_insert_ne, ?lookup_delete_ne by congruence.
  all: done.
Qed.

Lemma effect_own x M M' :
  M !! call_key x = M' !! call_key x →
  effect (call_msg x) M !! call_key x = effect (call_msg x) M' !! call_key x.
Proof.
  intros Hk. destruct x as [k vs|b k v|b k|k o n|k n]; cbn [call_key call_msg effect] in *.
  - done.
  - by rewrite !lookup_insert_eq.
  - by rewrite !lookup_delete_eq.
  - rewrite Hk. case_decide; [by rewrite !lookup_insert_eq|done].
  - rewrite Hk. destruct (M' !! k) as [v|] eqn:E; [|congruence].
    destruct (ends_nul v); [by rewrite !lookup_insert_eq|congruence].
Qed.

Lemma result_own x M M' : M !! call_key x = M' !! call_key x → call_result x M = call_result x M'.
Proof. intros Hk. destruct x; cbn in *; by rewrite ?Hk. Qed.

Lemma joined_step srvs Ms M Mi x :
  let i := srv_index srvs (call_key x) in
  joined srvs Ms M → Ms !! i = Some Mi →
  joined srvs (<[i := effect (call_msg x) Mi]> Ms) (effect (call_msg x) M).
Proof.
  intros i HM Hi k Mk Hk. pose proof (HM _ _ Hi) as Hown.
  destruct (decide (srv_index srvs k = i)) as [Ei|Ei].
  - rewrite Ei, list_lookup_insert_eq in Hk by by eapply lookup_lt_Some. injection Hk as <-.
    destruct (decide (k = call_key x)) as [->|Hne]; [by apply effect_own|].
    rewrite !effect_other by done. apply HM. by rewrite Ei.
  - rewrite list_lookup_insert_ne in Hk by done.
    rewrite effect_other by by intros ->. by apply HM.
Qed.

(** ** The client's calls *)

Section cluster.
Context {E : Type} `{Kernel E} (srvs : list nmdb_srv) `{!ClusterService E srvs}.
Context (Hne : srvs ≠ []) (Hall : Forall is_dgram srvs).

(** One server of the group, as a service of its own. *)
Definition member (Ms : list store) (i : nat) (s : nmdb_srv)
    (Hs : srvs !! i = Some s) (Hi : (i < length Ms)%nat) : DgramService E s.
Proof.
  refine {| dg_is e M := cl_is e (<[i := M]> Ms); dg_more _ _ _ _ := True |}.
  - intros e M HM. apply cl_fits in HM. rewrite Forall_lookup in HM. apply (HM i).
    by apply list_lookup_insert_eq.
  - intros e M f m HM Hsd.
    destruct (cl_exchange e _ i s M f m HM Hs ltac:(by apply list_lookup_insert_eq) Hsd)
      as (e1 & e2 & q & r & H1 & H2 & H3 & H4 & H5 & H6).
    rewrite list_insert_insert_eq in H6. by exists e1, e2, q, r.
Defined.

Lemma wp_cluster_calls xs c a Ms M (Q : list result → mem (client E) → Prop) :
  never_fails a → c_servers c = srvs → cl_is (c_net c) Ms → length Ms = length srvs →
  joined srvs Ms M → Forall call_ok xs →
  (∀ t Ms', cl_is (c_net (obj t)) Ms' → length Ms' = length srvs →
     joined srvs Ms' (map_calls xs M).2 → Q (map_calls xs M).1 t) →
  wp (run_calls xs) Q (Mem c a).
Proof.
  intros Ha Hc HMs Hl HM Hok. revert c a Ms M Q Ha Hc HMs Hl HM.
  induction Hok as [|x xs Hx Hok IH]; intros c a Ms M Q Ha Hc HMs Hl HM HQ; cbn [run_calls].
  - wp_simpl. by eapply HQ.
  - set (i := srv_index srvs (call_key x)).
    assert (i < length srvs)%nat as Hi by by apply srv_index_lt.
    destruct (lookup_lt_is_Some_2 srvs i Hi) as [s Hs].
    destruct (lookup_lt_is_Some_2 Ms i ltac:(lia)) as [Mi HMi].
    assert (is_dgram s) as Hd by by eapply Forall_lookup_1.
    apply wp_bind.
    eapply (wp_run_call s (MapService0 := dgram_map Hd (DgramService0 := member Ms i s Hs ltac:(lia)))
      _ _ _ Mi); [done|..|done| |].
    { rewrite Hc. by apply server_for_index. }
    { cbn. by rewrite list_insert_id. }
    { assert (Forall (call_fits (8 + 12 + max_size)) [x]) as Hx1 by (apply calls_fit; by constructor).
      by inversion_clear Hx1. }
    intros [c1 a1] (Ha1 & Hc1 & HM1). cbn [obj heap svc_is dgram_map dg_is member] in *.
    rewrite (result_own x Mi M) by by symmetry; apply HM.
    apply wp_bind. eapply (IH c1 a1); [done|congruence|exact HM1|by rewrite length_insert| |].
    { by eapply joined_step. }
    intros t Ms' H1 H2 H3. wp_simpl. revert HQ. cbn [map_calls].
    destruct (map_calls xs (effect (call_msg x) M)) as [rs M'] eqn:Em. cbn in *.
    intros HQ. by eapply HQ.
Qed.
End cluster.

(** ** A group of the servers of Host.v *)

(** The servers, each with its process; a datagram goes to the server it is
    addressed to, and a reply comes back on the socket of that server. *)
Abbreviation network D := (list (nmdb_srv * host D)).

Section network.
Context {D : Type} `{DbOps D}.

Definition network_sendto (s : nmdb_srv) (pkt : bytes) (n : network D) : Z * network D :=
  match list_find (λ e, e.1 = s) n with
  | Some (i, (_, h)) => let '(rv, h') := host_sendto s pkt h in (rv, <[i := (s, h')]> n)
  | None => (-1, n)
  end.

Definition network_recv (fd len : Z) (n : network D) : option bytes * network D :=
  match list_find (λ e, sv_fd e.1 = fd) n with
  | Some (i, (s, h)) => let '(b, h') := host_recv fd len h in (b, <[i := (s, h')]> n)
  | None => (None, n)
  end.

#[export] Instance network_kernel : Kernel (network D) := {|
  k_socket _ n := (Some 3, n);
  k_connect _ _ _ n := (true, n);
  k_nodelay _ n := (true, n);
  k_close _ n := n;
  k_send _ _ n := (-1, n);
  k_sendto := network_sendto;
  k_recv := network_recv;
|}.

Lemma find_server (n : network D) i s h :
  NoDup (sv_fd <$> n.*1) → n !! i = Some (s, h) →
  list_find (λ e, e.1 = s) n = Some (i, (s, h)) ∧
  list_find (λ e, sv_fd e.1 = sv_fd s) n = Some (i, (s, h)).
Proof.
  intros Hnd Hi.
  assert (∀ j (y : nmdb_srv * host D), n !! j = Some y → (j < i)%nat → sv_fd y.1 ≠ sv_fd s) as Hfd.
  { intros j y Hj Hlt Heq. assert (j = i); [|lia].
    eapply (NoDup_lookup (sv_fd <$> n.*1) j i (sv_fd s)); [done|..].
    - rewrite <-list_fmap_compose, list_lookup_fmap, Hj. apply (f_equal Some), Heq.
    - by rewrite <-list_fmap_compose, list_lookup_fmap, Hi. }
  split; apply list_find_Some; (split_and!; [done|done|]); intros j y Hj Hlt Heq;
    apply (Hfd j y Hj Hlt); congruence.
Qed.
End network.

Section service.
Context {D : Type} `{DbLaws D} (Hrel : reliable (D := D)).

Definition network_is (srvs : list nmdb_srv) (n : network D) (Ms : list store) : Prop :=
  n.*1 = srvs ∧ Forall2 (λ (e : nmdb_srv * host D) M, host_is e.2 M) n Ms.

(** One server of the group changes. *)
Lemma network_update (srvs : list nmdb_srv) (n : network D) (Ms : list store) (i : nat) (s : nmdb_srv) (h : host D) (M : store) :
  network_is srvs n Ms → srvs !! i = Some s → host_is h M →
  network_is srvs (<[i := (s, h)]> n) (<[i := M]> Ms).
Proof.
  intros [Hs Hall] Hi Hh. split.
  - rewrite list_fmap_insert, Hs. by apply list_insert_id.
  - by apply Forall2_insert.
Qed.

(** One of its servers, as a service. *)

Lemma host_kernel_sendto : @k_sendto (host D) _ = host_sendto.
Proof. reflexivity. Qed.
Lemma host_kernel_recv : @k_recv (host D) _ = host_recv.
Proof. reflexivity. Qed.

Lemma host_fits h M : host_is h M → vals_fit M.
Proof. intros (_ & _ & st & Hq). apply (se_fit _ _ _ (qu_settled _ _ _ _ Hq)). Qed.

Lemma host_exchange s h M f m :
  host_is h M → sendable f m →
  ∃ h1 h2 q r, host_sendto s (encode ID_CODE f m) h = (Z.of_nat (length (encode ID_CODE f m)), h1) ∧
    (∀ n, Z.of_nat (length (wire r)) ≤ n → host_recv (sv_fd s) n h1 = (Some (wire r), h2)) ∧
    put32 (r_id (reply_req r)) = be_split 4 ID_CODE ∧ r_flags q = f ∧ answers (Point q m false M) r ∧
    host_is h2 (effect m M).
Proof.
  intros Hh Hsd. destruct (dg_exchange (DgramService := host_service Hrel s) h M f m Hh Hsd)
    as (h1 & h2 & q & r & H1 & H2 & H3 & H4 & H5 & _ & H6).
  rewrite host_kernel_sendto in H1. rewrite host_kernel_recv in H2. by exists h1, h2, q, r.
Qed.

Lemma network_exchange (srvs : list nmdb_srv) (n : network D) (Ms : list store) i s M f m :
  NoDup (sv_fd <$> srvs) → network_is srvs n Ms → srvs !! i = Some s → Ms !! i = Some M → sendable f m →
  ∃ n1 n2 q r, network_sendto s (encode ID_CODE f m) n = (Z.of_nat (length (encode ID_CODE f m)), n1) ∧
    (∀ k, Z.of_nat (length (wire r)) ≤ k → network_recv (sv_fd s) k n1 = (Some (wire r), n2)) ∧
    put32 (r_id (reply_req r)) = be_split 4 ID_CODE ∧ r_flags q = f ∧ answers (Point q m false M) r ∧
    network_is srvs n2 (<[i := effect m M]> Ms).
Proof.
  intros Hnd Hn Hs HM Hsd. pose proof Hn as [En Hall].
  destruct (Forall2_lookup_r _ _ _ _ _ Hall HM) as ([s' h] & Hi & Hh). cbn in Hh.
  assert (s' = s) as ->.
  { rewrite <-En, list_lookup_fmap, Hi in Hs. by injection Hs. }
  destruct (host_exchange s h M f m Hh Hsd) as (h1 & h2 & q & r & H1 & H2 & H3 & H4 & H5 & H6).
  exists (<[i := (s, h1)]> n), (<[i := (s, h2)]> n), q, r. split_and!; [|intros k Hk|done|done|done|by apply network_update].
  - unfold network_sendto. destruct (find_server n i s h) as [-> _]; [by rewrite En|done|]. by rewrite H1.
  - unfold network_recv. destruct (find_server (<[i := (s, h1)]> n) i s h1) as [_ ->].
    + by rewrite list_fmap_insert, list_insert_id, En by (by rewrite list_lookup_fmap, Hi).
    + apply list_lookup_insert_eq. by eapply lookup_lt_Some.
    + rewrite (H2 k Hk). by rewrite list_insert_insert_eq.
Qed.

Definition network_service (srvs : list nmdb_srv) (Hnd : NoDup (sv_fd <$> srvs)) :
  ClusterService (network D) srvs.
Proof.
  refine {| cl_is := network_is srvs |}.
  - intros n Ms [_ Hall]. apply Forall_forall. intros M HM.
    apply list_elem_of_lookup in HM as [i Hi].
    destruct (Forall2_lookup_r _ _ _ _ _ Hall Hi) as ([s h] & _ & Hh). by apply (host_fits h).
  - intros n Ms i s M f m. apply (network_exchange srvs n Ms i s M f m Hnd).
Defined.
End service.

(** ** Properties *)

(** C9: several servers are one map. A client of a group of servers, each with
    its own process, cache and database, reached by UDP: any sequence of its
    calls is defined and returns what the same operations on the union of the
    servers' maps give, the union in which each key has the value that the
    server it is hashed to has for it; and so it is at the end. *)
Theorem cluster_end_to_end {D} `{DbLaws D} (srvs : list nmdb_srv) (xs : list call)
  (c : client (network D)) (a : alloc) (Ms : list store) (M : store)
  (Hrel : reliable (D := D)) (Hne : srvs ≠ []) (Hall : Forall is_dgram srvs)
  (Hnd : NoDup (sv_fd <$> srvs)) (Ha : never_fails a) (Hc : c_servers c = srvs)
  (HMs : network_is srvs (c_net c) Ms) (HM : joined srvs Ms M) (Hok : Forall call_ok xs) :
  ∃ c' a' Ms', run_calls xs (Mem c a) = Some ((map_calls xs M).1, Mem c' a') ∧
    network_is srvs (c_net c') Ms' ∧ joined srvs Ms' (map_calls xs M).2.
Proof.
  assert (wp (run_calls xs) (λ r t, r = (map_calls xs M).1 ∧ ∃ Ms',
    network_is srvs (c_net (obj t)) Ms' ∧ joined srvs Ms' (map_calls xs M).2) (Mem c a)) as Hw.
  { eapply (wp_cluster_calls srvs (ClusterService0 := network_service Hrel srvs Hnd));
      [done|done|done|done|exact HMs| |done|done|].
    - destruct HMs as [<- HMs]. by rewrite length_fmap, (Forall2_length _ _ _ HMs).
    - intros t Ms' H1 _ H2. split; [done|]. by exists Ms'. }
  apply wp_exec in Hw as (r & [c' a'] & Hw & -> & Ms' & H1 & H2). by exists c', a', Ms'.
Qed.

(** ** Examples *)

Definition second_srv : nmdb_srv := Srv 5 UDP_CONN (htons 26010) 0x0200007f.
Definition sample_group : list nmdb_srv := [sample_srv; second_srv].
Definition sample_network : network store := [(sample_srv, sample_host); (second_srv, sample_host)].
Definition group_client : client (network store) := Client sample_group sample_network.
Definition group_calls : list call := sample_calls ++ [CSet true [Byte.x63] [Byte.x31; NUL]; CIncr [Byte.x63] 4].

(** The calls go to both servers. *)
Example group_spread : srv_index sample_group <$> (call_key <$> group_calls) = [1; 1; 1; 0; 0; 1; 0; 0]%nat.
Proof. vm_compute. reflexivity. Qed.

Lemma sample_network_is : network_is sample_group sample_network [sample_store; sample_store].
Proof. split; [done|]. repeat constructor; apply sample_host_is. Qed.

Lemma sample_joined : joined sample_group [sample_store; sample_store] sample_store.
Proof.
  intros k Mi Hi. by destruct (srv_index sample_group k) as [|[|n]]; cbn in Hi; simplify_eq.
Qed.

Lemma group_calls_ok : Forall call_ok group_calls.
Proof.
  apply Forall_app. split; [apply sample_calls_ok|].
  repeat constructor; vm_compute; try done; by repeat split.
Qed.

Lemma cluster_end_to_end_witness :
  ∃ c' a' Ms', run_calls group_calls (Mem group_client sample_alloc) =
      Some ((map_calls group_calls sample_store).1, Mem c' a') ∧
    network_is sample_group (c_net c') Ms' ∧
    joined sample_group Ms' (map_calls group_calls sample_store).2.
Proof.
  apply (cluster_end_to_end sample_group group_calls group_client sample_alloc
    [sample_store; sample_store] sample_store store_reliable);
    [done| | |apply sample_never_fails|done|apply sample_network_is|apply sample_joined|
     apply group_calls_ok].
  - repeat constructor; by right; left.
  - by apply (bool_decide_unpack (NoDup _)); vm_compute.
Defined.
