(* ===== verification/StatsTool.v ===== *)
(** * The statistics of a server, shown (utils/nmdb-stats.c)

    [nmdb-stats] connects to one server, asks it for its counters with
    [nmdb_stats] and prints each with its name. What it prints is proved to be
    the server's counters: the order in which [parse_stats] packs them, the
    byte order, the length that [nmdb_stats] skips, and the table of names
    agree. *)

From S2P Require Import Prelude Words Text Chain ChainSpec Cache Net Queue Backend Server Parse ParseSpec DbLoop DbSpec Transport System Settings Client ClientSpec Host.
From stdpp Require Import strings.

#[local] Open Scope Z_scope.

(** ** nmdb-stats.c *)

Definition MAX_STATS_SIZE : Z := 64.

(** The calls of [shst] in the loop over the servers. *)
Definition shst_fields : list (string * Z) :=
  [("cache get", 0); ("cache set", 1); ("cache del", 2); ("cache cas", 3); ("cache incr", 4);
   ("db get", 5); ("db set", 6); ("db del", 7); ("db cas", 8); ("db incr", 9);
   ("db firstkey", 21); ("db nextkey", 22);
   ("cache hits", 10); ("cache misses", 11);
   ("db hits", 12); ("db misses", 13);
   ("msg tipc", 14); ("msg tcp", 15); ("msg udp", 16); ("msg sctp", 17);
   ("version mismatch", 18); ("broken requests", 19); ("unknown requests", 20)].

(** Fields that have no name. *)
Definition unknown_fields (nstats : Z) : list (string * Z) :=
  (λ k, ("unknown field"%string, k)) <$> seqZ 23 (nstats - 23).

(** One line: the number and the name. *)
Definition shst {S} (stats : bytes) (j : Z) (x : string * Z) : M S (Z * string) :=
  w ← load 8 stats (8 * (j + x.2)); mret (ntohll w, x.1).

Fixpoint show {S} (stats : bytes) (j : Z) (fields : list (string * Z)) : M S (list (Z * string)) :=
  match fields with
  | [] => mret []
  | x :: fields => l ← shst stats j x; ls ← show stats j fields; mret (l :: ls)
  end.

Fixpoint show_servers {S} (n : nat) (i nstats : Z) (stats : bytes) : M S (list (list (Z * string))) :=
  match n with
  | O => mret []
  | S n =>
      ls ← show stats (nstats * i) (shst_fields ++ unknown_fields nstats);
      lss ← show_servers n (i + 1) nstats stats;
      mret (ls :: lss)
  end.

(** What is printed, and the result of [main]. *)
Inductive tool_result :=
  | ToolHelp | ToolNoServer | ToolError (rv : Z)
  | ToolShown (servers : list (list (Z * string))).
Definition tool_code (r : tool_result) : Z := match r with ToolShown _ => 0 | _ => 1 end.

Section tool.
Context {E : Type} `{Kernel E} (gethostbyname : bytes → option Z).

(** The server that the arguments name: [None], if they are not understood. *)
Definition tool_add (args : list bytes) : option (MT (client E) Z) :=
  match args with
  | kind :: a1 :: rest =>
      if decide (kind = bs "tipc") then Some (nmdb_add_tipc_server (atoi a1)) else
      match rest with
      | [a2] =>
          if decide (kind = bs "tcp") then Some (nmdb_add_tcp_server gethostbyname a1 (atoi a2))
          else if decide (kind = bs "udp") then Some (nmdb_add_udp_server gethostbyname a1 (atoi a2))
          else if decide (kind = bs "sctp") then Some (nmdb_add_sctp_server gethostbyname a1 (atoi a2))
          else None
      | _ => None
      end
  | _ => None
  end.

(** [main], on the arguments behind the program's name; [tmpbuf] and [stats]
    are the indeterminate contents of the arrays on the stack. The result of
    [nmdb_init] is not tested. *)
Definition main (tmpbuf stats : bytes) (args : list bytes) : MT (client E) tool_result :=
  ok ← nmdb_init;
  match tool_add args with
  | None => mret ToolHelp
  | Some add =>
      if negb (ok : bool) then ub else
      rv ← add;
      if negb (truth rv) then mret ToolNoServer else
      a ← nmdb_stats tmpbuf stats;
      if sa_rv a <=? 0 then mret (ToolError (sa_rv a)) else
      nservers ← lift_opt (sa_nservers a);
      lss ← show_servers (Z.to_nat nservers) 0 (sa_nstats a) (sa_buf a);
      nmdb_free;;
      mret (ToolShown lss)
  end.
End tool.

(** ** What is shown *)

(** The counter each name stands for. *)
Definition labels : list (string * stat) :=
  [("cache get", cache_get_); ("cache set", cache_set_); ("cache del", cache_del_);
   ("cache cas", cache_cas_); ("cache incr", cache_incr_);
   ("db get", db_get_); ("db set", db_set_); ("db del", db_del_); ("db cas", db_cas_);
   ("db incr", db_incr_); ("db firstkey", db_firstkey_); ("db nextkey", db_nextkey_);
   ("cache hits", cache_hits); ("cache misses", cache_misses);
   ("db hits", db_hits); ("db misses", db_misses);
   ("msg tipc", msg_tipc); ("msg tcp", msg_tcp); ("msg udp", msg_udp); ("msg sctp", msg_sctp);
   ("version mismatch", net_version_mismatch); ("broken requests", net_broken_req);
   ("unknown requests", net_unk_req)].
Definition shown (t : stats) : list (Z * string) := (λ x, (w64 (t x.2), x.1)) <$> labels.

Lemma stats_field (t : stats) l n f r :
  l !! n = Some f →
  take 8 (drop (8 * n) (concat (map (λ f, be_split 8 (t f)) l) ++ r)) = be_split 8 (t f).
Proof.
  revert n. induction l as [|g l IH]; intros [|n] Hn; try done; cbn [lookup list_lookup] in Hn;
    cbn [map concat].
  - injection Hn as ->. rewrite <-(assoc_L (++)). change (8 * 0)%nat with 0%nat. rewrite drop_0.
    by rewrite take_app_full by by rewrite length_be_split.
  - rewrite <-(assoc_L (++)). replace (8 * S n)%nat with (length (be_split 8 (t g)) + 8 * n)%nat
      by (rewrite length_be_split; lia).
    rewrite <-drop_drop, drop_app_length. by apply IH.
Qed.

(** One line shows the field at its position. *)
Lemma wp_shst {S} (t : stats) r name pos f (Q : Z * string → S → Prop) s :
  0 ≤ pos → stats_order !! Z.to_nat pos = Some f → Q (w64 (t f), name) s →
  wp (shst (stats_payload t ++ r) 0 (name, pos)) Q s.
Proof.
  intros Hpos Hf HQ. unfold shst. cbn [fst snd]. apply wp_bind.
  apply lookup_lt_Some in Hf as Hl. change (length stats_order) with 23%nat in Hl.
  apply wp_load; [lia|rewrite length_app, length_stats_payload; unfold STATS_REPLY_SIZE; lia|].
  replace (Z.to_nat (8 * (0 + pos))) with (8 * Z.to_nat pos)%nat by lia.
  unfold stats_payload. rewrite (stats_field t stats_order _ f) by done. wp_simpl.
  rewrite ntohll_le_combine, be_combine_split by by rewrite length_be_split. exact HQ.
Qed.

Lemma wp_show {S} (t : stats) r l fields (Q : list (Z * string) → S → Prop) s :
  Forall2 (λ x y, x.1 = y.1 ∧ 0 ≤ x.2 ∧ stats_order !! Z.to_nat x.2 = Some y.2) fields l →
  Q ((λ y, (w64 (t y.2), y.1)) <$> l) s →
  wp (show (stats_payload t ++ r) 0 fields) Q s.
Proof.
  intros Hall. revert Q. induction Hall as [|[name pos] [name' f] fields l (Hn & Hp & Hf) _ IH];
    intros Q HQ; cbn [show]; [by wp_simpl|].
  cbn in Hn, Hp, Hf. subst name'. apply wp_bind. eapply wp_shst; [done|done|].
  apply wp_bind, IH. wp_simpl. exact HQ.
Qed.

(** The names and positions of nmdb-stats.c are those of parse.c. *)
Lemma fields_labels :
  Forall2 (λ x y, x.1 = y.1 ∧ 0 ≤ x.2 ∧ stats_order !! Z.to_nat x.2 = Some y.2)
    (shst_fields ++ unknown_fields 23) labels.
Proof. change (unknown_fields 23) with (@nil (string * Z)). by repeat constructor. Qed.

(** What a server promises that is asked for its counters. *)
Class StatsService (E : Type) `{Kernel E} (s : nmdb_srv) := {
  sts_is : E → stats → Prop;
  sts_exchange e t : sts_is e t →
    ∃ e1 e2 q,
      k_sendto s (encode ID_CODE 0 AStats) e = (8, e1) ∧
      (∀ n, 196 ≤ n → k_recv (sv_fd s) n e1 = (Some (wire (reply_long q REP_OK (stats_payload t))), e2)) ∧
      put32 (r_id q) = be_split 4 ID_CODE;
}.

Section stats_spec.
Context {E : Type} `{Kernel E} (s : nmdb_srv) (Hs : is_dgram s) `{!StatsService E s}.

(** [nmdb_stats] on one server: the payload, and 4 bytes more. *)
Lemma wp_nmdb_stats tmpbuf buf c a t (Q : stats_answer → mem (client E) → Prop) :
  never_fails a → c_servers c = [s] → sts_is (c_net c) t →
  length tmpbuf = 256%nat → (188 ≤ length buf)%nat →
  (∀ pad e a', never_fails a' →
     Q (StatsAnswer 1 (stats_payload t ++ pad) (Some 1) 23) (Mem (set_net e c) a')) →
  wp (nmdb_stats tmpbuf buf) Q (Mem c a).
Proof.
  intros Ha Hc HM Ht Hb HQ. unfold nmdb_stats. wp_simpl. rewrite Hc. cbn [stats_loop length].
  destruct (sts_exchange (c_net c) t HM) as (e1 & e2 & q & Hk1 & Hk2 & Hid).
  set (r := reply_long q REP_OK (stats_payload t)) in *.
  apply wp_bind. eapply (wp_packet s c a Ha _ _ _ 8); rewrite ?msg_offset_dgram by done; [done|done|].
  intros p0 p a1 Ha1 Hp0 Hp. destruct p0; [|cbn in Hp0; lia]. destruct p; [|cbn in Hp; lia]. wp_simpl. cbn [pk_buf pk_size].
  change (encode_header ID_CODE REQ_STATS 0) with (encode ID_CODE 0 AStats).
  eapply (wp_dgram_srv_send s Hs); [done|vm_compute; lia|exact Hk1|]. cbn [free]. wp_simpl.
  cbn [Z.leb Z.compare]. wp_simpl.
  assert (length (wire r) = 196%nat) as Hlw
    by by unfold r; rewrite length_wire, length_stats_payload.
  change (32 * 8) with (Z.of_nat 256). rewrite <-Ht.
  eapply (wp_dgram_get_rep s Hs _ r e2); [by rewrite Hlw, Ht; lia|by rewrite Ht|done|exact Hid|by rewrite Hlw|].
  intros tl Htl. cbn [an_code an_buf an_payload an_psize]. rewrite Hlw.
  cbn [r rep_code negb Z.eqb REP_OK Pos.eqb].
  rewrite (proj2 (Z.ltb_ge _ _)) by lia. wp_simpl.
  assert (∃ h, length h = 12%nat ∧ wire r = h ++ stats_payload t) as (h & Hh & Hw).
  { unfold r. cbn [wire]. eexists. rewrite !(assoc_L (++)). split; [|done].
    by rewrite !length_app, !length_be_split. }
  assert (length tl = 60%nat) as Htl' by (rewrite length_app, Hlw, Ht in Htl; lia).
  rewrite Hw, <-(assoc_L (++)), <-(take_drop 4 tl), (assoc_L (++) (stats_payload t)).
  apply wp_read_at; [by rewrite Hh| |].
  { rewrite length_app, length_stats_payload, length_take, Htl'. done. }
  apply wp_bind. apply (wp_memcpy_at [] buf); [done| |..].
  1,2: rewrite length_app, length_stats_payload, length_take, Htl'; unfold STATS_REPLY_SIZE; lia.
  intros t' _. cbn [app]. wp_simpl. rewrite <-(assoc_L (++)). by apply HQ.
Qed.

(** A server of the array, added to an empty one by UDP. *)
Lemma wp_add_udp gethostbyname addr port ia fd e a c (Q : Z → mem (client E) → Prop) :
  never_fails a → c_servers c = [] → resolve gethostbyname addr = Some ia →
  k_socket UDP_CONN (c_net c) = (Some fd, e) →
  (∀ a', never_fails a' →
     Q 1 (Mem (Client [Srv fd UDP_CONN (htons (default_port port UDP_SERVER_PORT)) ia] e) a')) →
  wp (nmdb_add_udp_server gethostbyname addr port) Q (Mem c a).
Proof.
  intros Ha Hc Hr Hk HQ. unfold nmdb_add_udp_server. rewrite Hr. unfold add_udp_server_addr.
  apply wp_bind. eapply wp_sys; [exact Hk|]. wp_simpl. unfold realloc_servers. wp_simpl.
  apply wp_malloc; [done|]. wp_simpl. rewrite bool_decide_true by done. cbn [negb].
  unfold add_sorted. wp_simpl. cbn [c_servers set_net]. rewrite Hc. cbn. by apply HQ.
Qed.

Lemma wp_close_all l c a (Q : () → mem (client E) → Prop) :
  (∀ e, Q tt (Mem (set_net e c) a)) → wp (close_all l) Q (Mem c a).
Proof.
  revert c. induction l as [|x l IH]; intros c HQ; cbn [close_all].
  - wp_simpl. specialize (HQ (c_net c)). by destruct c.
  - apply wp_bind. unfold close. eapply wp_sys; [done|]. apply IH. intros e. apply HQ.
Qed.
End stats_spec.

(** ** Properties *)

(** C29: the counters, from the server to the screen. [nmdb-stats] on a server
    reached by UDP, which answers with its counters, is defined and prints,
    once, each of the server's 23 counters next to its own name, and nothing
    else; it returns 0. *)
Theorem stats_tool_shows {E} `{Kernel E} (gethostbyname : bytes → option Z)
  (addr port tmpbuf arr : bytes) (ia fd : Z) (c : client E) (e : E) (a : alloc) (t : stats)
  `{!StatsService E (Srv fd UDP_CONN (htons (default_port (atoi port) UDP_SERVER_PORT)) ia)}
  (Ha : never_fails a) (Haddr : resolve gethostbyname addr = Some ia)
  (Hk : k_socket UDP_CONN (c_net c) = (Some fd, e)) (HM : sts_is e t)
  (Ht : length tmpbuf = 256%nat) (Hst : Z.of_nat (length arr) = 8 * MAX_STATS_SIZE) :
  ∃ r c' a', main gethostbyname tmpbuf arr [bs "udp"; addr; port] (Mem c a) = Some (r, Mem c' a') ∧
    tool_code r = 0 ∧ r = ToolShown [shown t].
Proof.
  enough (wp (main gethostbyname tmpbuf arr [bs "udp"; addr; port])
    (λ r _, r = ToolShown [shown t]) (Mem c a)) as (r & [c' a'] & Hw & ->)%wp_exec
    by by eexists _, c', a'.
  unfold main, nmdb_init. wp_simpl. apply wp_malloc; [done|]. cbn iota. wp_simpl.
  cbn [tool_add]. rewrite decide_False by done. rewrite decide_False by done.
  rewrite decide_True by done. cbn [negb]. wp_simpl.
  eapply wp_add_udp; [done|done|done|exact Hk|]. intros a1 Ha1. cbn [truth negb Z.eqb]. wp_simpl.
  eapply wp_nmdb_stats; [by right; left|done|done|exact HM|done|unfold MAX_STATS_SIZE in Hst; lia|].
  intros pad e' a2 Ha2. cbn [sa_rv sa_nservers sa_nstats sa_buf Z.leb Z.compare]. wp_simpl.
  change (Z.to_nat 1) with 1%nat. cbn [show_servers]. wp_simpl.
  change (23 * 0) with 0. eapply wp_show; [apply fields_labels|]. wp_simpl.
  unfold nmdb_free. wp_simpl. apply wp_close_all. intros e2. by wp_simpl.
Qed.

(** ** The server of Host.v *)

Section host_stats.
Context {D : Type} `{DbLaws D}.

(** The counters of a server between two requests, once they have counted the
    request for them. *)
Definition host_counts (h : host D) (t : stats) : Prop :=
  (∃ M, host_is h M) ∧ t = bump msg_udp (s_stats (y_server (ho_sys h))).

Definition host_stats (s : nmdb_srv) : StatsService (host D) s.
Proof.
  refine {| sts_is := host_counts |}.
  intros h t [(M & Ha & Hin & st & Hq) ->].
  assert (wp (serve 4 (encode ID_CODE 0 AStats) client_sa)
    (λ _ t, ∃ q, r_id q = htonl ID_CODE ∧
       pr_sent (obj t) = [packet_of (reply_long q REP_OK (stats_payload (bump msg_udp (as_stats st))))])
    (Mem (Process (ho_static h) (ho_sys h) []) (ho_heap h))) as Hw.
  { eapply wp_serve_stats; [done|exact Hq|]. intros t q H1 H2. by exists q. }
  apply wp_exec in Hw as ([] & [p' a'] & Hw & q & Hid & Hsent). cbn [obj heap] in *.
  assert (s_stats (y_server (ho_sys h)) = as_stats st) as -> by apply (se_server _ _ _ (qu_settled _ _ _ _ Hq)).
  eexists (Host (pr_static p') (pr_sys p') a' _), (Host (pr_static p') (pr_sys p') a' []), q.
  split_and!; [| |by rewrite Hid; apply put32_htonl].
  - cbn [k_sendto host_kernel]. unfold host_sendto. rewrite Hw. cbn [obj heap]. by rewrite Hin, Hsent.
  - intros n Hn. cbn [k_recv host_kernel]. unfold host_recv. cbn [ho_inbox packet_of p_bytes app].
    rewrite take_ge; [done|]. rewrite length_wire, length_stats_payload. unfold STATS_REPLY_SIZE. lia.
Defined.
End host_stats.

(** A server that has counted two sets. *)
Definition counting_system : system store :=
  System (set_stats (bump db_set_ (bump db_set_ (λ _, 0))) (y_server fresh_system)) sample_store false.
Definition counting_host : host store := Host sample_static counting_system sample_alloc [].
Definition counted : stats := bump msg_udp (bump db_set_ (bump db_set_ (λ _, 0))).

Lemma counting_host_counts : host_counts counting_host counted.
Proof.
  split; [|done]. exists sample_store. split; [apply sample_never_fails|]. split; [done|].
  exists (AState (empty_cache 1) [] (bump db_set_ (bump db_set_ (λ _, 0))) sample_settings []).
  split; [apply sample_receiver_is|].
  split; [|done|done|done|done|split; [cbn; lia|]|done|apply sample_vals_fit|done].
  - destruct fresh_server_is as [S1 S2 S3 S4 S5]. by split.
  - intros k v. cbn [as_cache]. by rewrite a_lookup_empty.
Qed.

Example counted_shown : take 8 (shown counted) =
  [(0, "cache get"%string); (0, "cache set"%string); (0, "cache del"%string); (0, "cache cas"%string);
   (0, "cache incr"%string); (0, "db get"%string); (2, "db set"%string); (0, "db del"%string)].
Proof. reflexivity. Qed.

Lemma stats_tool_shows_witness :
  ∃ r c' a', main (λ _, None) (replicate 256 NUL) (replicate 512 NUL)
      [bs "udp"; bs "127.0.0.1"; bs "26010"] (Mem (Client [] counting_host) plenty) =
      Some (r, Mem c' a') ∧
    tool_code r = 0 ∧ r = ToolShown [shown counted].
Proof.
  apply (stats_tool_shows (λ _, None) (bs "127.0.0.1") (bs "26010") (replicate 256 NUL)
    (replicate 512 NUL) 0x0100007f 3 (Client [] counting_host) counting_host plenty counted
    (StatsService0 := host_stats _));
    [done|done|done|apply counting_host_counts|done|done].
Defined.
