(* ===== verification/Walk.v ===== *)
(** * Walking the keys, from the client to the backend

    [nmdb_firstkey] and [nmdb_nextkey] ask the server for the keys of its
    database one by one, in the backend's order. [DbWalk] is a backend that can
    list its keys, [KeyOrder] a server that does; a client that goes from the
    first key to the next, until there is none, is proved to get every key once. *)

From S2P Require Import Prelude Words Text Chain ChainSpec Cache Net Queue Backend BeLibs BeLibsSpec Server Parse ParseSpec DbLoop DbSpec Transport System Client ClientSpec ClientTcp Host HostTcp.

(** ** Backends that list their keys *)

(** Every key fits a buffer of [cap] bytes. *)
Definition keys_fit (cap : Z) (ks : list bytes) : Prop :=
  Forall (λ k, Z.of_nat (length k) ≤ cap) ks.

(** The keys in the order in which the backend lists them: [firstkey] gives the
    first one, and [nextkey] of a key that is there the one behind it. *)
Class DbWalk (D : Type) `{DbLaws D} := {
  db_keys : D → list bytes;
  db_keys_nodup d : NoDup (db_keys d);
  db_keys_in d k : k ∈ db_keys d ↔ is_Some (db_view d !! k);
  db_first : ∃ f, db_firstkey = Some f ∧
    ∀ cap d, keys_fit cap (db_keys d) → f cap d = head (db_keys d);
  db_next : ∃ f, db_nextkey = Some f ∧
    ∀ k cap d i, keys_fit cap (db_keys d) → db_keys d !! i = Some k → f k cap d = db_keys d !! S i;
}.

Lemma store_first_head cap l : keys_fit cap l.*1 → store_first cap l = head l.*1.
Proof.
  destruct l as [|[k v] l]; [done|]. cbn. intros [Hk _]%Forall_cons. by rewrite decide_True.
Qed.

Lemma store_after_drop k l i : NoDup l.*1 → l.*1 !! i = Some k → store_after k l = drop (S i) l.
Proof.
  revert i. induction l as [|[k' v] l IH]; intros i Hnd Hi; [done|].
  cbn in Hnd. apply NoDup_cons in Hnd as [Hk Hnd]. destruct i as [|i]; cbn in Hi |- *.
  - injection Hi as ->. by rewrite decide_True.
  - rewrite decide_False; [by apply IH|]. intros ->. apply Hk. by eapply list_elem_of_lookup_2.
Qed.

#[export] Program Instance store_walk : DbWalk store := {| db_keys d := (map_to_list d).*1 |}.
Next Obligation. intros d. apply NoDup_fst_map_to_list. Qed.
Next Obligation.
  intros d k. rewrite list_elem_of_fmap. split.
  - intros ([k' v] & -> & Hv%elem_of_map_to_list). by exists v.
  - intros [v Hv]. exists (k, v). by rewrite elem_of_map_to_list.
Qed.
Next Obligation. eexists. split; [reflexivity|]. intros cap d. apply store_first_head. Qed.
Next Obligation.
  eexists. split; [reflexivity|]. intros k cap d i Hf Hi. cbn.
  rewrite (store_after_drop k _ i) by (done || apply NoDup_fst_map_to_list).
  rewrite store_first_head; rewrite fmap_drop.
  - by rewrite head_lookup, lookup_drop, Nat.add_0_r.
  - by apply Forall_drop.
Qed.

Section leveldb.
Context {D : Type} `{LevelDbLaws D}.

Lemma head_fits_head cap l : keys_fit cap l → head_fits l cap = head l.
Proof. destruct l as [|k l]; [done|]. intros [Hk _]%Forall_cons. cbn. by rewrite (proj2 (Z.ltb_ge _ _)). Qed.

(** LevelDB lists its keys in order. *)
Program Definition leveldb_walks : @DbWalk D leveldb_ops leveldb_laws := {| db_keys := leveldb_keys |}.
Next Obligation. intros d. apply sorted_nodup, leveldb_keys_sorted. Qed.
Next Obligation. intros d k. apply leveldb_keys_dom. Qed.
Next Obligation.
  eexists. split; [reflexivity|]. intros cap d Hf. cbn beta. rewrite xleveldb_firstkey_run.
  by apply head_fits_head.
Qed.
Next Obligation.
  eexists. split; [reflexivity|]. intros k cap d i Hf Hi. cbn beta. rewrite xleveldb_nextkey_run.
  pose proof (leveldb_keys_sorted d) as Hs. rewrite <-(take_drop_middle _ _ _ Hi) in Hs |- *.
  rewrite filter_after by done. cbn [tail].
  rewrite head_fits_head by by apply Forall_drop.
  rewrite lookup_app_r by (rewrite length_take; lia).
  pose proof (lookup_lt_Some _ _ _ Hi). rewrite length_take_le by lia.
  replace (S i - i)%nat with 1%nat by lia. cbn. by rewrite head_lookup.
Qed.
End leveldb.

(** ** Servers that list their keys *)

(** What comes after a key, and before every key the first one. *)
Definition key_after (m : areq) (ks : list bytes) (k : option bytes) : Prop :=
  match m with
  | AFirstkey => k = head ks
  | ANextkey k0 => ∃ i, ks !! i = Some k0 ∧ k = ks !! S i
  | _ => False
  end.

(** A server that lists the keys of its map: each request is answered with the
    key that comes next, and the order stays as it is. *)
Class KeyOrder (E : Type) `{Kernel E} (s : nmdb_srv) `{!MapService E s} := {
  ko_keys : E → list bytes;
  ko_nodup e : NoDup (ko_keys e);
  ko_in e M k : svc_is e M → (k ∈ ko_keys e ↔ is_Some (M !! k));
  ko_list e M m r e2 k :
    svc_is e M → svc_more e m r e2 → key_after m (ko_keys e) k →
    ko_keys e2 = ko_keys e ∧ r = reply_result (reply_req r) k;
}.

(** ** The library's calls *)

Section calls.
Context {E : Type} `{Kernel E} (s : nmdb_srv) `{!MapService E s} `{!KeyOrder E s}.
Context (c : client E) (a : alloc) (M : store) (ksize : Z).
Context (Ha : never_fails a) (Hc : c_servers c = [s]) (HM : svc_is (c_net c) M).
Context (Hlim : packet_len AFirstkey ≤ svc_limit).
Context (Hlim' : ∀ k, is_Some (M !! k) → packet_len (ANextkey k) ≤ svc_limit).

Abbreviation moff := (srv_get_msg_offset (Some s)).

(** What a call that lists returns. *)
Definition key_result (k : option bytes) : Z * bytes :=
  match k with Some k => fetched k ksize | None => (-1, []) end.

(** The state after a call: the map and the order of its keys are the same. *)
Definition unchanged (t : mem (client E)) : Prop :=
  served s c M t ∧ ko_keys (c_net (obj t)) = ko_keys (c_net c).

Lemma wp_key_answer p1 t1 r k e a' (Q : Z * bytes → mem (client E) → Prop) :
  never_fails a' → r = reply_result (reply_req r) k → (∀ k', k = Some k' → Z.of_nat (length k') < 2 ^ 32) →
  svc_is e M → ko_keys e = ko_keys (c_net c) →
  (∀ t, unchanged t → Q (key_result k) t) →
  wp (key_answer (Answer (rep_code r) (p1 ++ wire r ++ t1) (Z.of_nat (length p1) + 8)
    (Z.of_nat (length (wire r)) - 8)) ksize) Q (Mem (set_net e c) a').
Proof.
  intros Ha' Hr Hk He Hks HQ. unfold key_answer. rewrite Hr. cbn [an_code].
  assert (unchanged (Mem (set_net e c) a')) as Hun by by split.
  destruct k as [k|]; cbn [reply_result rep_code]; cbn [Z.eqb REP_OK REP_NOTIN REP_ERR Pos.eqb negb].
  - apply wp_bind, wp_read_value; [by apply Hk|]. by apply wp_exit, HQ.
  - by apply wp_exit, HQ.
Qed.

(** A listing request and its answer. *)
Lemma wp_list_request m p0 t n (err : bytes → MT (client E) (Z * bytes)) k
    (Q : Z * bytes → mem (client E) → Prop) a' :
  never_fails a' → listing m = true → msg_ok m → key_after m (ko_keys (c_net c)) k →
  Z.of_nat (length p0) = moff → n = Z.of_nat (length (p0 ++ encode ID_CODE 0 m)) →
  Z.of_nat (length ((p0 ++ encode ID_CODE 0 m) ++ t)) = 68 * 1024 →
  (∀ t, unchanged t → Q (key_result k) t) →
  wp (r ← srv_send (Some s) ((p0 ++ encode ID_CODE 0 m) ++ t) n;
      let '(t, buf) := r : Z * bytes in
      if t <=? 0 then err buf else
      an ← get_rep (Some s) buf (68 * 1024); key_answer an ksize) Q (Mem c a').
Proof.
  intros Ha' Hm Hok Hk Hp0 Hn Hbuf HQ.
  assert (∀ k', k = Some k' → key_fits k') as Hfit.
  { intros k' ->. assert (k' ∈ ko_keys (c_net c)) as Hin.
    { destruct m; try done; [by apply head_Some_elem_of|].
      destruct Hk as (i & _ & Hi). by eapply list_elem_of_lookup_2. }
    apply (ko_in _ M) in Hin as [v Hv]; [|done]. by apply (svc_fits _ _ HM _ _ Hv). }
  assert (effect m M = M) as Heff by by destruct m.
  assert (sendable 0 m) as Hsd by (split; [done|by destruct m|lia|by intros]).
  eapply (wp_request_more s c M HM 0 m p0 t _ _ (λ an, key_answer an ksize));
    [done| |done|done|by rewrite Hbuf|lia| |].
  - destruct m as [| | | | | |k0| | |]; try done. apply Hlim'. destruct Hk as (i & Hi & _).
    apply (ko_in (c_net c)); [done|]. by eapply list_elem_of_lookup_2.
  - intros q r _ Hr. pose proof (msg_offset_range s). rewrite length_wire.
    destruct Hr as [_ Hr]. rewrite andb_false_l in Hr. cbn [p_msg] in Hr.
    assert (System.key_answer (Point q m false M) r) as [Hr'|[Hr'|(k' & Hr' & v & Hv)]] by by destruct m.
    1,2: rewrite Hr'; lia.
    rewrite Hr'. destruct (svc_fits _ _ HM _ _ Hv) as [Hkf _]. unfold key_fits, db_buf_size in Hkf. lia.
  - intros e q r p1 t1 Hmore He Hf Hr. rewrite Heff in He.
    destruct (ko_list _ _ _ _ _ _ HM Hmore Hk) as [Hks Hrr].
    eapply wp_key_answer; [done|exact Hrr| |done|done|done].
    intros k' ->. pose proof (Hfit k' eq_refl) as Hf'. unfold key_fits, db_buf_size in Hf'. lia.
Qed.

Lemma wp_firstkey (Q : Z * bytes → mem (client E) → Prop) :
  (∀ t, unchanged t → Q (key_result (head (ko_keys (c_net c)))) t) →
  wp (nmdb_firstkey ksize) Q (Mem c a).
Proof.
  intros HQ. unfold nmdb_firstkey. wp_simpl. rewrite Hc. pose proof (msg_offset_range s).
  apply wp_bind. eapply (wp_packet s c a Ha _ _ _ (68 * 1024)); [done|lia|].
  intros p0 t a' Ha' Hp0 Ht. cbn iota. cbn [pk_buf pk_size pk_payload].
  change (encode_header ID_CODE REQ_FIRSTKEY 0) with (encode_header ID_CODE (op_code AFirstkey) 0).
  assert (encode_header ID_CODE (op_code AFirstkey) 0 = encode ID_CODE 0 AFirstkey) as -> by done.
  eapply (wp_list_request AFirstkey); [done|done|done|done|done| | |done].
  - rewrite length_app. change (length (encode ID_CODE 0 AFirstkey)) with 8%nat. lia.
  - rewrite !length_app. change (length (encode ID_CODE 0 AFirstkey)) with 8%nat. lia.
Qed.

Lemma wp_nextkey key i (Q : Z * bytes → mem (client E) → Prop) :
  ko_keys (c_net c) !! i = Some key →
  (∀ t, unchanged t → Q (key_result (ko_keys (c_net c) !! S i)) t) →
  wp (nmdb_nextkey key ksize) Q (Mem c a).
Proof.
  intros Hi HQ. unfold nmdb_nextkey. wp_simpl. rewrite Hc. pose proof (msg_offset_range s).
  assert (key_fits key) as Hkey.
  { assert (is_Some (M !! key)) as [v Hv] by (apply (ko_in (c_net c)); [done|by eapply list_elem_of_lookup_2]).
    by apply (svc_fits _ _ HM _ _ Hv). }
  unfold key_fits, db_buf_size in Hkey.
  apply wp_bind. eapply (wp_packet s c a Ha _ _ _ (68 * 1024)); [done|lia|].
  intros p0 t a' Ha' Hp0 Ht. cbn iota. cbn [pk_buf pk_size pk_payload]. apply wp_bind.
  apply wp_append_1v; [rewrite length_app, length_header; lia|lia|]. intros buf n t' -> Hl Hn. cbn iota.
  rewrite <-(assoc_L (++) p0) in *.
  change (encode_header ID_CODE REQ_NEXTKEY 0 ++ be_size key ++ key) with (encode ID_CODE 0 (ANextkey key)) in *.
  eapply (wp_list_request (ANextkey key)); [done|done|exact Hkey|by exists i|done| | |done].
  - rewrite Hn. unfold encode. cbn [encode_args]. rewrite !length_app, length_header, length_be_size. lia.
  - rewrite Hl, !length_app, length_header. lia.
Qed.
End calls.

(** ** Going through the keys *)

Section walk.
Context {E : Type} `{Kernel E}.

(** From the key of the last answer [r] on, as long as there is one. *)
Fixpoint walk_from (fuel : nat) (ksize : Z) (r : Z * bytes) : MT (client E) (list bytes) :=
  match fuel with
  | O => ub
  | S fuel =>
      if r.1 <? 0 then mret [] else
      r' ← nmdb_nextkey r.2 ksize;
      ks ← walk_from fuel ksize r';
      mret (r.2 :: ks)
  end.
Definition walk_keys (fuel : nat) (ksize : Z) : MT (client E) (list bytes) :=
  r ← nmdb_firstkey ksize; walk_from fuel ksize r.

Context (s : nmdb_srv) `{!MapService E s} `{!KeyOrder E s} (M : store) (ksize : Z).
Context (Hlim : packet_len AFirstkey ≤ svc_limit).
Context (Hlim' : ∀ k, is_Some (M !! k) → packet_len (ANextkey k) ≤ svc_limit).

Lemma wp_walk_from fuel i c a ks (Q : list bytes → mem (client E) → Prop) :
  never_fails a → c_servers c = [s] → svc_is (c_net c) M → ko_keys (c_net c) = ks →
  keys_fit ksize ks → (length ks - i < fuel)%nat →
  (∀ t, served s c M t → Q (drop i ks) t) →
  wp (walk_from fuel ksize (key_result ksize (ks !! i))) Q (Mem c a).
Proof.
  intros Ha Hc HM Hks Hfit. revert i c a Ha Hc HM Hks Q.
  induction fuel as [|fuel IH]; intros i c a Ha Hc HM Hks Q Hf HQ; cbn [walk_from].
  { lia. }
  destruct (ks !! i) as [k|] eqn:Ek.
  - assert (Z.of_nat (length k) ≤ ksize) as Hk by by eapply Forall_lookup_1 in Hfit.
    cbn [key_result]. unfold fetched. rewrite (proj2 (Z.ltb_ge ksize _)) by done. cbn [fst snd].
    rewrite (proj2 (Z.ltb_ge _ 0)) by lia. apply wp_bind.
    eapply (wp_nextkey s c a M ksize); [done..|by rewrite Hks|].
    intros [c1 a1] [(Ha1 & Hc1 & HM1) Hks1]. cbn [obj heap] in *. rewrite Hks. apply wp_bind.
    eapply (IH (S i)); [done|congruence|done|congruence|apply lookup_lt_Some in Ek; lia|].
    intros t (Ht1 & Ht2 & Ht3). wp_simpl. rewrite (drop_S _ _ _ Ek) in HQ. apply HQ.
    split_and!; [done|congruence|done].
  - cbn. wp_simpl. rewrite drop_ge in HQ by by apply lookup_ge_None. by apply HQ.
Qed.

(** The walk gives the keys of the map, each once, and changes nothing. *)
Lemma walk_complete fuel c a :
  never_fails a → c_servers c = [s] → svc_is (c_net c) M → (size M < fuel)%nat →
  (∀ k, is_Some (M !! k) → Z.of_nat (length k) ≤ ksize) →
  ∃ ks c' a', walk_keys fuel ksize (Mem c a) = Some (ks, Mem c' a') ∧
    NoDup ks ∧ (∀ k, k ∈ ks ↔ is_Some (M !! k)) ∧ svc_is (c_net c') M.
Proof.
  intros Ha Hc HM Hfuel Hfit. set (ks := ko_keys (c_net c)).
  pose proof (ko_nodup (c_net c)) as Hnd. pose proof (λ k, ko_in (c_net c) M k HM) as Hin.
  fold ks in Hnd, Hin.
  assert (keys_fit ksize ks) as Hks by (apply Forall_forall; intros k Hk; by apply Hfit, Hin).
  assert (length ks = size M) as Hlen.
  { rewrite <-(size_list_to_set (C := gset bytes) ks) by done. rewrite <-size_dom. f_equal.
    apply set_eq. intros k. by rewrite elem_of_list_to_set, elem_of_dom. }
  assert (wp (walk_keys fuel ksize) (λ r t, r = ks ∧ svc_is (c_net (obj t)) M) (Mem c a)) as Hw.
  { unfold walk_keys. apply wp_bind. eapply (wp_firstkey s c a M ksize); [done..|].
    intros [c1 a1] [(Ha1 & Hc1 & HM1) Hks1]. cbn [obj heap] in *. fold ks in Hks1 |- *.
    rewrite head_lookup. eapply wp_walk_from; [done|congruence|done|done|done|lia|].
    intros t (_ & _ & Ht). by rewrite drop_0. }
  apply wp_exec in Hw as (r & [c' a'] & Hw & -> & HM'). by exists ks, c', a'.
Qed.
End walk.

(** ** The servers of Host.v and HostTcp.v *)

Section hosts.
Context {D : Type} `{DbWalk D} (Hrel : reliable (D := D)).

Lemma listed_next (d d' : D) M m r k :
  db_view d = M → vals_fit M → listed m d d' r → key_after m (db_keys d) k →
  db_keys d' = db_keys d ∧ r = reply_result (reply_req r) k.
Proof.
  intros Hd HM Hl Hk. assert (keys_fit db_buf_size (db_keys d)) as Hf.
  { apply Forall_forall. intros k' Hk'. apply db_keys_in in Hk' as [v Hv]. rewrite Hd in Hv.
    by apply (HM _ _ Hv). }
  destruct m; try done; destruct Hl as [-> Hr]; try done; (split; [done|]); unfold list_answer in Hr.
  - destruct db_first as (f & Ef & Hfirst). rewrite Ef, Hfirst in Hr by done. by rewrite Hk.
  - destruct db_next as (f & Ef & Hnext). destruct Hk as (i & Hi & ->).
    rewrite Ef in Hr. cbn in Hr. by rewrite (Hnext _ _ _ i) in Hr.
Qed.

Definition host_order (s : nmdb_srv) (Hs : is_dgram s) :
  @KeyOrder (host D) _ s (dgram_map Hs (DgramService0 := host_service Hrel s)).
Proof.
  refine (@Build_KeyOrder _ _ _ (dgram_map Hs) (λ h : host D, db_keys (y_db (ho_sys h))) _ _ _).
  - intros h. apply db_keys_nodup.
  - intros h M k (_ & _ & st & [_ Hy]). rewrite <-(se_db _ _ _ Hy). apply db_keys_in.
  - intros h M m r h2 k (_ & _ & st & [_ Hy]) Hl.
    eapply listed_next; [apply (se_db _ _ _ Hy)|apply (se_fit _ _ _ Hy)|exact Hl].
Defined.

Definition thost_order (s : nmdb_srv) (sa : bytes) (Hs : sv_type s = TCP_CONN) :
  @KeyOrder (thost D) _ s (tcp_map s Hs (StreamService0 := thost_service Hrel sa s)).
Proof.
  refine (@Build_KeyOrder _ _ _ (tcp_map s Hs) (λ h : thost D, db_keys (y_db (tp_sys (th_proc h)))) _ _ _).
  - intros h. apply db_keys_nodup.
  - intros h M k Hh. destruct (in_quiet _ _ _ _ Hh) as (st & [_ Hy]). rewrite <-(se_db _ _ _ Hy).
    apply db_keys_in.
  - intros h M m r h2 k Hh Hl. destruct (in_quiet _ _ _ _ Hh) as (st & [_ Hy]).
    eapply listed_next; [apply (se_db _ _ _ Hy)|apply (se_fit _ _ _ Hy)|exact Hl].
Defined.
End hosts.

(** ** Properties *)

(** C6: walking the keys, end to end. A client with a UDP connection to a
    server whose backend lists its keys: going from [nmdb_firstkey] by
    [nmdb_nextkey] until there is no key any more, through the packets, the
    transport, the handler, the queue, the database thread and the backend,
    ends, gives every key of the map exactly once, and leaves the map as it is. *)
Theorem walk_end_to_end {D} `{DbWalk D} (s : nmdb_srv) (fuel : nat) (ksize : Z) (c : client (host D))
  (a : alloc) (M : store)
  (Hrel : reliable (D := D)) (Hs : is_dgram s) (Ha : never_fails a) (Hc : c_servers c = [s])
  (HM : host_is (c_net c) M) (Hfuel : (size M < fuel)%nat)
  (Hfit : ∀ k, is_Some (M !! k) → Z.of_nat (length k) ≤ ksize) :
  ∃ ks c' a', walk_keys fuel ksize (Mem c a) = Some (ks, Mem c' a') ∧
    NoDup ks ∧ (∀ k, k ∈ ks ↔ is_Some (M !! k)) ∧ host_is (c_net c') M.
Proof.
  eapply (walk_complete s (KeyOrder0 := host_order Hrel s Hs)); try done.
  intros k [v Hv]. destruct HM as (_ & _ & st & [_ Hy]). destruct (se_fit _ _ _ Hy _ _ Hv) as [Hk _].
  unfold key_fits, db_buf_size in Hk. unfold packet_len.
  pose proof (encode_bounds ID_CODE 0 (ANextkey k) Hk). cbn. lia.
Qed.

Lemma walk_end_to_end_witness :
  ∃ ks c' a', walk_keys 3 100 (Mem sample_client sample_alloc) = Some (ks, Mem c' a') ∧
    NoDup ks ∧ (∀ k, k ∈ ks ↔ is_Some (sample_store !! k)) ∧ host_is (c_net c') sample_store.
Proof.
  apply (walk_end_to_end sample_srv 3 100 sample_client sample_alloc sample_store store_reliable);
    [by right; left|apply sample_never_fails|reflexivity|apply sample_host_is|vm_compute; lia|].
  intros k [v Hv]. unfold sample_store in Hv. apply lookup_singleton_Some in Hv as [<- _]. by vm_compute.
Defined.

(** The same over TCP, for keys of at most 64 KB less the 16 bytes that a
    request for the next key has beside it. *)
Theorem tcp_walk {D} `{DbWalk D} (s : nmdb_srv) (sa : bytes) (fuel : nat) (ksize : Z)
  (c : client (thost D)) (a : alloc) (M : store)
  (Hrel : reliable (D := D)) (Hs : sv_type s = TCP_CONN) (Ha : never_fails a) (Hc : c_servers c = [s])
  (HM : thost_is sa (c_net c) M) (Hfuel : (size M < fuel)%nat)
  (Hfit : ∀ k, is_Some (M !! k) → Z.of_nat (length k) ≤ ksize)
  (Hshort : ∀ k, is_Some (M !! k) → Z.of_nat (length k) ≤ 64 * 1024 - 16) :
  ∃ ks c' a', walk_keys fuel ksize (Mem c a) = Some (ks, Mem c' a') ∧
    NoDup ks ∧ (∀ k, k ∈ ks ↔ is_Some (M !! k)) ∧ thost_is sa (c_net c') M.
Proof.
  eapply (walk_complete s (KeyOrder0 := thost_order Hrel s sa Hs)); try done.
  intros k Hk%Hshort. unfold packet_len, encode. rewrite length_app, length_header. cbn.
  rewrite length_app, length_be_size. lia.
Qed.

(** With any other number of servers the library does not ask for keys. *)
Theorem walk_needs_one_server {E} `{Kernel E} (key : bytes) (ksize : Z) (c : client E) (a : alloc)
  (Hc : length (c_servers c) ≠ 1%nat) :
  nmdb_firstkey ksize (Mem c a) = Some ((-2, []), Mem c a) ∧
  nmdb_nextkey key ksize (Mem c a) = Some ((-2, []), Mem c a).
Proof.
  unfold nmdb_firstkey, nmdb_nextkey, get_obj, gets, mbind, M_bind. cbn.
  by destruct (c_servers c) as [|? [|]].
Qed.
