(* ===== verification/Crowd.v ===== *)
(** * Many clients at once

    Any number of programs, each with its own library and its own UDP socket,
    that use one server at the same time. A [crowd] is the server's process
    (Host.v) and its clients; its steps are those whose order the network and
    the schedulers choose: a client makes its next call, up to the datagram; the
    datagram arrives at the server; the database thread takes its turn; a client
    whose reply has come returns from its call. Any list of steps is an
    execution. CrowdSpec shows that all of them implement one map for all the
    clients, and that every client gets to its end. *)

From S2P Require Import Prelude Words Text Chain ChainSpec Cache Net Queue Backend Server Parse ParseSpec DbLoop DbSpec Transport System Progress Client ClientSpec Host.

(** ** One client *)

(** A socket: the datagrams that have come and were not received yet, and those
    that were sent. *)
Record wire_state := Wire { w_inbox : list bytes; w_sent : list bytes }.

(** [recv] on a socket with an empty inbox blocks; a run that gets there is only
    used for what it sent before. *)
#[export] Instance wire_kernel : Kernel wire_state := {|
  k_socket _ w := (Some 3, w);
  k_connect _ _ _ w := (true, w);
  k_nodelay _ w := (true, w);
  k_close _ w := w;
  k_send _ _ w := (-1, w);
  k_sendto _ pkt w := (Z.of_nat (length pkt), Wire (w_inbox w) (w_sent w ++ [pkt]));
  k_recv _ n w :=
    match w_inbox w with
    | [] => (None, w)
    | b :: bs => (Some (take (Z.to_nat n) b), Wire bs (w_sent w))
    end;
|}.

Inductive phase :=
  | Ready                 (* between two calls *)
  | Asked (pkt : bytes)   (* in a call, whose datagram is on its way *)
  | Waiting.              (* in a call, which waits for its reply *)

Record user := User {
  u_addr : bytes;          (* of its socket *)
  u_heap : alloc;
  u_inbox : list bytes;
  u_phase : phase;
  u_todo : list call;      (* the calls that have not returned *)
  u_done : list result;    (* what the others returned *)
}.

Definition set_phase (ph : phase) (u : user) : user :=
  User (u_addr u) (u_heap u) (u_inbox u) ph (u_todo u) (u_done u).
Definition push (b : bytes) (u : user) : user :=
  User (u_addr u) (u_heap u) (u_inbox u ++ [b]) (u_phase u) (u_todo u) (u_done u).

Section user.
Context (srv : nmdb_srv).

(** The call [x], with what is in the inbox. *)
Definition run_user (u : user) (x : call) : option (result * mem (client wire_state)) :=
  run_call x (Mem (Client [srv] (Wire (u_inbox u) [])) (u_heap u)).

Definition finish (u : user) (r : result) (t : mem (client wire_state)) : user :=
  User (u_addr u) (heap t) (w_inbox (c_net (obj t))) Ready (tail (u_todo u)) (u_done u ++ [r]).

(** The next call begins: it sends a datagram and waits, or, if it sends none,
    returns. *)
Definition user_calls (u : user) : option user :=
  match u_phase u, u_todo u with
  | Ready, x :: _ =>
      '(r, t) ← run_user u x;
      match w_sent (c_net (obj t)) with
      | pkt :: _ => Some (set_phase (Asked pkt) u)
      | [] => Some (finish u r t)
      end
  | _, _ => Some u
  end.

(** The call that waits finds a datagram in the inbox, and returns. *)
Definition user_returns (u : user) : option user :=
  match u_phase u, u_inbox u, u_todo u with
  | Waiting, _ :: _, x :: _ => '(r, t) ← run_user u x; Some (finish u r t)
  | _, _, _ => Some u
  end.
End user.

(** ** The crowd *)

(** The server's process and its clients; [cr_log] is the history: the calls
    whose datagrams have arrived at the server, each with the client's number. *)
Record crowd (D : Type) := Crowd {
  cr_static : bytes;
  cr_sys : system D;
  cr_heap : alloc;
  cr_users : list user;
  cr_log : list (nat * call);
}.
Arguments Crowd {D}.
Arguments cr_static {D}.
Arguments cr_sys {D}.
Arguments cr_heap {D}.
Arguments cr_users {D}.
Arguments cr_log {D}.

Inductive step :=
  | StCall (i : nat)     (* client [i] makes its next call *)
  | StArrive (i : nat)   (* its datagram arrives at the server *)
  | StDb (rv : Z)        (* a round of the database loop *)
  | StReturn (i : nat).  (* its call returns *)

Section crowd.
Context {D : Type} `{DbOps D} (srv : nmdb_srv).

Definition set_users (us : list user) (c : crowd D) : crowd D :=
  Crowd (cr_static c) (cr_sys c) (cr_heap c) us (cr_log c).

(** A datagram of the server goes to the client that it is addressed to. *)
Definition hand (us : list user) (p : packet) : list user :=
  (λ u, if decide (u_addr u = p_addr p) then push (p_bytes p) u else u) <$> us.

(** The server's thread does [m], and the replies go out. *)
Definition server_does (m : MT (process D) ()) (c : crowd D) : option (crowd D) :=
  '(_, t) ← (m;; flush) (Mem (Process (cr_static c) (cr_sys c) []) (cr_heap c));
  Some (Crowd (pr_static (obj t)) (pr_sys (obj t)) (heap t)
    (foldl hand (cr_users c) (pr_sent (obj t))) (cr_log c)).

Definition on_user (f : user → option user) (i : nat) (c : crowd D) : option (crowd D) :=
  match cr_users c !! i with
  | Some u => u' ← f u; Some (set_users (<[i := u']> (cr_users c)) c)
  | None => Some c
  end.

(** A step that does not apply does nothing. *)
Definition run_step (st : step) (c : crowd D) : option (crowd D) :=
  match st with
  | StCall i => on_user (user_calls srv) i c
  | StReturn i => on_user (user_returns srv) i c
  | StDb rv => server_does (on_system (run_event (EvDb rv))) c
  | StArrive i =>
      match cr_users c !! i with
      | Some u =>
          match u_phase u, u_todo u with
          | Asked pkt, x :: _ =>
              server_does (on_receiver (udp_recv 4 (Datagram pkt (u_addr u))))
                (Crowd (cr_static c) (cr_sys c) (cr_heap c)
                   (<[i := set_phase Waiting u]> (cr_users c)) (cr_log c ++ [(i, x)]))
          | _, _ => Some c
          end
      | None => Some c
      end
  end.

Fixpoint run_steps (sts : list step) (c : crowd D) : option (crowd D) :=
  match sts with
  | [] => Some c
  | st :: sts => c' ← run_step st c; run_steps sts c'
  end.

Lemma run_steps_app sts1 sts2 c :
  run_steps (sts1 ++ sts2) c = run_steps sts1 c ≫= run_steps sts2.
Proof.
  revert c. induction sts1 as [|st sts1 IH]; intros c; [done|]. cbn [app run_steps].
  destruct (run_step st c) as [c'|]; [|done]. apply IH.
Qed.
End crowd.

(** ** The specification: the calls in the order in which they arrived *)

(** The map after the calls of a history. *)
Definition replay (M : store) (log : list (nat * call)) : store :=
  foldl (λ M e, effect (call_msg e.2) M) M log.

(** What each call of a history returns. *)
Fixpoint outcomes (M : store) (log : list (nat * call)) : list (nat * result) :=
  match log with
  | [] => []
  | (i, x) :: log => (i, call_result x M) :: outcomes (effect (call_msg x) M) log
  end.

(** The part of client [i]. *)
Definition of_user {A} (i : nat) (l : list (nat * A)) : list A := (filter (λ e, e.1 = i) l).*2.

Lemma replay_snoc M log i x : replay M (log ++ [(i, x)]) = effect (call_msg x) (replay M log).
Proof. unfold replay. by rewrite foldl_app. Qed.

Lemma outcomes_snoc M log i x :
  outcomes M (log ++ [(i, x)]) = outcomes M log ++ [(i, call_result x (replay M log))].
Proof. revert M. induction log as [|[j y] log IH]; intros M; [done|]. cbn. by rewrite IH. Qed.

Lemma of_user_snoc {A} i j (l : list (nat * A)) x :
  of_user i (l ++ [(j, x)]) = of_user i l ++ (if decide (j = i) then [x] else []).
Proof.
  unfold of_user. rewrite filter_app, fmap_app. f_equal. rewrite filter_cons. cbn. by case_decide.
Qed.
