(* ===== verification/CrowdSpec.v ===== *)
(** * Many clients are one map

    The proofs about Crowd.v. A client's call is replayed against its socket:
    without the reply it gives the datagram, with it the result. The server's
    process keeps the invariant of System.v between its steps, with the requests
    that are owed an answer each at a client that waits for it. *)

From S2P Require Import Prelude Words Text Chain ChainSpec Cache Net Queue Backend Server Parse ParseSpec DbLoop DbSpec Transport System Progress Client ClientSpec Host Crowd.

(** ** A call, seen from its client *)

Section call.
Context (srv : nmdb_srv) (Hsrv : is_dgram srv).

(** Without a reply: the datagram that a call sends. *)
Lemma wp_ask_blocked {A} f m p0 t (k : answer → MT (client wire_state) A) err c a
    (Q : A → mem (client wire_state) → Prop) :
  c_net c = Wire [] [] → msg_ok m → Z.of_nat (length p0) = srv_get_msg_offset (Some srv) →
  (∀ buf, wp (k (no_answer buf)) Q (Mem (set_net (Wire [] [encode ID_CODE f m]) c) a)) →
  wp (ask srv f m p0 t k err) Q (Mem c a).
Proof.
  intros Hc Hm Hp0 HQ. pose proof (encode_bounds ID_CODE f m Hm) as Hb.
  rewrite (msg_offset_dgram srv Hsrv) in Hp0. destruct p0; [|cbn [length] in Hp0; lia].
  unfold ask. cbn [app]. apply wp_bind.
  eapply (wp_dgram_srv_send srv Hsrv); [done|lia|by rewrite Hc|].
  cbn [Z.leb Z.compare]. apply wp_bind. rewrite (get_rep_dgram srv Hsrv).
  unfold dgram_get_rep, recv. apply wp_bind, wp_bind. eapply wp_sys; [done|]. wp_simpl.
  change (-1 <? 4 + 4) with true. cbn iota. wp_simpl. apply HQ.
Qed.

Lemma wp_call_asks x a (Q : result → mem (client wire_state) → Prop) :
  never_fails a → msg_ok (call_msg x) →
  (∀ r t, c_net (obj t) = Wire [] [encode ID_CODE (call_flags x) (call_msg x)] → Q r t) →
  wp (run_call x) Q (Mem (Client [srv] (Wire [] [])) a).
Proof.
  intros Ha Hm HQ. set (c := Client [srv] (Wire [] [])).
  assert (server_for (c_servers c) (call_key x) = Some srv) as Hsel by apply server_for_one.
  destruct x as [k vsize|sync k v|sync k|k o n|k n]; cbn [run_call call_msg call_key] in *; apply wp_bind;
    try destruct sync;
    [apply (wp_do_get_asks srv c a Ha k Hsel vsize 0)
    |apply (wp_do_set_asks srv c a Ha k Hsel v NMDB_SYNC)
    |apply (wp_do_set_asks srv c a Ha k Hsel v 0)
    |apply (wp_do_del_asks srv c a Ha k Hsel NMDB_SYNC)
    |apply (wp_do_del_asks srv c a Ha k Hsel 0)
    |apply (wp_do_cas_asks srv c a Ha k Hsel o n 0)
    |apply (wp_do_incr_asks srv c a Ha k Hsel n true 0)]; try done;
    intros p0 t a' Ha' [Hp0 _]; (apply wp_ask_blocked; [done|done|done|]); intros buf;
    apply wp_exit; wp_simpl; by apply HQ.
Qed.

(** With the reply to it. *)
Lemma wp_call_answered x q r M a (Q : result → mem (client wire_state) → Prop) :
  never_fails a → msg_ok (call_msg x) → vals_fit M → r_flags q = call_flags x →
  r_id q = htonl ID_CODE → answers (Point q (call_msg x) false M) r →
  (∀ t, never_fails (heap t) → w_inbox (c_net (obj t)) = [] → Q (call_result x M) t) →
  wp (run_call x) Q (Mem (Client [srv] (Wire [wire r] [])) a).
Proof.
  intros Ha Hm HM Hf Hid Hr HQ.
  eapply (wp_run_call_on srv x _ _ M (λ _ w, w_inbox w = [])); [done|apply server_for_one|done|done| |].
  - eapply (dgram_promised srv Hsrv _ _ _ _ _ q r _ (Wire [] [encode ID_CODE (call_flags x) (call_msg x)]));
      [done|done|done| |done| |done].
    + destruct Hr as [(_ & _ & Hri & _) _]. cbn in Hri. rewrite Hri, Hid. apply put32_htonl.
    + intros n Hn. cbn. by rewrite take_ge by lia.
  - intros t (Ht & _ & r' & Hw). by apply HQ.
Qed.
End call.

(** ** The server between two steps *)

Section server.
Context {D : Type} `{DbLaws D} (Hrel : reliable (D := D)).

(** The server's process when no reply is left to be sent: [owed] are the
    requests that wait for the database thread. *)
Record steady (static : bytes) (y : system D) (a : alloc) (st : astate) (owed : list point)
    (M : store) : Prop := Steady {
  sy_heap : never_fails a;
  sy_static : Z.of_nat (length static) = SBSIZE;
  sy_inv : inv y st owed M;
  sy_out : as_out st = [];
  sy_ro : a_read_only st = false;
  sy_passive : passive (as_settings st) = 0;
  sy_udp : Forall (λ p, r_type (p_req p) = REQTYPE_UDP) owed;
}.

(** What a step of the server leaves: some of the requests [ps] are answered,
    and the others are owed. *)
Definition moved (ps : list point) (M : store) (bound : nat → Prop) (t : mem (process D)) : Prop :=
  ∃ st sent owed rs, ps ≡ₚ sent ++ owed ∧ Forall2 answers sent rs ∧
    pr_sent (obj t) = packet_of <$> rs ∧
    steady (pr_static (obj t)) (pr_sys (obj t)) (heap t) st owed M ∧ bound (length (as_queue st)).

Lemma answers_type ps rs :
  Forall2 answers ps rs → Forall (λ p, r_type (p_req p) = REQTYPE_UDP) ps →
  Forall (λ r, r_type (reply_req r) = REQTYPE_UDP) rs.
Proof.
  induction 1 as [|p r ps rs Ha Hall IH]; intros Hf; [done|].
  apply Forall_cons in Hf as [Hp Hf]. constructor; [|by apply IH].
  destruct Ha as [(_ & -> & _) _]. done.
Qed.

(** The replies go out. *)
Lemma wp_flush_moved static y a st ps M (bound : nat → Prop) (Q : () → mem (process D) → Prop) :
  never_fails a → Z.of_nat (length static) = SBSIZE → inv y st ps M → a_read_only st = false →
  passive (as_settings st) = 0 → Forall (λ p, r_type (p_req p) = REQTYPE_UDP) ps →
  bound (length (as_queue st)) →
  (∀ t, moved ps M bound t → Q tt t) →
  wp flush Q (Mem (Process static y []) a).
Proof.
  intros Ha Hst [Hs Hstop Hc HM Hdb (sent & owed & Hps & Hsent & Hpend)] Hro Hp Hty Hb HQ.
  rewrite Hps in Hty. apply Forall_app in Hty as [Hty1 Hty2].
  eapply wp_flush; [done|exact Hs|done|by eapply answers_type|]. intros a' Ha'. apply HQ.
  exists (AState (as_cache st) (as_queue st) (as_stats st) (as_settings st) []), sent, owed, (as_out st).
  split_and!; [done|done|done| |done]. split; try done.
  split; try done; [|by exists [], owed].
  destruct Hs as [S1 S2 S3 S4 S5]. by split.
Qed.

Lemma settings_ro st st' :
  as_settings st' = as_settings st → a_read_only st = false → a_read_only st' = false.
Proof. unfold a_read_only. by intros ->. Qed.

(** A request arrives. *)
Lemma wp_arrival static y a st owed M sa f m (Q : () → mem (process D) → Prop) :
  steady static y a st owed M → queue_room st → sendable f m →
  (∀ t q, r_flags q = f → r_id q = htonl ID_CODE → addr_of q = sa → 
     moved (owed ++ [Point q m false M]) (effect m M) (λ n, (n ≤ 1 + length (as_queue st))%nat) t → Q tt t) →
  wp (on_receiver (udp_recv 4 (Datagram (encode ID_CODE f m) sa));; flush) Q (Mem (Process static y []) a).
Proof.
  intros [Ha Hst Hi Ho Hro Hp Hty] Hroom [Hm Hsto Hf Hco] HQ.
  pose proof (iv_server _ _ _ _ Hi) as Hs. pose proof (iv_cache _ _ _ _ Hi) as Hc.
  apply wp_bind, wp_on_receiver. cbn [pr_static pr_sys]. unfold udp_recv.
  apply (wp_recv_encoded REQTYPE_UDP msg_udp 0 4 sa ID_CODE f m _ _ st);
    [done|exact Ha|done|lia|by unfold ID_CODE|done|done| |].
  { destruct m as [| | | |k n| | | | |]; try done. cbn. unfold incr_defined.
    destruct (a_lookup k (as_cache st)) as [v|] eqn:Ek; [|done]. apply (proj2 Hc) in Ek.
    destruct (iv_fit _ _ _ _ Hi _ _ Ek) as (_ & Hne & Hl). unfold db_buf_size in Hl. split; [done|lia]. }
  intros v' a' q [Hs1 Hst1] Ha' Hid Hfl Hfd Hqty Haddr. cbn [obj heap pr_static pr_sys pr_sent].
  assert (fits q m) as Hfits by (split; [done|]; unfold cache_only; by rewrite Hfl).
  set (st0 := to_stats msg_udp st) in *.
  pose proof (handle_point q st0 M Hc m Hfits) as Hh.
  assert (a_read_only st0 = false) as Hro0 by exact Hro. rewrite Hro0 in Hh.
  assert (as_settings (handle q m st0) = as_settings st) as Hset by by rewrite (hd_settings _ _ _ Hh).
  eapply (wp_flush_moved _ _ _ (handle q m st0) (owed ++ [Point q m false M]) (effect m M)
    (λ n, (n ≤ 1 + length (as_queue st))%nat)); [done|done| |by eapply settings_ro|by rewrite Hset| | |].
  - assert (handled (Point q m false M) st (handle q m st0)) as Hh' by by destruct Hh.
    exact (inv_handled y (v_server v') st (handle q m st0) (Point q m false M) owed M Hi eq_refl Hs1 Hfits Hh').
  - apply Forall_app. split; [done|]. by constructor.
  - exact (handled_queue _ _ _ Hh).
  - intros t Ht. by apply (HQ t q).
Qed.

(** A round of the database loop. *)
Lemma wp_db_turn static y a st owed M rv (Q : () → mem (process D) → Prop) :
  steady static y a st owed M → queue_room st →
  (∀ t, moved owed M (λ n, (n ≤ length (as_queue st) - (if System.serves (EvDb rv) then 1 else 0))%nat) t → Q tt t) →
  wp (on_system (run_event (EvDb rv));; flush) Q (Mem (Process static y []) a).
Proof.
  intros [Ha Hst Hi Ho Hro Hp Hty] Hroom HQ. apply wp_bind, wp_on_system.
  eapply wp_db_round; [done|done|exact Hi|done|]. cbn [pr_sys].
  intros t [Ha1 (st1 & Hi1 & Hro1 & Hl & Hadv)] Es. cbn [pr_static pr_sent].
  assert (as_settings st1 = as_settings st) as Hset.
  { destruct (iv_server _ _ _ _ Hi1) as [_ _ _ <- _], (iv_server _ _ _ _ Hi) as [_ _ _ <- _]. exact Es. }
  eapply wp_flush_moved; [done|done|exact Hi1|congruence|by rewrite Hset|done| |exact HQ].
  unfold advanced in Hadv. destruct (System.serves (EvDb rv)); [|lia].
  destruct (as_queue st) as [|x l]; [cbn in *; lia|]. destruct Hadv as [-> _]. cbn. lia.
Qed.
End server.

(** ** The clients between two steps *)

(** The calls of a client that have not arrived at the server. *)
Definition later (u : user) : list call :=
  match u_phase u with Waiting => tail (u_todo u) | _ => u_todo u end.

(** The request [p] is the call [x] of the client [u]. *)
Record asks (u : user) (x : call) (p : point) : Prop := Asks {
  ak_msg : p_msg p = call_msg x;
  ak_ro : p_ro p = false;
  ak_flags : r_flags (p_req p) = call_flags x;
  ak_id : r_id (p_req p) = htonl ID_CODE;
  ak_addr : addr_of (p_req p) = u_addr u;
  ak_fit : vals_fit (p_map p);
}.

(** Where a client is: [past] is what its calls that arrived return, and [op]
    the request that the server owes it an answer to. *)
Definition state_is (past : list result) (u : user) (op : option point) : Prop :=
  match u_phase u, op with
  | Ready, None => u_inbox u = [] ∧ past = u_done u
  | Asked pkt, None =>
      u_inbox u = [] ∧ past = u_done u ∧
      ∃ x xs, u_todo u = x :: xs ∧ pkt = encode ID_CODE (call_flags x) (call_msg x)
  | Waiting, _ =>
      ∃ x xs p, u_todo u = x :: xs ∧ asks u x p ∧ past = u_done u ++ [call_result x (p_map p)] ∧
        match op with
        | Some p' => p' = p ∧ u_inbox u = []
        | None => ∃ r, answers p r ∧ u_inbox u = [wire r]
        end
  | _, _ => False
  end.

(** [prog]: all its calls; [arrived]: those that arrived. *)
Record user_is (prog arrived : list call) (past : list result) (u : user) (op : option point) : Prop := UserIs {
  us_heap : never_fails (u_heap u);
  us_ok : Forall call_ok (u_todo u);
  us_calls : arrived ++ later u = prog;
  us_state : state_is past u op;
}.

Definition backlog (us : list user) : nat := sum_list ((λ u, length (later u)) <$> us).

Lemma backlog_cons u us : backlog (u :: us) = (length (later u) + backlog us)%nat.
Proof. done. Qed.

Lemma backlog_insert us i u u' :
  us !! i = Some u → (backlog (<[i := u']> us) + length (later u) = backlog us + length (later u'))%nat.
Proof.
  revert i. induction us as [|v us IH]; intros [|i] Hi; cbn in Hi; [done|done| |].
  - injection Hi as ->. change (<[0%nat := u']> (u :: us)) with (u' :: us). rewrite !backlog_cons. lia.
  - specialize (IH i Hi). change (<[S i := u']> (v :: us)) with (v :: <[i := u']> us). rewrite !backlog_cons. lia.
Qed.

(** One of a list of options replaced. *)
Lemma omap_insert {A} (l : list (option A)) i o :
  l !! i = Some o →
  ∃ rest, omap id l ≡ₚ option_list o ++ rest ∧ ∀ o', omap id (<[i := o']> l) ≡ₚ option_list o' ++ rest.
Proof.
  revert i. induction l as [|o0 l IH]; intros [|i] Hi; cbn in Hi; [done|done| |].
  - injection Hi as ->. exists (omap id l). split; [by destruct o|]. intros o'. by destruct o'.
  - destruct (IH i Hi) as (rest & E1 & E2). exists (option_list o0 ++ rest).
    split; [|intros o'; specialize (E2 o')]; destruct o0; cbn; rewrite ?E1, ?E2; solve_Permutation.
Qed.

Section users.
Context (M0 : store) (prog : nat → list call) (total : nat).

(** All of them, after the history [log]; [ops] are the requests that the
    server owes answers to, each at its client. *)
Record users_are (log : list (nat * call)) (us : list user) (ops : list (option point)) : Prop := UsersAre {
  ua_addrs : NoDup (u_addr <$> us);
  ua_length : length ops = length us;
  ua_user i u op : us !! i = Some u → ops !! i = Some op →
    user_is (prog i) (of_user i log) (of_user i (outcomes M0 log)) u op;
  ua_total : (length log + backlog us = total)%nat;
}.

Lemma addrs_insert (us : list user) (i : nat) u u' :
  us !! i = Some u → u_addr u' = u_addr u → u_addr <$> <[i := u']> us = u_addr <$> us.
Proof.
  intros Hi Ha. rewrite list_fmap_insert, Ha. apply list_insert_id. by rewrite list_lookup_fmap, Hi.
Qed.

(** One client moves. *)
Lemma users_insert log us ops i u u' op' :
  users_are log us ops → us !! i = Some u → u_addr u' = u_addr u → later u' = later u →
  user_is (prog i) (of_user i log) (of_user i (outcomes M0 log)) u' op' →
  users_are log (<[i := u']> us) (<[i := op']> ops).
Proof.
  intros [Hnd Hl Hu Ht] Hi Ha Hla Hu'. split.
  - by erewrite addrs_insert.
  - by rewrite !length_insert.
  - intros j v op Hj Hop. apply list_lookup_insert_Some in Hj as [(<- & <- & Hlt)|[Hne Hj]].
    + rewrite list_lookup_insert_eq in Hop by lia. by injection Hop as <-.
    + rewrite list_lookup_insert_ne in Hop by done. by apply Hu.
  - pose proof (backlog_insert us i u u' Hi). rewrite Hla in *. lia.
Qed.

Lemma users_op log us ops i u :
  users_are log us ops → us !! i = Some u → ∃ op, ops !! i = Some op ∧
    user_is (prog i) (of_user i log) (of_user i (outcomes M0 log)) u op.
Proof.
  intros Hua Hi. destruct (lookup_lt_is_Some_2 ops i) as [op Hop].
  { rewrite (ua_length _ _ _ Hua). by eapply lookup_lt_Some. }
  exists op. split; [done|]. by eapply ua_user.
Qed.

(** The call of a client arrives. *)
Lemma users_arrive log us ops i u x xs pkt p :
  users_are log us ops → us !! i = Some u → u_phase u = Asked pkt → u_todo u = x :: xs →
  asks u x p → p_map p = replay M0 log →
  users_are (log ++ [(i, x)]) (<[i := set_phase Waiting u]> us) (<[i := Some p]> ops).
Proof.
  intros Hua Hi Hph Hx Hp HM. destruct (users_op _ _ _ _ _ Hua Hi) as (op & Hop & [Hh Hok Hc Hst]).
  destruct Hua as [Hnd Hl Hu Ht]. unfold state_is in Hst. rewrite Hph in Hst. destruct op; [done|].
  destruct Hst as (Hin & Hpast & _). unfold later in Hc. rewrite Hph, Hx in Hc. split.
  - by erewrite addrs_insert.
  - by rewrite !length_insert.
  - intros j v op Hj Hop'. rewrite outcomes_snoc, !of_user_snoc.
    apply list_lookup_insert_Some in Hj as [(<- & <- & Hlt)|[Hne Hj]].
    + rewrite list_lookup_insert_eq in Hop' by lia. injection Hop' as <-. rewrite !decide_True by done.
      split; [done|done| |].
      * rewrite <-(assoc_L (++)). unfold later. cbn. by rewrite Hx.
      * cbn. exists x, xs, p. rewrite HM, Hpast. by split_and!; [|destruct Hp|..].
    + rewrite list_lookup_insert_ne in Hop' by done. rewrite !decide_False by done. rewrite !app_nil_r.
      by apply Hu.
  - pose proof (backlog_insert us i u (set_phase Waiting u) Hi) as Hb. unfold later at 1 2 in Hb.
    cbn [u_phase u_todo set_phase] in Hb. rewrite Hph, Hx in Hb. cbn in Hb. rewrite length_app. cbn. lia.
Qed.

(** A reply goes to its client. *)
Lemma hand_at (us : list user) (i : nat) u p :
  NoDup (u_addr <$> us) → us !! i = Some u → u_addr u = p_addr p →
  hand us p = <[i := push (p_bytes p) u]> us.
Proof.
  intros Hnd Hi Ha. apply list_eq. intros j. unfold hand. rewrite list_lookup_fmap.
  destruct (decide (j = i)) as [->|Hne].
  - rewrite Hi, list_lookup_insert_eq by by eapply lookup_lt_Some. cbn. by rewrite decide_True.
  - rewrite list_lookup_insert_ne by done. destruct (us !! j) as [v|] eqn:Hj; [|done]. cbn.
    rewrite decide_False; [done|]. intros E. apply Hne.
    eapply (NoDup_lookup (u_addr <$> us)); [done|rewrite list_lookup_fmap, Hj; reflexivity|].
    rewrite list_lookup_fmap, Hi. cbn. congruence.
Qed.

Lemma users_hand log us ops p r rest :
  users_are log us ops → omap id ops ≡ₚ p :: rest → answers p r →
  ∃ ops', users_are log (hand us (packet_of r)) ops' ∧ omap id ops' ≡ₚ rest.
Proof.
  intros Hua Hops Hr. assert (p ∈ omap id ops) as Hin by (rewrite Hops; by left).
  apply list_elem_of_omap in Hin as (o & Ho & Eo). cbn in Eo. subst o.
  apply list_elem_of_lookup in Ho as [i Hi].
  destruct (lookup_lt_is_Some_2 us i) as [u Hu].
  { rewrite <-(ua_length _ _ _ Hua). by eapply lookup_lt_Some. }
  destruct (ua_user _ _ _ Hua _ _ _ Hu Hi) as [Hh Hok Hc Hst].
  unfold state_is in Hst. destruct (u_phase u) eqn:Hph; [done|done|].
  destruct Hst as (x & xs & p' & Hx & Hak & Hpast & <- & Hbox).
  assert (addr_of (req_of r) = u_addr u) as Haddr.
  { rewrite <-(ak_addr _ _ _ Hak). destruct Hr as [(_ & _ & _ & Hl & Ht) _]. unfold addr_of.
    change (req_of r) with (reply_req r). by rewrite Hl, Ht. }
  exists (<[i := None]> ops). split.
  - rewrite (hand_at us i u) by (try done; apply Hua).
    eapply users_insert; [done|done|done|by unfold later; cbn|].
    split; [done|done|by unfold later in *; cbn|]. unfold state_is. cbn. rewrite Hph, Hbox.
    exists x, xs, p. split_and!; [done|by destruct Hak|done|]. by exists r.
  - destruct (omap_insert _ _ _ Hi) as (rest' & E1 & E2). rewrite (E2 None). cbn.
    rewrite Hops in E1. cbn in E1. by apply (inj (cons p)) in E1.
Qed.

Lemma users_hand_all log us ops sent rs owed :
  users_are log us ops → omap id ops ≡ₚ sent ++ owed → Forall2 answers sent rs →
  ∃ ops', users_are log (foldl hand us (packet_of <$> rs)) ops' ∧ omap id ops' ≡ₚ owed.
Proof.
  intros Hua Hops Hs. revert us ops Hua Hops.
  induction Hs as [|p r sent rs Hr Hs IH]; intros us ops Hua Hops; [by exists ops|].
  destruct (users_hand _ _ _ _ _ _ Hua Hops Hr) as (ops1 & Hua1 & Hops1). by eapply IH.
Qed.
End users.

(** ** Steps *)

(** How far a client is from its end; only its own steps bring it nearer. *)
Definition dist (u : user) : nat :=
  match u_phase u with
  | Ready => 3 * length (u_todo u)
  | Asked _ => 3 * length (u_todo u) - 1
  | Waiting => 3 * length (u_todo u) - 2
  end.

(** The steps that client [j] is ready for. *)
Definition acts (st : step) (j : nat) (u : user) : Prop :=
  match st with
  | StCall i => i = j ∧ u_phase u = Ready ∧ u_todo u ≠ []
  | StArrive i => i = j ∧ ∃ pkt, u_phase u = Asked pkt
  | StReturn i => i = j ∧ u_phase u = Waiting ∧ u_inbox u ≠ []
  | StDb _ => False
  end.

(** A client before and after a step. *)
Definition nearer (st : step) (j : nat) (u u' : user) : Prop :=
  (dist u' ≤ dist u)%nat ∧ (acts st j u → (dist u' < dist u)%nat).

Lemma hand_all_lookup us ps (j : nat) u :
  us !! j = Some u →
  ∃ u', foldl hand us ps !! j = Some u' ∧ u_phase u' = u_phase u ∧ u_todo u' = u_todo u.
Proof.
  revert us u. induction ps as [|p ps IH]; intros us u Hj; [by exists u|].
  cbn [foldl]. edestruct (IH (hand us p)) as (u' & H1 & H2 & H3).
  { unfold hand. rewrite list_lookup_fmap, Hj. reflexivity. }
  exists u'. split; [done|]. rewrite H2, H3. by case_decide.
Qed.

Lemma length_hand_all us ps : length (foldl hand us ps) = length us.
Proof.
  revert us. induction ps as [|p ps IH]; intros us; [done|]. cbn [foldl]. rewrite IH. apply length_fmap.
Qed.

Lemma dist_same u u' : u_phase u' = u_phase u → u_todo u' = u_todo u → dist u' = dist u.
Proof. unfold dist. by intros -> ->. Qed.

Section user_steps.
Context (srv : nmdb_srv) (Hsrv : is_dgram srv).
Context (prog arrived : list call) (past : list result) (u : user) (op : option point).
Context (Hu : user_is prog arrived past u op).

(** What a client's own step keeps. *)
Definition own_step (st : nat → step) (u' : user) : Prop :=
  u_addr u' = u_addr u ∧ later u' = later u ∧ user_is prog arrived past u' op ∧
  ∀ j, nearer (st j) j u u'.

Lemma own_step_none st : (∀ j, ¬ acts (st j) j u) → own_step st u.
Proof. intros Hn. split_and!; [done|done|done|]. intros j. split; [done|]. by intros ?%Hn. Qed.

Lemma user_calls_ok : ∃ u', user_calls srv u = Some u' ∧ own_step StCall u'.
Proof.
  unfold user_calls. destruct (u_phase u) eqn:Hph.
  2,3: exists u; split; [done|]; apply own_step_none; intros j (_ & E & _); congruence.
  destruct (u_todo u) as [|x xs] eqn:Hx.
  { exists u. split; [done|]. apply own_step_none. by intros j (_ & _ & E). }
  destruct Hu as [Hh Hok Hc Hst]. unfold state_is in Hst. rewrite Hph in Hst.
  assert (op = None) as Eo by by destruct op. rewrite Eo in Hst. destruct Hst as [Hin Hpast]. pose proof Hok as Hok0. rewrite Hx in Hok0. apply Forall_cons in Hok0 as [Hox _].
  assert (wp (run_call x) (λ _ t, c_net (obj t) = Wire [] [encode ID_CODE (call_flags x) (call_msg x)])
    (Mem (Client [srv] (Wire [] [])) (u_heap u))) as Hw by by eapply wp_call_asks; [|done|apply Hox|].
  apply wp_exec in Hw as (r & t & Hw & Ht). unfold run_user. rewrite Hin, Hw. cbn. rewrite Ht. cbn.
  eexists. split; [done|]. split_and!; [done|by unfold later; cbn; rewrite Hph| |].
  - split; [done|done|unfold later in *; cbn; by rewrite Hph in Hc|].
    rewrite Eo. cbn. split_and!; [done|done|]. by exists x, xs.
  - intros j. unfold nearer, dist. cbn. rewrite Hph, Hx. cbn. lia.
Qed.

Lemma user_returns_ok : ∃ u', user_returns srv u = Some u' ∧ own_step StReturn u'.
Proof.
  unfold user_returns. destruct (u_phase u) eqn:Hph.
  1,2: exists u; split; [done|]; apply own_step_none; intros j (_ & E & _); congruence.
  destruct (u_inbox u) as [|b bs] eqn:Hbox.
  { exists u. split; [done|]. apply own_step_none. by intros j (_ & _ & E). }
  destruct Hu as [Hh Hok Hc Hst]. unfold state_is in Hst. rewrite Hph, Hbox in Hst.
  destruct Hst as (x & xs & p & Hx & [Hm Hro Hf Hid Haddr Hfit] & Hpast & Hop).
  assert (op = None) as Eo by by destruct op; [destruct Hop|].
  rewrite Eo in Hop. destruct Hop as (r & Hr & E). injection E as -> ->.
  rewrite Hx. pose proof Hok as Hok0. rewrite Hx in Hok0. apply Forall_cons in Hok0 as [Hox Hoxs].
  assert (p = Point (p_req p) (call_msg x) false (p_map p)) as Ep by (destruct p; cbn in *; by subst).
  rewrite Ep in Hr.
  assert (wp (run_call x) (λ rv t, rv = call_result x (p_map p) ∧ never_fails (heap t) ∧ w_inbox (c_net (obj t)) = [])
    (Mem (Client [srv] (Wire [wire r] [])) (u_heap u))) as Hw
    by by eapply wp_call_answered; [|done|apply Hox|done|exact Hf|exact Hid|exact Hr|].
  apply wp_exec in Hw as (rv & t & Hw & -> & Ht & Hin). unfold run_user. rewrite Hbox, Hw. cbn.
  eexists. split; [done|]. split_and!; [done|unfold later; cbn; by rewrite Hph| |].
  - unfold later in Hc. rewrite Hph in Hc. split; [done|by cbn; rewrite Hx|done|]. rewrite Eo. by cbn.
  - intros j. unfold nearer, dist. cbn. rewrite Hph, Hx. cbn. lia.
Qed.
End user_steps.

Section steps.
Context {D : Type} `{DbLaws D} (Hrel : reliable (D := D)).
Context (srv : nmdb_srv) (Hsrv : is_dgram srv).
Context (M0 : store) (prog : nat → list call) (total : nat) (Htotal : Z.of_nat total + 1 < 2 ^ 64).

(** The invariant of a crowd. *)
Definition crowd_is (c : crowd D) : Prop := ∃ st owed ops,
  steady (cr_static c) (cr_sys c) (cr_heap c) st owed (replay M0 (cr_log c)) ∧
  users_are M0 prog total (cr_log c) (cr_users c) ops ∧ omap id ops ≡ₚ owed ∧
  (length (as_queue st) ≤ length (cr_log c))%nat.

(** The entries of the server's queue. *)
Definition queue_len (c : crowd D) : Z := q_size (s_queue (y_server (cr_sys c))).

(** What a step leaves. *)
Record stepped_to (st : step) (c c' : crowd D) : Prop := SteppedTo {
  sc_is : crowd_is c';
  sc_length : length (cr_users c') = length (cr_users c);
  sc_user j u : cr_users c !! j = Some u →
    ∃ u', cr_users c' !! j = Some u' ∧ nearer st j u u';
  sc_queue : match st with
             | StDb rv => queue_len c' ≤ Z.max 0 (queue_len c - if System.serves (EvDb rv) then 1 else 0)
             | StArrive _ => True
             | _ => queue_len c' = queue_len c
             end;
}.

Lemma nearer_other st j u : (∀ i, st = StCall i ∨ st = StReturn i ∨ st = StArrive i → i ≠ j) → nearer st j u u.
Proof. intros Hne. split; [done|]. destruct st; cbn; try done; intros [-> _]; exfalso; eapply Hne; eauto. Qed.

Lemma nearer_same st j u u' :
  u_phase u' = u_phase u → u_todo u' = u_todo u → ¬ acts st j u → nearer st j u u'.
Proof. intros H1 H2 Hn. split; [by rewrite (dist_same _ _ H1 H2)|done]. Qed.

Lemma steady_queue_len (c : crowd D) st owed M :
  steady (cr_static c) (cr_sys c) (cr_heap c) st owed M → queue_len c = Z.of_nat (length (as_queue st)).
Proof. intros Hst. apply queue_is_length, (inv_queue_len _ _ _ _ (sy_inv _ _ _ _ _ _ Hst)). Qed.

Lemma on_user_ok f i c (st : nat → step) :
  crowd_is c → st = StCall ∨ st = StReturn →
  (∀ prog arrived past u op, user_is prog arrived past u op →
     ∃ u', f u = Some u' ∧ own_step prog arrived past u op st u') →
  ∃ c', on_user f i c = Some c' ∧ stepped_to (st i) c c'.
Proof.
  intros Hc Hsteps Hf. unfold on_user. destruct (cr_users c !! i) as [u|] eqn:Hi.
  2:{ exists c. split; [done|]. split; [done|done| |by destruct Hsteps as [-> | ->]].
    intros j u Hj. exists u. split; [done|]. apply nearer_other.
    intros k Hk. assert (k = i) as -> by (destruct Hsteps as [-> | ->]; naive_solver). intros ->. congruence. }
  destruct Hc as (s1 & owed & ops & Hst & Hua & Hops & Hl).
  destruct (users_op _ _ _ _ _ _ _ _ Hua Hi) as (op & Hop & Hu).
  destruct (Hf _ _ _ _ _ Hu) as (u' & -> & Ha & Hla & Hu' & Hd). cbn.
  exists (set_users (<[i := u']> (cr_users c)) c). split; [done|]. split.
  - exists s1, owed, ops. split_and!; [done| |done|done].
    rewrite <-(list_insert_id ops i op Hop). by eapply users_insert.
  - apply length_insert.
  - intros j v Hj. destruct (decide (j = i)) as [->|Hne].
    + rewrite Hi in Hj. injection Hj as <-. exists u'. split; [|apply Hd].
      apply list_lookup_insert_eq. by eapply lookup_lt_Some.
    + exists v. split; [by rewrite <-Hj; apply list_lookup_insert_ne|]. apply nearer_other.
      intros k Hk. assert (k = i) as -> by (destruct Hsteps as [-> | ->]; naive_solver). done.
  - by destruct Hsteps as [-> | ->].
Qed.

(** The server does something, and its replies go out. *)
Lemma server_does_ok (m : MT (process D) ()) c (bound : nat → Prop) :
  wp (m;; flush) (λ _ t, ∃ ps ops, users_are M0 prog total (cr_log c) (cr_users c) ops ∧ omap id ops ≡ₚ ps ∧
      moved ps (replay M0 (cr_log c)) bound t)
    (Mem (Process (cr_static c) (cr_sys c) []) (cr_heap c)) →
  (∀ n, bound n → (n ≤ length (cr_log c))%nat) →
  ∃ c', server_does m c = Some c' ∧ crowd_is c' ∧
    (∃ pkts, cr_users c' = foldl hand (cr_users c) pkts) ∧ ∃ n, queue_len c' = Z.of_nat n ∧ bound n.
Proof.
  intros Hw Hb. apply wp_exec in Hw as (r & t & Hw & ps & ops & Hua & Hops & st & sent & owed & rs & Hps & Hs & Hsent & Hst & Hn).
  unfold server_does. rewrite Hw. cbn. eexists. split; [done|].
  rewrite Hps in Hops. destruct (users_hand_all _ _ _ _ _ _ _ _ _ Hua Hops Hs) as (ops' & Hua' & Hops').
  split_and!; [|by eexists|].
  - exists st, owed, ops'. cbn. rewrite Hsent. split_and!; [done|done|done|by apply Hb].
  - exists (length (as_queue st)). split; [|done]. by eapply (steady_queue_len (Crowd _ _ _ _ _)).
Qed.

Lemma room_in_queue (c : crowd D) st ops :
  users_are M0 prog total (cr_log c) (cr_users c) ops → (length (as_queue st) ≤ length (cr_log c))%nat →
  queue_room st.
Proof. intros Hua Hl. pose proof (ua_total _ _ _ _ _ _ Hua). unfold queue_room. lia. Qed.

Lemma db_step_ok rv c : crowd_is c → ∃ c', run_step srv (StDb rv) c = Some c' ∧ stepped_to (StDb rv) c c'.
Proof.
  intros (st & owed & ops & Hst & Hua & Hops & Hl). cbn [run_step].
  destruct (server_does_ok (on_system (run_event (EvDb rv))) c
    (λ n, (n ≤ length (as_queue st) - (if System.serves (EvDb rv) then 1 else 0))%nat))
    as (c' & -> & Hc' & (pkts & Hus) & n & Hq & Hn).
  - eapply wp_db_turn; [done|exact Hst|by eapply room_in_queue|]. intros t Ht. by exists owed, ops.
  - lia.
  - exists c'. split; [done|]. split; [done|by rewrite Hus, length_hand_all| |].
    + intros j u Hj. destruct (hand_all_lookup _ pkts _ _ Hj) as (u' & Hj' & H1 & H2).
      exists u'. split; [by rewrite Hus|]. by apply nearer_same; [..|intros []].
    + rewrite Hq, (steady_queue_len _ _ _ _ Hst). destruct (System.serves (EvDb rv)); lia.
Qed.

Lemma stepped_to_none i c :
  crowd_is c → (∀ u, cr_users c !! i = Some u → ∀ pkt, u_phase u ≠ Asked pkt) →
  stepped_to (StArrive i) c c.
Proof.
  intros Hc Hn. split; [done|done| |done]. intros j u Hj. exists u. split; [done|].
  split; [done|]. intros (-> & pkt & Hph). by destruct (Hn u Hj pkt).
Qed.

Lemma arrive_step_ok i c : crowd_is c → ∃ c', run_step srv (StArrive i) c = Some c' ∧ stepped_to (StArrive i) c c'.
Proof.
  intros Hc. pose proof Hc as (st & owed & ops & Hst & Hua & Hops & Hl). cbn [run_step].
  destruct (cr_users c !! i) as [u|] eqn:Hi; [|exists c; split; [done|]; apply stepped_to_none; [done|congruence]].
  destruct (users_op _ _ _ _ _ _ _ _ Hua Hi) as (op & Hop & [Hh Hok Hcalls Hstate]).
  destruct (u_phase u) as [|pkt|] eqn:Hph;
    [exists c; split; [done|]; apply stepped_to_none; [done|congruence]| |
     exists c; split; [done|]; apply stepped_to_none; [done|congruence]].
  unfold state_is in Hstate. rewrite Hph in Hstate. destruct op; [done|].
  destruct Hstate as (Hin & Hpast & x & xs & Hx & ->). rewrite Hx in *.
  apply Forall_cons in Hok as [Hox _].
  set (c1 := Crowd _ _ _ _ _).
  destruct (server_does_ok (on_receiver (udp_recv 4 (Datagram (encode ID_CODE (call_flags x) (call_msg x)) (u_addr u)))) c1
    (λ n, (n ≤ 1 + length (as_queue st))%nat)) as (c' & -> & Hc' & (pkts & Hus) & n & Hq & Hn).
  - eapply wp_arrival; [exact Hst|by eapply room_in_queue| |].
    { eapply sendable_flags; [apply call_flags_range|apply call_flags_cache|exact Hox]. }
    intros t q Hf Hid Haddr Ht. set (p := Point q (call_msg x) false (replay M0 (cr_log c))) in *.
    exists (owed ++ [p]), (<[i := Some p]> ops). split_and!.
    + cbn. eapply users_arrive; [done|done|done|done| |done]. split; try done.
      apply (iv_fit _ _ _ _ (sy_inv _ _ _ _ _ _ Hst)).
    + destruct (omap_insert _ _ _ Hop) as (rest & E1 & E2). rewrite (E2 (Some p)), <-Hops, E1. cbn. solve_Permutation.
    + cbn [cr_log c1]. by rewrite replay_snoc.
  - intros k Hk. cbn. rewrite length_app. cbn. lia.
  - exists c'. split; [done|]. split; [done| | |done].
    + rewrite Hus, length_hand_all. cbn. by rewrite length_insert.
    + intros j v Hj. destruct (decide (j = i)) as [->|Hne].
      * destruct (hand_all_lookup (cr_users c1) pkts i (set_phase Waiting u)) as (u' & Hj' & H1 & H2).
        { cbn. apply list_lookup_insert_eq. by eapply lookup_lt_Some. }
        exists u'. split; [by rewrite Hus|]. rewrite Hi in Hj. injection Hj as <-. cbn in H1, H2.
        unfold nearer, dist. rewrite H1, H2, Hph, Hx. cbn. lia.
      * destruct (hand_all_lookup (cr_users c1) pkts j v) as (u' & Hj' & H1 & H2).
        { cbn. by rewrite list_lookup_insert_ne. }
        exists u'. split; [by rewrite Hus|]. apply nearer_same; [done|done|]. by intros [-> _].
Qed.

Lemma run_step_ok st c : crowd_is c → ∃ c', run_step srv st c = Some c' ∧ stepped_to st c c'.
Proof.
  intros Hc. destruct st as [i|i|rv|i].
  - apply (on_user_ok _ i c StCall); [done|by left|]. intros. by eapply user_calls_ok.
  - by apply arrive_step_ok.
  - by apply db_step_ok.
  - apply (on_user_ok _ i c StReturn); [done|by right|]. intros. by eapply user_returns_ok.
Qed.

Lemma run_steps_ok sts c :
  crowd_is c → ∃ c', run_steps srv sts c = Some c' ∧ crowd_is c' ∧ length (cr_users c') = length (cr_users c).
Proof.
  revert c. induction sts as [|st sts IH]; intros c Hc; [by exists c|]. cbn [run_steps].
  destruct (run_step_ok st c Hc) as (c1 & -> & Hs). cbn.
  destruct (IH c1 (sc_is _ _ _ Hs)) as (c' & Hrun & Hc' & Hl). exists c'. split; [done|]. split; [done|].
  by rewrite Hl, (sc_length _ _ _ Hs).
Qed.
End steps.

(** ** Progress *)

(** One turn for everybody: each client's call, its arrival, [k] rounds of the
    database loop, and the calls' ends. *)
Definition round (n k : nat) : list step :=
  (StCall <$> seq 0 n) ++ (StArrive <$> seq 0 n) ++ replicate k (StDb 0) ++ (StReturn <$> seq 0 n).

Section progress.
Context {D : Type} `{DbLaws D} (Hrel : reliable (D := D)).
Context (srv : nmdb_srv) (Hsrv : is_dgram srv).
Context (M0 : store) (prog : nat → list call) (total : nat) (Htotal : Z.of_nat total + 1 < 2 ^ 64).

Abbreviation good := (crowd_is (D := D) M0 prog total).
Abbreviation run := (run_steps (D := D) srv).

Implicit Types c : crowd D.

(** The distance tells the phase. *)
Lemma dist_phase c j u :
  good c → cr_users c !! j = Some u →
  match u_phase u with
  | Ready => (dist u mod 3 = 0)%nat
  | Asked _ => (dist u mod 3 = 2)%nat
  | Waiting => (dist u mod 3 = 1)%nat
  end.
Proof.
  intros (st & owed & ops & _ & Hua & _ & _) Hj.
  destruct (users_op _ _ _ _ _ _ _ _ Hua Hj) as (op & _ & [_ _ _ Hst]). unfold state_is in Hst. unfold dist.
  destruct (u_phase u) as [|pkt|].
  - rewrite Nat.mul_comm. by apply Nat.Div0.mod_mul.
  - destruct op; [done|]. destruct Hst as (_ & _ & x & xs & -> & _). cbn [length].
    replace (3 * S (length xs) - 1)%nat with (2 + length xs * 3)%nat by lia. by rewrite Nat.Div0.mod_add.
  - destruct Hst as (x & xs & p & -> & _). cbn [length].
    replace (3 * S (length xs) - 2)%nat with (1 + length xs * 3)%nat by lia. by rewrite Nat.Div0.mod_add.
Qed.

(** A client that waits has its reply when nothing is queued. *)
Lemma waiting_replied c j u :
  good c → cr_users c !! j = Some u → u_phase u = Waiting → queue_len c = 0 → u_inbox u ≠ [].
Proof.
  intros (st & owed & ops & Hsy & Hua & Hops & _) Hj Hph Hq.
  rewrite (steady_queue_len _ _ _ _ Hsy) in Hq.
  destruct (iv_answers _ _ _ _ (sy_inv _ _ _ _ _ _ Hsy)) as (sent & owed' & Hps & Hsent & Hpend).
  rewrite (sy_out _ _ _ _ _ _ Hsy) in Hsent. inversion Hsent; subst.
  destruct (as_queue st); [|cbn in Hq; lia]. inversion Hpend; subst.
  destruct (users_op _ _ _ _ _ _ _ _ Hua Hj) as (op & Hop & [_ _ _ Hst]).
  unfold state_is in Hst. rewrite Hph in Hst. destruct Hst as (x & xs & p & _ & _ & _ & Hst).
  destruct op as [p'|]; [|by destruct Hst as (r & _ & ->)].
  exfalso. assert (p' ∈ omap id ops) as Hin.
  { apply list_elem_of_omap. exists (Some p'). split; [by eapply list_elem_of_lookup_2|done]. }
  rewrite Hops, Hps in Hin. by apply not_elem_of_nil in Hin.
Qed.

Lemma run_step_to st c c1 : good c → run_step srv st c = Some c1 → stepped_to M0 prog total st c c1.
Proof.
  intros Hc Hst. destruct (run_step_ok Hrel srv Hsrv M0 prog total Htotal st c Hc) as (c' & E & Hs).
  rewrite Hst in E. by injection E as ->.
Qed.

(** No step leads a client away from its end. *)
Lemma run_dist sts c c' j u :
  good c → run sts c = Some c' → cr_users c !! j = Some u →
  good c' ∧ ∃ u', cr_users c' !! j = Some u' ∧ (dist u' ≤ dist u)%nat.
Proof.
  revert c u. induction sts as [|st sts IH]; intros c u Hc Hrun Hj; cbn [run_steps] in Hrun.
  - injection Hrun as <-. split; [done|]. by exists u.
  - apply bind_Some in Hrun as (c1 & Hst & Hrun). pose proof (run_step_to _ _ _ Hc Hst) as Hs.
    destruct (sc_user _ _ _ _ _ _ Hs _ _ Hj) as (u1 & Hj1 & Hd & _).
    destruct (IH c1 u1 (sc_is _ _ _ _ _ _ Hs) Hrun Hj1) as (Hc' & u' & Hj' & Hd').
    split; [done|]. exists u'. split; [done|lia].
Qed.

(** A step that a client is ready for brings it nearer, whatever comes before;
    [I] is what else its being ready needs. *)
Lemma run_nearer (I : crowd D → Prop) st sts c c' j u :
  (∀ c u', good c → I c → cr_users c !! j = Some u' → dist u' = dist u → acts st j u') →
  (∀ st c c1, st ∈ sts → stepped_to M0 prog total st c c1 → I c → I c1) →
  st ∈ sts → good c → I c → run sts c = Some c' → cr_users c !! j = Some u →
  ∃ u', cr_users c' !! j = Some u' ∧ (dist u' < dist u)%nat.
Proof.
  intros Hact Hkeep Hin. set (d := dist u) in *. assert (dist u = d) as Hd by done. clearbody d. revert c u Hd.
  induction sts as [|st1 sts IH]; intros c u Hd Hc HI Hrun Hj; [by apply not_elem_of_nil in Hin|].
  cbn [run_steps] in Hrun. apply bind_Some in Hrun as (c1 & Hst & Hrun).
  pose proof (run_step_to _ _ _ Hc Hst) as Hs. pose proof (sc_is _ _ _ _ _ _ Hs) as Hc1.
  destruct (sc_user _ _ _ _ _ _ Hs _ _ Hj) as (u1 & Hj1 & Hd1 & Hlt).
  destruct (decide (dist u1 = d)) as [Heq|Hne].
  - apply elem_of_cons in Hin as [->|Hin]; [exfalso; specialize (Hlt (Hact _ _ Hc HI Hj Hd)); lia|].
    eapply (IH ltac:(intros; eapply Hkeep; [by right|done..]) Hin c1 u1); [done|done| |done|done].
    eapply Hkeep; [by left|done|done].
  - destruct (run_dist _ _ _ _ _ Hc1 Hrun Hj1) as (_ & u' & Hj' & Hd'). exists u'. split; [done|lia].
Qed.

(** The rounds of the database loop empty the queue. *)
Lemma run_drains k c c' :
  good c → run (replicate k (StDb 0)) c = Some c' → queue_len c ≤ Z.of_nat k → queue_len c' = 0 ∧ good c'.
Proof.
  revert c. induction k as [|k IH]; intros c Hc Hrun Hk; cbn [replicate run_steps] in Hrun.
  - injection Hrun as <-. split; [|done]. destruct Hc as (st & owed & ops & Hsy & _).
    rewrite (steady_queue_len _ _ _ _ Hsy) in *. lia.
  - apply bind_Some in Hrun as (c1 & Hst & Hrun). pose proof (run_step_to _ _ _ Hc Hst) as Hs.
    apply (IH c1); [apply Hs|done|]. pose proof (sc_queue _ _ _ _ _ _ Hs) as Hq. cbn in Hq. lia.
Qed.

Lemma queue_bound c : good c → queue_len c ≤ Z.of_nat total.
Proof.
  intros (st & owed & ops & Hsy & Hua & _ & Hl). rewrite (steady_queue_len _ _ _ _ Hsy).
  pose proof (ua_total _ _ _ _ _ _ Hua). lia.
Qed.

(** What a client that is not at its end is ready for. *)
Lemma ready_to_act c j u u0 :
  good c → cr_users c !! j = Some u → dist u = dist u0 → (0 < dist u0)%nat →
  ((dist u0 mod 3 = 0)%nat → acts (StCall j) j u) ∧
  ((dist u0 mod 3 = 2)%nat → acts (StArrive j) j u) ∧
  ((dist u0 mod 3 = 1)%nat → queue_len c = 0 → acts (StReturn j) j u).
Proof.
  intros Hc Hj <- Hd. pose proof (dist_phase _ _ _ Hc Hj) as Hph.
  destruct (u_phase u) as [|pkt|] eqn:E; rewrite Hph; split_and!; try done.
  - intros _. split_and!; [done|done|]. intros Hx. unfold dist in Hd. rewrite E, Hx in Hd. cbn in Hd. lia.
  - intros _. split; [done|]. by exists pkt.
  - intros _ Hq. split_and!; [done|done|by eapply waiting_replied].
Qed.

Lemma in_turn (f : nat → step) j n : (j < n)%nat → f j ∈ f <$> seq 0 n.
Proof. intros Hj. apply list_elem_of_fmap. exists j. split; [done|]. apply elem_of_seq. lia. Qed.

Lemma all_returns n st : st ∈ StReturn <$> seq 0 n → ∃ i, st = StReturn i.
Proof. intros Hin. apply list_elem_of_fmap in Hin as (i & -> & _). by exists i. Qed.

(** The ends of calls leave the queue alone. *)
Lemma run_returns sts c c' :
  (∀ st, st ∈ sts → ∃ i, st = StReturn i) → good c → run sts c = Some c' → queue_len c' = queue_len c.
Proof.
  intros Hsts. revert c. induction sts as [|st sts IH]; intros c Hc Hrun; cbn [run_steps] in Hrun;
    [by injection Hrun as <-|].
  apply bind_Some in Hrun as (c1 & Hst & Hrun). pose proof (run_step_to _ _ _ Hc Hst) as Hs.
  rewrite (IH ltac:(intros; apply Hsts; by right) c1); [|apply Hs|done].
  destruct (Hsts st) as [i ->]; [by left|]. exact (sc_queue _ _ _ _ _ _ Hs).
Qed.

(** The four parts of a round. *)
Lemma round_parts n k c c' :
  good c → run (round n k) c = Some c' → (total ≤ k)%nat →
  ∃ c1 c2 c3, run (StCall <$> seq 0 n) c = Some c1 ∧ run (StArrive <$> seq 0 n) c1 = Some c2 ∧
    run (replicate k (StDb 0)) c2 = Some c3 ∧ run (StReturn <$> seq 0 n) c3 = Some c' ∧
    good c1 ∧ good c2 ∧ good c3 ∧ good c' ∧ queue_len c3 = 0 ∧ queue_len c' = 0.
Proof.
  intros Hc Hrun Hk. unfold round in Hrun. rewrite !run_steps_app in Hrun.
  apply bind_Some in Hrun as (c1 & H1 & Hrun). rewrite run_steps_app in Hrun.
  apply bind_Some in Hrun as (c2 & H2 & Hrun). rewrite run_steps_app in Hrun.
  apply bind_Some in Hrun as (c3 & H3 & H4).
  assert (∀ sts c c', good c → run sts c = Some c' → good c') as Hgood.
  { intros sts d d' Hd E. destruct (run_steps_ok Hrel srv Hsrv M0 prog total Htotal sts d Hd) as (d2 & E2 & Hd2 & _).
    rewrite E in E2. by injection E2 as ->. }
  assert (good c2) as Hc2 by eauto. pose proof (queue_bound _ Hc2) as Hb.
  destruct (run_drains k _ _ Hc2 H3 ltac:(lia)) as [Hq3 Hc3].
  exists c1, c2, c3. split_and!; eauto.
  by rewrite (run_returns _ _ _ (all_returns n) Hc3 H4).
Qed.

(** A round brings every client nearer that is not at its end. *)
Lemma round_nearer c c' k j u :
  good c → run (round (length (cr_users c)) k) c = Some c' → (total ≤ k)%nat → cr_users c !! j = Some u →
  ∃ u', cr_users c' !! j = Some u' ∧ (dist u' ≤ dist u - 1)%nat.
Proof.
  intros Hc Hrun Hk Hj. assert (j < length (cr_users c))%nat as Hjn by by eapply lookup_lt_Some.
  destruct (round_parts _ _ _ _ Hc Hrun Hk) as (c1 & c2 & c3 & H1 & H2 & H3 & H4 & Hc1 & Hc2 & Hc3 & Hc4 & Hq3 & _).
  destruct (run_dist _ _ _ _ _ Hc H1 Hj) as (_ & u1 & Hj1 & D1).
  destruct (run_dist _ _ _ _ _ Hc1 H2 Hj1) as (_ & u2 & Hj2 & D2).
  destruct (run_dist _ _ _ _ _ Hc2 H3 Hj2) as (_ & u3 & Hj3 & D3).
  destruct (run_dist _ _ _ _ _ Hc3 H4 Hj3) as (_ & u4 & Hj4 & D4).
  exists u4. split; [done|].
  destruct (decide (dist u4 = dist u)) as [Heq|]; [|lia].
  destruct (decide (0 < dist u)%nat) as [Hpos|]; [|lia]. exfalso.
  assert (dist u mod 3 = 0 ∨ dist u mod 3 = 2 ∨ dist u mod 3 = 1)%nat as Hcases
    by (pose proof (dist_phase _ _ _ Hc Hj); destruct (u_phase u); auto).
  destruct Hcases as [Hm|[Hm|Hm]].
  - edestruct (run_nearer (λ _, True) (StCall j)) as (v & Hv & Hlt);
      [|done|exact (in_turn StCall j _ Hjn)|exact Hc|done|exact H1|exact Hj|].
    + intros c5 u5 Hc5 _ Hj5 E5. by apply (ready_to_act c5 j u5 u).
    + assert (v = u1) as -> by congruence. lia.
  - edestruct (run_nearer (λ _, True) (StArrive j)) as (v & Hv & Hlt);
      [|done|exact (in_turn StArrive j _ Hjn)|exact Hc1|done|exact H2|exact Hj1|].
    + intros c5 u5 Hc5 _ Hj5 E5. apply (ready_to_act c5 j u5 u); [done|done|lia|done|done].
    + assert (v = u2) as -> by congruence. lia.
  - edestruct (run_nearer (λ c, queue_len c = 0) (StReturn j)) as (v & Hv & Hlt);
      [| |exact (in_turn StReturn j _ Hjn)|exact Hc3|exact Hq3|exact H4|exact Hj3|].
    + intros c5 u5 Hc5 Hq5 Hj5 E5. apply (ready_to_act c5 j u5 u); [done|done|lia|done|done|done].
    + intros st c5 c6 Hin Hs Hq. apply all_returns in Hin as [i ->]. by rewrite (sc_queue _ _ _ _ _ _ Hs).
    + assert (v = u4) as -> by congruence. lia.
Qed.

(** So do rounds. *)
Lemma rounds_nearer K k c :
  good c → (total ≤ k)%nat →
  ∃ c', run (concat (replicate K (round (length (cr_users c)) k))) c = Some c' ∧ good c' ∧
    ((0 < K)%nat → queue_len c' = 0) ∧ length (cr_users c') = length (cr_users c) ∧
    ∀ j u, cr_users c !! j = Some u → ∃ u', cr_users c' !! j = Some u' ∧ (dist u' ≤ dist u - K)%nat.
Proof.
  intros Hc Hk. revert c Hc. induction K as [|K IH]; intros c Hc; cbn [replicate concat].
  { exists c. split_and!; [done|done|lia|done|]. intros j u Hj. exists u. split; [done|lia]. }
  destruct (run_steps_ok Hrel srv Hsrv M0 prog total Htotal (round (length (cr_users c)) k) c Hc)
    as (c1 & H1 & Hc1 & Hl1).
  destruct (round_parts _ _ _ _ Hc H1 Hk) as (_ & _ & _ & _ & _ & _ & _ & _ & _ & _ & _ & _ & Hq1).
  destruct (IH c1 Hc1) as (c' & H2 & Hc' & Hq' & Hl' & Hnear). rewrite Hl1 in H2, Hl'.
  exists c'. rewrite run_steps_app, H1. split_and!; [done|done| |done|].
  - intros _. destruct K; [|apply Hq'; lia]. cbn in H2. by injection H2 as <-.
  - intros j u Hj. destruct (round_nearer _ _ _ _ _ Hc H1 Hk Hj) as (u1 & Hj1 & D1).
    destruct (Hnear j u1 Hj1) as (u2 & Hj2 & D2). exists u2. split; [done|lia].
Qed.
End progress.

(** ** Properties *)

Section crowd_theorems.
Context {D : Type} `{DbLaws D}.

(** A crowd at its start: a server whose cache and database agree on [M], and
    clients that have made no call. *)
Record starts (M : store) (c : crowd D) : Prop := Starts {
  ct_heap : never_fails (cr_heap c);
  ct_server : ∃ st, quiet (cr_static c) (cr_sys c) M st;
  ct_addrs : NoDup (u_addr <$> cr_users c);
  ct_log : cr_log c = [];
  ct_users : Forall (λ u, never_fails (u_heap u) ∧ u_inbox u = [] ∧ u_phase u = Ready ∧ u_done u = [] ∧
    Forall call_ok (u_todo u)) (cr_users c);
}.

(** The calls that client [i] makes. *)
Definition program (c : crowd D) (i : nat) : list call := default [] (u_todo <$> cr_users c !! i).

Lemma starts_is M c : starts M c → crowd_is M (program c) (backlog (cr_users c)) c.
Proof.
  intros [Hh (st & Hst & [Hs Hq Ho Hro Hp Hc HM Hfit Hstop]) Hnd Hlog Hus].
  exists st, [], (replicate (length (cr_users c)) None). rewrite Hlog. split_and!.
  - split; try done. split; try done; [by cbn; rewrite HM|]. exists [], []. rewrite Hq, Ho, HM.
    split_and!; [done|constructor|constructor].
  - split; [done|by rewrite length_replicate| |done]. intros i u op Hi Hop.
    apply lookup_replicate in Hop as [-> _].
    rewrite Forall_lookup in Hus. destruct (Hus i u Hi) as (H1 & H2 & H3 & H4 & H5).
    split; [done|done| |]; cbn.
    + unfold later, program. by rewrite H3, Hi.
    + unfold state_is. by rewrite H3, H2, H4.
  - by induction (length (cr_users c)).
  - rewrite Hq. cbn. lia.
Qed.

(** [one_map M c0 c]: at [c], the calls of the clients of [c0] are calls on one
    map, [M] at the beginning, in the order of the history: the calls of each
    client are in it in its own order, those of which it has the result among
    them; the results are what the calls give on the map; and the server
    agrees with the map at the end of the history. *)
Record one_map (M : store) (c0 c : crowd D) : Prop := OneMap {
  om_client i u0 : cr_users c0 !! i = Some u0 → ∃ u, cr_users c !! i = Some u ∧
    of_user i (cr_log c) ++ later u = u_todo u0 ∧
    u_done u `prefix_of` of_user i (outcomes M (cr_log c)) ∧
    (u_phase u ≠ Waiting → u_done u = of_user i (outcomes M (cr_log c)));
  om_all : (length (cr_log c) + backlog (cr_users c) = backlog (cr_users c0))%nat;
  om_server : ∃ st owed, inv (cr_sys c) st owed (replay M (cr_log c));
}.

Lemma is_one_map M c0 c :
  crowd_is M (program c0) (backlog (cr_users c0)) c → length (cr_users c) = length (cr_users c0) →
  one_map M c0 c.
Proof.
  intros (st & owed & ops & Hst & Hua & _ & _) Hl. split.
  - intros i u0 Hi. destruct (lookup_lt_is_Some_2 (cr_users c) i) as [u Hu].
    { rewrite Hl. by eapply lookup_lt_Some. }
    destruct (users_op _ _ _ _ _ _ _ _ Hua Hu) as (op & Hop & [_ _ Hc Hs]). exists u. split; [done|].
    unfold program in Hc. rewrite Hi in Hc. split; [done|]. unfold state_is in Hs.
    destruct (u_phase u); [destruct op; [done|]; destruct Hs as (_ & ->); by split|
      destruct op; [done|]; destruct Hs as (_ & -> & _); by split|].
    destruct Hs as (x & xs & p & _ & _ & -> & _). split; [by apply prefix_app_r|done].
  - by apply ua_total in Hua.
  - exists st, owed. by apply Hst.
Qed.

Lemma run_step_log srv st (c c' : crowd D) : run_step srv st c = Some c' → cr_log c `prefix_of` cr_log c'.
Proof.
  assert (∀ m (d d' : crowd D), server_does m d = Some d' → cr_log d' = cr_log d) as Hdo.
  { intros m d d' E. unfold server_does in E. apply bind_Some in E as ([r t] & _ & E). by injection E as <-. }
  assert (∀ f i (d d' : crowd D), on_user f i d = Some d' → cr_log d' = cr_log d) as Hon.
  { intros f i d d' E. unfold on_user in E. destruct (cr_users d !! i); [|by injection E as <-].
    apply bind_Some in E as (u' & _ & E). by injection E as <-. }
  destruct st as [i|i|rv|i]; cbn [run_step]; intros E.
  - by rewrite (Hon _ _ _ _ E).
  - destruct (cr_users c !! i) as [u|]; [|by injection E as <-].
    destruct (u_phase u), (u_todo u) as [|x xs]; try by injection E as <-.
    rewrite (Hdo _ _ _ E). cbn. by apply prefix_app_r.
  - by rewrite (Hdo _ _ _ E).
  - by rewrite (Hon _ _ _ _ E).
Qed.

Lemma run_steps_log srv sts (c c' : crowd D) : run_steps srv sts c = Some c' → cr_log c `prefix_of` cr_log c'.
Proof.
  revert c. induction sts as [|st sts IH]; intros c E; cbn [run_steps] in E; [by injection E as <-|].
  apply bind_Some in E as (c1 & E1 & E). etrans; [by eapply run_step_log|by apply IH].
Qed.
End crowd_theorems.

(** C4: many clients, one map. Any number of clients with UDP sockets of their
    own use one server, all through the library; whatever the order in which they
    make their calls, the datagrams arrive, the database thread takes its turns
    and the replies are received: nothing is undefined on either side, and at
    every moment the results that the clients have are those of their calls on
    a single map, one after the other, in the order in which the datagrams
    arrived. That order only grows, so that a call that has returned comes before
    every call made later, whoever made them. *)
Theorem crowd_linearizable {D} `{DbLaws D} (srv : nmdb_srv) (sts1 sts2 : list step) (c : crowd D) (M : store)
  (Hrel : reliable (D := D)) (Hsrv : is_dgram srv) (Hc : starts M c)
  (Hn : Z.of_nat (backlog (cr_users c)) + 1 < 2 ^ 64) :
  ∃ c1 c2, run_steps srv sts1 c = Some c1 ∧ run_steps srv sts2 c1 = Some c2 ∧
    one_map M c c1 ∧ one_map M c c2 ∧ cr_log c1 `prefix_of` cr_log c2.
Proof.
  pose proof (starts_is M c Hc) as Hi.
  destruct (run_steps_ok Hrel srv Hsrv _ _ _ Hn sts1 c Hi) as (c1 & H1 & Hi1 & Hl1).
  destruct (run_steps_ok Hrel srv Hsrv _ _ _ Hn sts2 c1 Hi1) as (c2 & H2 & Hi2 & Hl2).
  exists c1, c2. split_and!; [done|done|by apply is_one_map|apply is_one_map; congruence|by eapply run_steps_log].
Qed.

(** C19: every client gets to its end. After any execution, let the clients, the
    network and the database thread take turns: as many rounds as three times
    the longest program, with at least as many rounds of the database loop in
    each as there are calls. Then every call has returned, each client has the
    results of its whole program, and the database holds the map that the
    history of all the calls leads to. *)
Theorem crowd_finishes {D} `{DbLaws D} (srv : nmdb_srv) (sts : list step) (K k : nat) (c : crowd D) (M : store)
  (Hrel : reliable (D := D)) (Hsrv : is_dgram srv) (Hc : starts M c)
  (Hn : Z.of_nat (backlog (cr_users c)) + 1 < 2 ^ 64) (Hk : (backlog (cr_users c) ≤ k)%nat)
  (HK : (0 < K)%nat) (Hlong : Forall (λ u, 3 * length (u_todo u) ≤ K)%nat (cr_users c)) :
  ∃ c', run_steps srv (sts ++ concat (replicate K (round (length (cr_users c)) k))) c = Some c' ∧
    (∀ i u0, cr_users c !! i = Some u0 → ∃ u, cr_users c' !! i = Some u ∧
       u_todo u = [] ∧ of_user i (cr_log c') = u_todo u0 ∧ u_done u = of_user i (outcomes M (cr_log c'))) ∧
    db_view (y_db (cr_sys c')) = replay M (cr_log c').
Proof.
  pose proof (starts_is M c Hc) as Hi.
  destruct (run_steps_ok Hrel srv Hsrv _ _ _ Hn sts c Hi) as (c1 & H1 & Hi1 & Hl1).
  destruct (rounds_nearer Hrel srv Hsrv _ _ _ Hn K k c1 Hi1 Hk) as (c' & H2 & Hi2 & Hq & Hl2 & Hnear).
  rewrite Hl1 in H2. exists c'. rewrite run_steps_app, H1. split; [done|]. split.
  - intros i u0 Hu0. destruct (run_dist Hrel srv Hsrv _ _ _ Hn _ _ _ _ _ Hi H1 Hu0) as (_ & u1 & Hu1 & Hd1).
    destruct (Hnear i u1 Hu1) as (u & Hu & Hd).
    rewrite Forall_lookup in Hlong. pose proof (Hlong _ _ Hu0) as HlongK.
    pose proof (ct_users _ _ Hc) as Hus. rewrite Forall_lookup in Hus. destruct (Hus _ _ Hu0) as (_ & _ & Hr0 & _).
    assert (dist u = 0%nat) as Hz by (unfold dist at 2 in Hd1; rewrite Hr0 in Hd1; lia).
    destruct (om_client _ _ _ (is_one_map M c c' Hi2 ltac:(congruence)) _ _ Hu0) as (u' & Hu' & Hlog & _ & Hdone).
    rewrite Hu in Hu'. injection Hu' as <-. exists u.
    pose proof (dist_phase _ _ _ _ _ _ Hi2 Hu) as Hph. rewrite Hz in Hph.
    destruct (u_phase u) eqn:E; [|done|done].
    assert (u_todo u = []) as Ht by (unfold dist in Hz; rewrite E in Hz; destruct (u_todo u); [done|cbn in Hz; lia]).
    unfold later in Hlog. rewrite E, Ht, app_nil_r in Hlog. split_and!; [done|done|done|by apply Hdone].
  - destruct Hi2 as (st & owed & ops & Hst & _). specialize (Hq HK). rewrite (steady_queue_len _ _ _ _ Hst) in Hq.
    destruct (iv_answers _ _ _ _ (sy_inv _ _ _ _ _ _ Hst)) as (sent & owed' & _ & _ & Hpend).
    destruct (as_queue st); [|cbn in Hq; lia]. by inversion Hpend.
Qed.

(** ** Examples *)

Definition sample_user (addr : byte) (xs : list call) : user := User [addr] sample_alloc [] Ready xs [].

(** Two clients of one key. *)
Definition sample_crowd : crowd store :=
  Crowd sample_static fresh_system sample_alloc
    [sample_user Byte.x41 [CSet false [Byte.x62] [Byte.x35; NUL]; CDel true [Byte.x62]];
     sample_user Byte.x42 [CIncr [Byte.x62] 7; CCas [Byte.x62] [NUL] [Byte.x01]]] [].

(** The increment arrives after the asynchronous set, whose database operation
    is still queued; its reply waits for the database. *)
Definition sample_schedule : list step :=
  [StCall 0; StCall 1; StArrive 0; StReturn 0; StCall 0; StArrive 1; StReturn 1; StDb 0; StDb 0; StArrive 0; StReturn 1].

Example sample_crowd_runs :
  (λ c, (u_done <$> cr_users c, u_phase <$> cr_users c, (cr_log c).*1)) <$>
    run_steps sample_srv sample_schedule sample_crowd =
  Some ([[RInt 1]; [RNum 2 (Some 12)]], [Waiting; Ready], [0; 1; 0]%nat).
Proof. vm_compute. reflexivity. Qed.

Lemma sample_crowd_starts : starts sample_store sample_crowd.
Proof.
  split.
  - apply sample_never_fails.
  - destruct sample_host_is as (_ & _ & Hst). exact Hst.
  - by apply (bool_decide_unpack (NoDup _)); vm_compute.
  - done.
  - repeat constructor; try apply sample_never_fails; vm_compute; try done; by repeat split.
Qed.

Lemma crowd_linearizable_witness :
  ∃ c1 c2, run_steps sample_srv sample_schedule sample_crowd = Some c1 ∧
    run_steps sample_srv [StDb 0; StReturn 0] c1 = Some c2 ∧
    one_map sample_store sample_crowd c1 ∧ one_map sample_store sample_crowd c2 ∧ cr_log c1 `prefix_of` cr_log c2.
Proof.
  apply (crowd_linearizable sample_srv sample_schedule [StDb 0; StReturn 0] sample_crowd sample_store);
    [apply store_reliable|by right; left|apply sample_crowd_starts|vm_compute; reflexivity].
Defined.

Lemma crowd_finishes_witness :
  ∃ c', run_steps sample_srv (sample_schedule ++ concat (replicate 6 (round 2 4))) sample_crowd = Some c' ∧
    (∀ i u0, cr_users sample_crowd !! i = Some u0 → ∃ u, cr_users c' !! i = Some u ∧
       u_todo u = [] ∧ of_user i (cr_log c') = u_todo u0 ∧
       u_done u = of_user i (outcomes sample_store (cr_log c'))) ∧
    db_view (y_db (cr_sys c')) = replay sample_store (cr_log c').
Proof.
  apply (crowd_finishes sample_srv sample_schedule 6 4 sample_crowd sample_store);
    [apply store_reliable|by right; left|apply sample_crowd_starts|vm_compute; reflexivity|
     vm_compute; lia|lia|repeat constructor; cbn; lia].
Defined.
