(* ===== verification/TestPrograms.v ===== *)
(** * The test programs (tests/c)

    Seven programs that time the library against a running server: set.c,
    get.c, del.c and incr.c do one kind of operation, 1.c, 2.c and 3.c set, get
    and delete. They are compiled for each transport and for each way to call
    the library (prototypes.h). The clock is a parameter. *)

From S2P Require Import Prelude Words Text Settings Client.
From stdpp Require Import strings.

#[local] Open Scope Z_scope.

(** ** timer.h *)

(** [gettimeofday]: seconds and microseconds. *)
Class Clock (E : Type) := gettimeofday : E → (Z * Z) * E.

(** What a test ends with: [return 1] in one of its places, or the numbers
    that it prints before [return 0]. *)
Inductive outcome :=
  | TestUsage | TestBadTimes | TestBadSizes | TestNoMemory | TestNoInit
  | TestSetFailed | TestGetFailed | TestDelFailed
  | TestIncrFailed (r : Z) (newval : option Z)
  | TestDone (printed : list Z).

(** prototypes.h: USE_NORMAL and its like, USE_TCP and its like. *)
Inductive variant := USE_NORMAL | USE_CACHE | USE_SYNC.
Inductive transport := USE_TCP | USE_UDP | USE_SCTP | USE_TIPC | USE_MULT.

Section tests.
Context {E : Type} `{Kernel E} `{Clock E}.

(** A program: [raise] is an early return of [main]. *)
Abbreviation program := (exc (mem (client E)) outcome).

Definition timer_start : MT (client E) (Z * Z) := sys gettimeofday.

(** [long] differences, in the arithmetic of [unsigned long]. *)
Definition timer_stop (tv_s : Z * Z) : MT (client E) Z :=
  tv_e ← sys gettimeofday;
  mret (w64 (w64 ((tv_e.1 - tv_s.1) * 1000000) + w64 (tv_e.2 - tv_s.2))).

(** ** prototypes.h *)

Definition NGET (v : variant) (key : bytes) (vsize : Z) : MT (client E) (Z * bytes) :=
  match v with USE_CACHE => nmdb_cache_get key vsize | _ => nmdb_get key vsize end.
Definition NSET (v : variant) (key val : bytes) : MT (client E) Z :=
  match v with
  | USE_NORMAL => nmdb_set key val | USE_CACHE => nmdb_cache_set key val | USE_SYNC => nmdb_set_sync key val
  end.
Definition NDEL (v : variant) (key : bytes) : MT (client E) Z :=
  match v with
  | USE_NORMAL => nmdb_del key | USE_CACHE => nmdb_cache_del key | USE_SYNC => nmdb_del_sync key
  end.
Definition NCAS (v : variant) (key oldval newval : bytes) : MT (client E) Z :=
  match v with USE_CACHE => nmdb_cache_cas key oldval newval | _ => nmdb_cas key oldval newval end.
Definition NINCR (v : variant) (key : bytes) (increment : Z) : MT (client E) (Z * option Z) :=
  match v with USE_CACHE => nmdb_cache_incr key increment true | _ => nmdb_incr key increment true end.

Context (gethostbyname : bytes → option Z).

(** The results are not tested. *)
Definition NADDSRV (tr : transport) : MT (client E) () :=
  let localhost := bs "localhost" in
  match tr with
  | USE_TCP => nmdb_add_tcp_server gethostbyname localhost (-1);; mret tt
  | USE_UDP => nmdb_add_udp_server gethostbyname localhost (-1);; mret tt
  | USE_SCTP => nmdb_add_sctp_server gethostbyname localhost (-1);; mret tt
  | USE_TIPC => nmdb_add_tipc_server (-1);; mret tt
  | USE_MULT =>
      nmdb_add_tipc_server (-1);;
      nmdb_add_tcp_server gethostbyname localhost (-1);;
      nmdb_add_udp_server gethostbyname localhost (-1);;
      nmdb_add_sctp_server gethostbyname localhost (-1);;
      mret tt
  end.

(** ** What the programs have in common *)

Definition sizeof_int : Z := 4.

(** An [int] from the command line as a [size_t]. *)
Definition size_arg (arg : bytes) : Z := w64 (atoi arg).

(** [memset(p, 0, n)] *)
Definition memset0 (p : cptr) (n : Z) : MT (client E) cptr :=
  b ← deref p; b ← memcpy b (replicate (Z.to_nat n) NUL) n; mret (Block b).

(** [* (int * ) p = i] *)
Definition put_int (p : cptr) (i : Z) : MT (client E) cptr :=
  b ← deref p; b ← memcpy b (store_le 4 (w32 i)) 4; mret (Block b).

(** The [n] bytes that a pointer and a size stand for. *)
Definition bytes_of (p : cptr) (n : Z) : MT (client E) bytes := b ← deref p; read_at b 0 n.

(** What the library writes to its caller's buffer. *)
Definition write_to (p : cptr) (d : bytes) : MT (client E) cptr :=
  match d with
  | [] => mret p
  | _ => b ← deref p; b ← memcpy b d (Z.of_nat (length d)); mret (Block b)
  end.

(** [for (i = 0; i < times; i++)], with what its body changes. *)
Fixpoint for_loop {A} (n : nat) (i : Z) (body : Z → A → program A) (x : A) : program A :=
  match n with
  | O => mret x
  | S n => y ← body i x; for_loop n (i + 1) body y
  end.
Definition for_times {A} (times : Z) (body : Z → A → program A) (x : A) : program A :=
  for_loop (Z.to_nat times) 0 body x.

(** [nmdb_init], its test, and the server. *)
Definition connect (tr : transport) : program () :=
  ok ← lifted nmdb_init;
  if negb ok then raise TestNoInit else lifted (NADDSRV tr).

(** [NSET], [NGET] and [NDEL] with the tests of their results. *)
Definition test_set (v : variant) (key : cptr) (ksize : Z) (val : cptr) (vsize : Z) : program () :=
  k ← lifted (bytes_of key ksize);
  x ← lifted (bytes_of val vsize);
  r ← lifted (NSET v k x);
  if r <? 0 then raise TestSetFailed else mret tt.

Definition test_get (v : variant) (key : cptr) (ksize : Z) (val : cptr) (vsize misses : Z)
    : program (cptr * Z) :=
  k ← lifted (bytes_of key ksize);
  r ← lifted (NGET v k vsize);
  val ← lifted (write_to val r.2);
  if r.1 <=? -2 then raise TestGetFailed
  else if r.1 =? -1 then mret (val, w64 (misses + 1))
  else mret (val, misses).

Definition test_del (v : variant) (key : cptr) (ksize : Z) : program () :=
  k ← lifted (bytes_of key ksize);
  r ← lifted (NDEL v k);
  if r <? 0 then raise TestDelFailed else mret tt.

Definition is_null (p : cptr) : bool := bool_decide (p = Null).

(** ** The programs *)

Section programs.
Context (v : variant) (tr : transport).

(** The strings of the command line have their NUL behind them, which is not
    sent. *)
Definition main_1 (args : list bytes) : program (list Z) :=
  match args with
  | [a1; key; val] =>
      let times := atoi a1 in
      let ksize := Z.of_nat (length key) in
      let vsize := Z.of_nat (length val) in
      let key := Block (key ++ [NUL]) in
      let val := Block (val ++ [NUL]) in
      connect tr;;
      tv ← lifted timer_start;
      for_times times (λ _ _, test_set v key ksize val vsize) tt;;
      s ← lifted (timer_stop tv);
      gval ← lifted (malloc (70 * 1024));
      tv ← lifted timer_start;
      x ← for_times times (λ _ x, test_get v key ksize x.1 vsize x.2) (gval, 0);
      g ← lifted (timer_stop tv);
      lifted (free x.1);;
      tv ← lifted timer_start;
      for_times times (λ _ _, test_del v key ksize) tt;;
      d ← lifted (timer_stop tv);
      lifted nmdb_free;;
      mret [s; g; s64 x.2; d]
  | _ => raise TestUsage
  end.

Definition main_2 (args : list bytes) : program (list Z) :=
  match args with
  | [a1; a2; a3] =>
      let times := atoi a1 in
      let ksize := size_arg a2 in
      let vsize := size_arg a3 in
      if times <? 1 then raise TestBadTimes else
      if (ksize <? sizeof_int) || (vsize <? sizeof_int) then raise TestBadSizes else
      key ← lifted (malloc ksize);
      key ← lifted (memset0 key ksize);
      val ← lifted (malloc vsize);
      val ← lifted (memset0 val vsize);
      if is_null key || is_null val then raise TestNoMemory else
      connect tr;;
      tv ← lifted timer_start;
      x ← for_times times (λ i x,
        key ← lifted (put_int x.1 i);
        val ← lifted (put_int x.2 i);
        test_set v key ksize val vsize;;
        mret (key, val)) (key, val);
      s ← lifted (timer_stop tv);
      key ← lifted (memset0 x.1 ksize);
      lifted (free x.2);;
      val ← lifted (malloc (70 * 1024));
      tv ← lifted timer_start;
      y ← for_times times (λ i y,
        key ← lifted (put_int y.1 i);
        z ← test_get v key ksize y.2.1 vsize y.2.2;
        mret (key, z)) (key, (val, 0));
      g ← lifted (timer_stop tv);
      lifted (free y.2.1);;
      tv ← lifted timer_start;
      key ← for_times times (λ i key,
        key ← lifted (put_int key i);
        test_del v key ksize;;
        mret key) y.1;
      d ← lifted (timer_stop tv);
      lifted (free key);;
      lifted nmdb_free;;
      mret [s; g; d; y.2.2]
  | _ => raise TestUsage
  end.

Definition main_3 (args : list bytes) : program (list Z) :=
  match args with
  | [a1; a2; a3] =>
      let times := atoi a1 in
      let ksize := size_arg a2 in
      let vsize := size_arg a3 in
      if times <? 1 then raise TestBadTimes else
      if (ksize <? sizeof_int) || (vsize <? sizeof_int) then raise TestBadSizes else
      key ← lifted (malloc ksize);
      key ← lifted (memset0 key ksize);
      val ← lifted (malloc (70 * 1024));
      let bsize := 70 * 1024 in
      val ← lifted (memset0 val bsize);
      if is_null key || is_null val then raise TestNoMemory else
      connect tr;;
      tv ← lifted timer_start;
      x ← for_times times (λ i x,
        key ← lifted (put_int x.1 i);
        val ← lifted (put_int x.2.1 i);
        test_set v key ksize val vsize;;
        key ← lifted (put_int key i);
        z ← test_get v key ksize val bsize x.2.2;
        key ← lifted (put_int key i);
        test_del v key ksize;;
        mret (key, z)) (key, (val, 0));
      e ← lifted (timer_stop tv);
      lifted (free x.1);;
      lifted nmdb_free;;
      mret [e; x.2.2]
  | _ => raise TestUsage
  end.

Definition main_set (args : list bytes) : program (list Z) :=
  match args with
  | [a1; a2; a3] =>
      let times := atoi a1 in
      let ksize := size_arg a2 in
      let vsize := size_arg a3 in
      if times <? 1 then raise TestBadTimes else
      if (ksize <? sizeof_int) || (vsize <? sizeof_int) then raise TestBadSizes else
      key ← lifted (malloc ksize);
      key ← lifted (memset0 key ksize);
      val ← lifted (malloc vsize);
      val ← lifted (memset0 val vsize);
      if is_null key || is_null val then raise TestNoMemory else
      connect tr;;
      tv ← lifted timer_start;
      x ← for_times times (λ i x,
        key ← lifted (put_int x.1 i);
        val ← lifted (put_int x.2 i);
        test_set v key ksize val vsize;;
        mret (key, val)) (key, val);
      s ← lifted (timer_stop tv);
      lifted (free x.1);;
      lifted (free x.2);;
      lifted nmdb_free;;
      mret [s]
  | _ => raise TestUsage
  end.

Definition main_get (args : list bytes) : program (list Z) :=
  match args with
  | [a1; a2] =>
      let times := atoi a1 in
      let ksize := size_arg a2 in
      if times <? 1 then raise TestBadTimes else
      if ksize <? sizeof_int then raise TestBadSizes else
      key ← lifted (malloc ksize);
      key ← lifted (memset0 key ksize);
      let vsize := 70 * 1024 in
      val ← lifted (malloc vsize);
      val ← lifted (memset0 val vsize);
      if is_null key || is_null val then raise TestNoMemory else
      connect tr;;
      tv ← lifted timer_start;
      y ← for_times times (λ i y,
        key ← lifted (put_int y.1 i);
        z ← test_get v key ksize y.2.1 vsize y.2.2;
        mret (key, z)) (key, (val, 0));
      g ← lifted (timer_stop tv);
      lifted (free y.1);;
      lifted (free y.2.1);;
      lifted nmdb_free;;
      mret [g; y.2.2]
  | _ => raise TestUsage
  end.

Definition main_del (args : list bytes) : program (list Z) :=
  match args with
  | [a1; a2] =>
      let times := atoi a1 in
      let ksize := size_arg a2 in
      if times <? 1 then raise TestBadTimes else
      if ksize <? sizeof_int then raise TestBadSizes else
      key ← lifted (malloc ksize);
      key ← lifted (memset0 key ksize);
      if is_null key then raise TestNoMemory else
      connect tr;;
      tv ← lifted timer_start;
      key ← for_times times (λ i key,
        key ← lifted (put_int key i);
        test_del v key ksize;;
        mret key) key;
      d ← lifted (timer_stop tv);
      lifted (free key);;
      lifted nmdb_free;;
      mret [d]
  | _ => raise TestUsage
  end.

(** [newval] is not initialised; the first [NSET]'s result is not tested. *)
Definition main_incr (args : list bytes) : program (list Z) :=
  match args with
  | [a1; a2] =>
      let times := atoi a1 in
      if times <? 1 then raise TestBadTimes else
      let increment := strtoll a2 in
      connect tr;;
      let key := bs "k" ++ [NUL] in
      lifted (NSET v key (bs "0" ++ [NUL]));;
      tv ← lifted timer_start;
      newval ← for_times times (λ _ newval,
        r ← lifted (NINCR v key increment);
        let newval := match r.2 with Some n => Some n | None => newval end in
        if negb (r.1 =? 2) then raise (TestIncrFailed r.1 newval) else mret newval) None;
      s ← lifted (timer_stop tv);
      n ← lifted (lift_opt newval);
      lifted nmdb_free;;
      mret [s; n]
  | _ => raise TestUsage
  end.
End programs.

(** A program as a process: how it ends. *)
Definition process_of (p : program (list Z)) : MT (client E) outcome :=
  r ← p : MT (client E) (list Z + outcome);
  mret (match r with inl l => TestDone l | inr o => o end).
End tests.
