(* ===== verification/TestSpec.v ===== *)
(** * What the test programs show

    The programs of TestPrograms.v against a server that stands for a map:
    every one of them ends with 0, finds every key that it has set, and counts
    as misses exactly the keys that are not there. *)

From S2P Require Import Prelude Words Text Chain ChainSpec Cache Net Queue Backend Server Parse ParseSpec DbLoop DbSpec Transport System Settings Client ClientSpec Host TestPrograms.
From stdpp Require Import strings.

#[local] Open Scope Z_scope.

(** ** Keys and values *)

(** The key of the [i]-th operation: an [int], and zeros. *)
Definition numbered (n : Z) (i : nat) : bytes := store_le 4 (w32 (Z.of_nat i)) ++ replicate (Z.to_nat (n - 4)) NUL.

(** The maps after the sets, and after the dels, of the first [n] keys. *)
Fixpoint with_keys (ks vs : Z) (n : nat) (M : store) : store :=
  match n with O => M | S n => <[numbered ks n := numbered vs n]> (with_keys ks vs n M) end.
Fixpoint without_keys (ks : Z) (n : nat) (M : store) : store :=
  match n with O => M | S n => delete (numbered ks n) (without_keys ks n M) end.
(** How many of them are not there. *)
Fixpoint missing (ks : Z) (n : nat) (M : store) : nat :=
  match n with O => 0 | S n => missing ks n M + (if decide (M !! numbered ks n = None) then 1 else 0) end.

Lemma length_numbered n i : 4 ≤ n → Z.of_nat (length (numbered n i)) = n.
Proof. intros Hn. unfold numbered. rewrite length_app, length_le_split, length_replicate. lia. Qed.

Lemma numbered_inj n i j :
  Z.of_nat i < 2 ^ 32 → Z.of_nat j < 2 ^ 32 → numbered n i = numbered n j → i = j.
Proof.
  intros Hi Hj E. unfold numbered in E. apply app_inj_1 in E as [E _]; [|by rewrite !length_le_split].
  apply (f_equal le_combine) in E. unfold store_le in E. rewrite !le_combine_split in E.
  change (2 ^ (8 * Z.of_nat 4)) with (2 ^ 32) in E. unfold w32 in E. rewrite !Z.mod_mod in E by lia.
  rewrite !Z.mod_small in E by lia. lia.
Qed.

Lemma without_other ks n M k : (∀ j, (j < n)%nat → k ≠ numbered ks j) → without_keys ks n M !! k = M !! k.
Proof.
  induction n as [|n IH]; intros Hk; [done|]. cbn [without_keys].
  rewrite lookup_delete_ne by (intros E; by apply (Hk n ltac:(lia))). apply IH. intros j Hj. apply Hk. lia.
Qed.

Lemma without_own ks n M j : (j < n)%nat → without_keys ks n M !! numbered ks j = None.
Proof.
  induction n as [|n IH]; intros Hj; [lia|]. cbn [without_keys]. rewrite lookup_delete_None.
  destruct (decide (j = n)) as [->|]; [by left|]. right. apply IH. lia.
Qed.

Lemma with_other ks vs n M k : (∀ j, (j < n)%nat → k ≠ numbered ks j) → with_keys ks vs n M !! k = M !! k.
Proof.
  induction n as [|n IH]; intros Hk; [done|]. cbn [with_keys].
  rewrite lookup_insert_ne by (intros E; by apply (Hk n ltac:(lia))). apply IH. intros j Hj. apply Hk. lia.
Qed.

Lemma with_own ks vs n M j :
  (j < n)%nat → Z.of_nat n ≤ 2 ^ 32 → with_keys ks vs n M !! numbered ks j = Some (numbered vs j).
Proof.
  induction n as [|n IH]; intros Hj Hn; [lia|]. cbn [with_keys].
  destruct (decide (j = n)) as [->|Hne]; [by rewrite lookup_insert_eq|].
  rewrite lookup_insert_ne; [apply IH; lia|]. intros E. apply numbered_inj in E; lia.
Qed.

(** Deleting what was set leaves what there was, less those keys. *)
Lemma without_with ks vs n M : Z.of_nat n ≤ 2 ^ 32 → without_keys ks n (with_keys ks vs n M) = without_keys ks n M.
Proof.
  intros Hn. apply map_eq. intros k. destruct (decide (k ∈ numbered ks <$> seq 0 n)) as [Hin|Hout].
  - apply list_elem_of_fmap in Hin as (j & -> & Hj). apply elem_of_seq in Hj.
    by rewrite !without_own by lia.
  - assert (∀ j, (j < n)%nat → k ≠ numbered ks j) as Hk.
    { intros j Hj ->. apply Hout, list_elem_of_fmap. exists j. split; [done|]. apply elem_of_seq. lia. }
    by rewrite !without_other, with_other by done.
Qed.

Lemma missing_none ks n M : (∀ j, (j < n)%nat → is_Some (M !! numbered ks j)) → missing ks n M = 0%nat.
Proof.
  induction n as [|n IH]; intros Hn; [done|]. cbn [missing]. rewrite IH by (intros j Hj; apply Hn; lia).
  destruct (Hn n ltac:(lia)) as [v ->]. by rewrite decide_False.
Qed.

Lemma missing_all ks n M : (∀ j, (j < n)%nat → M !! numbered ks j = None) → missing ks n M = n.
Proof.
  induction n as [|n IH]; intros Hn; [done|]. cbn [missing]. rewrite IH by (intros j Hj; apply Hn; lia).
  rewrite decide_True by (apply Hn; lia). lia.
Qed.

Lemma missing_le ks n M : (missing ks n M ≤ n)%nat.
Proof. induction n as [|n IH]; cbn [missing]; [done|]. case_decide; lia. Qed.

(** ** The pieces of the programs *)

(** A loop with an invariant, whose body does not return early. *)
Lemma wp_for {E A} (times : Z) (body : Z → A → exc (mem (client E)) outcome A) (x : A)
    (I : nat → A → mem (client E) → Prop) (Q : A + outcome → mem (client E) → Prop) t :
  I 0%nat x t →
  (∀ j x t, Z.of_nat j < times → I j x t → wp (body (Z.of_nat j) x) (λ r t, ∃ y, r = inl y ∧ I (S j) y t) t) →
  (∀ x t, I (Z.to_nat times) x t → Q (inl x) t) →
  wp (for_times times body x) Q t.
Proof.
  intros H0 Hbody HQ. unfold for_times. change 0 with (Z.of_nat 0).
  assert (∀ m k x t, (k + m = Z.to_nat times)%nat → I k x t → wp (for_loop m (Z.of_nat k) body x) Q t) as Hm.
  { induction m as [|m IH]; intros k y u Hk Hi; cbn [for_loop]; wp_simpl.
    - apply HQ. by replace (Z.to_nat times) with k by lia.
    - eapply wp_mono; [apply Hbody; [lia|exact Hi]|]. cbn beta. intros r u' (z & -> & Hz).
      replace (Z.of_nat k + 1) with (Z.of_nat (S k)) by lia. apply IH; [lia|done]. }
  apply Hm; [done|exact H0].
Qed.

Section pieces.
Context {E : Type} `{Kernel E} `{Clock E} (s : nmdb_srv) `{!MapService E s}.

(** Connected to the server [s], which has the map [M]. *)
Definition on (M : store) (t : mem (client E)) : Prop :=
  never_fails (heap t) ∧ c_servers (obj t) = [s] ∧ svc_is (c_net (obj t)) M.

(** A system on which the programs run: neither the clock nor closing a socket
    touches the server, and the program's server is [s]. *)
Record test_bed (gethostbyname : bytes → option Z) (tr : transport) : Prop := TestBed {
  tb_clock e M : svc_is e M → svc_is (gettimeofday e).2 M;
  tb_close fd e M : svc_is e M → svc_is (k_close fd e) M;
  tb_server e M a : never_fails a → svc_is e M →
    wp (NADDSRV gethostbyname tr) (λ _, on M) (Mem (Client [] e) a);
}.

Context (gethostbyname : bytes → option Z) (tr : transport) (Hbed : test_bed gethostbyname tr).
Context (v : variant) (Hv : v ≠ USE_CACHE).

Implicit Types (M : store) (t : mem (client E)).

Lemma wp_connect c a M (Q : () + outcome → mem (client E) → Prop) :
  never_fails a → svc_is (c_net c) M → (∀ t, on M t → Q (inl tt) t) →
  wp (connect gethostbyname tr) Q (Mem c a).
Proof.
  intros Ha HM HQ. unfold connect. wp_simpl. unfold nmdb_init. apply wp_bind, wp_malloc; [done|]. wp_simpl.
  cbn [negb]. wp_simpl. eapply wp_mono; [apply (tb_server _ _ Hbed _ M); [by auto with nmdb|exact HM]|].
  intros [] t Ht. by apply HQ.
Qed.

Lemma wp_gettime M t (Q : Z * Z → mem (client E) → Prop) :
  on M t → (∀ x t, on M t → Q x t) → wp (sys gettimeofday) Q t.
Proof.
  destruct t as [c a]. intros (Ha & Hc & HM) HQ. eapply wp_sys; [apply surjective_pairing|].
  apply HQ. split_and!; [done|done|by apply (tb_clock _ _ Hbed)].
Qed.

Lemma wp_timer_start M t (Q : Z * Z → mem (client E) → Prop) :
  on M t → (∀ x t, on M t → Q x t) → wp timer_start Q t.
Proof. apply wp_gettime. Qed.

Lemma wp_timer_stop M t tv (Q : Z → mem (client E) → Prop) :
  on M t → (∀ x t, on M t → Q x t) → wp (timer_stop tv) Q t.
Proof.
  intros Ht HQ. unfold timer_stop. apply wp_bind. eapply wp_gettime; [exact Ht|]. intros x t' Ht'.
  wp_simpl. by apply HQ.
Qed.

Lemma wp_end M t (Q : Z → mem (client E) → Prop) :
  on M t → (∀ t, svc_is (c_net (obj t)) M → Q 1 t) → wp nmdb_free Q t.
Proof.
  destruct t as [c a]. intros (Ha & Hc & HM) HQ. cbn [obj heap] in *. unfold nmdb_free. wp_simpl. rewrite Hc.
  cbn [close_all]. apply wp_bind. unfold close. eapply wp_sys; [done|]. wp_simpl.
  apply HQ. by apply (tb_close _ _ Hbed).
Qed.

Lemma wp_alloc M t n (Q : cptr → mem (client E) → Prop) :
  on M t → 0 ≤ n → (∀ b t, Z.of_nat (length b) = n → on M t → Q (Block b) t) → wp (malloc n) Q t.
Proof.
  destruct t as [c a]. intros (Ha & Hc & HM) Hn HQ. apply wp_malloc; [done|]. apply HQ.
  - rewrite length_replicate. lia.
  - split_and!; [by apply never_fails_tick|done|done].
Qed.

Lemma wp_bytes_of b n t (Q : bytes → mem (client E) → Prop) :
  0 ≤ n → n ≤ Z.of_nat (length b) → Q (take (Z.to_nat n) b) t → wp (bytes_of (Block b) n) Q t.
Proof.
  intros Hn Hl HQ. unfold bytes_of. cbn [deref]. wp_simpl. unfold read_at.
  rewrite !bool_decide_true by done. rewrite in_block_true by lia. cbn [andb]. wp_simpl. exact HQ.
Qed.

Lemma wp_memset0 b n t (Q : cptr → mem (client E) → Prop) :
  0 ≤ n → n = Z.of_nat (length b) → Q (Block (replicate (Z.to_nat n) NUL)) t → wp (memset0 (Block b) n) Q t.
Proof.
  intros Hn Hl HQ. unfold memset0. cbn [deref]. wp_simpl.
  apply wp_memcpy_full; [lia|rewrite length_replicate; lia|lia|]. wp_simpl.
  by rewrite take_ge by (rewrite length_replicate; lia).
Qed.

(** A block that holds zeros behind its first four bytes. *)
Definition zeroed (n : Z) (b : bytes) : Prop :=
  4 ≤ n ∧ Z.of_nat (length b) = n ∧ drop 4 b = replicate (Z.to_nat (n - 4)) NUL.

Lemma zeroed_replicate n : 4 ≤ n → zeroed n (replicate (Z.to_nat n) NUL).
Proof.
  intros Hn. split; [done|]. rewrite length_replicate, drop_replicate. split; [lia|]. f_equal. lia.
Qed.

Lemma zeroed_numbered n i : 4 ≤ n → zeroed n (numbered n i).
Proof.
  intros Hn. split; [done|]. split; [by apply length_numbered|]. unfold numbered.
  by rewrite drop_app_full by by rewrite length_le_split.
Qed.

Lemma wp_put_int n b i t (Q : cptr → mem (client E) → Prop) :
  zeroed n b → Q (Block (numbered n i)) t → wp (put_int (Block b) (Z.of_nat i)) Q t.
Proof.
  intros (Hn & Hl & Hd) HQ. unfold put_int. cbn [deref]. wp_simpl.
  assert (length (store_le 4 (w32 (Z.of_nat i))) = 4%nat) as H4 by apply length_le_split.
  apply wp_memcpy; [lia|lia|lia|]. wp_simpl. change (Z.to_nat 4) with 4%nat.
  rewrite take_ge by lia. by rewrite Hd.
Qed.

(** The operations, on whole keys and values. *)

Lemma wp_NSET k x M t (Q : Z → mem (client E) → Prop) :
  call_ok (CSet false k x) → call_fits svc_limit (CSet false k x) → on M t →
  (∀ t, on (<[k := x]> M) t → Q 1 t) → wp (NSET v k x) Q t.
Proof.
  intros Hok Hfit Ht HQ. destruct t as [c a]. destruct Ht as (Ha & Hc & HM). cbn [obj heap] in *.
  assert (server_for (c_servers c) k = Some s) as Hsel by by rewrite Hc; apply server_for_one.
  assert (wp (NSET v k x) (λ rv t, rv = 1 ∧ served s c (<[k := x]> M) t) (Mem c a)) as Hw.
  { destruct v; [apply (wp_do_set s c a M Ha HM k Hsel x 0)|done|apply (wp_do_set s c a M Ha HM k Hsel x NMDB_SYNC)];
      try done; by eapply sendable_flags. }
  eapply wp_mono; [exact Hw|]. intros rv t [-> (H1 & H2 & H3)]. apply HQ. split_and!; [done|congruence|done].
Qed.

Lemma wp_test_set kb vb ks vs M t (Q : () + outcome → mem (client E) → Prop) :
  let k := take (Z.to_nat ks) kb in let x := take (Z.to_nat vs) vb in
  0 ≤ ks ≤ Z.of_nat (length kb) → 0 ≤ vs ≤ Z.of_nat (length vb) →
  call_ok (CSet false k x) → call_fits svc_limit (CSet false k x) →
  on M t → (∀ t, on (<[k := x]> M) t → Q (inl tt) t) →
  wp (test_set v (Block kb) ks (Block vb) vs) Q t.
Proof.
  intros k x Hk Hx Hok Hfit Ht HQ. unfold test_set. wp_simpl.
  apply wp_bytes_of; [lia|lia|]. wp_simpl. apply wp_bytes_of; [lia|lia|]. wp_simpl. fold k x.
  eapply wp_NSET; [done..|]. intros u Hu. cbn [Z.ltb Z.compare]. wp_simpl. by apply HQ.
Qed.

Lemma wp_test_del kb ks M t (Q : () + outcome → mem (client E) → Prop) :
  let k := take (Z.to_nat ks) kb in
  0 ≤ ks ≤ Z.of_nat (length kb) → call_ok (CDel false k) → call_fits svc_limit (CDel false k) →
  on M t → (∀ t, on (delete k M) t → Q (inl tt) t) →
  wp (test_del v (Block kb) ks) Q t.
Proof.
  intros k Hk Hok Hfit Ht HQ. destruct t as [c a]. destruct Ht as (Ha & Hc & HM). cbn [obj heap] in *.
  unfold test_del. wp_simpl. apply wp_bytes_of; [lia|lia|]. wp_simpl. fold k.
  assert (server_for (c_servers c) k = Some s) as Hsel by by rewrite Hc; apply server_for_one.
  assert (wp (NDEL v k) (λ rv t, 0 ≤ rv ∧ served s c (delete k M) t) (Mem c a)) as Hw.
  { destruct v; [| done|]; (eapply wp_mono;
      [first [apply (wp_do_del s c a M Ha HM k Hsel 0); done
             |apply (wp_do_del s c a M Ha HM k Hsel NMDB_SYNC); [by eapply sendable_flags|done]]|]);
      intros rv t [-> Ht]; (split; [by case_match|done]). }
  eapply wp_mono; [exact Hw|]. intros rv t [Hrv (H1 & H2 & H3)]. rewrite (proj2 (Z.ltb_ge rv 0)) by done. wp_simpl.
  apply HQ. split_and!; [done|congruence|done].
Qed.

(** The caller's buffer after a get. *)
Definition got (b : bytes) (r : option bytes) : bytes :=
  match r with Some x => x ++ drop (length x) b | None => b end.

Lemma wp_test_get kb vb ks vs misses M t (Q : cptr * Z + outcome → mem (client E) → Prop) :
  let k := take (Z.to_nat ks) kb in
  0 ≤ ks ≤ Z.of_nat (length kb) → call_ok (CGet k vs) → call_fits svc_limit (CGet k vs) →
  (∀ x, M !! k = Some x → Z.of_nat (length x) ≤ vs ∧ (length x ≤ length vb)%nat) →
  on M t →
  (∀ t, on M t → Q (inl (Block (got vb (M !! k)), if decide (M !! k = None) then w64 (misses + 1) else misses)) t) →
  wp (test_get v (Block kb) ks (Block vb) vs misses) Q t.
Proof.
  intros k Hk Hok Hfit Hval Ht HQ. destruct t as [c a]. destruct Ht as (Ha & Hc & HM). cbn [obj heap] in *.
  unfold test_get. wp_simpl. apply wp_bytes_of; [lia|lia|]. wp_simpl. fold k.
  assert (server_for (c_servers c) k = Some s) as Hsel by by rewrite Hc; apply server_for_one.
  assert (wp (NGET v k vs) (λ rv t, rv = match M !! k with Some x => fetched x vs | None => (-1, []) end ∧ served s c M t)
    (Mem c a)) as Hw.
  { assert (wp (do_get k vs 0) (λ rv t, rv = match M !! k with Some x => fetched x vs | None => (-1, []) end ∧ served s c M t)
      (Mem c a)) as Hg.
    { eapply wp_mono; [by apply (wp_do_get s c a M Ha HM k Hsel vs 0)|]. intros rv t [Hr Hs]. split; [|done].
      destruct (M !! k); [by destruct Hr as [->|[[=] _]]|done]. }
    destruct v; [exact Hg|done|exact Hg]. }
  pose proof (svc_fits _ _ HM) as Hfits.
  eapply wp_mono; [exact Hw|]. intros rv t [-> (H1 & H2 & H3)]. assert (on M t) as Ht by (split_and!; [done|congruence|done]).
  destruct (M !! k) as [x|] eqn:Ex.
  - destruct (Hval x eq_refl) as [Hx1 Hx2]. destruct (Hfits k x Ex) as (_ & Hne & _).
    unfold fetched. rewrite (proj2 (Z.ltb_ge _ _)) by done. cbn [fst snd]. unfold write_to.
    destruct x as [|x0 x]; [done|]. set (y := x0 :: x) in *. cbn [deref]. wp_simpl.
    apply wp_memcpy; [lia|lia|lia|]. rewrite Nat2Z.id, firstn_all. wp_simpl.
    rewrite (proj2 (Z.leb_gt _ _)), (proj2 (Z.eqb_neq _ _)) by lia. wp_simpl. by apply HQ.
  - cbn [fst snd write_to]. wp_simpl. change (-1 <=? -2) with false. change (-1 =? -1) with true. cbn iota. wp_simpl.
    by apply (HQ t).
Qed.

(** ** The loops over numbered keys *)

(** Sizes that the programs take and the server too. *)
Context (Hlim : 8 + 12 + max_size ≤ svc_limit).

Lemma fits_limit x : call_ok x → call_fits svc_limit x.
Proof.
  intros Hok. unfold call_fits, packet_len. pose proof (encode_bounds ID_CODE 0 _ (sd_msg _ _ Hok)). lia.
Qed.

Lemma numbered_set_ok ks vs i :
  4 ≤ ks → 4 ≤ vs → ks + vs ≤ max_size → call_ok (CSet false (numbered ks i) (numbered vs i)).
Proof.
  intros Hk Hx Hsz. pose proof (length_numbered ks i Hk). pose proof (length_numbered vs i Hx). unfold max_size in *.
  split; [cbn; unfold max_size; lia| |done|done]. cbn. unfold key_fits, val_fits, db_buf_size.
  split; [lia|]. split; [|lia]. intros Ex. rewrite Ex in *. cbn in *. lia.
Qed.

Lemma numbered_del_ok ks i : 4 ≤ ks ≤ max_size → call_ok (CDel false (numbered ks i)).
Proof. intros Hk. pose proof (length_numbered ks i ltac:(lia)). split; [cbn; lia|done..]. Qed.

Lemma numbered_get_ok ks i vs : 4 ≤ ks ≤ max_size → call_ok (CGet (numbered ks i) vs).
Proof. intros Hk. pose proof (length_numbered ks i ltac:(lia)). split; [cbn; lia|done..]. Qed.

Lemma take_whole n (b : bytes) : Z.of_nat (length b) = n → take (Z.to_nat n) b = b.
Proof. intros <-. rewrite Nat2Z.id. apply firstn_all. Qed.

Lemma wp_set_loop times kb vb ks vs M t (Q : cptr * cptr + outcome → mem (client E) → Prop) :
  zeroed ks kb → zeroed vs vb → ks + vs ≤ max_size → on M t →
  (∀ kb vb t, zeroed ks kb → zeroed vs vb → on (with_keys ks vs (Z.to_nat times) M) t → Q (inl (Block kb, Block vb)) t) →
  wp (for_times times (λ i x,
        key ← lifted (put_int x.1 i);
        val ← lifted (put_int x.2 i);
        test_set v key ks val vs;;
        mret (key, val)) (Block kb, Block vb)) Q t.
Proof.
  intros Hkb Hvb Hsz Ht HQ. pose proof (proj1 Hkb). pose proof (proj1 Hvb).
  apply (wp_for _ _ _ (λ j x t, ∃ kb vb, x = (Block kb, Block vb) ∧ zeroed ks kb ∧ zeroed vs vb ∧ on (with_keys ks vs j M) t)).
  - by exists kb, vb.
  - intros j x u Hj (kb1 & vb1 & -> & Hkb1 & Hvb1 & Hu). wp_simpl. cbn [fst snd].
    eapply wp_put_int; [exact Hkb1|]. wp_simpl. eapply wp_put_int; [exact Hvb1|]. wp_simpl.
    pose proof (length_numbered ks j ltac:(lia)). pose proof (length_numbered vs j ltac:(lia)).
    pose proof (numbered_set_ok ks vs j ltac:(lia) ltac:(lia) Hsz) as Hok.
    apply (wp_test_set _ _ _ _ (with_keys ks vs j M)); [lia|lia|..];
      rewrite ?(take_whole ks), ?(take_whole vs) by done; [done|by apply fits_limit|done|].
    intros u' Hu'. wp_simpl. eexists. split; [done|]. exists (numbered ks j), (numbered vs j).
    split_and!; [done|by apply zeroed_numbered|by apply zeroed_numbered|exact Hu'].
  - intros x u (kb1 & vb1 & -> & Hkb1 & Hvb1 & Hu). by apply HQ.
Qed.

Lemma wp_get_loop times kb vb ks vs M t (Q : cptr * (cptr * Z) + outcome → mem (client E) → Prop) :
  zeroed ks kb → ks ≤ max_size → times < 2 ^ 31 →
  (∀ j x, Z.of_nat j < times → M !! numbered ks j = Some x → Z.of_nat (length x) ≤ vs ∧ (length x ≤ length vb)%nat) →
  on M t →
  (∀ kb vb t, zeroed ks kb → on M t →
     Q (inl (Block kb, (Block vb, Z.of_nat (missing ks (Z.to_nat times) M)))) t) →
  wp (for_times times (λ i y,
        key ← lifted (put_int y.1 i);
        z ← test_get v key ks y.2.1 vs y.2.2;
        mret (key, z)) (Block kb, (Block vb, 0))) Q t.
Proof.
  intros Hkb Hsz Htimes Hval Ht HQ. pose proof (proj1 Hkb).
  apply (wp_for _ _ _ (λ j y t, ∃ kb vb1, y = (Block kb, (Block vb1, Z.of_nat (missing ks j M))) ∧ zeroed ks kb ∧
    length vb1 = length vb ∧ on M t)).
  - by exists kb, vb.
  - intros j y u Hj (kb1 & vb1 & -> & Hkb1 & Hvb1 & Hu). wp_simpl. cbn [fst snd].
    eapply wp_put_int; [exact Hkb1|]. wp_simpl. pose proof (length_numbered ks j ltac:(lia)).
    apply (wp_test_get _ _ _ _ _ M); [lia|..]; rewrite ?(take_whole ks) by done.
    + apply numbered_get_ok. lia.
    + apply fits_limit, numbered_get_ok. lia.
    + intros x Hx. rewrite Hvb1. by apply (Hval j).
    + done.
    + intros u' Hu'. wp_simpl. eexists. split; [done|]. eexists _, _. split_and!; [|by apply zeroed_numbered| |done].
      * cbn [missing]. pose proof (missing_le ks j M). do 3 f_equal. case_decide; [|lia].
        rewrite w64_small; lia.
      * unfold got. destruct (M !! numbered ks j) as [x|] eqn:Ex; [|done].
        destruct (Hval j _ Hj Ex) as [_ Hl]. rewrite length_app, length_drop. lia.
  - intros y u (kb1 & vb1 & -> & Hkb1 & _ & Hu). by apply HQ.
Qed.

Lemma wp_del_loop times kb ks M t (Q : cptr + outcome → mem (client E) → Prop) :
  zeroed ks kb → ks ≤ max_size → on M t →
  (∀ kb t, on (without_keys ks (Z.to_nat times) M) t → Q (inl (Block kb)) t) →
  wp (for_times times (λ i key,
        key ← lifted (put_int key i);
        test_del v key ks;;
        mret key) (Block kb)) Q t.
Proof.
  intros Hkb Hsz Ht HQ. pose proof (proj1 Hkb).
  apply (wp_for _ _ _ (λ j x t, ∃ kb, x = Block kb ∧ zeroed ks kb ∧ on (without_keys ks j M) t)).
  - by exists kb.
  - intros j x u Hj (kb1 & -> & Hkb1 & Hu). wp_simpl.
    eapply wp_put_int; [exact Hkb1|]. wp_simpl. pose proof (length_numbered ks j ltac:(lia)).
    apply (wp_test_del _ _ (without_keys ks j M)); [lia|..]; rewrite ?(take_whole ks) by done.
    + apply numbered_del_ok. lia.
    + apply fits_limit, numbered_del_ok. lia.
    + done.
    + intros u' Hu'. wp_simpl. eexists. split; [done|]. exists (numbered ks j).
      split_and!; [done|by apply zeroed_numbered|exact Hu'].
  - intros x u (kb1 & -> & _ & Hu). by apply HQ.
Qed.

(** ** The programs *)

Lemma block_not_null b : is_null (Block b) = false.
Proof. done. Qed.

Lemma wp_free_block b t (Q : cptr → mem (client E) → Prop) : Q Dangling t → wp (free (Block b)) Q t.
Proof. done. Qed.

(** Arguments: how many times. *)
Context (a1 : bytes) (Htimes : 1 ≤ atoi a1).

Abbreviation n := (Z.to_nat (atoi a1)).

(** How a program ends: with the numbers that it prints, and a server with the
    map [M]. *)
Definition ends (P : list Z → Prop) M (r : list Z + outcome) t : Prop :=
  ∃ l, r = inl l ∧ P l ∧ svc_is (c_net (obj t)) M.

Lemma atoi_times : Z.of_nat n < 2 ^ 31.
Proof. pose proof (atoi_range a1) as Hr. apply in_int_spec in Hr. lia. Qed.

Lemma size_arg_small a k : atoi a = k → 0 ≤ k ≤ max_size → size_arg a = k.
Proof. intros <- Hk. unfold size_arg, max_size in *. by rewrite w64_small by lia. Qed.

(** The tests of the arguments, and the blocks. *)
Ltac checks :=
  rewrite ?(proj2 (Z.ltb_ge (atoi a1) 1)) by done;
  repeat match goal with H : atoi ?x = ?k |- context [size_arg ?x] => rewrite !(size_arg_small x k H) by lia end;
  repeat (rewrite (proj2 (Z.ltb_ge _ sizeof_int)) by (unfold sizeof_int; lia)); cbn [orb]; wp_simpl.
Ltac zero_block :=
  apply wp_malloc; [done|]; wp_simpl; apply wp_memset0; [lia|rewrite length_replicate; lia|]; wp_simpl.
Ltac connects M HM := apply (wp_connect _ _ M); [done|exact HM|]; intros ? ?; wp_simpl.
Ltac clock := first [eapply wp_timer_start | eapply wp_timer_stop]; [eassumption|]; intros ? ? ?; wp_simpl.
Ltac frees := repeat (cbn [fst snd]; apply wp_free_block; wp_simpl).
Ltac finish := eapply wp_end; [eassumption|]; intros ? ?; wp_simpl; eexists; split; [done|]; split; [|done].

(** *** One key

    1.c: one key, set and found and deleted again and again. *)

Lemma take_arg (b : bytes) : take (Z.to_nat (Z.of_nat (length b))) (b ++ [NUL]) = b.
Proof. by rewrite Nat2Z.id, take_app_length. Qed.

Lemma arg_size (b : bytes) : 0 ≤ Z.of_nat (length b) ≤ Z.of_nat (length (b ++ [NUL])).
Proof. rewrite length_app. lia. Qed.

Section one_key.
Context (key val : bytes) (Hone : Z.of_nat (length key) + Z.of_nat (length val) ≤ max_size) (Hne : val ≠ []).

Abbreviation kp := (Block (key ++ [NUL])).
Abbreviation klen := (Z.of_nat (length key)).
Abbreviation vlen := (Z.of_nat (length val)).

Lemma one_set_ok : call_ok (CSet false key val).
Proof.
  pose proof Hone. unfold max_size in *. split; [cbn; unfold max_size; lia| |done|done]. cbn.
  unfold key_fits, val_fits, db_buf_size. split; [lia|]. split; [done|lia].
Qed.
Lemma one_get_ok m : call_ok (CGet key m).
Proof. pose proof Hone. split; [cbn; lia|done..]. Qed.
Lemma one_del_ok : call_ok (CDel false key).
Proof. pose proof Hone. split; [cbn; lia|done..]. Qed.

Lemma wp_set_loop_1 times M t (Q : () + outcome → mem (client E) → Prop) :
  1 ≤ times → on M t → (∀ t, on (<[key := val]> M) t → Q (inl tt) t) →
  wp (for_times times (λ _ _, test_set v kp klen (Block (val ++ [NUL])) vlen) tt) Q t.
Proof.
  intros Hn Ht HQ.
  apply (wp_for _ _ _ (λ j _ t, on (match j with O => M | _ => <[key := val]> M end) t)); [done| |].
  - intros j [] u Hj Hu. apply (wp_test_set _ _ _ _ (match j with O => M | _ => <[key := val]> M end));
      rewrite ?take_arg; [apply arg_size|apply arg_size|apply one_set_ok|apply fits_limit, one_set_ok|exact Hu|].
    intros u' Hu'. exists (). split; [done|]. destruct j; [done|]. by rewrite insert_insert_eq in Hu'.
  - intros [] u Hu. apply HQ. by destruct (Z.to_nat times) eqn:En; [lia|].
Qed.

Lemma wp_get_loop_1 times vb M t (Q : cptr * Z + outcome → mem (client E) → Prop) :
  vlen ≤ Z.of_nat (length vb) → M !! key = Some val → on M t →
  (∀ vb t, on M t → Q (inl (Block vb, 0)) t) →
  wp (for_times times (λ _ x, test_get v kp klen x.1 vlen x.2) (Block vb, 0)) Q t.
Proof.
  intros Hvb Hkey Ht HQ.
  apply (wp_for _ _ _ (λ _ x t, (∃ vb, x = (Block vb, 0) ∧ vlen ≤ Z.of_nat (length vb)) ∧ on M t)).
  - split; [by exists vb|done].
  - intros j y u Hj [(vb1 & -> & Hvb1) Hu]. cbn [fst snd].
    apply (wp_test_get _ _ _ _ _ M); rewrite ?take_arg, ?Hkey;
      [apply arg_size|apply one_get_ok|apply fits_limit, one_get_ok| |done|].
    + intros z [= <-]. lia.
    + intros u' Hu'. rewrite decide_False by done. eexists. split; [done|]. split; [|done].
      eexists. split; [done|]. cbn [got]. rewrite length_app, length_drop. lia.
  - intros y u [(vb1 & -> & _) Hu]. by apply HQ.
Qed.

Lemma wp_del_loop_1 times M t (Q : () + outcome → mem (client E) → Prop) :
  1 ≤ times → on M t → (∀ t, on (delete key M) t → Q (inl tt) t) →
  wp (for_times times (λ _ _, test_del v kp klen) tt) Q t.
Proof.
  intros Hn Ht HQ.
  apply (wp_for _ _ _ (λ j _ t, on (match j with O => M | _ => delete key M end) t)); [done| |].
  - intros j [] u Hj Hu. apply (wp_test_del _ _ (match j with O => M | _ => delete key M end));
      rewrite ?take_arg; [apply arg_size|apply one_del_ok|apply fits_limit, one_del_ok|exact Hu|].
    intros u' Hu'. exists (). split; [done|]. destruct j; [done|]. by rewrite delete_delete_eq in Hu'.
  - intros [] u Hu. apply HQ. by destruct (Z.to_nat times) eqn:En; [lia|].
Qed.

Lemma wp_main_1 c a M :
  never_fails a → svc_is (c_net c) M →
  wp (main_1 gethostbyname v tr [a1; key; val]) (ends (λ l, ∃ s g d, l = [s; g; 0; d]) (delete key M)) (Mem c a).
Proof.
  intros Ha HM. pose proof Hone as Hsize. unfold max_size in Hsize.
  unfold main_1. remember (70 * 1024) as B eqn:HB. wp_simpl. connects M HM. clock.
  eapply wp_set_loop_1; [done|eassumption|]. intros u1 Hu1. wp_simpl. clock.
  eapply wp_alloc; [eassumption|lia|]. intros vb u2 Hvb Hu2. wp_simpl. clock.
  eapply wp_get_loop_1; [lia|by apply lookup_insert_eq|eassumption|]. intros vb' u3 Hu3. wp_simpl. clock. frees. clock.
  eapply wp_del_loop_1; [done|eassumption|]. intros u4 Hu4. rewrite delete_insert_eq in Hu4. wp_simpl. clock. finish.
  by eexists _, _, _.
Qed.
End one_key.

(** incr.c *)
Definition counter : bytes := bs "k" ++ [NUL].
Definition counted (m : nat) (increment : Z) : bytes :=
  Nat.iter m (λ x, incr_block x increment) (bs "0" ++ [NUL]).

Lemma counted_num m inc :
  ends_nul (counted m inc) = true ∧ strtoll (upto_nul (counted m inc)) = s64 (Z.of_nat m * inc).
Proof.
  induction m as [|m [IH1 IH2]]; [by split|]. unfold counted in *. cbn [Nat.iter nat_rect].
  split; [by apply last_incr_block|]. rewrite strtoll_incr_block. unfold incr_num. unfold Nat.iter in IH2. rewrite IH2.
  unfold s64. rewrite Nat2Z.inj_succ. f_equal.
  replace ((Z.of_nat m * inc + 2 ^ 63) mod 2 ^ 64 - 2 ^ 63 + inc + 2 ^ 63) with
    ((Z.of_nat m * inc + 2 ^ 63) mod 2 ^ 64 + inc) by lia.
  rewrite Zplus_mod_idemp_l. f_equal. lia.
Qed.

Lemma wp_test_incr m inc newval M t (Q : option Z + outcome → mem (client E) → Prop) :
  INT64_MIN ≤ inc ≤ INT64_MAX → on (<[counter := counted m inc]> M) t →
  (∀ t, on (<[counter := counted (S m) inc]> M) t → Q (inl (Some (s64 (Z.of_nat (S m) * inc)))) t) →
  wp (r ← lifted (NINCR v counter inc);
      let newval := match r.2 with Some n => Some n | None => newval end in
      if negb (r.1 =? 2) then raise (TestIncrFailed r.1 newval) else mret newval) Q t.
Proof.
  intros Hinc Ht HQ. destruct t as [c a]. destruct Ht as (Ha & Hc & HM). cbn [obj heap] in *. wp_simpl.
  assert (server_for (c_servers c) counter = Some s) as Hsel by by rewrite Hc; apply server_for_one.
  assert (call_ok (CIncr counter inc)) as Hok by (split; [split; [vm_compute; congruence|done]|done..]).
  destruct (counted_num m inc) as [Hends Hnum]. destruct (counted_num (S m) inc) as [_ Hnum'].
  assert (wp (NINCR v counter inc) (λ rv t, rv = (2, Some (s64 (Z.of_nat (S m) * inc))) ∧
    served s c (<[counter := counted (S m) inc]> M) t) (Mem c a)) as Hw.
  { assert (wp (do_incr counter inc true 0) (λ rv t, rv = (2, Some (s64 (Z.of_nat (S m) * inc))) ∧
      served s c (<[counter := counted (S m) inc]> M) t) (Mem c a)) as Hi.
    { eapply wp_mono; [apply (wp_do_incr s c a _ Ha HM counter Hsel inc true 0); [done|by apply (fits_limit (CIncr counter inc))]|].
      cbn [effect]. rewrite lookup_insert_eq, Hends, insert_insert_eq. intros rv u [-> Hu]. split; [|exact Hu].
      rewrite <-Hnum'. unfold counted at 2. cbn [Nat.iter nat_rect]. by rewrite strtoll_incr_block. }
    destruct v; [exact Hi|done|exact Hi]. }
  eapply wp_mono; [exact Hw|]. intros rv t [-> (H1 & H2 & H3)]. cbn [fst snd]. change (negb (2 =? 2)) with false.
  cbn iota. wp_simpl. apply HQ. split_and!; [done|congruence|done].
Qed.

(** What it prints is the sum, as a 64-bit number. *)
Lemma wp_main_incr ai c a M :
  never_fails a → svc_is (c_net c) M →
  wp (main_incr gethostbyname v tr [a1; ai])
    (ends (λ l, ∃ s, l = [s; s64 (Z.of_nat n * strtoll ai)]) (<[counter := counted n (strtoll ai)]> M)) (Mem c a).
Proof.
  intros Ha HM. unfold main_incr. rewrite (proj2 (Z.ltb_ge (atoi a1) 1)) by done. wp_simpl. connects M HM.
  fold counter.
  assert (call_ok (CSet false counter (bs "0" ++ [NUL]))) as Hok.
  { split; [by vm_compute| |done|done]. split; [by vm_compute|]. split; [done|by vm_compute]. }
  eapply wp_NSET; [exact Hok|by apply fits_limit|eassumption|]. intros u1 Hu1. wp_simpl. clock.
  apply (wp_for _ _ _ (λ j y t, ((0 < j)%nat → y = Some (s64 (Z.of_nat j * strtoll ai))) ∧
    on (<[counter := counted j (strtoll ai)]> M) t)).
  - split; [lia|done].
  - intros j y u Hj [Hy Hu]. apply (wp_test_incr j _ _ M); [apply strtoll_range|exact Hu|].
    intros u' Hu'. eexists. split; [done|]. by split.
  - intros y u [Hy Hu]. rewrite Hy by lia. wp_simpl. clock. finish. by eexists.
Qed.
(** *** Keys of [ks] bytes *)

Context (a2 : bytes) (ks : Z) (Hks : atoi a2 = ks) (Hk : 4 ≤ ks ≤ max_size).

Lemma value_small M k x : vals_fit M → M !! k = Some x → Z.of_nat (length x) ≤ 70 * 1024.
Proof. intros HM Hx. destruct (HM k x Hx) as (_ & _ & Hl). unfold db_buf_size in Hl. lia. Qed.

Lemma wp_main_get c a M :
  never_fails a → svc_is (c_net c) M →
  wp (main_get gethostbyname v tr [a1; a2]) (ends (λ l, ∃ g, l = [g; Z.of_nat (missing ks n M)]) M) (Mem c a).
Proof.
  intros Ha HM. unfold main_get. remember (70 * 1024) as B eqn:HB. checks. zero_block. zero_block. rewrite !block_not_null.
  cbn [orb]. wp_simpl. connects M HM. clock.
  eapply wp_get_loop; [by apply zeroed_replicate; lia|lia|pose proof atoi_times; lia| |eassumption|].
  { intros j y _ Hy. rewrite length_replicate. pose proof (value_small M _ y (svc_fits _ _ HM) Hy). lia. }
  intros kb vb t1 _ Ht1. wp_simpl. clock. frees. finish. by eexists.
Qed.

Lemma wp_main_del c a M :
  never_fails a → svc_is (c_net c) M →
  wp (main_del gethostbyname v tr [a1; a2]) (ends (λ l, ∃ d, l = [d]) (without_keys ks n M)) (Mem c a).
Proof.
  intros Ha HM. unfold main_del. checks. zero_block. rewrite block_not_null.
  wp_simpl. connects M HM. clock.
  eapply wp_del_loop; [apply zeroed_replicate; lia|lia|eassumption|]. intros kb t1 Ht1. wp_simpl.
  clock. frees. finish. by eexists.
Qed.

(** *** Values of [vs] bytes *)

Context (a3 : bytes) (vs : Z) (Hvs : atoi a3 = vs) (Hv4 : 4 ≤ vs) (Hsz : ks + vs ≤ max_size).

Lemma wp_main_set c a M :
  never_fails a → svc_is (c_net c) M →
  wp (main_set gethostbyname v tr [a1; a2; a3]) (ends (λ l, ∃ s, l = [s]) (with_keys ks vs n M)) (Mem c a).
Proof.
  intros Ha HM. unfold main_set. checks. zero_block. zero_block. rewrite !block_not_null.
  cbn [orb]. wp_simpl. connects M HM. clock.
  eapply wp_set_loop; [apply zeroed_replicate; lia|apply zeroed_replicate; lia|done|eassumption|]. intros kb vb t1 _ _ Ht1. wp_simpl.
  clock. frees. finish. by eexists.
Qed.

(** 2.c: what it has set it finds, and in the end it has deleted its keys. *)
Lemma wp_main_2 c a M :
  never_fails a → svc_is (c_net c) M →
  wp (main_2 gethostbyname v tr [a1; a2; a3]) (ends (λ l, ∃ s g d, l = [s; g; d; 0]) (without_keys ks n M)) (Mem c a).
Proof.
  intros Ha HM. unfold main_2. remember (70 * 1024) as B eqn:HB. pose proof atoi_times as Hn31.
  checks. zero_block. zero_block. rewrite !block_not_null. cbn [orb]. wp_simpl. connects M HM. clock.
  eapply wp_set_loop; [apply zeroed_replicate; lia|apply zeroed_replicate; lia|done|eassumption|]. intros kb vb t1 Hkb _ Ht1. wp_simpl.
  clock. cbn [fst snd]. apply wp_memset0; [lia|by destruct Hkb as (_ & -> & _)|]. wp_simpl. frees.
  eapply wp_alloc; [eassumption|lia|]. intros B1 u2 HB1 Ht2. wp_simpl. clock.
  eapply wp_get_loop; [apply zeroed_replicate; lia|lia|lia| |eassumption|].
  { intros j y Hj. rewrite with_own by lia. intros [= <-]. pose proof (length_numbered vs j Hv4).
    unfold max_size in Hsz. lia. }
  intros kb2 vb2 u3 Hkb2 Ht3. rewrite missing_none by (intros j Hj; rewrite with_own by lia; by eexists). wp_simpl.
  clock. frees. clock.
  eapply wp_del_loop; [exact Hkb2|lia|eassumption|]. intros kb3 u4 Ht4. wp_simpl.
  rewrite without_with in Ht4 by lia. clock. frees. finish. by eexists _, _, _.
Qed.

Lemma take_numbered i m m' : 4 ≤ m ≤ m' → take (Z.to_nat m) (numbered m' i) = numbered m i.
Proof.
  intros Hm. unfold numbered. rewrite take_app, take_ge by (rewrite length_le_split; lia).
  f_equal. rewrite length_le_split, take_replicate. f_equal. lia.
Qed.

Lemma got_numbered i m m' : 4 ≤ m ≤ m' → got (numbered m' i) (Some (numbered m i)) = numbered m' i.
Proof.
  intros Hm. cbn [got]. rewrite <-(take_numbered i m m') at 1 by done.
  pose proof (length_numbered m i ltac:(lia)). replace (length (numbered m i)) with (Z.to_nat m) by lia. apply take_drop.
Qed.

(** One round of 3.c. *)
Lemma wp_round B kb vb misses i M t (Q : cptr * (cptr * Z) + outcome → mem (client E) → Prop) :
  B = 70 * 1024 → zeroed ks kb → zeroed B vb → on M t →
  (∀ t, on (delete (numbered ks i) M) t → Q (inl (Block (numbered ks i), (Block (numbered B i), misses))) t) →
  wp (key ← lifted (put_int (Block kb) (Z.of_nat i));
      val ← lifted (put_int (Block vb) (Z.of_nat i));
      test_set v key ks val vs;;
      key ← lifted (put_int key (Z.of_nat i));
      z ← test_get v key ks val B misses;
      key ← lifted (put_int key (Z.of_nat i));
      test_del v key ks;;
      mret (key, z)) Q t.
Proof.
  intros HB Hkb Hvb Ht HQ. unfold max_size in Hsz. pose proof (length_numbered ks i ltac:(lia)) as Lk.
  pose proof (length_numbered vs i Hv4) as Lv. pose proof (length_numbered B i ltac:(lia)) as LB.
  pose proof (numbered_set_ok ks vs i ltac:(lia) Hv4 ltac:(unfold max_size; lia)) as Hset.
  wp_simpl. eapply wp_put_int; [exact Hkb|]. wp_simpl. eapply wp_put_int; [exact Hvb|]. wp_simpl.
  apply (wp_test_set _ _ _ _ M); [lia|lia|..]; rewrite ?(take_whole ks), ?take_numbered by (done || lia);
    [done|by apply fits_limit|done|]. intros t1 Ht1. wp_simpl.
  eapply wp_put_int; [apply zeroed_numbered; lia|]. wp_simpl.
  pose proof (numbered_get_ok ks i B ltac:(unfold max_size; lia)) as Hget.
  apply (wp_test_get _ _ _ _ _ (<[numbered ks i := numbered vs i]> M));
    [lia|rewrite ?(take_whole ks) by done; first [done|by apply fits_limit|idtac]..].
  { rewrite lookup_insert_eq. intros x [= <-]. lia. }
  intros t2 Ht2. rewrite lookup_insert_eq, decide_False, got_numbered by (done || lia). wp_simpl.
  eapply wp_put_int; [apply zeroed_numbered; lia|]. wp_simpl.
  pose proof (numbered_del_ok ks i ltac:(unfold max_size; lia)) as Hdel.
  apply (wp_test_del _ _ (<[numbered ks i := numbered vs i]> M));
    [lia|rewrite ?(take_whole ks) by done; first [done|by apply fits_limit|idtac]..].
  intros t3 Ht3. wp_simpl. apply HQ. by rewrite delete_insert_eq in Ht3.
Qed.

(** 3.c: the same, key by key. *)
Lemma wp_main_3 c a M :
  never_fails a → svc_is (c_net c) M →
  wp (main_3 gethostbyname v tr [a1; a2; a3]) (ends (λ l, ∃ e, l = [e; 0]) (without_keys ks n M)) (Mem c a).
Proof.
  intros Ha HM. unfold main_3. remember (70 * 1024) as B eqn:HB.
  checks. zero_block. zero_block. rewrite !block_not_null. cbn [orb]. wp_simpl. connects M HM. clock.
  apply (wp_for _ _ _ (λ j x t, ∃ kb vb, x = (Block kb, (Block vb, 0)) ∧ zeroed ks kb ∧ zeroed B vb ∧
    on (without_keys ks j M) t)).
  - eexists _, _. split_and!; [done|apply zeroed_replicate; lia|apply zeroed_replicate; lia|eassumption].
  - intros j y u Hj (kb & vb & -> & Hkb & Hvb & Hu). cbn [fst snd]. eapply wp_round; [done|done|done|exact Hu|].
    intros u' Hu'. eexists. split; [done|]. eexists _, _.
    split_and!; [done|apply zeroed_numbered; lia|apply zeroed_numbered; lia|exact Hu'].
  - intros y u (kb & vb & -> & _ & _ & Hu). wp_simpl. cbn [fst snd]. clock. frees. finish. by eexists.
Qed.

End pieces.
