(* ===== verification/TestRuns.v ===== *)
(** * The test programs against the server

    The standalone programs of TestPrograms.v as processes, run one after the
    other against the server of Host.v over a datagram socket: each ends with 0
    and reports what a map would give. *)

From S2P Require Import Prelude Words Text Chain ChainSpec Cache Net Queue Backend Server Parse ParseSpec DbLoop DbSpec Transport System Settings Client ClientSpec Host TestPrograms TestSpec.
From stdpp Require Import strings.

#[local] Open Scope Z_scope.

(** ** Processes *)

Inductive test := T1 | T2 | T3 | TSet | TGet | TDel | TIncr.

Section run.
Context {E : Type} `{Kernel E} `{Clock E} (gethostbyname : bytes → option Z) (v : variant) (tr : transport).

Definition main_of (x : test) : list bytes → exc (mem (client E)) outcome (list Z) :=
  match x with
  | T1 => main_1 gethostbyname v tr
  | T2 => main_2 gethostbyname v tr
  | T3 => main_3 gethostbyname v tr
  | TSet => main_set gethostbyname v tr
  | TGet => main_get gethostbyname v tr
  | TDel => main_del gethostbyname v tr
  | TIncr => main_incr gethostbyname v tr
  end.

(** A program with its arguments, started with no server and a heap of its own. *)
Definition run_test (a : alloc) (x : test * list bytes) (e : E) : option (outcome * E) :=
  match process_of (main_of x.1 x.2) (Mem (Client [] e) a) with
  | Some (o, t) => Some (o, c_net (obj t))
  | None => None
  end.

Fixpoint run_tests (a : alloc) (xs : list (test * list bytes)) (e : E) : option (list outcome * E) :=
  match xs with
  | [] => Some ([], e)
  | x :: xs =>
      match run_test a x e with
      | Some (o, e) =>
          match run_tests a xs e with Some (os, e) => Some (o :: os, e) | None => None end
      | None => None
      end
  end.
End run.

(** ** What they should report *)

(** Arguments that the program takes and that fit the server's buffers. *)
Definition runnable (x : test * list bytes) : Prop :=
  match x with
  | (T1, [n; key; val]) =>
      1 ≤ atoi n ∧ Z.of_nat (length key) + Z.of_nat (length val) ≤ max_size ∧ val ≠ []
  | (T2, [n; ks; vs]) | (T3, [n; ks; vs]) | (TSet, [n; ks; vs]) =>
      1 ≤ atoi n ∧ 4 ≤ atoi ks ∧ 4 ≤ atoi vs ∧ atoi ks + atoi vs ≤ max_size
  | (TGet, [n; ks]) | (TDel, [n; ks]) => 1 ≤ atoi n ∧ 4 ≤ atoi ks ≤ max_size
  | (TIncr, [n; i]) => 1 ≤ atoi n
  | _ => False
  end.

(** The numbers that a program prints, [None] for a time. *)
Definition report (x : test * list bytes) (M : store) : list (option Z) :=
  match x with
  | (T1, _) => [None; None; Some 0; None]
  | (T2, _) => [None; None; None; Some 0]
  | (T3, _) => [None; Some 0]
  | (TGet, [n; ks]) => [None; Some (Z.of_nat (missing (atoi ks) (Z.to_nat (atoi n)) M))]
  | (TIncr, [n; i]) => [None; Some (s64 (Z.of_nat (Z.to_nat (atoi n)) * strtoll i))]
  | _ => [None]
  end.

(** The map that it leaves. *)
Definition leaves (x : test * list bytes) (M : store) : store :=
  match x with
  | (T1, [n; key; val]) => delete key M
  | (T2, [n; ks; _]) | (T3, [n; ks; _]) | (TDel, [n; ks]) => without_keys (atoi ks) (Z.to_nat (atoi n)) M
  | (TSet, [n; ks; vs]) => with_keys (atoi ks) (atoi vs) (Z.to_nat (atoi n)) M
  | (TIncr, [n; i]) => <[counter := counted (Z.to_nat (atoi n)) (strtoll i)]> M
  | _ => M
  end.

Fixpoint reports (xs : list (test * list bytes)) (M : store) : list (list (option Z)) :=
  match xs with [] => [] | x :: xs => report x M :: reports xs (leaves x M) end.
Definition leaves_all (xs : list (test * list bytes)) (M : store) : store := foldl (λ M x, leaves x M) M xs.

(** An output is a report with its times filled in. *)
Definition prints (o : outcome) (w : list (option Z)) : Prop :=
  ∃ l, o = TestDone l ∧ Forall2 (λ n m, ∀ z, m = Some z → n = z) l w.

Lemma leaves_other_keys x M k :
  (match x with
   | (T1, [_; key; _]) => k ≠ key
   | (T2, [n; ks; _]) | (T3, [n; ks; _]) | (TDel, [n; ks]) | (TSet, [n; ks; _]) =>
       ∀ j, (j < Z.to_nat (atoi n))%nat → k ≠ numbered (atoi ks) j
   | (TIncr, _) => k ≠ counter
   | _ => True
   end) → leaves x M !! k = M !! k.
Proof.
  destruct x as [[] [|b1 [|b2 [|b3 [|]]]]]; cbn [leaves]; intros Hk; try done;
    first [by rewrite lookup_delete_ne|by rewrite without_other|by rewrite with_other|by rewrite lookup_insert_ne].
Qed.

(** ** Every program *)

Section spec.
Context {E : Type} `{Kernel E} `{Clock E} (s : nmdb_srv) `{!MapService E s}.
Context (gethostbyname : bytes → option Z) (tr : transport) (Hbed : test_bed s gethostbyname tr).
Context (v : variant) (Hv : v ≠ USE_CACHE) (Hlim : 8 + 12 + max_size ≤ svc_limit).

Ltac a_program b2 b3 :=
  lazymatch goal with
  | |- wp (main_1 _ _ _ _) _ _ => eapply (wp_main_1 s)
  | |- wp (main_2 _ _ _ _) _ _ => eapply (wp_main_2 s) with (ks := atoi b2) (vs := atoi b3)
  | |- wp (main_3 _ _ _ _) _ _ => eapply (wp_main_3 s) with (ks := atoi b2) (vs := atoi b3)
  | |- wp (main_set _ _ _ _) _ _ => eapply (wp_main_set s) with (ks := atoi b2) (vs := atoi b3)
  | |- wp (main_get _ _ _ _) _ _ => eapply (wp_main_get s) with (ks := atoi b2)
  | |- wp (main_del _ _ _ _) _ _ => eapply (wp_main_del s) with (ks := atoi b2)
  | |- wp (main_incr _ _ _ _) _ _ => eapply (wp_main_incr s)
  end.

Lemma wp_main_of x c a M :
  runnable x → never_fails a → svc_is (c_net c) M →
  wp (main_of gethostbyname v tr x.1 x.2) (λ r t, ∃ l, r = inl l ∧
    Forall2 (λ n m, ∀ z, m = Some z → n = z) l (report x M) ∧ svc_is (c_net (obj t)) (leaves x M)) (Mem c a).
Proof.
  destruct x as [x args]. intros Hx Ha HM. cbn [fst snd].
  destruct x, args as [|b1 [|b2 [|b3 [|]]]]; try contradiction; cbn [runnable] in Hx; cbn [main_of].
  all: eapply wp_mono; [a_program b2 b3; first [assumption|reflexivity|lia|apply Hx|exact HM]|cbn beta].
  all: intros r t (l & -> & Hl & Ht); eexists; split; [done|split; [|exact Ht]]; clear -Hl;
    repeat match type of Hl with ∃ _, _ => destruct Hl as [? Hl] end; subst l; cbn [report]; repeat constructor; congruence.
Qed.

Lemma run_test_ok a x e M :
  never_fails a → runnable x → svc_is e M →
  ∃ o e', run_test gethostbyname v tr a x e = Some (o, e') ∧ prints o (report x M) ∧ svc_is e' (leaves x M).
Proof.
  intros Ha Hx HM.
  assert (wp (process_of (main_of gethostbyname v tr x.1 x.2)) (λ o t, prints o (report x M) ∧
    svc_is (c_net (obj t)) (leaves x M)) (Mem (Client [] e) a)) as Hw.
  { unfold process_of. apply wp_bind. eapply wp_mono; [by apply (wp_main_of x _ a M)|].
    intros r t (l & -> & Hl & Ht). wp_simpl. split; [by exists l|done]. }
  apply wp_exec in Hw as (o & t & Hw & Ho & Ht). unfold run_test. rewrite Hw. by eexists _, _.
Qed.

Lemma run_tests_ok a xs e M :
  never_fails a → Forall runnable xs → svc_is e M →
  ∃ os e', run_tests gethostbyname v tr a xs e = Some (os, e') ∧
    Forall2 prints os (reports xs M) ∧ svc_is e' (leaves_all xs M).
Proof.
  intros Ha Hxs. revert e M. induction Hxs as [|x xs Hx Hxs IH]; intros e M HM; cbn [run_tests].
  - exists [], e. split_and!; [done|constructor|done].
  - destruct (run_test_ok a x e M Ha Hx HM) as (o & e1 & -> & Ho & He1).
    destruct (IH _ _ He1) as (os & e2 & -> & Hos & He2). eexists _, _. split_and!; [done|by constructor|exact He2].
Qed.
End spec.

(** ** The server's host as a test bed *)

Section bed.
Context {D : Type} `{DbLaws D} `{Clock (host D)} (Hclock : ∀ h, (gettimeofday h).2 = h).
Context (gethostbyname : bytes → option Z) (ia : Z) (Hia : resolve gethostbyname (bs "localhost") = Some ia).

(** The server that [NADDSRV] adds, when its socket is a datagram socket. *)
Definition local_server (tr : transport) : option nmdb_srv :=
  match tr with
  | USE_UDP => Some (Srv 3 UDP_CONN (htons UDP_SERVER_PORT) ia)
  | USE_SCTP => Some (Srv 3 SCTP_CONN (htons SCTP_SERVER_PORT) ia)
  | USE_TIPC => Some (Srv 3 TIPC_CONN (w32 TIPC_SERVER_INST) 0)
  | USE_TCP | USE_MULT => None
  end.

Lemma local_dgram tr s : local_server tr = Some s → is_dgram s.
Proof. destruct tr; intros [= <-]; unfold is_dgram; cbn; tauto. Qed.

Lemma wp_grow_servers n c a (Q : bool → mem (client (host D)) → Prop) :
  never_fails a → (∀ a, never_fails a → Q true (Mem c a)) → wp (realloc_servers n) Q (Mem c a).
Proof.
  intros Ha HQ. unfold realloc_servers. apply wp_bind, wp_malloc; [done|]. wp_simpl.
  rewrite bool_decide_true by done. apply HQ. by auto with nmdb.
Qed.

Lemma wp_add_local tr s e a :
  never_fails a → local_server tr = Some s →
  wp (NADDSRV gethostbyname tr) (λ _ t, never_fails (heap t) ∧ obj t = Client [s] e) (Mem (Client (E := host D) [] e) a).
Proof.
  intros Ha Hs. unfold NADDSRV.
  destruct tr; try done; injection Hs as <-; cbn zeta;
    unfold nmdb_add_udp_server, nmdb_add_sctp_server, nmdb_add_tipc_server; rewrite ?Hia;
    unfold add_udp_server_addr, add_sctp_server_addr; wp_simpl; (eapply wp_sys; [done|]); wp_simpl;
    try (eapply wp_sys; [done|]; cbn [negb]; wp_simpl);
    (apply wp_grow_servers; [done|]); intros a' Ha'; cbn [negb]; by wp_simpl.
Qed.

Lemma host_bed (Hrel : reliable (D := D)) tr s (Hs : local_server tr = Some s) :
  test_bed s (MapService0 := dgram_map (local_dgram tr s Hs) (DgramService0 := host_service Hrel s)) gethostbyname tr.
Proof.
  split.
  - intros e M. by rewrite Hclock.
  - done.
  - intros e M a Ha HM. eapply wp_mono; [by eapply wp_add_local|]. intros _ [c a'] [Ha' Hc]. cbn [obj heap] in *.
    subst c. by split.
Qed.
End bed.

(** A block that was not got, cleared. *)
Lemma null_block {E} `{Kernel E} {A} n m (k : cptr → exc (mem (client E)) outcome A) c a :
  al_ok a (al_next a) = false →
  (key ← lifted (malloc n); key ← lifted (memset0 key m); k key) (Mem c a) = None.
Proof. intros Ha. cbv [mbind lifted malloc exc_bind M_bind compose heap]. cbn. by rewrite Ha. Qed.

Lemma run_test_none {E} `{Kernel E} `{Clock E} (gethostbyname : bytes → option Z) v tr a x (e : E) :
  main_of gethostbyname v tr x.1 x.2 (Mem (Client [] e) a) = None → run_test gethostbyname v tr a x e = None.
Proof. intros Hx. unfold run_test, process_of, mbind, M_bind. by rewrite Hx. Qed.

(** ** Properties *)

(** C5: the test programs of tests/c (normal and sync) pass against the server.
    Any of them, with arguments that they take and that fit the server's
    buffers, run one after the other over a UDP, SCTP or TIPC socket: each run
    is defined and ends with 0; the misses that it prints are exactly the keys
    that are not in the map, none for a program that sets its own keys; incr.c
    prints the sum of its increments as a 64-bit number; and the server is left
    with the map that the operations give. *)
Theorem tests_pass {D} `{DbLaws D} `{Clock (host D)} (gethostbyname : bytes → option Z) (ia : Z)
  (tr : transport) (s : nmdb_srv) (v : variant) (a : alloc) (xs : list (test * list bytes)) (e : host D) (M : store)
  (Hrel : reliable (D := D)) (Hclock : ∀ h, (gettimeofday h).2 = h)
  (Hia : resolve gethostbyname (bs "localhost") = Some ia) (Hs : local_server ia tr = Some s)
  (Hv : v ≠ USE_CACHE) (Ha : never_fails a) (HM : host_is e M) (Hxs : Forall runnable xs) :
  ∃ os e', run_tests gethostbyname v tr a xs e = Some (os, e') ∧
    Forall2 prints os (reports xs M) ∧ host_is e' (leaves_all xs M).
Proof.
  by apply (run_tests_ok s (MapService0 := dgram_map (local_dgram ia tr s Hs) (DgramService0 := host_service Hrel s))
    gethostbyname tr (host_bed Hclock gethostbyname ia Hia Hrel tr s Hs) v Hv).
Qed.

Definition sample_hosts (addr : bytes) : option Z := Some 0x0100007f.
Definition sample_runs : list (test * list bytes) :=
  [(TSet, [bs "3"; bs "8"; bs "100"]); (TGet, [bs "4"; bs "8"]); (TDel, [bs "2"; bs "8"]);
   (TGet, [bs "4"; bs "8"]); (T2, [bs "2"; bs "4"; bs "5"]); (T3, [bs "9"; bs "300"; bs "4"]);
   (T1, [bs "2"; bs "key"; bs "value"]); (TIncr, [bs "3"; bs "-5"])].

Lemma sample_runs_ok : Forall runnable sample_runs.
Proof. repeat constructor; by vm_compute. Qed.

Lemma tests_pass_witness :
  let clock : Clock (host store) := λ h, ((7, 0), h) in
  ∃ os e', run_tests (H0 := clock) sample_hosts USE_SYNC USE_UDP sample_alloc sample_runs sample_host = Some (os, e') ∧
    Forall2 prints os [[None]; [None; Some 1]; [None]; [None; Some 3]; [None; None; None; Some 0]; [None; Some 0];
      [None; None; Some 0; None]; [None; Some (-15)]] ∧ host_is e' (leaves_all sample_runs sample_store).
Proof.
  intros clock. apply (tests_pass (H1 := clock) sample_hosts 0x0100007f USE_UDP
    (Srv 3 UDP_CONN (htons UDP_SERVER_PORT) 0x0100007f) USE_SYNC sample_alloc sample_runs sample_host sample_store
    store_reliable);
    [done|reflexivity|reflexivity|done|apply sample_never_fails|apply sample_host_is|apply sample_runs_ok].
Defined.

(** What the model computes for the first two runs and an increment. *)
Example sample_runs_evaluated :
  let clock : Clock (host store) := λ h, ((7, 0), h) in
  option_map fst (run_tests (H0 := clock) sample_hosts USE_NORMAL USE_TIPC sample_alloc
    [(TSet, [bs "2"; bs "4"; bs "4"]); (TGet, [bs "3"; bs "4"]); (TIncr, [bs "2"; bs "-5"]); (TIncr, [bs "0"; bs "1"])]
    sample_host) = Some [TestDone [0]; TestDone [0; 1]; TestDone [0; -10]; TestBadTimes].
Proof. vm_compute. reflexivity. Qed.

(** The arguments that the programs with numbered keys take, sizes as [size_t]. *)
Definition accepted (x : test * list bytes) : Prop :=
  match x with
  | (T2, [n; ks; vs]) | (T3, [n; ks; vs]) | (TSet, [n; ks; vs]) =>
      1 ≤ atoi n ∧ sizeof_int ≤ size_arg ks ∧ sizeof_int ≤ size_arg vs
  | (TGet, [n; ks]) | (TDel, [n; ks]) => 1 ≤ atoi n ∧ sizeof_int ≤ size_arg ks
  | _ => False
  end.

(** C40: the test programs do not survive an allocation that fails. 2.c, 3.c,
    set.c, get.c and del.c clear the block for the key before they test whether
    they got it: when the allocation fails, with any arguments that they take,
    the run is undefined and does not end with the message and the 1 of that
    test. A negative size is such an argument, since it is tested as a
    [size_t]. *)
Theorem tests_no_memory {E} `{Kernel E} `{Clock E} (gethostbyname : bytes → option Z) (v : variant)
  (tr : transport) (a : alloc) (x : test * list bytes) (e : E)
  (Ha : al_ok a (al_next a) = false) (Hx : accepted x) :
  run_test gethostbyname v tr a x e = None ∧ sizeof_int ≤ size_arg (bs "-1").
Proof.
  split; [|by vm_compute]. destruct x as [x args].
  destruct x, args as [|b1 [|b2 [|b3 [|]]]]; try contradiction; cbn [accepted] in Hx;
    apply run_test_none; cbn [fst snd main_of]; unfold main_2, main_3, main_set, main_get, main_del;
    rewrite (proj2 (Z.ltb_ge (atoi b1) 1)), (proj2 (Z.ltb_ge (size_arg b2) sizeof_int)) by apply Hx;
    rewrite ?(proj2 (Z.ltb_ge (size_arg b3) sizeof_int)) by apply Hx; cbn [orb]; by apply null_block.
Qed.

Lemma tests_no_memory_witness :
  let clock : Clock (host store) := λ h, ((7, 0), h) in
  run_test (H0 := clock) sample_hosts USE_NORMAL USE_UDP (Alloc (λ _, false) 0 NUL) (TSet, [bs "1"; bs "-1"; bs "4"])
    sample_host = None.
Proof.
  intros clock. apply (tests_no_memory (H0 := clock) sample_hosts USE_NORMAL USE_UDP (Alloc (λ _, false) 0 NUL)
    (TSet, [bs "1"; bs "-1"; bs "4"]) sample_host); [done|by vm_compute].
Defined.
