(* ===== verification/ClientRobust.v ===== *)
(** * The client library against any server

    The other theorems about the library suppose a server that answers as the
    protocol says. Here the kernel may do anything that a kernel may do: send a
    part, fail, deliver bytes that nobody can make sense of; the allocator may
    fail at any call. The operations whose reply carries no value of its own
    size are defined nevertheless; those that read a value are not. *)

From S2P Require Import Prelude Words Text Chain ChainSpec Cache Net Queue Backend Server Parse ParseSpec DbLoop DbSpec Transport System Client ClientSpec.

(** ** Kernels *)

(** What every kernel keeps to: [recv] gives at most what it was asked for, and
    [send] takes at most what it was given. *)
Class SaneKernel (E : Type) `{Kernel E} := {
  sane_recv fd n e d e' : 0 ≤ n → k_recv fd n e = (Some d, e') → Z.of_nat (length d) ≤ n;
  sane_send fd d e rv e' : k_send fd d e = (rv, e') → rv ≤ Z.of_nat (length d);
}.

Section robust.
Context {E : Type} `{SaneKernel E}.

(** The servers stay as they are. *)
Definition same_servers (c : client E) (t : mem (client E)) : Prop := c_servers (obj t) = c_servers c.

Lemma wp_memcpy_any buf off d n (Q : bytes → mem (client E) → Prop) t :
  0 ≤ off → off + n ≤ Z.of_nat (length buf) → n = Z.of_nat (length d) →
  (∀ b, length b = length buf → Q b t) → wp (memcpy_at buf off d n) Q t.
Proof.
  intros Hz Hl -> HQ. unfold memcpy_at. rewrite bool_decide_true by done.
  rewrite in_block_true by lia. cbn [andb]. apply wp_bind, wp_memcpy; [lia|rewrite length_drop; lia|lia|].
  wp_simpl. apply HQ. rewrite !length_app, !length_take, !length_drop. lia.
Qed.

Lemma wp_read_any buf off n (Q : bytes → mem (client E) → Prop) t :
  0 ≤ off → 0 ≤ n → off + n ≤ Z.of_nat (length buf) →
  (∀ b, Z.of_nat (length b) = n → Q b t) → wp (read_at buf off n) Q t.
Proof.
  intros Hz Hn Hl HQ. unfold read_at. rewrite !bool_decide_true by done. rewrite in_block_true by lia.
  cbn [andb]. wp_simpl. apply HQ. rewrite length_take, length_drop. lia.
Qed.

Lemma wp_load_any n buf off (Q : Z → mem (client E) → Prop) t :
  0 ≤ off → off + Z.of_nat n ≤ Z.of_nat (length buf) → (∀ w, Q w t) → wp (load n buf off) Q t.
Proof. intros Hz Hl HQ. apply wp_load; [done|done|]. apply HQ. Qed.

Lemma wp_sys_some {A} (g : E → A * E) c a (Q : A → mem (client E) → Prop) :
  (∀ x e, g (c_net c) = (x, e) → Q x (Mem (set_net e c) a)) → wp (sys g) Q (Mem c a).
Proof.
  intros HQ. unfold sys. wp_simpl. specialize (HQ (g (c_net c)).1 (g (c_net c)).2).
  destruct (g (c_net c)) as [x e]. wp_simpl. by apply HQ.
Qed.

(** ** Sending and receiving *)

(** A receive of [n] bytes at [off]: the result is at most [n]. *)
Lemma wp_recv_any fd buf off n c a (Q : Z * bytes → mem (client E) → Prop) :
  0 ≤ off → 0 ≤ n → off + n ≤ Z.of_nat (length buf) →
  (∀ rv b t, rv ≤ n → length b = length buf → same_servers c t → Q (rv, b) t) →
  wp (recv fd buf off n) Q (Mem c a).
Proof.
  intros Hz Hn Hl HQ. unfold recv. apply wp_bind, wp_sys_some. intros [d|] e Hk.
  - apply (sane_recv _ _ _ _ _ Hn) in Hk. apply wp_bind, wp_memcpy_any; [done|lia|done|].
    intros b Hb. wp_simpl. by apply HQ.
  - wp_simpl. apply HQ; [lia|done|done].
Qed.

Lemma wp_srecv_any fuel fd buf off count n c a (Q : Z * bytes → mem (client E) → Prop) :
  0 ≤ off → 0 ≤ n → off + count ≤ Z.of_nat (length buf) → (Z.to_nat (count - n) ≤ fuel)%nat → n ≤ count →
  (∀ rv b t, rv ≤ count → length b = length buf → same_servers c t → Q (rv, b) t) →
  wp (srecv_loop fuel fd buf off count n) Q (Mem c a).
Proof.
  revert buf n c a. induction fuel as [|fuel IH]; intros buf n c a Hz Hn Hl Hf Hc HQ; cbn [srecv_loop];
    destruct (n <? count) eqn:En; [apply Z.ltb_lt in En; lia|wp_simpl; by apply HQ| |wp_simpl; by apply HQ].
  apply Z.ltb_lt in En. apply wp_bind, wp_recv_any; [lia|lia|lia|]. intros rv b [c1 a1] Hrv Hb Hs.
  destruct (rv =? count); [wp_simpl; by apply HQ|].
  destruct (rv <? 0) eqn:E1; [apply Z.ltb_lt in E1; wp_simpl; apply HQ; [lia|done|done]|].
  destruct (rv =? 0) eqn:E2; [wp_simpl; by apply HQ|].
  apply Z.ltb_ge in E1. apply Z.eqb_neq in E2.
  apply IH; [done|lia|by rewrite Hb|lia|lia|]. intros rv' b' t Hrv' Hb' Ht. apply HQ; [done|congruence|].
  unfold same_servers in *. by rewrite Ht.
Qed.

Lemma wp_ssend_any fuel fd buf count n c a (Q : Z → mem (client E) → Prop) :
  0 ≤ n → count ≤ Z.of_nat (length buf) → (Z.to_nat (count - n) ≤ fuel)%nat →
  (∀ rv t, same_servers c t → Q rv t) →
  wp (ssend_loop fuel fd buf count n) Q (Mem c a).
Proof.
  revert n c a. induction fuel as [|fuel IH]; intros n c a Hn Hl Hf HQ; cbn [ssend_loop];
    destruct (n <? count) eqn:En; [apply Z.ltb_lt in En; lia|wp_simpl; by apply HQ| |wp_simpl; by apply HQ].
  apply Z.ltb_lt in En. apply wp_bind, wp_read_any; [lia|lia|lia|]. intros d Hd.
  apply wp_bind, wp_sys_some. intros rv e Hk.
  apply sane_send in Hk. destruct (rv =? count); [wp_simpl; by apply HQ|].
  destruct (rv <? 0) eqn:E1; [wp_simpl; by apply HQ|].
  destruct (rv =? 0) eqn:E2; [wp_simpl; by apply HQ|].
  apply Z.ltb_ge in E1. apply Z.eqb_neq in E2. apply IH; [lia|done|lia|].
  intros rv' t Ht. by apply HQ.
Qed.

(** A packet is sent, whole or not. *)
Lemma wp_srv_send_any srv buf n c a (Q : Z * bytes → mem (client E) → Prop) :
  4 ≤ n → n ≤ Z.of_nat (length buf) →
  (∀ rv b t, length b = length buf → same_servers c t → Q (rv, b) t) →
  wp (srv_send srv buf n) Q (Mem c a).
Proof.
  intros Hn Hl HQ. unfold srv_send. destruct srv as [s|]; [|wp_simpl; by apply HQ].
  assert (wp (dgram_srv_send s buf n) Q (Mem c a)) as Hd.
  { unfold dgram_srv_send. apply wp_bind, wp_read_any; [lia|lia|lia|]. intros d Hd.
    apply wp_bind, wp_sys_some. intros rv e _. wp_simpl. by apply HQ. }
  case_match; [exact Hd|]. case_match; [|case_match; [exact Hd|]; case_match; [exact Hd|]; wp_simpl; by apply HQ].
  unfold tcp_srv_send. apply wp_bind, wp_memcpy_any; [lia|lia|by rewrite store_htonl, length_be_split|]. intros b Hb.
  unfold ssend. apply wp_bind, wp_ssend_any; [lia|rewrite Hb; lia|lia|]. intros rv t Ht. wp_simpl. by apply HQ.
Qed.

(** What is known of any reply: the buffer keeps its size, and the payload is
    in it when its size is right for a number. *)
Definition any_answer (buf : bytes) (an : answer) : Prop :=
  length (an_buf an) = length buf ∧ 0 ≤ an_payload an ∧
  (an_psize an = 8 + 4 → an_payload an + 12 ≤ Z.of_nat (length buf)).

Lemma wp_dgram_get_rep_any s buf c a (Q : answer → mem (client E) → Prop) :
  Z.of_nat (length buf) < 2 ^ 32 →
  (∀ an t, any_answer buf an → same_servers c t → Q an t) →
  wp (dgram_get_rep s buf (Z.of_nat (length buf))) Q (Mem c a).
Proof.
  intros Hl HQ. unfold dgram_get_rep. apply wp_bind, wp_recv_any; [lia|lia|lia|]. intros rv b t Hrv Hb Ht.
  destruct (rv <? 4 + 4) eqn:Er; [wp_simpl; apply HQ; [by split|done]|]. apply Z.ltb_ge in Er.
  apply wp_bind, wp_load_any; [lia|lia|]. intros id. apply wp_bind, wp_load_any; [lia|lia|]. intros reply.
  destruct (negb _); wp_simpl; (apply HQ; [|done]); [by split|]. split; [done|]. cbn. split; [lia|].
  rewrite w64_small by lia. lia.
Qed.

Lemma wp_recv_rest_any fd buf rv total c a (Q : Z * bytes → mem (client E) → Prop) :
  0 ≤ rv → total ≤ Z.of_nat (length buf) → rv ≤ Z.of_nat (length buf) →
  (∀ rv b t, rv ≤ Z.of_nat (length buf) → length b = length buf → same_servers c t → Q (rv, b) t) →
  wp (recv_rest fd buf rv total) Q (Mem c a).
Proof.
  intros Hz Ht Hl HQ. unfold recv_rest, srecv. destruct (rv <? total) eqn:Er; [|wp_simpl; by apply HQ].
  apply Z.ltb_lt in Er. apply wp_bind, wp_srecv_any; [lia|lia|lia|lia|lia|]. intros n b t Hn Hb Hs.
  wp_simpl. apply HQ; [|done|done]. destruct (n <=? 0) eqn:En; [apply Z.leb_le in En|]; lia.
Qed.

Lemma wp_tcp_get_rep_any s buf c a (Q : answer → mem (client E) → Prop) :
  12 ≤ Z.of_nat (length buf) < 2 ^ 32 →
  (∀ an t, any_answer buf an → same_servers c t → Q an t) →
  wp (tcp_get_rep s buf (Z.of_nat (length buf))) Q (Mem c a).
Proof.
  intros Hl HQ. unfold tcp_get_rep, recv_msg.
  assert (∀ rv b (c1 : client E) a1, rv ≤ Z.of_nat (length buf) → length b = length buf →
    c_servers c1 = c_servers c →
    wp (let '(rv, buf) := (rv, b) : Z * bytes in
        if rv <=? 0 then mret (no_answer buf) else
        id ← load 4 buf 4; reply ← load 4 buf 8;
        if negb (ntohl id =? ID_CODE) then mret (no_answer buf) else
        mret (Answer (ntohl reply) buf (4 + 4 + 4) (w64 (rv - 4 - 4 - 4)))) Q (Mem c1 a1)) as Hend.
  { intros rv b c1 a1 Hrv Hb Hc1. destruct (rv <=? 0) eqn:Er; [wp_simpl; apply HQ; [by split|done]|].
    apply Z.leb_gt in Er. apply wp_bind, wp_load_any; [lia|lia|]. intros id.
    apply wp_bind, wp_load_any; [lia|lia|]. intros reply. destruct (negb _); wp_simpl; (apply HQ; [|done]); [by split|].
    split; [done|]. cbn. split; [lia|]. intros Hp.
    destruct (decide (12 ≤ rv)); [rewrite w64_small in Hp by lia; lia|].
    replace (rv - 4 - 4 - 4) with (2 ^ 64 + (rv - 12) + (-1) * 2 ^ 64) in Hp by lia.
    unfold w64 in Hp. rewrite Z.mod_add, Z.mod_small in Hp by lia. lia. }
  do 2 apply wp_bind. apply wp_recv_any; [lia|lia|lia|]. intros rv b [c1 a1] Hrv Hb Ht.
  destruct (rv <=? 0) eqn:Er; [apply Z.leb_le in Er; wp_simpl; by apply Hend|]. apply Z.leb_gt in Er.
  apply wp_bind, wp_recv_rest_any; [lia|lia|lia|]. intros rv2 b2 [c2 a2] Hrv2 Hb2 Ht2.
  assert (c_servers c2 = c_servers c) as Hc2 by by unfold same_servers in *; cbn in *; congruence.
  destruct (rv2 <=? 0) eqn:E2; [wp_simpl; apply Hend; [lia|congruence|done]|]. apply Z.leb_gt in E2.
  apply wp_bind, wp_load_any; [lia|lia|]. intros w.
  destruct (Z.of_nat (length buf) <? ntohl w) eqn:Ew; [wp_simpl; apply Hend; [lia|congruence|done]|].
  apply Z.ltb_ge in Ew. apply wp_recv_rest_any; [lia|lia|lia|]. intros rv3 b3 [c3 a3] Hrv3 Hb3 Ht3.
  apply Hend; [lia|congruence|unfold same_servers in *; cbn in *; congruence].
Qed.

Lemma wp_get_rep_any srv buf c a (Q : answer → mem (client E) → Prop) :
  12 ≤ Z.of_nat (length buf) < 2 ^ 32 →
  (∀ an t, any_answer buf an → same_servers c t → Q an t) →
  wp (get_rep srv buf (Z.of_nat (length buf))) Q (Mem c a).
Proof.
  intros Hl HQ. unfold get_rep. destruct srv as [s|]; [|wp_simpl; apply HQ; [by split|done]].
  assert (wp (dgram_get_rep s buf (Z.of_nat (length buf))) Q (Mem c a)) as Hd.
  { apply wp_dgram_get_rep_any; [lia|done]. }
  case_match; [exact Hd|]. case_match; [by apply wp_tcp_get_rep_any|].
  case_match; [exact Hd|]. case_match; [exact Hd|]. wp_simpl. by apply HQ.
Qed.

(** ** Packets *)

Lemma wp_new_packet_any srv request flags size bufsize c a (Q : option packet_buf → mem (client E) → Prop) :
  bufsize = srv_get_msg_offset srv + 8 + size → 0 ≤ size →
  (∀ a', Q None (Mem c a')) →
  (∀ buf a', Z.of_nat (length buf) = bufsize → 
     Q (Some (Pkt buf bufsize (srv_get_msg_offset srv + 8))) (Mem c a')) →
  wp (new_packet srv request flags size) Q (Mem c a).
Proof.
  intros -> Hs Hnone Hsome. unfold new_packet. rewrite (proj2 (Z.eqb_neq size (-1))) by lia.
  set (moff := srv_get_msg_offset srv) in *.
  assert (0 ≤ moff) as Hm by (unfold moff, srv_get_msg_offset; by repeat case_match).
  apply wp_bind. destruct (al_ok a (al_next a)) eqn:Ea.
  - apply wp_exec. unfold malloc. cbn [obj heap]. rewrite Ea. eexists _, _. split; [done|]. cbn [deref]. wp_simpl.
    set (b := replicate _ _). assert (Z.of_nat (length b) = moff + 8 + size) as Hb
      by (unfold b; rewrite length_replicate; lia). clearbody b.
    apply wp_memcpy_any; [lia|lia|by rewrite store_htonl, length_be_split|]. intros b1 Hb1. wp_simpl.
    apply wp_memcpy_any; [lia|lia|by rewrite store_htons, length_be_split|]. intros b2 Hb2. wp_simpl.
    apply wp_memcpy_any; [lia|lia|by rewrite store_htons, length_be_split|]. intros b3 Hb3. wp_simpl.
    apply Hsome. lia.
  - apply wp_malloc_null; [done|]. wp_simpl. apply Hnone.
Qed.

Ltac put := apply wp_bind, wp_memcpy_any; [lia|lia|first [by rewrite store_htonl, length_be_split|done]|];
  let b := fresh "b" in let Hb := fresh "Hb" in intros b Hb.

Lemma wp_append_1v_any buf off d c a (Q : bytes * Z → mem (client E) → Prop) :
  0 ≤ off → off + 4 + Z.of_nat (length d) ≤ Z.of_nat (length buf) →
  (∀ b, length b = length buf → Q (b, 4 + Z.of_nat (length d)) (Mem c a)) →
  wp (append_1v buf off d) Q (Mem c a).
Proof. intros Hz Hl HQ. unfold append_1v. do 2 put. wp_simpl. apply HQ. congruence. Qed.

Lemma wp_append_2v_any buf off d1 d2 c a (Q : bytes * Z → mem (client E) → Prop) :
  0 ≤ off → off + 8 + Z.of_nat (length d1) + Z.of_nat (length d2) ≤ Z.of_nat (length buf) →
  (∀ b, length b = length buf → Q (b, 8 + Z.of_nat (length d1) + Z.of_nat (length d2)) (Mem c a)) →
  wp (append_2v buf off d1 d2) Q (Mem c a).
Proof. intros Hz Hl HQ. unfold append_2v. do 4 put. wp_simpl. apply HQ. congruence. Qed.

Lemma wp_append_3v_any buf off d1 d2 d3 c a (Q : bytes * Z → mem (client E) → Prop) :
  0 ≤ off →
  off + 12 + Z.of_nat (length d1) + Z.of_nat (length d2) + Z.of_nat (length d3) ≤ Z.of_nat (length buf) →
  (∀ b, length b = length buf →
     Q (b, 12 + Z.of_nat (length d1) + Z.of_nat (length d2) + Z.of_nat (length d3)) (Mem c a)) →
  wp (append_3v buf off d1 d2 d3) Q (Mem c a).
Proof. intros Hz Hl HQ. unfold append_3v. do 6 put. wp_simpl. apply HQ. congruence. Qed.

Lemma wp_select_srv_any key c a (Q : option nmdb_srv → mem (client E) → Prop) :
  (∀ srv, Q srv (Mem c a)) → wp (select_srv key) Q (Mem c a).
Proof. intros HQ. by apply wp_select_srv. Qed.

(** ** Operations *)

(** Sending a packet and receiving what comes, whatever it is. *)
Lemma wp_request_any {A} srv buf n bufsize (err : bytes → MT (client E) A) (k : answer → MT (client E) A)
    (Q : A → mem (client E) → Prop) c0 c a :
  4 ≤ n → n ≤ bufsize → bufsize = Z.of_nat (length buf) → 12 ≤ bufsize < 2 ^ 32 →
  c_servers c = c_servers c0 →
  (∀ b t, same_servers c0 t → wp (err b) Q t) →
  (∀ an t, any_answer buf an → same_servers c0 t → wp (k an) Q t) →
  wp (r ← srv_send srv buf n;
      let '(t, buf) := r : Z * bytes in
      if t <=? 0 then err buf else an ← get_rep srv buf bufsize; k an) Q (Mem c a).
Proof.
  intros Hn Hl -> Hb Hc Herr Hk. apply wp_bind, wp_srv_send_any; [done|done|].
  intros rv b [c1 a1] Hlb Hs. assert (same_servers c0 (Mem c1 a1)) as Hs' by (unfold same_servers in *; cbn in *; congruence).
  destruct (rv <=? 0); [by apply Herr|]. rewrite <-Hlb. apply wp_bind, wp_get_rep_any; [lia|].
  intros an [c2 a2] (H1 & H2 & H3) Ht. apply Hk; [|unfold same_servers in *; cbn in *; congruence].
  split; [congruence|]. by rewrite <-Hlb.
Qed.

Lemma offset_range srv : 0 ≤ srv_get_msg_offset srv ≤ 4.
Proof. unfold srv_get_msg_offset. by repeat case_match. Qed.

(** The connection is the same and the result is one of [rvs]. *)
Definition returns {A} (c : client E) (rvs : A → Prop) (r : A) (t : mem (client E)) : Prop :=
  rvs r ∧ same_servers c t.

Lemma wp_exit_any {A} buf (rv : A) c rvs (t : mem (client E)) :
  rvs rv → same_servers c t → wp (exit_with buf rv) (returns c rvs) t.
Proof. intros Hrv Ht. by apply wp_exit. Qed.

Ltac in_range := cbn; first [lia|split; [lia|by intros []]|done].
Ltac start :=
  apply wp_bind, wp_select_srv_any; intros srv; pose proof (offset_range srv); apply wp_bind;
  eapply wp_new_packet_any; [reflexivity|lia|intros a'; wp_simpl; split; [in_range|done]|];
  intros buf a' Hbuf; cbn [pk_buf pk_size pk_payload]; apply wp_bind.
Ltac request := 
  eapply wp_request_any; [lia|lia|lia|lia|reflexivity|intros b' t Ht|intros an t Han Ht].
Ltac finish := repeat case_match; (apply wp_exit_any; [in_range|done]).

Lemma wp_do_set_any key val flags c a :
  Z.of_nat (length key) + Z.of_nat (length val) < 2 ^ 31 →
  wp (do_set key val flags) (returns c (λ rv, rv = 1 ∨ rv = -1)) (Mem c a).
Proof.
  intros Hsz. unfold do_set. start. apply wp_append_2v_any; [lia|lia|]. intros b Hb. cbn iota.
  request; finish.
Qed.

Lemma wp_do_del_any key flags c a :
  Z.of_nat (length key) < 2 ^ 31 →
  wp (do_del key flags) (returns c (λ rv, -1 ≤ rv ≤ 1)) (Mem c a).
Proof.
  intros Hsz. unfold do_del. start. apply wp_append_1v_any; [lia|lia|]. intros b Hb. cbn iota.
  request; finish.
Qed.

Lemma wp_do_cas_any key oldval newval flags c a :
  Z.of_nat (length key) + Z.of_nat (length oldval) + Z.of_nat (length newval) < 2 ^ 31 →
  wp (do_cas key oldval newval flags) (returns c (λ rv, -1 ≤ rv ≤ 2)) (Mem c a).
Proof.
  intros Hsz. unfold do_cas. start. apply wp_append_3v_any; [lia|lia|]. intros b Hb. cbn iota.
  request; finish.
Qed.

Lemma wp_do_incr_any key increment want flags c a :
  Z.of_nat (length key) < 2 ^ 31 →
  wp (do_incr key increment want flags) (returns c (λ r, -1 ≤ r.1 ≤ 2 ∧ (is_Some r.2 → r.1 = 2))) (Mem c a).
Proof.
  intros Hsz. unfold do_incr. start. apply wp_append_1v_any; [lia|lia|]. intros b Hb. cbn iota.
  change (store_le 8 ?w) with (le_split 8 w).
  apply wp_bind, wp_memcpy_any; [lia|lia|by rewrite length_le_split|]. intros b1 Hb1.
  request; [finish|]. destruct Han as (Hl & Hz & Hp).
  destruct (an_code an =? REP_OK); [|finish]. destruct (want && (an_psize an =? 8 + 4)) eqn:Ew; [|finish].
  apply andb_true_iff in Ew as [_ Ew%Z.eqb_eq]. specialize (Hp Ew).
  apply wp_bind, wp_load_any; [lia|lia|]. intros w. apply wp_exit_any; [|done]. cbn. split; [lia|done].
Qed.
End robust.

(** ** Properties *)

(** C21: the library is robust. Whatever the kernel delivers, whatever the
    server sends, whatever allocation fails, on a connection to any servers:
    set, del, cas and incr, in all their variants, are defined, so no access is
    outside of a buffer and every loop ends; they return one of their documented
    codes, and the connection keeps its servers. *)
Theorem client_robust {E} `{SaneKernel E} (key val old : bytes) (n : Z) (want : bool) (flags : Z)
  (c : client E) (a : alloc)
  (Hsz : Z.of_nat (length key) + Z.of_nat (length old) + Z.of_nat (length val) < 2 ^ 31) :
  (∃ rv t, do_set key val flags (Mem c a) = Some (rv, t) ∧ (rv = 1 ∨ rv = -1) ∧ same_servers c t) ∧
  (∃ rv t, do_del key flags (Mem c a) = Some (rv, t) ∧ -1 ≤ rv ≤ 1 ∧ same_servers c t) ∧
  (∃ rv t, do_cas key old val flags (Mem c a) = Some (rv, t) ∧ -1 ≤ rv ≤ 2 ∧ same_servers c t) ∧
  (∃ rv v t, do_incr key n want flags (Mem c a) = Some ((rv, v), t) ∧ -1 ≤ rv ≤ 2 ∧
     (is_Some v → rv = 2) ∧ same_servers c t).
Proof.
  split_and!.
  - assert (wp (do_set key val flags) (returns c (λ rv, rv = 1 ∨ rv = -1)) (Mem c a)) as Hw
      by (apply wp_do_set_any; lia).
    apply wp_exec in Hw as (rv & t & -> & Hrv & Ht). by exists rv, t.
  - assert (wp (do_del key flags) (returns c (λ rv, -1 ≤ rv ≤ 1)) (Mem c a)) as Hw
      by (apply wp_do_del_any; lia).
    apply wp_exec in Hw as (rv & t & -> & Hrv & Ht). by exists rv, t.
  - assert (wp (do_cas key old val flags) (returns c (λ rv, -1 ≤ rv ≤ 2)) (Mem c a)) as Hw
      by (apply wp_do_cas_any; lia).
    apply wp_exec in Hw as (rv & t & -> & Hrv & Ht). by exists rv, t.
  - assert (wp (do_incr key n want flags) (returns c (λ r, -1 ≤ r.1 ≤ 2 ∧ (is_Some r.2 → r.1 = 2)))
      (Mem c a)) as Hw by (apply wp_do_incr_any; lia).
    apply wp_exec in Hw as ([rv v] & t & -> & [Hrv Hv] & Ht). by exists rv, v, t.
Qed.

(** The reply that is enough: the header, an OK, and three bytes of a size. *)
Definition short_reply : bytes := be_split 4 ID_CODE ++ be_split 4 REP_OK ++ [Byte.x00; Byte.x01; Byte.xff].

Lemma bind_undefined {S A B} (m : M S A) (k : A → M S B) s :
  wp m (λ x t, k x t = None) s → (m ≫= k) s = None.
Proof. intros Hw. apply wp_exec in Hw as (x & t & Hm & Hk). unfold mbind, M_bind. by rewrite Hm. Qed.

Section short.
Context {E : Type} `{Kernel E}.

(** Such a reply as it is received, and as it is read. *)
Lemma wp_get_short s buf e c a (Q : answer → mem (client E) → Prop) :
  is_dgram s → (12 ≤ length buf)%nat →
  k_recv (sv_fd s) (Z.of_nat (length buf)) (c_net c) = (Some short_reply, e) →
  (∀ x t, (11 + S (length t) = length buf)%nat → Q (Answer REP_OK (short_reply ++ x :: t) 8 3) (Mem (set_net e c) a)) →
  wp (get_rep (Some s) buf (Z.of_nat (length buf))) Q (Mem c a).
Proof.
  intros Hs Hl Hk HQ. rewrite (get_rep_dgram s Hs). unfold dgram_get_rep, recv.
  apply wp_bind, wp_bind. eapply wp_sys; [exact Hk|]. apply wp_bind.
  apply (wp_memcpy_at [] buf); [done|done|change (length short_reply) with 11%nat; lia|]. intros t Ht. cbn [app]. wp_simpl.
  change (length short_reply) with 11%nat in *. destruct t as [|x t]; [cbn in Ht; lia|].
  change (Z.of_nat 11 <? 4 + 4) with false. cbn iota.
  apply wp_bind. apply (wp_load_at 4 [] (be_split 4 ID_CODE)); [done|done|].
  apply wp_bind. apply (wp_load_at 4 (be_split 4 ID_CODE) (be_split 4 REP_OK)); [done|done|].
  rewrite !ntohl_le_combine, !be_combine_split by by rewrite length_be_split.
  change (ID_CODE mod _) with ID_CODE. change (REP_OK mod _) with REP_OK.
  cbn [negb Z.eqb ID_CODE Pos.eqb]. wp_simpl. apply (HQ x t). cbn in Ht. lia.
Qed.

Lemma read_short x t vsize (u : mem (client E)) :
  11 + Z.of_nat (S (length t)) ≤ 68 * 1024 → 128 * 1024 ≤ vsize →
  read_value (Answer REP_OK (short_reply ++ x :: t) 8 3) vsize u = None.
Proof.
  intros Hl Hv. unfold read_value. apply bind_undefined. cbn [an_buf an_payload an_psize].
  change (short_reply ++ x :: t) with
    ((be_split 4 ID_CODE ++ be_split 4 REP_OK) ++ [Byte.x00; Byte.x01; Byte.xff; x] ++ t).
  apply (wp_load_at 4); [done|done|]. rewrite ntohl_le_combine by done.
  pose proof (byte.unsigned_range x).
  assert (be_combine [Byte.x00; Byte.x01; Byte.xff; x] = 0x1ff00 + byte.unsigned x) as ->.
  { by destruct x. }
  cbn zeta. change (w64 (3 - 4)) with (2 ^ 64 - 1).
  rewrite !(proj2 (Z.ltb_ge _ _)) by lia. cbn [orb]. unfold mbind, M_bind, read_at.
  rewrite !bool_decide_true by lia. unfold in_block. rewrite bool_decide_false; [done|].
  rewrite length_app. cbn [length app]. change (length (be_split 4 ID_CODE ++ be_split 4 REP_OK)) with 8%nat. lia.
Qed.
End short.

(** C39: a reply of 11 bytes reads behind the buffer. The size of the payload is
    compared as psize - 4 without a sign: a reply that is OK and shorter than
    its size field passes, and the size that is read is completed by a byte of
    the request. A caller that offers 128 kB, as the Python module does, makes
    [nmdb_get] read up to 131071 bytes of a buffer of 69632. *)
Theorem short_reply_overrun {E} `{Kernel E} (key : bytes) (vsize flags : Z) (s : nmdb_srv) (e1 e2 : E)
  (c : client E) (a : alloc)
  (Hs : is_dgram s) (Hc : c_servers c = [s]) (Ha : never_fails a)
  (Hkey : Z.of_nat (length key) ≤ 64 * 1024) (Hv : 128 * 1024 ≤ vsize)
  (Hsend : ∀ pkt, k_sendto s pkt (c_net c) = (Z.of_nat (length pkt), e1))
  (Hrecv : k_recv (sv_fd s) (68 * 1024) e1 = (Some short_reply, e2)) :
  do_get key vsize flags (Mem c a) = None.
Proof.
  unfold do_get. apply bind_undefined, wp_select_srv. rewrite Hc, server_for_one.
  apply bind_undefined. eapply (wp_new_packet _ _ _ _ (68 * 1024) 0);
    [done|by rewrite (msg_offset_dgram s Hs)|lia|done|lia|].
  intros p0 t a' buf Ha' Hp0 Ht ->. destruct p0; [|cbn in Hp0; lia]. cbn [app]. cbn iota.
  cbn [pk_buf pk_size pk_payload]. set (hd := encode_header _ _ _).
  assert (length hd = 8%nat) as Hhd by apply length_header.
  apply bind_undefined, wp_append_1v; [by rewrite Hhd|lia|]. intros buf n t' -> Hl ->.
  rewrite !length_app in Hl. rewrite length_be_size in Hl.
  apply bind_undefined. eapply (wp_dgram_srv_send s Hs (hd ++ be_size key ++ key));
    [rewrite !length_app, Hhd; lia|rewrite length_app; lia|rewrite Hsend; f_equal; rewrite !length_app, Hhd; lia|].
  cbn [Z.leb Z.compare]. apply bind_undefined.
  replace (68 * 1024) with (Z.of_nat (length ((hd ++ be_size key ++ key) ++ t')))
    by (rewrite !length_app, length_be_size; lia).
  eapply wp_get_short; [done|rewrite !length_app, length_be_size; lia| |].
  - replace (Z.of_nat _) with (68 * 1024) by (rewrite !length_app, length_be_size; lia). exact Hrecv.
  - intros x t1 Hx. cbn [an_code Z.eqb REP_OK REP_CACHE_MISS REP_NOTIN REP_ERR REP_CACHE_HIT Pos.eqb orb andb negb].
    unfold mbind, M_bind. rewrite read_short; [done| |done].
    rewrite !length_app, length_be_size in Hx. lia.
Qed.

(** ** Witnesses: a network on which [msg] is what comes, again and again *)

Definition flood (msg : Z → bytes) : Kernel () := {|
  k_socket _ e := (Some 3, e);
  k_connect _ _ _ e := (true, e);
  k_nodelay _ e := (true, e);
  k_close _ e := e;
  k_send _ d e := (Z.of_nat (length d), e);
  k_sendto _ d e := (Z.of_nat (length d), e);
  k_recv _ n e := (Some (msg n), e);
|}.
Definition noise (n : Z) : bytes := replicate (Z.to_nat n) Byte.xff.

Lemma noise_sane : @SaneKernel () (flood noise).
Proof.
  split; cbn; [|by intros ????? [= <-]].
  intros fd n e d e' Hn [= <-]. unfold noise. rewrite length_replicate. lia.
Qed.

Definition flood_client : client () := Client [Srv 3 TCP_CONN 1 1; Srv 4 UDP_CONN 1 1] tt.
Definition flaky_alloc : alloc := Alloc Nat.even 0 Byte.x2a.

Lemma client_robust_witness :
  let k := flood noise in
  (∃ rv t, do_set (replicate 3 Byte.x61) [] 0 (Mem flood_client flaky_alloc) = Some (rv, t) ∧
     (rv = 1 ∨ rv = -1) ∧ same_servers flood_client t) ∧
  (∃ rv t, do_del (replicate 3 Byte.x61) 0 (Mem flood_client flaky_alloc) = Some (rv, t) ∧ -1 ≤ rv ≤ 1 ∧
     same_servers flood_client t) ∧
  (∃ rv t, do_cas (replicate 3 Byte.x61) [] [] 0 (Mem flood_client flaky_alloc) = Some (rv, t) ∧ -1 ≤ rv ≤ 2 ∧
     same_servers flood_client t) ∧
  (∃ rv v t, do_incr (replicate 3 Byte.x61) 1 true 0 (Mem flood_client flaky_alloc) = Some ((rv, v), t) ∧
     -1 ≤ rv ≤ 2 ∧ (is_Some v → rv = 2) ∧ same_servers flood_client t).
Proof.
  apply (@client_robust () (flood noise) noise_sane (replicate 3 Byte.x61) [] [] 1 true 0 flood_client flaky_alloc).
  cbn. lia.
Defined.

Lemma short_reply_overrun_witness :
  let k := flood (λ _, short_reply) in
  do_get [Byte.x61] (128 * 1024) 0 (Mem (Client [Srv 4 UDP_CONN 1 1] tt) (Alloc (λ _, true) 0 Byte.x2a)) = None.
Proof.
  intros k.
  apply (@short_reply_overrun () (flood (λ _, short_reply)) [Byte.x61] (128 * 1024) 0 (Srv 4 UDP_CONN 1 1) tt tt);
    [by right; left|reflexivity|done|cbn; lia|lia|reflexivity|reflexivity].
Defined.
