(* ===== verification/Dict.v ===== *)
(** * Dictionaries of objects on a server

    The bindings for other languages store objects under objects: an encoding
    turns both into bytes. Here is what they share: when the map on a server
    stands for a dictionary of objects, and how it follows the operations on
    that dictionary. *)

From S2P Require Import Prelude Words Text Chain ChainSpec Cache Net Queue Backend Server Parse ParseSpec DbLoop DbSpec Transport System.

Section dictionary.
Context {V : Type} `{EqDecision V} (enc : V → option bytes).

(** A dictionary, by the bytes of its keys. *)
Abbreviation dict := (gmap bytes V).

(** Each value on the server is the encoding of the object in the dictionary. *)
Definition stands (P : dict) (M : store) : Prop :=
  ∀ k, option_Forall2 (λ v b, enc v = Some b) (P !! k) (M !! k).

Lemma stands_insert P M k v b :
  stands P M → enc v = Some b → stands (<[k := v]> P) (<[k := b]> M).
Proof.
  intros HP Hv k'. destruct (decide (k = k')) as [-> | Hk].
  - rewrite !lookup_insert_eq. by constructor.
  - rewrite !lookup_insert_ne by done. apply HP.
Qed.

Lemma stands_delete P M k : stands P M → stands (delete k P) (delete k M).
Proof.
  intros HP k'. destruct (decide (k = k')) as [-> | Hk].
  - rewrite !lookup_delete_eq. constructor.
  - rewrite !lookup_delete_ne by done. apply HP.
Qed.

Lemma stands_some P M k v :
  stands P M → P !! k = Some v → ∃ b, M !! k = Some b ∧ enc v = Some b.
Proof. intros HP Hv. specialize (HP k). rewrite Hv in HP. inversion HP. eauto. Qed.

Lemma stands_none P M k : stands P M → P !! k = None → M !! k = None.
Proof. intros HP Hv. specialize (HP k). rewrite Hv in HP. by inversion HP. Qed.

Lemma stands_absent P M k : stands P M → bool_decide (M !! k = None) = bool_decide (P !! k = None).
Proof. intros HP. apply bool_decide_ext. specialize (HP k). by inversion HP. Qed.

(** A compare-and-swap of encoded objects compares the objects. *)
Section cas.
Context (enc_inj : ∀ x y b, enc x = Some b → enc y = Some b → x = y).
Context (P : dict) (M : store) (k : bytes) (o n : V) (bo bn : bytes).
Context (HP : stands P M) (Ho : enc o = Some bo) (Hn : enc n = Some bn).

Lemma stands_cas : stands (if decide (P !! k = Some o) then <[k := n]> P else P) (effect (ACas k bo bn) M).
Proof.
  cbn. destruct (P !! k) as [v|] eqn:Ev.
  - destruct (stands_some _ _ _ _ HP Ev) as (b & -> & Eb). destruct (decide (v = o)) as [-> | Hne].
    + rewrite !decide_True by congruence. by apply stands_insert.
    + rewrite !decide_False; [done|..]; intros [=]; [|congruence]. subst. apply Hne. by eapply enc_inj.
  - rewrite (stands_none _ _ _ HP Ev). by rewrite !decide_False.
Qed.

Lemma cas_answer :
  match M !! k with None => 0 | Some b => if decide (b = bo) then 2 else 1 end =
  match P !! k with None => 0 | Some v => if decide (v = o) then 2 else 1 end.
Proof.
  destruct (P !! k) as [v|] eqn:Ev; [|by rewrite (stands_none _ _ _ HP Ev)].
  destruct (stands_some _ _ _ _ HP Ev) as (b & -> & Eb). destruct (decide (v = o)) as [-> | Hne].
  - by rewrite decide_True by congruence.
  - rewrite decide_False; [done|]. intros ->. apply Hne. by eapply enc_inj.
Qed.
End cas.

(** [number v]: the bytes of [v], when an increment finds a number in them;
    [of_bytes] is the object for such bytes. *)
Section incr.
Context (number : V → option bytes) (of_bytes : bytes → V).
Context (number_enc : ∀ v b, enc v = Some b → number v = if ends_nul b then Some b else None).
Context (enc_bytes : ∀ v b b', number v = Some b → enc (of_bytes b') = Some b').
Context (P : dict) (M : store) (k : bytes) (n : Z) (HP : stands P M).

Definition incremented : dict :=
  match P !! k ≫= number with Some b => <[k := of_bytes (incr_block b n)]> P | None => P end.

Lemma stands_incr : stands incremented (effect (AIncr k n) M).
Proof.
  unfold incremented. cbn. destruct (P !! k) as [v|] eqn:Ev; cbn.
  - destruct (stands_some _ _ _ _ HP Ev) as (b & -> & Eb). pose proof (number_enc _ _ Eb) as Hn. rewrite Hn.
    destruct (ends_nul b); [|done]. apply stands_insert; [done|]. by eapply enc_bytes.
  - by rewrite (stands_none _ _ _ HP Ev).
Qed.
End incr.
End dictionary.

(** The code and the number that an increment answers. *)
Definition incr_code (M : store) (k : bytes) : Z :=
  match M !! k with None => 0 | Some v => if ends_nul v then 2 else 1 end.
