(* ===== verification/Python.v ===== *)
(** * The Python module (bindings/python/nmdb_ll.c, nmdb.py)

    [nmdb_ll] is a C extension: its functions parse their arguments, release
    the interpreter's lock around a call of the library, and make an object of
    the result. [nmdb] is the Python class on top of it, which presents a
    server as a dictionary. The interpreter keeps the objects of the module by
    their identity, the lock, and the exception that is set; every function of
    its C interface is undefined without the lock. *)

From S2P Require Import Prelude Words Text Chain Net Client.
From stdpp Require Import strings.

#[local] Open Scope Z_scope.

(** ** Python's objects and exceptions *)

Inductive pyexc :=
  | MemoryError | IOError | SystemError | TypeError | ValueError | OverflowError
  | AttributeError | NameError | KeyError | PicklingError | NetworkError.

#[export] Instance pyexc_eq_decision : EqDecision pyexc.
Proof. solve_decision. Defined.

(** The objects that the module makes and takes, and any other ([PyOther]). *)
Inductive pyval (O : Type) :=
  | PyInt (n : Z)
  | PyBytes (b : bytes)
  | PyStr (utf8 : bytes)
  | PyPair (a b : Z)
  | PyOther (o : O).
Arguments PyInt {O}.
Arguments PyBytes {O}.
Arguments PyStr {O}.
Arguments PyPair {O}.
Arguments PyOther {O}.

#[export] Instance pyval_eq_decision {O} `{EqDecision O} : EqDecision (pyval O).
Proof. solve_decision. Defined.

(** The units of a format of [PyArg_ParseTuple]: s#, s, i and L, and the C
    values they give. *)
Inductive funit := U_bytes | U_str | U_int | U_longlong.
Inductive cval := VBytes (b : bytes) | VInt (n : Z).

(** What the code uses of Python: the conversion of arguments, [pickle.dumps]
    with the highest protocol, [pickle.loads], and the truth of an object; and
    of the machine: [va_high n] is the upper half of the register in which an
    int [n] is passed to a function of a variable number of arguments. *)
Class Python (O : Type) := {
  py_parse : list funit → list (pyval O) → list cval + pyexc;
  py_dumps : pyval O → bytes + pyexc;
  py_loads : bytes → pyval O + pyexc;
  py_true : O → bool;
  va_high : Z → Z;
}.

(** ** The interpreter's state *)

(** [nmdbobject]: what its field [db] points to. *)
Inductive nmdbobject := DbNull | Db (srvs : list nmdb_srv) | DbFreed.

(** [py_objs] are the objects of the type [nmdb_ll.nmdb] by identity; [py_net]
    is the kernel behind all connections. *)
Record pyenv (E : Type) := PyEnv {
  py_gil : bool;
  py_err : option pyexc;
  py_objs : gmap nat nmdbobject;
  py_next : nat;
  py_net : E;
}.
Arguments PyEnv {E}.
Arguments py_gil {E}.
Arguments py_err {E}.
Arguments py_objs {E}.
Arguments py_next {E}.
Arguments py_net {E}.

Section capi.
Context {E O : Type} `{Kernel E} `{Python O}.

Definition set_gil (b : bool) (p : pyenv E) : pyenv E :=
  PyEnv b (py_err p) (py_objs p) (py_next p) (py_net p).
Definition set_err (e : option pyexc) (p : pyenv E) : pyenv E :=
  PyEnv (py_gil p) e (py_objs p) (py_next p) (py_net p).
Definition set_objs (m : gmap nat nmdbobject) (p : pyenv E) : pyenv E :=
  PyEnv (py_gil p) (py_err p) m (py_next p) (py_net p).
Definition set_pynet (e : E) (p : pyenv E) : pyenv E :=
  PyEnv (py_gil p) (py_err p) (py_objs p) (py_next p) e.

(** A function of the C interface. *)
Definition api {A} (m : MT (pyenv E) A) : MT (pyenv E) A :=
  p ← get_obj; if py_gil p then m else ub.

(** NULL with an exception set: the result of a function that failed. *)
Definition PyErr_Set {A} (e : pyexc) : MT (pyenv E) (option A) :=
  api (mod_obj (set_err (Some e));; mret None).
Definition PyErr_NoMemory {A} : MT (pyenv E) (option A) := PyErr_Set MemoryError.
Definition PyErr_SetFromErrno {A} (e : pyexc) : MT (pyenv E) (option A) := PyErr_Set e.
Definition PyErr_Occurred : MT (pyenv E) bool :=
  api (p ← get_obj; mret (bool_decide (py_err p ≠ None))).

Definition PyArg_ParseTuple (us : list funit) (args : list (pyval O))
    : MT (pyenv E) (option (list cval)) :=
  api match py_parse us args with inl vs => mret (Some vs) | inr e => PyErr_Set e end.

(** The memory of an object, whatever its type. *)
Definition SIZEOF_OBJECT : Z := 40.

(** [PyLong_FromLong], [PyBytes_FromStringAndSize], [Py_BuildValue]: an object
    of this value, if there is memory for it. *)
Definition new_value (x : pyval O) : MT (pyenv E) (option (pyval O)) :=
  api (p ← malloc SIZEOF_OBJECT;
       match p with Null => PyErr_NoMemory | _ => mret (Some x) end).
Definition PyLong_FromLong (n : Z) := new_value (PyInt n).
Definition PyBytes_FromStringAndSize (buf : bytes) (n : Z) : MT (pyenv E) (option (pyval O)) :=
  d ← read_at buf 0 n; new_value (PyBytes d).

(** [Py_BEGIN_ALLOW_THREADS] ... [Py_END_ALLOW_THREADS]: the lock is given
    back, and taken again. *)
Definition allow_threads {A} (m : MT (pyenv E) A) : MT (pyenv E) A :=
  api (mod_obj (set_gil false));;
  x ← m;
  mod_obj (set_gil true);;
  mret x.

(** A call of the library on [db->db]. *)
Definition get_db (self : nat) (p : pyenv E) : option (client E) :=
  match py_objs p !! self with Some (Db srvs) => Some (Client srvs (py_net p)) | _ => None end.
Definition put_db (self : nat) (c : client E) (p : pyenv E) : pyenv E :=
  set_pynet (c_net c) (set_objs (<[self := Db (c_servers c)]> (py_objs p)) p).
Definition on_db {A} (self : nat) (m : MT (client E) A) : MT (pyenv E) A :=
  zoom (get_db self) (put_db self) m.

(** A local variable of type int64_t that nothing was written to. *)
Definition uninitialised : MT (pyenv E) Z :=
  gets (λ s, s64 (le_combine (replicate 8 (al_junk (heap s))))).

(** ** nmdb_ll.c: connections *)

Definition db_dealloc (self : nat) : MT (pyenv E) () :=
  p ← get_obj;
  o ← lift_opt (py_objs p !! self);
  match o with
  | DbNull => mret tt
  | Db _ => on_db self nmdb_free;; mret tt
  | DbFreed => ub
  end;;
  api (mod_obj (λ p, set_objs (delete self (py_objs p)) p)).

Definition db_add_tipc_server (self : nat) (args : list (pyval O)) : MT (pyenv E) (option (pyval O)) :=
  r ← PyArg_ParseTuple [U_int] args;
  match r with
  | None => mret None
  | Some [VInt port] =>
      rv ← allow_threads (on_db self (nmdb_add_tipc_server port));
      PyLong_FromLong rv
  | _ => ub
  end.

Definition db_add_tcp_server (gethostbyname : bytes → option Z) (self : nat) (args : list (pyval O))
    : MT (pyenv E) (option (pyval O)) :=
  r ← PyArg_ParseTuple [U_str; U_int] args;
  match r with
  | None => mret None
  | Some [VBytes addr; VInt port] =>
      rv ← allow_threads (on_db self (nmdb_add_tcp_server gethostbyname addr port));
      PyLong_FromLong rv
  | _ => ub
  end.

Definition db_add_udp_server (gethostbyname : bytes → option Z) (self : nat) (args : list (pyval O))
    : MT (pyenv E) (option (pyval O)) :=
  r ← PyArg_ParseTuple [U_str; U_int] args;
  match r with
  | None => mret None
  | Some [VBytes addr; VInt port] =>
      rv ← allow_threads (on_db self (nmdb_add_udp_server gethostbyname addr port));
      PyLong_FromLong rv
  | _ => ub
  end.

(** ** nmdb_ll.c: operations

    The functions with a result of type int: the call, and the number it
    returns as an object. *)

Definition int_call (self : nat) (m : MT (client E) Z) : MT (pyenv E) (option (pyval O)) :=
  rv ← allow_threads (on_db self m); PyLong_FromLong rv.

(** The functions that fetch a value or a key: [m] writes into a block of
    [vsize] bytes. *)
Definition fetch_call (self : nat) (vsize : Z) (m : Z → MT (client E) (Z * bytes))
    : MT (pyenv E) (option (pyval O)) :=
  val ← malloc vsize;
  match val with
  | Null => PyErr_NoMemory
  | _ =>
      r ← allow_threads (on_db self (m vsize));
      let '(rv, v) := r : Z * bytes in
      buf ← deref val;
      buf ← memcpy_at buf 0 v (Z.of_nat (length v));
      r ← (if rv <=? -2 then PyErr_SetFromErrno IOError
           else if rv =? -1 then PyLong_FromLong (-1)
           else PyBytes_FromStringAndSize buf rv);
      free (Block buf);; mret r
  end.

Definition db_cache_set (self : nat) (args : list (pyval O)) : MT (pyenv E) (option (pyval O)) :=
  r ← PyArg_ParseTuple [U_bytes; U_bytes] args;
  match r with
  | None => mret None
  | Some [VBytes key; VBytes val] => int_call self (nmdb_cache_set key val)
  | _ => ub
  end.

Definition db_cache_get (self : nat) (args : list (pyval O)) : MT (pyenv E) (option (pyval O)) :=
  r ← PyArg_ParseTuple [U_bytes] args;
  match r with
  | None => mret None
  | Some [VBytes key] => fetch_call self (128 * 1024) (nmdb_cache_get key)
  | _ => ub
  end.

Definition db_cache_delete (self : nat) (args : list (pyval O)) : MT (pyenv E) (option (pyval O)) :=
  r ← PyArg_ParseTuple [U_bytes] args;
  match r with
  | None => mret None
  | Some [VBytes key] => int_call self (nmdb_cache_del key)
  | _ => ub
  end.

Definition db_cache_cas (self : nat) (args : list (pyval O)) : MT (pyenv E) (option (pyval O)) :=
  r ← PyArg_ParseTuple [U_bytes; U_bytes; U_bytes] args;
  match r with
  | None => mret None
  | Some [VBytes key; VBytes oldval; VBytes newval] => int_call self (nmdb_cache_cas key oldval newval)
  | _ => ub
  end.

(** [newval] is what the library wrote, or was never written. *)
Definition written (newval : option Z) : MT (pyenv E) Z :=
  match newval with Some n => mret n | None => uninitialised end.

Definition db_cache_incr (self : nat) (args : list (pyval O)) : MT (pyenv E) (option (pyval O)) :=
  r ← PyArg_ParseTuple [U_bytes; U_longlong] args;
  match r with
  | None => mret None
  | Some [VBytes key; VInt increment] =>
      r ← allow_threads (on_db self (nmdb_cache_incr key increment true));
      let '(rv, newval) := r : Z * option Z in
      newval ← written newval;
      new_value (PyPair rv newval)
  | _ => ub
  end.

Definition db_set (self : nat) (args : list (pyval O)) : MT (pyenv E) (option (pyval O)) :=
  r ← PyArg_ParseTuple [U_bytes; U_bytes] args;
  match r with
  | None => mret None
  | Some [VBytes key; VBytes val] => int_call self (nmdb_set key val)
  | _ => ub
  end.

Definition db_get (self : nat) (args : list (pyval O)) : MT (pyenv E) (option (pyval O)) :=
  r ← PyArg_ParseTuple [U_bytes] args;
  match r with
  | None => mret None
  | Some [VBytes key] => fetch_call self (128 * 1024) (nmdb_get key)
  | _ => ub
  end.

Definition db_delete (self : nat) (args : list (pyval O)) : MT (pyenv E) (option (pyval O)) :=
  r ← PyArg_ParseTuple [U_bytes] args;
  match r with
  | None => mret None
  | Some [VBytes key] => int_call self (nmdb_del key)
  | _ => ub
  end.

Definition db_cas (self : nat) (args : list (pyval O)) : MT (pyenv E) (option (pyval O)) :=
  r ← PyArg_ParseTuple [U_bytes; U_bytes; U_bytes] args;
  match r with
  | None => mret None
  | Some [VBytes key; VBytes oldval; VBytes newval] => int_call self (nmdb_cas key oldval newval)
  | _ => ub
  end.

(** An int passed where the unit L makes [Py_BuildValue] take a long long: the
    upper half of what it takes is whatever the register holds. *)
Definition int_as_longlong (rv : Z) : Z := s64 (w32 rv + 2 ^ 32 * va_high rv).

Definition db_incr (self : nat) (args : list (pyval O)) : MT (pyenv E) (option (pyval O)) :=
  r ← PyArg_ParseTuple [U_bytes; U_longlong] args;
  match r with
  | None => mret None
  | Some [VBytes key; VInt increment] =>
      r ← allow_threads (on_db self (nmdb_incr key increment true));
      let '(rv, newval) := r : Z * option Z in
      newval ← written newval;
      new_value (PyPair (int_as_longlong rv) newval)
  | _ => ub
  end.

Definition db_set_sync (self : nat) (args : list (pyval O)) : MT (pyenv E) (option (pyval O)) :=
  r ← PyArg_ParseTuple [U_bytes; U_bytes] args;
  match r with
  | None => mret None
  | Some [VBytes key; VBytes val] => int_call self (nmdb_set_sync key val)
  | _ => ub
  end.

Definition db_delete_sync (self : nat) (args : list (pyval O)) : MT (pyenv E) (option (pyval O)) :=
  r ← PyArg_ParseTuple [U_bytes] args;
  match r with
  | None => mret None
  | Some [VBytes key] => int_call self (nmdb_del_sync key)
  | _ => ub
  end.

Definition db_firstkey (self : nat) (args : list (pyval O)) : MT (pyenv E) (option (pyval O)) :=
  r ← PyArg_ParseTuple [] args;
  match r with
  | None => mret None
  | Some [] => fetch_call self (128 * 1024) nmdb_firstkey
  | _ => ub
  end.

Definition db_nextkey (self : nat) (args : list (pyval O)) : MT (pyenv E) (option (pyval O)) :=
  r ← PyArg_ParseTuple [U_bytes] args;
  match r with
  | None => mret None
  | Some [VBytes key] => fetch_call self (128 * 1024) (nmdb_nextkey key)
  | _ => ub
  end.

(** ** nmdb_ll.c: the type and the module *)

Definition method : Type := nat → list (pyval O) → MT (pyenv E) (option (pyval O)).

Definition nmdb_methods (gethostbyname : bytes → option Z) : list (string * method) := [
  ("add_tipc_server", db_add_tipc_server);
  ("add_tcp_server", db_add_tcp_server gethostbyname);
  ("add_udp_server", db_add_udp_server gethostbyname);
  ("cache_set", db_cache_set);
  ("cache_get", db_cache_get);
  ("cache_delete", db_cache_delete);
  ("cache_cas", db_cache_cas);
  ("cache_incr", db_cache_incr);
  ("set", db_set);
  ("get", db_get);
  ("delete", db_delete);
  ("cas", db_cas);
  ("incr", db_incr);
  ("set_sync", db_set_sync);
  ("delete_sync", db_delete_sync);
  ("firstkey", db_firstkey);
  ("nextkey", db_nextkey)
]%string.

(** [tp_alloc]: a new object, filled with zeros. *)
Definition tp_alloc : MT (pyenv E) (option nat) :=
  api (p ← malloc SIZEOF_OBJECT;
       match p with
       | Null => PyErr_NoMemory
       | _ =>
           p ← get_obj;
           mod_obj (λ p, PyEnv (py_gil p) (py_err p) (<[py_next p := DbNull]> (py_objs p))
             (S (py_next p)) (py_net p));;
           mret (Some (py_next p))
       end).

Definition set_object (self : nat) (o : nmdbobject) : MT (pyenv E) () :=
  mod_obj (λ p, set_objs (<[self := o]> (py_objs p)) p).

(** The result is the identity of the object. *)
Definition db_new (args : list (pyval O)) : MT (pyenv E) (option nat) :=
  db ← tp_alloc;
  match db with
  | None => mret None
  | Some self =>
      r ← PyArg_ParseTuple [] args;
      match r with
      | None => mret None
      | Some _ =>
          ok ← zoom (λ p, Some (Client [] (py_net p))) (λ c, set_pynet (c_net c)) nmdb_init;
          if negb (ok : bool) then PyErr_NoMemory else
          set_object self (Db []);;
          err ← PyErr_Occurred;
          if err : bool then
            on_db self nmdb_free;; set_object self DbFreed;; mret None
          else mret (Some self)
      end
  end.

(** [nmdb_functions]; the module: its name and its functions. [ready] and
    [created]: what [PyType_Ready] and [PyModule_Create] do. *)
Definition nmdb_functions : list (string * (list (pyval O) → MT (pyenv E) (option nat))) :=
  [("new", db_new)]%string.
Record pymodule := PyModule {
  m_name : string;
  m_methods : list (string * (list (pyval O) → MT (pyenv E) (option nat)));
}.
Definition PyInit_nmdb_ll (ready created : bool) : MT (pyenv E) (option pymodule) :=
  api (if negb ready then PyErr_Set SystemError
       else if negb created then PyErr_NoMemory
       else mret (Some (PyModule "nmdb_ll" nmdb_functions))).
End capi.
