(* ===== verification/NmdbPy.v ===== *)
(** * The Python classes (bindings/python/nmdb.py)

    [GenericDB] holds an object of [nmdb_ll] and calls its methods by name; its
    subclasses [Cache], [DB] and [SyncDB] choose among its methods. A Python
    function is a computation that returns a value or raises an exception. *)

From S2P Require Import Prelude Words Text Chain Net Client Python.
From stdpp Require Import strings.

#[local] Open Scope Z_scope.

(** ** Functions that may raise *)

Abbreviation py E := (exc (mem (pyenv E)) pyexc).

Section nmdb.
Context {E O : Type} `{Kernel E} `{Python O}.
Context (gethostbyname : bytes → option Z).

(** What the interpreter makes of the result of a C function: NULL stands for
    the exception that is set; NULL without one, or a result with one, is an
    error of the module. *)
Definition checked {A} (r : option A) : py E A := λ s,
  let p := obj s in
  let s' := Mem (set_err None p) (heap s) in
  match r, py_err p with
  | Some x, None => Some (inl x, s)
  | None, Some e => Some (inr e, s')
  | _, _ => Some (inr SystemError, s')
  end.
Definition c_call {A} (m : MT (pyenv E) (option A)) : py E A := λ s,
  match m s with Some (r, s') => checked r s' | None => None end.

Fixpoint by_name {A} (name : string) (l : list (string * A)) : option A :=
  match l with
  | [] => None
  | (n, f) :: l => if decide (n = name) then Some f else by_name name l
  end.

(** ** GenericDB *)

Record GenericDB := GenericDb { _db : nat; autopickle : bool }.

(** [self._db.name(args)] *)
Definition ll (d : GenericDB) (name : string) (args : list (pyval O)) : py E (pyval O) :=
  match by_name name (nmdb_methods gethostbyname) with
  | None => raise AttributeError
  | Some f => c_call (f (_db d) args)
  end.

(** [GenericDB.__init__] *)
Definition GenericDB_init : py E GenericDB :=
  match by_name "new" (nmdb_functions (E := E) (O := O)) with
  | None => raise AttributeError
  | Some new => db ← c_call (new []); mret (GenericDb db true)
  end.

(** Comparing with a number, and [if not rv]. *)
Definition is_int (r : pyval O) (n : Z) : bool :=
  match r with PyInt m => m =? n | _ => false end.
Definition as_int (r : pyval O) : py E Z :=
  match r with PyInt n => mret n | _ => raise TypeError end.
Definition truth_of (r : pyval O) : bool :=
  match r with
  | PyInt n => negb (n =? 0)
  | PyBytes b | PyStr b => bool_decide (b ≠ [])
  | PyPair _ _ => true
  | PyOther o => py_true o
  end.

Definition add_tipc_server (d : GenericDB) (port : Z) : py E (pyval O) :=
  rv ← ll d "add_tipc_server" [PyInt port];
  if negb (truth_of rv) then raise NetworkError else mret rv.
Definition add_tcp_server (d : GenericDB) (addr : bytes) (port : Z) : py E (pyval O) :=
  rv ← ll d "add_tcp_server" [PyStr addr; PyInt port];
  if negb (truth_of rv) then raise NetworkError else mret rv.
Definition add_udp_server (d : GenericDB) (addr : bytes) (port : Z) : py E (pyval O) :=
  rv ← ll d "add_udp_server" [PyStr addr; PyInt port];
  if negb (truth_of rv) then raise NetworkError else mret rv.

(** [if self.autopickle: x = pickle.dumps(x, protocol = -1)], and the same for
    [loads]. *)
Definition pickled (d : GenericDB) (x : pyval O) : py E (pyval O) :=
  if autopickle d then b ← of_sum (py_dumps x); mret (PyBytes b) else mret x.
Definition unpickled (d : GenericDB) (r : pyval O) : py E (pyval O) :=
  if autopickle d
  then match r with PyBytes b => of_sum (py_loads b) | _ => raise TypeError end
  else mret r.

Definition generic_get (getf : list (pyval O) → py E (pyval O)) (d : GenericDB) (key : pyval O)
    : py E (pyval O) :=
  key ← pickled d key;
  r ← try_except (getf [key]) (λ _, raise NetworkError);
  if is_int r (-1) then raise KeyError else unpickled d r.
Definition cache_get (d : GenericDB) := generic_get (ll d "cache_get") d.
Definition normal_get (d : GenericDB) := generic_get (ll d "get") d.

Definition generic_set (setf : list (pyval O) → py E (pyval O)) (d : GenericDB) (key val : pyval O)
    : py E Z :=
  key ← pickled d key;
  val ← pickled d val;
  r ← setf [key; val];
  r ← as_int r;
  if r <=? 0 then raise NetworkError else mret 1.
Definition cache_set (d : GenericDB) := generic_set (ll d "cache_set") d.
Definition normal_set (d : GenericDB) := generic_set (ll d "set") d.
Definition set_sync (d : GenericDB) := generic_set (ll d "set_sync") d.

Definition generic_delete (delf : list (pyval O) → py E (pyval O)) (d : GenericDB) (key : pyval O)
    : py E Z :=
  key ← pickled d key;
  r ← delf [key];
  r ← as_int r;
  if r <? 0 then raise NetworkError
  else if r =? 0 then raise KeyError
  else mret 1.
Definition cache_delete (d : GenericDB) := generic_delete (ll d "cache_delete") d.
Definition normal_delete (d : GenericDB) := generic_delete (ll d "delete") d.
Definition delete_sync (d : GenericDB) := generic_delete (ll d "delete_sync") d.

Definition generic_cas (casf : list (pyval O) → py E (pyval O)) (d : GenericDB)
    (key oldval newval : pyval O) : py E Z :=
  key ← pickled d key;
  oldval ← pickled d oldval;
  newval ← pickled d newval;
  r ← casf [key; oldval; newval];
  if is_int r 2 then mret 2
  else if is_int r 1 then mret 1
  else if is_int r 0 then raise KeyError
  else raise NetworkError.

(** The names of the module, for a name that is not local to a function. *)
Definition nmdb_globals : list string :=
  ["pickle"; "nmdb_ll"; "NetworkError"; "GenericDB"; "Cache"; "DB"; "SyncDB"]%string.
Definition load_global (name : string) : py E () :=
  if decide (name ∈ nmdb_globals) then mret tt else raise NameError.

(** The parameters are called [oldv] and [newv]; the body says [oldval] and
    [newval]. *)
Definition cache_cas (d : GenericDB) (key oldv newv : pyval O) : py E Z :=
  load_global "oldval";;
  load_global "newval";;
  generic_cas (ll d "cache_cas") d key oldv newv.
Definition normal_cas (d : GenericDB) := generic_cas (ll d "cas") d.

Definition generic_incr (incrf : list (pyval O) → py E (pyval O)) (d : GenericDB) (key : pyval O)
    (increment : Z) : py E Z :=
  key ← pickled d key;
  rv ← incrf [key; PyInt increment];
  match rv with
  | PyPair r v =>
      if r =? 2 then mret v
      else if r =? 1 then raise TypeError
      else if r =? 0 then raise KeyError
      else raise NetworkError
  | _ => raise TypeError
  end.
Definition cache_incr (d : GenericDB) := generic_incr (ll d "cache_incr") d.
Definition normal_incr (d : GenericDB) := generic_incr (ll d "incr") d.

Definition firstkey (d : GenericDB) : py E (pyval O) :=
  r ← try_except (ll d "firstkey" []) (λ _, raise NetworkError);
  if is_int r (-1) then raise KeyError else unpickled d r.
Definition nextkey (d : GenericDB) (key : pyval O) : py E (pyval O) :=
  key ← pickled d key;
  r ← try_except (ll d "nextkey" [key]) (λ _, raise NetworkError);
  if is_int r (-1) then raise KeyError else unpickled d r.

(** ** The classes *)

Record pyclass := PyClass {
  get : GenericDB → pyval O → py E (pyval O);
  set : GenericDB → pyval O → pyval O → py E Z;
  delete : GenericDB → pyval O → py E Z;
  cas : GenericDB → pyval O → pyval O → pyval O → py E Z;
  incr : GenericDB → pyval O → Z → py E Z;
}.
Definition Cache : pyclass := PyClass cache_get cache_set cache_delete cache_cas cache_incr.
Definition DB : pyclass := PyClass normal_get normal_set normal_delete normal_cas normal_incr.
Definition SyncDB : pyclass := PyClass normal_get set_sync delete_sync normal_cas normal_incr.

Definition getitem (cls : pyclass) := get cls.
Definition setitem (cls : pyclass) := set cls.
Definition delitem (cls : pyclass) := delete cls.
Definition contains (cls : pyclass) (d : GenericDB) (key : pyval O) : py E bool :=
  r ← try_except (x ← get cls d key; mret (Some x))
        (λ e, if decide (e = KeyError) then mret None else raise e);
  match r with
  | None => mret false
  | Some r => if negb (truth_of r) then mret false else mret true
  end.
Definition has_key := contains.
End nmdb.
