(* ===== verification/PythonSpec.v ===== *)
(** * What the Python classes do

    A [DB] or [SyncDB] with a connection to a server that stands for a map is a
    dictionary of pickled objects. The C functions are proved to give the lock
    back and to take it again, and to set an exception exactly when they return
    NULL; the classes are proved on top of that against the specification of a
    dictionary. *)

From S2P Require Import Prelude Words Text Chain ChainSpec Cache Net Queue Backend Server Parse ParseSpec DbLoop DbSpec Transport System Client ClientSpec ClientSelect ClientRobust Dict Python NmdbPy.
From stdpp Require Import strings.

#[local] Open Scope Z_scope.

(** ** What the code relies on *)

(** An argument that a unit of a format takes. *)
Definition unit_takes {O} (u : funit) (x : pyval O) (v : cval) : Prop :=
  match u, x, v with
  | U_bytes, PyBytes b, VBytes b' => b' = b
  | U_str, PyStr b, VBytes b' => b' = b ∧ Byte.x00 ∉ b
  | U_int, PyInt n, VInt n' => n' = n ∧ - 2 ^ 31 ≤ n < 2 ^ 31
  | U_longlong, PyInt n, VInt n' => n' = n ∧ - 2 ^ 63 ≤ n < 2 ^ 63
  | _, _, _ => False
  end.

(** The values that a unit can give. *)
Definition unit_gives (u : funit) (v : cval) : Prop :=
  match u, v with
  | U_bytes, VBytes _ | U_str, VBytes _ => True
  | U_int, VInt n => - 2 ^ 31 ≤ n < 2 ^ 31
  | U_longlong, VInt n => - 2 ^ 63 ≤ n < 2 ^ 63
  | _, _ => False
  end.

(** [pickle.loads] undoes [pickle.dumps], and a pickle ends with a full stop. *)
Class PythonLaws (O : Type) `{Python O} := {
  parse_takes us xs vs : Forall3 unit_takes us xs vs → py_parse us xs = inl vs;
  parse_gives us xs vs : py_parse us xs = inl vs → Forall2 unit_gives us vs;
  loads_dumps x b : py_dumps x = inl b → py_loads b = inl x;
  dumps_stop x b : py_dumps x = inl b → last b = Some Byte.x2e;
}.

(** ** The C interface *)

Section capi.
Context {E O : Type} `{Kernel E} `{PythonLaws O}.

(** The lock is held, no exception is set, and [self] has the connection [c]. *)
Record py_at (self : nat) (p : pyenv E) (c : client E) : Prop := PyAt {
  pa_gil : py_gil p = true;
  pa_err : py_err p = None;
  pa_db : get_db self p = Some c;
}.

(** The other objects stay as they are. *)
Definition others_kept (self : nat) (p p' : pyenv E) : Prop :=
  py_next p' = py_next p ∧ delete self (py_objs p') = delete self (py_objs p).

Lemma put_db_at self c0 c p : py_at self p c0 → py_at self (put_db self c p) c.
Proof.
  intros [Hg He _]. split; [done|done|]. unfold get_db, put_db. cbn. rewrite lookup_insert_eq. by destruct c.
Qed.

Lemma put_db_kept self c p : others_kept self p (put_db self c p).
Proof. split; [done|]. cbn. apply delete_insert_eq. Qed.

Lemma wp_api {A} p a (m : MT (pyenv E) A) (Q : A → mem (pyenv E) → Prop) :
  py_gil p = true → wp m Q (Mem p a) → wp (api m) Q (Mem p a).
Proof. intros Hg Hm. unfold api. wp_simpl. by rewrite Hg. Qed.

Lemma wp_new_value x p a (Q : option (pyval O) → mem (pyenv E) → Prop) :
  py_gil p = true → never_fails a → Q (Some x) (Mem p (al_tick a)) → wp (new_value x) Q (Mem p a).
Proof. intros Hg Ha HQ. apply wp_api; [done|]. apply wp_bind, wp_malloc; [done|]. by wp_simpl. Qed.

Lemma wp_parse us xs vs p a (Q : option (list cval) → mem (pyenv E) → Prop) :
  py_gil p = true → Forall3 unit_takes us xs vs → Q (Some vs) (Mem p a) →
  wp (PyArg_ParseTuple us xs) Q (Mem p a).
Proof. intros Hg Hx HQ. apply wp_api; [done|]. by rewrite (parse_takes _ _ _ Hx). Qed.

(** A call of the library, without the lock. *)
Lemma wp_lib {A} self (m : MT (client E) A) p a c (Q : A → mem (pyenv E) → Prop) :
  py_at self p c →
  wp m (λ x t, Q x (Mem (put_db self (obj t) p) (heap t))) (Mem c a) →
  wp (allow_threads (on_db self m)) Q (Mem p a).
Proof.
  intros [Hg He Hdb] Hm. unfold allow_threads. apply wp_bind, wp_api; [done|]. wp_simpl.
  unfold on_db. rewrite wp_zoom by exact Hdb. eapply wp_mono; [exact Hm|].
  intros x [c' a'] HQ. wp_simpl. cbn [obj heap] in HQ.
  replace (set_gil true _) with (put_db self c' p); [done|]. unfold put_db, set_gil, set_pynet, set_objs.
  cbn. by rewrite Hg.
Qed.
End capi.

(** ** The C functions, on a server that stands for a map *)

Section functions.
Context {E O : Type} `{Kernel E} `{PythonLaws O} (gethostbyname : bytes → option Z).
Context (s : nmdb_srv) `{!MapService E s}.

(** [self] is connected to [s], which stands for [M]; the other objects are
    those of [p]. *)
Definition connected (self : nat) (p : pyenv E) (M : store) (t : mem (pyenv E)) : Prop :=
  never_fails (heap t) ∧ others_kept self p (obj t) ∧
  ∃ c, py_at self (obj t) c ∧ c_servers c = [s] ∧ svc_is (c_net c) M.

Lemma connected_refl self p c M a :
  never_fails a → py_at self p c → c_servers c = [s] → svc_is (c_net c) M → connected self p M (Mem p a).
Proof. intros. split; [done|]. split; [by split|]. by exists c. Qed.

Lemma connected_trans self p M M' t t' :
  connected self p M t → connected self (obj t) M' t' → connected self p M' t'.
Proof. intros (_ & [Hn Ho] & _) (Ha & [Hn' Ho'] & Hc). split; [done|]. split; [split; congruence|done]. Qed.

Section call.
Context (self : nat) (p : pyenv E) (c : client E) (a : alloc) (M : store).
Context (Ha : never_fails a) (Hp : py_at self p c) (Hc : c_servers c = [s]) (HM : svc_is (c_net c) M).

Lemma served_connected M' t : served s c M' t → connected self p M' (Mem (put_db self (obj t) p) (heap t)).
Proof.
  intros (Ha' & Hc' & HM'). split; [done|]. split; [apply put_db_kept|]. exists (obj t).
  split; [by eapply put_db_at|]. split; [by rewrite Hc'|done].
Qed.

Lemma py_sel key : server_for (c_servers c) key = Some s.
Proof. rewrite Hc. apply server_for_one. Qed.

Lemma wp_value_connected x M' t (Q : option (pyval O) → mem (pyenv E) → Prop) :
  connected self p M' t → (∀ t, connected self p M' t → Q (Some x) t) →
  wp (new_value x) Q t.
Proof.
  intros (Ha' & Hk & c' & [Hg He Hdb] & Hc') HQ. destruct t as [p' a']. apply wp_new_value; [done|done|].
  apply HQ. split; [by auto with nmdb|]. split; [done|]. by exists c'.
Qed.

Lemma wp_int_call (m : MT (client E) Z) n M' (Q : option (pyval O) → mem (pyenv E) → Prop) :
  wp m (λ rv t, rv = n ∧ served s c M' t) (Mem c a) →
  (∀ t, connected self p M' t → Q (Some (PyInt n)) t) →
  wp (int_call self m) Q (Mem p a).
Proof.
  intros Hm HQ. unfold int_call. apply wp_bind. eapply wp_lib; [done|].
  eapply wp_mono; [exact Hm|]. intros rv t [-> Ht%served_connected]. by eapply wp_value_connected.
Qed.

(** What a function that fetches gives for a value, or for none. *)
Definition fetched_obj (v : option bytes) : pyval O :=
  match v with Some v => PyBytes v | None => PyInt (-1) end.

Lemma wp_fetch_call vsize (m : Z → MT (client E) (Z * bytes)) v (Q : option (pyval O) → mem (pyenv E) → Prop) :
  (∀ v', v = Some v' → Z.of_nat (length v') ≤ vsize) → 0 ≤ vsize →
  (∀ a, never_fails a → wp (m vsize) (λ r t,
    r = match v with Some v => (Z.of_nat (length v), v) | None => (-1, []) end ∧ served s c M t) (Mem c a)) →
  (∀ t, connected self p M t → Q (Some (fetched_obj v)) t) →
  wp (fetch_call self vsize m) Q (Mem p a).
Proof.
  intros Hv Hvs Hm HQ. unfold fetch_call. apply wp_bind, wp_malloc; [done|]. cbn iota.
  apply wp_bind. eapply wp_lib; [done|]. eapply wp_mono; [apply Hm; by auto with nmdb|].
  intros r t [-> Ht%served_connected]. cbn [deref].
  set (b := replicate _ _). assert (length b = Z.to_nat vsize) as Hb by apply length_replicate. clearbody b.
  destruct v as [v|]; cbn iota; apply wp_bind, wp_ret, wp_bind.
  - specialize (Hv v eq_refl). apply (wp_memcpy_at [] b); [done|done|lia|]. intros t' Ht'. cbn [app].
    rewrite (proj2 (Z.leb_gt _ (-2))), (proj2 (Z.eqb_neq _ (-1))) by lia. apply wp_bind.
    unfold PyBytes_FromStringAndSize. apply wp_bind, wp_read_prefix; [done|].
    eapply wp_value_connected; [done|]. intros t2 Ht2. cbn [free]. wp_simpl. by apply HQ.
  - apply (wp_memcpy_at [] b); [done|done|cbn; lia|]. intros t' Ht'. cbn [Z.leb Z.eqb Z.compare Pos.eqb CompOpp Pos.compare Pos.compare_cont].
    apply wp_bind. eapply wp_value_connected; [done|]. intros t2 Ht2. cbn [free]. wp_simpl. by apply HQ.
Qed.

(** The methods, as Python calls them. *)
Lemma wp_ll d name f args x M' (Q : pyval O + pyexc → mem (pyenv E) → Prop) :
  _db d = self → by_name name (nmdb_methods gethostbyname) = Some f →
  wp (f self args) (λ r t, r = Some x ∧ connected self p M' t) (Mem p a) →
  (∀ t, connected self p M' t → Q (inl x) t) →
  wp (ll gethostbyname d name args) Q (Mem p a).
Proof.
  intros Hd Hf Hw HQ. unfold ll. rewrite Hf, Hd. apply wp_exec in Hw as (r & t & Hw & -> & Ht).
  apply wp_exec. unfold c_call. rewrite Hw. unfold checked. pose proof Ht as (_ & _ & c' & [_ -> _] & _).
  eexists _, _. split; [done|]. by apply HQ.
Qed.

Context (d : GenericDB) (Hd : _db d = self).

(** A method that is found by its name and parses its arguments. *)
Ltac parse vs :=
  apply wp_bind, (wp_parse _ _ vs); [by eapply pa_gil|repeat constructor; cbn; lia|]; cbn iota beta.
Ltac method vs := eapply wp_ll; [exact Hd|reflexivity|parse vs|].

Lemma wp_ll_get k (Q : pyval O + pyexc → mem (pyenv E) → Prop) :
  call_ok (CGet k (128 * 1024)) → call_fits svc_limit (CGet k (128 * 1024)) →
  (∀ t, connected self p M t → Q (inl (fetched_obj (M !! k))) t) →
  wp (ll gethostbyname d "get" [PyBytes k]) Q (Mem p a).
Proof.
  intros Hok Hlim HQ. method [VBytes k]; [|exact HQ].
  assert (∀ v, M !! k = Some v → Z.of_nat (length v) ≤ 128 * 1024) as Hv.
  { intros v Hv. pose proof (svc_fits _ _ HM _ _ Hv) as (_ & _ & Hl). unfold db_buf_size in Hl. lia. }
  eapply (wp_fetch_call _ _ (M !! k)); [exact Hv|lia| |by intros t Ht; split].
  intros a' Ha'. eapply wp_mono; [by apply (wp_do_get s c a' M Ha' HM k (py_sel k) _ 0)|].
  intros r t [Hr Ht]. split; [|done]. destruct (M !! k) as [v|]; [|done].
  destruct Hr as [-> | [[=] _]]. unfold fetched. by rewrite (proj2 (Z.ltb_ge _ _)) by by apply Hv.
Qed.

Lemma wp_ll_set sync k v (Q : pyval O + pyexc → mem (pyenv E) → Prop) :
  call_ok (CSet sync k v) → call_fits svc_limit (CSet sync k v) →
  (∀ t, connected self p (<[k := v]> M) t → Q (inl (PyInt 1)) t) →
  wp (ll gethostbyname d (if sync then "set_sync" else "set")%string [PyBytes k; PyBytes v]) Q (Mem p a).
Proof.
  intros Hok Hlim HQ. destruct sync; (method [VBytes k; VBytes v]; [|exact HQ]);
    (eapply wp_int_call; [|by intros t Ht; split]);
    apply (wp_do_set s c a M Ha HM k (py_sel k) v); try done; by eapply sendable_flags.
Qed.

Lemma wp_ll_delete sync k (Q : pyval O + pyexc → mem (pyenv E) → Prop) :
  call_ok (CDel sync k) → call_fits svc_limit (CDel sync k) →
  (∀ t, connected self p (delete k M) t →
     Q (inl (PyInt (if sync && bool_decide (M !! k = None) then 0 else 1))) t) →
  wp (ll gethostbyname d (if sync then "delete_sync" else "delete")%string [PyBytes k]) Q (Mem p a).
Proof.
  intros Hok Hlim HQ. destruct sync; (method [VBytes k]; [|exact HQ]);
    (eapply wp_int_call; [|by intros t Ht; split]).
  - apply (wp_do_del s c a M Ha HM k (py_sel k) NMDB_SYNC); try done. by eapply sendable_flags.
  - apply (wp_do_del s c a M Ha HM k (py_sel k) 0); done.
Qed.

Lemma wp_ll_cas k o n (Q : pyval O + pyexc → mem (pyenv E) → Prop) :
  call_ok (CCas k o n) → call_fits svc_limit (CCas k o n) →
  (∀ t, connected self p (effect (ACas k o n) M) t →
     Q (inl (PyInt (match M !! k with None => 0 | Some v => if decide (v = o) then 2 else 1 end))) t) →
  wp (ll gethostbyname d "cas" [PyBytes k; PyBytes o; PyBytes n]) Q (Mem p a).
Proof.
  intros Hok Hlim HQ. method [VBytes k; VBytes o; VBytes n]; [|exact HQ]. eapply wp_int_call; [|by intros t Ht; split].
  by apply (wp_do_cas s c a M Ha HM k (py_sel k) o n 0).
Qed.

Lemma wp_ll_incr k n (Q : pyval O + pyexc → mem (pyenv E) → Prop) :
  call_ok (CIncr k n) → call_fits svc_limit (CIncr k n) →
  (∀ t x, connected self p (effect (AIncr k n) M) t →
     (∀ v, M !! k = Some v → ends_nul v = true → x = incr_num v n) →
     Q (inl (PyPair (int_as_longlong (incr_code M k)) x)) t) →
  wp (ll gethostbyname d "incr" [PyBytes k; PyInt n]) Q (Mem p a).
Proof.
  intros Hok Hlim HQ. pose proof (sd_store _ _ Hok) as Hn. cbn in Hn. unfold INT64_MIN, INT64_MAX in Hn.
  assert (wp (db_incr self [PyBytes k; PyInt n]) (λ r t, ∃ x,
      r = Some (PyPair (int_as_longlong (incr_code M k)) x) ∧ connected self p (effect (AIncr k n) M) t ∧
      (∀ v, M !! k = Some v → ends_nul v = true → x = incr_num v n)) (Mem p a)) as Hw.
  { parse [VBytes k; VInt n]. apply wp_bind. eapply wp_lib; [done|].
    eapply wp_mono; [by apply (wp_do_incr s c a M Ha HM k (py_sel k) n true 0)|].
    intros r t [-> Ht%served_connected]. unfold incr_code.
    destruct (M !! k) as [v|]; [destruct (ends_nul v) eqn:Ev|]; cbn iota; unfold written;
      wp_simpl; unfold uninitialised; wp_simpl;
      (eapply wp_value_connected; [exact Ht|]); intros t' Ht'; eexists; (split; [done|]); (split; [done|]);
      intros v' [=]; congruence. }
  apply wp_exec in Hw as (r & t & Hw & x & -> & Ht & Hx).
  eapply (wp_ll d "incr" db_incr _ (PyPair (int_as_longlong (incr_code M k)) x)); [done|done| |].
  - apply wp_exec. eexists _, _. split; [exact Hw|]. by split.
  - intros t' Ht'. by apply HQ.
Qed.
End call.
End functions.

(** ** Dictionaries *)

Section dictionary.
Context {O : Type} `{PythonLaws O} `{!EqDecision O}.

(** The bytes that stand for an object on the server: its pickle, or the
    object itself when it is a byte string and [autopickle] is off. *)
Definition encoded (auto : bool) (x : pyval O) : option bytes :=
  if auto then match py_dumps x with inl b => Some b | inr _ => None end
  else match x with PyBytes b => Some b | _ => None end.

Lemma encoded_inj auto x y b : encoded auto x = Some b → encoded auto y = Some b → x = y.
Proof.
  unfold encoded. destruct auto; [|destruct x, y; naive_solver].
  destruct (py_dumps x) as [b1|] eqn:E1, (py_dumps y) as [b2|] eqn:E2; try done. intros [= ->] [= ->].
  apply loads_dumps in E1, E2. congruence.
Qed.

(** What a program does with a dictionary. *)
Inductive dict_op :=
  | OGet (k : pyval O)
  | OSet (k v : pyval O)
  | ODel (k : pyval O)
  | OIn (k : pyval O)
  | OCas (k old new : pyval O)
  | OIncr (k : pyval O) (n : Z).

(** How it ends: with an object, a number, a truth value, or an exception. *)
Inductive dict_result := RObj (x : pyval O) | RInt (n : Z) | RBool (b : bool) | RRaise (e : pyexc).

Definition op_key (x : dict_op) : pyval O :=
  match x with OGet k | OSet k _ | ODel k | OIn k | OCas k _ _ | OIncr k _ => k end.

(** The number that an increment finds: only in a byte string that is stored
    as it is. *)
Definition number_in (auto : bool) (v : pyval O) : option bytes :=
  match v with PyBytes b => if negb auto && ends_nul b then Some b else None | _ => None end.

(** The operations on a dictionary, the key being [k] as bytes. Deleting tells
    whether the key was there only in a [SyncDB]; an object that counts as
    false is not [in] the dictionary. *)
Definition dict_result_of (sync auto : bool) (x : dict_op) (k : bytes) (P : gmap bytes (pyval O)) : dict_result :=
  match x with
  | OGet _ => match P !! k with Some v => RObj v | None => RRaise KeyError end
  | OSet _ _ => RInt 1
  | ODel _ => if sync && bool_decide (P !! k = None) then RRaise KeyError else RInt 1
  | OIn _ => RBool match P !! k with Some v => truth_of v | None => false end
  | OCas _ old _ =>
      match P !! k with
      | Some v => RInt (if decide (v = old) then 2 else 1)
      | None => RRaise KeyError
      end
  | OIncr _ n =>
      match P !! k with
      | Some v => match number_in auto v with Some b => RInt (incr_num b n) | None => RRaise TypeError end
      | None => RRaise KeyError
      end
  end.

Definition dict_after (auto : bool) (x : dict_op) (k : bytes) (P : gmap bytes (pyval O)) : gmap bytes (pyval O) :=
  match x with
  | OSet _ v => <[k := v]> P
  | ODel _ => delete k P
  | OCas _ old new => if decide (P !! k = Some old) then <[k := new]> P else P
  | OIncr _ n => incremented (number_in auto) PyBytes P k n
  | _ => P
  end.

(** The call that an operation makes of the library. *)
Definition op_call (sync auto : bool) (x : dict_op) : option call :=
  k ← encoded auto (op_key x);
  match x with
  | OGet _ | OIn _ => Some (CGet k (128 * 1024))
  | OSet _ v => v ← encoded auto v; Some (CSet sync k v)
  | ODel _ => Some (CDel sync k)
  | OCas _ o n => o ← encoded auto o; n ← encoded auto n; Some (CCas k o n)
  | OIncr _ n => Some (CIncr k n)
  end.

(** A number is found where the server finds one. *)
Lemma number_encoded auto v b :
  encoded auto v = Some b → number_in auto v = if ends_nul b then Some b else None.
Proof.
  unfold encoded, number_in. destruct auto; cbn [negb andb].
  - destruct (py_dumps v) as [b'|] eqn:E; [|done]. intros [= ->]. apply dumps_stop in E.
    unfold ends_nul. rewrite E. rewrite bool_decide_false by done. by destruct v.
  - destruct v; try done. by intros [= ->].
Qed.

Lemma encoded_bytes auto v b b' : number_in auto v = Some b → encoded auto (PyBytes b') = Some b'.
Proof. unfold number_in, encoded. by destruct v, auto. Qed.

(** The map follows the dictionary. *)
Lemma stands_effect sync auto x k0 y P M :
  op_call sync auto x = Some y → encoded auto (op_key x) = Some k0 → stands (encoded auto) P M →
  stands (encoded auto) (dict_after auto x k0 P) (effect (call_msg y) M).
Proof.
  unfold op_call. intros Hy Hk HP. rewrite Hk in Hy. cbn in Hy.
  destruct x as [k|k v|k|k|k o n|k n]; cbn in Hy.
  - by injection Hy as <-.
  - destruct (encoded auto v) as [b|] eqn:Ev; [|done]. injection Hy as <-. by apply stands_insert.
  - injection Hy as <-. by apply stands_delete.
  - by injection Hy as <-.
  - destruct (encoded auto o) as [bo|] eqn:Eo, (encoded auto n) as [bn|] eqn:En; try done.
    injection Hy as <-. apply stands_cas; [apply encoded_inj|done..].
  - injection Hy as <-. apply stands_incr; [by apply number_encoded|by apply encoded_bytes|done].
Qed.
End dictionary.
Arguments dict_op : clear implicits.
Arguments dict_result : clear implicits.

(** ** The classes DB and SyncDB *)

Section classes.
Context {E O : Type} `{Kernel E} `{PythonLaws O} `{!EqDecision O} (gethostbyname : bytes → option Z).

Definition outcome {A} (f : A → dict_result O) (m : py E A) : MT (pyenv E) (dict_result O) := λ t,
  match m t with
  | Some (inl x, t') => Some (f x, t')
  | Some (inr e, t') => Some (RRaise e, t')
  | None => None
  end.

Definition class_of (sync : bool) : pyclass := if sync then SyncDB gethostbyname else DB gethostbyname.

Definition run_op (sync : bool) (d : GenericDB) (x : dict_op O) : MT (pyenv E) (dict_result O) :=
  let cls := class_of sync in
  match x with
  | OGet k => outcome RObj (getitem cls d k)
  | OSet k v => outcome RInt (setitem cls d k v)
  | ODel k => outcome RInt (delitem cls d k)
  | OIn k => outcome RBool (contains cls d k)
  | OCas k o n => outcome RInt (cas cls d k o n)
  | OIncr k n => outcome RInt (incr cls d k n)
  end.

Fixpoint run_ops (sync : bool) (d : GenericDB) (xs : list (dict_op O)) : MT (pyenv E) (list (dict_result O)) :=
  match xs with
  | [] => mret []
  | x :: xs => r ← run_op sync d x; rs ← run_ops sync d xs; mret (r :: rs)
  end.

Lemma wp_outcome {A} f (m : py E A) (Q : dict_result O → mem (pyenv E) → Prop) t :
  wp m (λ r t, Q match r with inl x => f x | inr e => RRaise e end t) t → wp (outcome f m) Q t.
Proof.
  rewrite !wp_exec. unfold outcome. by intros (r & t' & -> & HQ); destruct r; eexists _, _.
Qed.

Lemma wp_pickled d x b (Q : pyval O + pyexc → mem (pyenv E) → Prop) t :
  encoded (autopickle d) x = Some b → Q (inl (PyBytes b)) t → wp (pickled d x) Q t.
Proof.
  unfold encoded, pickled. intros Hx HQ. destruct (autopickle d).
  - destruct (py_dumps x) as [b'|]; [|done]. injection Hx as ->. by wp_simpl.
  - destruct x; try done. injection Hx as ->. by wp_simpl.
Qed.

Lemma wp_unpickled d x b (Q : pyval O + pyexc → mem (pyenv E) → Prop) t :
  encoded (autopickle d) x = Some b → Q (inl x) t → wp (unpickled d (PyBytes b)) Q t.
Proof.
  unfold encoded, unpickled. intros Hx HQ. destruct (autopickle d).
  - destruct (py_dumps x) as [b'|] eqn:Ex; [|done]. injection Hx as ->. wp_simpl.
    by rewrite (loads_dumps _ _ Ex).
  - destruct x; try done. injection Hx as ->. by wp_simpl.
Qed.

Context (s : nmdb_srv) `{!MapService E s}.

Section op.
Context (sync : bool) (d : GenericDB) (p : pyenv E) (c : client E) (a : alloc) (M : store) (P : gmap bytes (pyval O)).
Context (Ha : never_fails a) (Hp : py_at (_db d) p c) (Hc : c_servers c = [s]) (HM : svc_is (c_net c) M).
Context (HP : stands (encoded (autopickle d)) P M).

Lemma wp_getitem k kb (Q : pyval O + pyexc → mem (pyenv E) → Prop) :
  encoded (autopickle d) k = Some kb → call_ok (CGet kb (128 * 1024)) →
  call_fits svc_limit (CGet kb (128 * 1024)) →
  (∀ t, connected s (_db d) p M t → Q match P !! kb with Some v => inl v | None => inr KeyError end t) →
  wp (getitem (class_of sync) d k) Q (Mem p a).
Proof.
  intros Hk Hok Hlim HQ. assert (getitem (class_of sync) = normal_get gethostbyname) as -> by by destruct sync.
  unfold normal_get, generic_get. wp_simpl. eapply wp_pickled; [done|]. wp_simpl.
  eapply (wp_ll_get gethostbyname s _ p c a M Ha Hp Hc HM d); [done|done|done|]. intros t Ht. specialize (HQ t Ht).
  destruct (P !! kb) as [v|] eqn:Ev.
  - destruct (stands_some _ _ _ _ _ HP Ev) as (b & -> & Eb). cbn [fetched_obj is_int]. by eapply wp_unpickled.
  - rewrite (stands_none _ _ _ _ HP Ev). cbn [fetched_obj is_int Z.eqb Pos.eqb]. by wp_simpl.
Qed.

Section key.
Context (k : pyval O) (kb : bytes) (Hk : encoded (autopickle d) k = Some kb).

Lemma wp_setitem v vb (Q : Z + pyexc → mem (pyenv E) → Prop) :
  encoded (autopickle d) v = Some vb → call_ok (CSet sync kb vb) → call_fits svc_limit (CSet sync kb vb) →
  (∀ t, connected s (_db d) p (<[kb := vb]> M) t → Q (inl 1) t) →
  wp (setitem (class_of sync) d k v) Q (Mem p a).
Proof.
  intros Hv Hok Hlim HQ. assert (setitem (class_of sync) d k v =
    generic_set (ll gethostbyname d (if sync then "set_sync" else "set")%string) d k v) as -> by by destruct sync.
  unfold generic_set. wp_simpl. eapply wp_pickled; [done|]. wp_simpl. eapply wp_pickled; [done|]. wp_simpl.
  eapply (wp_ll_set gethostbyname s _ p c a M Ha Hp Hc HM d); [done|done|done|]. intros t Ht.
  unfold as_int. wp_simpl. cbn [Z.leb Z.compare]. wp_simpl. by apply HQ.
Qed.

Lemma wp_delitem (Q : Z + pyexc → mem (pyenv E) → Prop) :
  call_ok (CDel sync kb) → call_fits svc_limit (CDel sync kb) →
  (∀ t, connected s (_db d) p (delete kb M) t →
     Q (if sync && bool_decide (P !! kb = None) then inr KeyError else inl 1) t) →
  wp (delitem (class_of sync) d k) Q (Mem p a).
Proof.
  intros Hok Hlim HQ. assert (delitem (class_of sync) d k =
    generic_delete (ll gethostbyname d (if sync then "delete_sync" else "delete")%string) d k) as ->
    by by destruct sync.
  unfold generic_delete. wp_simpl. eapply wp_pickled; [done|]. wp_simpl.
  eapply (wp_ll_delete gethostbyname s _ p c a M Ha Hp Hc HM d); [done|done|done|]. intros t Ht.
  specialize (HQ t Ht). unfold as_int. wp_simpl.
  rewrite (stands_absent _ _ _ _ HP).
  destruct (sync && bool_decide (P !! kb = None)); cbn; by wp_simpl.
Qed.

Lemma wp_contains (Q : bool + pyexc → mem (pyenv E) → Prop) :
  call_ok (CGet kb (128 * 1024)) → call_fits svc_limit (CGet kb (128 * 1024)) →
  (∀ t, connected s (_db d) p M t → Q (inl match P !! kb with Some v => truth_of v | None => false end) t) →
  wp (contains (class_of sync) d k) Q (Mem p a).
Proof.
  intros Hok Hlim HQ. unfold contains. wp_simpl. eapply wp_getitem; [done..|]. intros t Ht.
  specialize (HQ t Ht). destruct (P !! kb) as [v|]; wp_simpl.
  - destruct (truth_of v); cbn; by wp_simpl.
  - rewrite decide_True by done. by wp_simpl.
Qed.

Lemma wp_cas o n ob nb (Q : Z + pyexc → mem (pyenv E) → Prop) :
  encoded (autopickle d) o = Some ob → encoded (autopickle d) n = Some nb →
  call_ok (CCas kb ob nb) → call_fits svc_limit (CCas kb ob nb) →
  (∀ t, connected s (_db d) p (effect (ACas kb ob nb) M) t →
     Q match P !! kb with Some v => inl (if decide (v = o) then 2 else 1) | None => inr KeyError end t) →
  wp (cas (class_of sync) d k o n) Q (Mem p a).
Proof.
  intros Ho Hn Hok Hlim HQ. assert (cas (class_of sync) = normal_cas gethostbyname) as -> by by destruct sync.
  unfold normal_cas, generic_cas. wp_simpl. do 3 (eapply wp_pickled; [done|]; wp_simpl).
  eapply (wp_ll_cas gethostbyname s _ p c a M Ha Hp Hc HM d); [done|done|done|]. intros t Ht.
  specialize (HQ t Ht). rewrite (cas_answer _ (encoded_inj _) _ _ _ _ _ HP Ho).
  destruct (P !! kb) as [v|]; [destruct (decide (v = o))|]; cbn [is_int Z.eqb Pos.eqb]; by wp_simpl.
Qed.

Lemma wp_incr n (Q : Z + pyexc → mem (pyenv E) → Prop) :
  call_ok (CIncr kb n) → call_fits svc_limit (CIncr kb n) → (∀ n, 0 ≤ n → va_high n = 0) →
  (∀ t, connected s (_db d) p (effect (AIncr kb n) M) t →
     Q match P !! kb with
       | Some v => match number_in (autopickle d) v with Some b => inl (incr_num b n) | None => inr TypeError end
       | None => inr KeyError
       end t) →
  wp (incr (class_of sync) d k n) Q (Mem p a).
Proof.
  intros Hok Hlim Hva HQ. assert (incr (class_of sync) = normal_incr gethostbyname) as -> by by destruct sync.
  unfold normal_incr, generic_incr. wp_simpl. eapply wp_pickled; [done|]. wp_simpl.
  eapply (wp_ll_incr gethostbyname s _ p c a M Ha Hp Hc HM d); [done|done|done|]. intros t z Ht Hz.
  specialize (HQ t Ht). unfold incr_code, int_as_longlong. destruct (P !! kb) as [v|] eqn:Ev.
  - destruct (stands_some _ _ _ _ _ HP Ev) as (b & Eb' & Eb). rewrite Eb' in Hz |- *.
    rewrite (number_encoded _ _ _ Eb) in HQ.
    destruct (ends_nul b) eqn:En; rewrite Hva by done; cbn; wp_simpl; [|done].
    by rewrite (Hz b eq_refl En).
  - rewrite (stands_none _ _ _ _ HP Ev), Hva by done. cbn. by wp_simpl.
Qed.
End key.

Lemma wp_dict_op x y kb (Q : dict_result O → mem (pyenv E) → Prop) :
  encoded (autopickle d) (op_key x) = Some kb → op_call sync (autopickle d) x = Some y →
  call_ok y → call_fits svc_limit y → (∀ n, 0 ≤ n → va_high n = 0) →
  (∀ t, connected s (_db d) p (effect (call_msg y) M) t →
     Q (dict_result_of sync (autopickle d) x kb P) t) →
  wp (run_op sync d x) Q (Mem p a).
Proof.
  intros Hk Hy Hok Hlim Hva HQ. unfold op_call in Hy. rewrite Hk in Hy. cbn in Hy.
  destruct x as [k|k v|k|k|k o n|k n]; cbn [op_key] in Hk; cbn in Hy; apply wp_outcome.
  - injection Hy as <-. eapply wp_getitem; [done..|]. intros t Ht. specialize (HQ t Ht). cbn in HQ.
    by destruct (P !! kb).
  - destruct (encoded (autopickle d) v) as [b|] eqn:Ev; [|done]. injection Hy as <-. by eapply wp_setitem.
  - injection Hy as <-. eapply wp_delitem; [done..|]. intros t Ht. specialize (HQ t Ht). cbn in HQ.
    by destruct (sync && _).
  - injection Hy as <-. by eapply wp_contains.
  - destruct (encoded (autopickle d) o) as [bo|] eqn:Eo, (encoded (autopickle d) n) as [bn|] eqn:En; try done.
    injection Hy as <-. eapply wp_cas; [done..|]. intros t Ht. specialize (HQ t Ht). cbn in HQ.
    by destruct (P !! kb).
  - injection Hy as <-. eapply wp_incr; [done..|]. intros t Ht. specialize (HQ t Ht). cbn in HQ.
    destruct (P !! kb) as [v|]; [|done]. by destruct (number_in (autopickle d) v).
Qed.
End op.
End classes.

(** ** The contract of a C function

    The interpreter expects of a method that it holds the lock when it returns,
    and that NULL stands for an exception that is set. *)

Section contract.
Context {E O : Type} `{SaneKernel E} `{PythonLaws O} (gethostbyname : bytes → option Z).

Definition contract (self : nat) (p : pyenv E) (r : option (pyval O)) (t : mem (pyenv E)) : Prop :=
  py_gil (obj t) = true ∧ (r = None ↔ py_err (obj t) ≠ None) ∧ others_kept self p (obj t) ∧
  is_Some (get_db self (obj t)).

Definition cval_size (v : cval) : Z := match v with VBytes b => Z.of_nat (length b) | VInt _ => 0 end.

(** The arguments are together shorter than 2 GB. *)
Definition args_short (xs : list (pyval O)) : Prop :=
  ∀ us vs, py_parse us xs = inl vs → foldr (λ v n, cval_size v + n) 0 vs < 2 ^ 31.

Context (self : nat) (p : pyenv E) (c : client E) (Hp : py_at self p c).

Lemma wp_set_contract {A} e p' a' (Q : option A → mem (pyenv E) → Prop) :
  py_gil p' = true → Q None (Mem (set_err (Some e) p') a') → wp (PyErr_Set e) Q (Mem p' a').
Proof. intros Hg HQ. apply wp_api; [done|]. by wp_simpl. Qed.

Lemma wp_value_contract x p' c' a' :
  py_at self p' c' → others_kept self p p' → wp (new_value x) (contract self p) (Mem p' a').
Proof.
  intros [Hg He Hdb] Hk. apply wp_api; [done|]. apply wp_bind.
  destruct (al_ok a' (al_next a')) eqn:Ea.
  - apply wp_exec. unfold malloc. cbn [obj heap]. rewrite Ea. eexists _, _. split; [done|]. wp_simpl.
    split; [done|]. split; [by split|]. by split.
  - apply wp_malloc_null; [done|]. apply wp_set_contract; [done|]. split; [done|]. split; [done|]. by split.
Qed.

Lemma wp_parse_contract us xs a k :
  (∀ vs, Forall2 unit_gives us vs → py_parse us xs = inl vs → wp (k (Some vs)) (contract self p) (Mem p a)) →
  (∀ t, k None t = Some (None, t)) →
  wp (PyArg_ParseTuple us xs ≫= k) (contract self p) (Mem p a).
Proof.
  intros Hk Hn. pose proof Hp as [Hg He Hdb]. apply wp_bind, wp_api; [done|].
  destruct (py_parse us xs) as [vs|e] eqn:Ep.
  - wp_simpl. apply Hk; [by eapply parse_gives|done].
  - apply wp_set_contract; [done|]. apply wp_exec. eexists _, _. split; [apply Hn|].
    split; [done|]. split; [done|]. by split.
Qed.

Lemma wp_lib_contract {A} (m : MT (client E) A) (k : A → MT (pyenv E) (option (pyval O))) a :
  (∀ c a, wp m (λ _ _, True) (Mem c a)) →
  (∀ x p' c' a', py_at self p' c' → others_kept self p p' → wp (k x) (contract self p) (Mem p' a')) →
  wp (allow_threads (on_db self m) ≫= k) (contract self p) (Mem p a).
Proof.
  intros Hm Hk. apply wp_bind. eapply wp_lib; [done|]. eapply wp_mono; [apply Hm|].
  intros x [c' a'] _. eapply Hk; [by eapply put_db_at|apply put_db_kept].
Qed.

Lemma wp_int_contract (m : MT (client E) Z) a :
  (∀ c a, wp m (λ _ _, True) (Mem c a)) → wp (int_call self m) (contract self p) (Mem p a).
Proof. intros Hm. apply wp_lib_contract; [done|]. intros. by eapply wp_value_contract. Qed.

Lemma wp_pair_contract (m : MT (client E) (Z * option Z)) (f : Z → Z) a :
  (∀ c a, wp m (λ _ _, True) (Mem c a)) →
  wp (r ← allow_threads (on_db self m);
      let '(rv, newval) := r : Z * option Z in
      newval ← written newval; new_value (PyPair (f rv) newval)) (contract self p) (Mem p a).
Proof.
  intros Hm. apply wp_lib_contract; [done|]. intros [rv [n|]] p' c' a' Hp' Hk; unfold written, uninitialised;
    wp_simpl; by eapply wp_value_contract.
Qed.

Lemma wp_add_any r : ∀ (c : client E) a, wp (run_add r) (λ _ _, True) (Mem c a).
Proof. intros. eapply wp_mono; [apply wp_run_add|done]. Qed.

Lemma wp_resolved gethost addr port (add : Z → Z → MT (client E) Z) :
  (∀ ia c a, wp (add ia port) (λ _ _, True) (Mem c a)) → ∀ c a,
  wp match resolve gethost addr with Some ia => add ia port | None => mret 0 end (λ _ _, True) (Mem c a).
Proof. intros Hadd c' a. destruct (resolve gethost addr); [apply Hadd|done]. Qed.

(** The values that the formats in use give. *)
Ltac shape := repeat match goal with
  | H : Forall2 unit_gives (_ :: _) _ |- _ => apply Forall2_cons_inv_l in H as (?v & ? & ? & H & ->)
  | H : Forall2 unit_gives [] _ |- _ => apply Forall2_nil_inv_l in H as ->
  | H : unit_gives _ ?v |- _ => destruct v; cbn in H; try done; clear H
  end.

Context (args : list (pyval O)) (Hshort : args_short args).

Ltac body :=
  apply wp_parse_contract; [|done]; let vs := fresh "vs" in let Hvs := fresh "Hvs" in let Hps := fresh "Hps" in
  intros vs Hvs Hps; apply Hshort in Hps; shape; cbn in Hps; cbn iota beta.

(** The methods that copy a value or a key from a reply. *)
Definition fetching : list string := ["cache_get"; "get"; "firstkey"; "nextkey"]%string.

Definition keeps_contract (nf : string * method) : Prop :=
  nf.1 ∈ fetching ∨ ∀ a, wp (nf.2 self args) (contract self p) (Mem p a).

Ltac total :=
  intros c' a'; first
  [ eapply wp_mono; [apply wp_do_set_any; lia|done] | eapply wp_mono; [apply wp_do_del_any; lia|done]
  | eapply wp_mono; [apply wp_do_cas_any; lia|done] | eapply wp_mono; [apply wp_do_incr_any; lia|done]
  | apply (wp_add_any (AddTipc _))
  | apply (wp_resolved gethostbyname _ _ add_tcp_server_addr); intros ia; apply (wp_add_any (AddTcp ia _))
  | apply (wp_resolved gethostbyname _ _ add_udp_server_addr); intros ia; apply (wp_add_any (AddUdp ia _)) ].

Lemma methods_contract : Forall keeps_contract (nmdb_methods gethostbyname).
Proof.
  unfold nmdb_methods, keeps_contract. repeat (apply Forall_cons; split); cbn [fst snd]; try done;
    try solve [left; unfold fetching; repeat constructor]; right; intros a; body;
    first [apply wp_int_contract; total|apply (wp_pair_contract _ (λ rv, rv)); total|
      apply (wp_pair_contract _ int_as_longlong); total].
Qed.
End contract.

Lemma by_name_in {A} name (l : list (string * A)) f : by_name name l = Some f → (name, f) ∈ l.
Proof.
  induction l as [|[n g] l IH]; cbn; [done|]. case_decide as Hn.
  - subst n. intros [= ->]. constructor.
  - intros Hl. constructor. by apply IH.
Qed.

(** ** Properties *)

Section runs.
Context {E O : Type} `{Kernel E} `{PythonLaws O} `{!EqDecision O} (gethostbyname : bytes → option Z).

(** The bytes of a key. *)
Definition key_of (auto : bool) (x : dict_op O) : bytes := default [] (encoded auto (op_key x)).

(** A sequence of operations on a dictionary. *)
Fixpoint dict_run (sync auto : bool) (xs : list (dict_op O)) (P : gmap bytes (pyval O))
    : list (dict_result O) * gmap bytes (pyval O) :=
  match xs with
  | [] => ([], P)
  | x :: xs =>
      let '(rs, P') := dict_run sync auto xs (dict_after auto x (key_of auto x) P) in
      (dict_result_of sync auto x (key_of auto x) P :: rs, P')
  end.

(** Keys and values can be encoded, and the server takes the packet. *)
Definition op_fits (sync auto : bool) (limit : Z) (x : dict_op O) : Prop :=
  match op_call sync auto x with Some y => call_ok y ∧ call_fits limit y | None => False end.

Context (s : nmdb_srv) `{!MapService E s}.

Lemma wp_dict_ops sync d xs p M P t (Q : list (dict_result O) → mem (pyenv E) → Prop) :
  connected s (_db d) p M t → stands (encoded (autopickle d)) P M →
  Forall (op_fits sync (autopickle d) svc_limit) xs → (∀ n, 0 ≤ n → va_high n = 0) →
  (∀ M' t, connected s (_db d) p M' t → stands (encoded (autopickle d)) (dict_run sync (autopickle d) xs P).2 M' →
     Q (dict_run sync (autopickle d) xs P).1 t) →
  wp (run_ops gethostbyname sync d xs) Q t.
Proof.
  intros Ht HP Hxs Hva. revert M P t Q Ht HP. induction Hxs as [|x xs Hx Hxs IH]; intros M P t Q Ht HP HQ;
    cbn [run_ops].
  - wp_simpl. by eapply HQ.
  - destruct t as [p1 a1]. pose proof Ht as (Ha & Hk & c & Hp & Hc & HM). cbn [obj heap] in *.
    unfold op_fits in Hx. destruct (op_call sync (autopickle d) x) as [y|] eqn:Ey; [|done].
    destruct Hx as [Hok Hlim]. assert (encoded (autopickle d) (op_key x) = Some (key_of (autopickle d) x)) as Ekb
      by (unfold op_call in Ey; unfold key_of; by destruct (encoded _ _)).
    apply wp_bind. eapply (wp_dict_op gethostbyname s sync d p1 c a1 M P); [done..|].
    intros t1 Ht1. apply wp_bind. eapply IH; [by eapply connected_trans|by eapply stands_effect|].
    intros M' t2 Ht2 HP2. wp_simpl. revert HP2 HQ. cbn [dict_run].
    destruct (dict_run _ _ _ _) as [rs P']. cbn. intros HP2 HQ. by eapply HQ.
Qed.
End runs.

(** C22: the methods of [nmdb_ll] keep the contract of the C interface. Called
    with the lock held and no exception set, on arguments of any kind, whatever
    the server sends and whatever allocation fails: a method that does not copy
    a value or a key from a reply is defined (the library's calls that it makes
    without the lock included), holds the lock when it returns, returns NULL
    exactly when an exception is set, and leaves every other object alone. *)
Theorem python_contract {E O} `{SaneKernel E} `{PythonLaws O} (gethostbyname : bytes → option Z)
  (name : string) (f : nat → list (pyval O) → MT (pyenv E) (option (pyval O)))
  (self : nat) (args : list (pyval O)) (p : pyenv E) (c : client E) (a : alloc)
  (Hp : py_at self p c) (Hshort : args_short args)
  (Hf : by_name name (nmdb_methods gethostbyname) = Some f) (Hname : name ∉ fetching) :
  ∃ r t, f self args (Mem p a) = Some (r, t) ∧ contract self p r t.
Proof.
  pose proof (methods_contract gethostbyname self p c Hp args Hshort) as Hall.
  rewrite Forall_forall in Hall. apply by_name_in, Hall in Hf as [Hf|Hf]; [done|].
  specialize (Hf a). apply wp_exec in Hf as (r & t & Hf & Ht). by exists r, t.
Qed.

(** An [nmdb_ll] object is made before the arguments are parsed and the library
    is asked for a connection; when the library has no memory, [nmdb_ll.new]
    raises and the object stays. *)
Theorem db_new_leaks {E O} `{Kernel E} `{PythonLaws O} (p : pyenv E) (a : alloc)
  (Hg : py_gil p = true) (Hok : al_ok a (al_next a) = true) (Hno : al_ok a (S (al_next a)) = false) :
  ∃ t, db_new (O := O) [] (Mem p a) = Some (None, t) ∧ py_err (obj t) = Some MemoryError ∧
    py_objs (obj t) = <[py_next p := DbNull]> (py_objs p).
Proof.
  assert (wp (db_new (O := O) []) (λ r t, r = None ∧ py_err (obj t) = Some MemoryError ∧
    py_objs (obj t) = <[py_next p := DbNull]> (py_objs p)) (Mem p a)) as Hw.
  { unfold db_new, tp_alloc. apply wp_bind, wp_api; [done|]. apply wp_bind, wp_exec. unfold malloc. cbn [obj heap].
    rewrite Hok. eexists _, _. split; [done|]. wp_simpl. eapply (wp_parse _ _ []); [done|constructor|].
    cbn iota. wp_simpl. rewrite wp_zoom by done. cbn [py_net]. unfold nmdb_init. apply wp_bind.
    apply wp_malloc_null; [done|]. wp_simpl. unfold PyErr_NoMemory. by apply wp_set_contract. }
  apply wp_exec in Hw as (r & t & Hw & -> & He & Ho). by exists t.
Qed.

(** [Cache.cas] raises NameError whatever it is given, and asks no server. *)
Theorem cache_cas_undefined_name {E O} `{Kernel E} `{Python O} (gethostbyname : bytes → option Z)
  (d : GenericDB) (key oldv newv : pyval O) (t : mem (pyenv E)) :
  cas (Cache gethostbyname) d key oldv newv t = Some (inr NameError, t).
Proof. done. Qed.

(** When the register does not happen to be clear above the int, an increment
    that the server has done is reported as a network error. *)
Theorem incr_lost {E O} `{Kernel E} `{PythonLaws O} `{!EqDecision O} (gethostbyname : bytes → option Z)
  (s : nmdb_srv) `{!MapService E s} (d : GenericDB) (k : pyval O) (kb v : bytes) (n : Z)
  (p : pyenv E) (M : store) (t : mem (pyenv E))
  (Hhigh : va_high 2 = 1) (Ht : connected s (_db d) p M t)
  (Hk : encoded (autopickle d) k = Some kb) (Hok : call_ok (CIncr kb n)) (Hfit : call_fits svc_limit (CIncr kb n))
  (Hv : M !! kb = Some v) (Hnul : ends_nul v = true) :
  ∃ t', incr (DB gethostbyname) d k n t = Some (inr NetworkError, t') ∧
    connected s (_db d) p (<[kb := incr_block v n]> M) t'.
Proof.
  destruct t as [p1 a]. pose proof Ht as (Ha & _ & c & Hp & Hc & HM). cbn [obj heap] in *.
  assert (wp (incr (DB gethostbyname) d k n) (λ r t', r = inr NetworkError ∧
    connected s (_db d) p (<[kb := incr_block v n]> M) t') (Mem p1 a)) as Hw.
  { cbn [incr DB]. unfold normal_incr, generic_incr. wp_simpl. eapply wp_pickled; [done|]. wp_simpl.
    eapply (wp_ll_incr gethostbyname s _ p1 c a M Ha Hp Hc HM d); [done|done|done|]. intros t z Ht' _.
    unfold incr_code, int_as_longlong. rewrite Hv, Hnul, Hhigh. cbn. wp_simpl. split; [done|].
    cbn in Ht'. rewrite Hv, Hnul in Ht'. by eapply connected_trans. }
  apply wp_exec in Hw as (r & t' & Hw & -> & Ht'). by exists t'.
Qed.
