(* ===== verification/Session.v ===== *)
(** * A Python program against the server

    From [nmdb.DB()] to the end of the object: the Python class, the C module,
    the client library, the packets, the server's handlers, its cache, queue,
    database thread and backend. *)

From S2P Require Import Prelude Words Text Chain ChainSpec Cache Net Queue Backend Server Parse ParseSpec DbLoop DbSpec Transport System Client ClientSpec ClientRobust Host Dict Python NmdbPy PythonSpec.
From stdpp Require Import strings.

#[local] Open Scope Z_scope.

Section session.
Context {O : Type} `{PythonLaws O} `{!EqDecision O} (gethostbyname : bytes → option Z).

(** [db = nmdb.DB(); db.add_udp_server(addr, port)], some operations on [db],
    and its end. *)
Definition session {E} `{Kernel E} (sync : bool) (addr : bytes) (port : Z) (xs : list (dict_op O))
    : MT (pyenv E) (list (dict_result O) + pyexc) :=
  r ← (db ← GenericDB_init (O := O);
       add_udp_server gethostbyname db addr port;;
       mret (M := py E) db);
  match r with
  | inr e => mret (inr e)
  | inl db => rs ← run_ops gethostbyname sync db xs; db_dealloc (_db db);; mret (inl rs)
  end.

(** ** Creating and ending an object *)

Section object.
Context {E : Type} `{Kernel E}.

Lemma wp_GenericDB_init p a (Q : GenericDB + pyexc → mem (pyenv E) → Prop) :
  py_gil p = true → py_err p = None → never_fails a →
  (∀ a', never_fails a' →
     Q (inl (GenericDb (py_next p) true))
       (Mem (PyEnv true None (<[py_next p := Db []]> (py_objs p)) (S (py_next p)) (py_net p)) a')) →
  wp (GenericDB_init (O := O)) Q (Mem p a).
Proof.
  intros Hg He Ha HQ. unfold GenericDB_init. cbn [by_name nmdb_functions]. rewrite decide_True by done.
  assert (wp (db_new (O := O) []) (λ r t, r = Some (py_next p) ∧ never_fails (heap t) ∧
    obj t = PyEnv true None (<[py_next p := Db []]> (py_objs p)) (S (py_next p)) (py_net p)) (Mem p a)) as Hw.
  { unfold db_new, tp_alloc. apply wp_bind, wp_api; [done|]. apply wp_bind, wp_malloc; [done|]. wp_simpl.
    eapply (wp_parse _ _ []); [done|constructor|]. cbn iota. wp_simpl. rewrite wp_zoom by done. cbn [py_net].
    unfold nmdb_init. apply wp_bind, wp_malloc; [done|]. wp_simpl. cbn [negb]. unfold set_object, PyErr_Occurred.
    wp_simpl. apply wp_api; [done|]. wp_simpl. cbn -[never_fails]. rewrite bool_decide_false by (rewrite He; by intros []). wp_simpl.
    split; [done|]. split; [by auto with nmdb|]. by rewrite Hg, He, insert_insert_eq. }
  apply wp_exec in Hw as (r & [p' a'] & Hw & -> & Ha' & Hp'). cbn [obj heap] in *. subst p'. wp_simpl.
  apply wp_exec. unfold c_call. rewrite Hw. cbn [checked obj py_err]. eexists _, _. split; [done|]. wp_simpl. by apply HQ.
Qed.

(** A host that gives a socket; the connection is then to that server. *)
Lemma wp_add_udp_server d addr port ia fd p c a (Q : pyval O + pyexc → mem (pyenv E) → Prop) :
  py_at (_db d) p c → c_servers c = [] → never_fails a →
  Byte.x00 ∉ addr → - 2 ^ 31 ≤ port < 2 ^ 31 → resolve gethostbyname addr = Some ia →
  k_socket UDP_CONN (c_net c) = (Some fd, c_net c) →
  (∀ p' a', never_fails a' → others_kept (_db d) p p' →
     py_at (_db d) p' (Client [Srv fd UDP_CONN (htons (default_port port UDP_SERVER_PORT)) ia] (c_net c)) →
     Q (inl (PyInt 1)) (Mem p' a')) →
  wp (add_udp_server gethostbyname d addr port) Q (Mem p a).
Proof.
  intros Hp Hc Ha Haddr Hport Hia Hsock HQ. unfold add_udp_server. wp_simpl.
  set (srv := Srv _ _ _ _) in HQ. pose proof Hp as [Hg He Hdb].
  assert (wp (db_add_udp_server gethostbyname (_db d) [PyStr addr; PyInt port]) (λ r t,
    r = Some (PyInt 1) ∧ never_fails (heap t) ∧ obj t = put_db (_db d) (Client [srv] (c_net c)) p) (Mem p a)) as Hw.
  { unfold db_add_udp_server. apply wp_bind, (wp_parse _ _ [VBytes addr; VInt port]); [done|by constructor; [|constructor; [|constructor]]|].
    cbn iota. apply wp_bind. eapply wp_lib; [exact Hp|]. unfold nmdb_add_udp_server. rewrite Hia.
    unfold add_udp_server_addr. apply wp_bind. eapply wp_sys; [exact Hsock|]. cbn iota. wp_simpl.
    unfold realloc_servers. apply wp_bind, wp_malloc; [done|]. wp_simpl. rewrite bool_decide_true by done.
    cbn [negb]. unfold add_sorted. wp_simpl. destruct c as [l e]. cbn in Hc. subst l.
    cbn [c_servers c_net set_net set_servers app qsort_servers foldr qsort_insert]. apply wp_new_value; [done|by auto with nmdb|].
    split; [done|]. by split; [auto with nmdb|]. }
  apply wp_exec in Hw as (r & [p' a'] & Hw & -> & Ha' & Hp'). cbn [obj heap] in *. subst p'.
  apply wp_exec. unfold ll, c_call. cbn [by_name nmdb_methods]. rewrite !decide_False, decide_True by done.
  rewrite Hw. unfold checked. cbn [obj heap]. rewrite (pa_err _ _ _ (put_db_at _ _ (Client [srv] (c_net c)) _ Hp)).
  eexists _, _. split; [done|]. cbn [truth_of Z.eqb negb]. wp_simpl. apply HQ; [done|apply put_db_kept|by eapply put_db_at].
Qed.

Lemma wp_close_servers l c a (Q : () → mem (client E) → Prop) :
  (∀ fd e, k_close fd e = e) → Q tt (Mem c a) → wp (close_all l) Q (Mem c a).
Proof.
  intros Hk. revert c. induction l as [|x l IH]; intros c HQ; cbn [close_all]; [by wp_simpl|].
  unfold close. apply wp_bind. eapply wp_sys; [done|]. rewrite Hk. apply IH. by destruct c.
Qed.

Lemma wp_db_dealloc self p c a (Q : () → mem (pyenv E) → Prop) :
  (∀ fd e, k_close (E := E) fd e = e) → py_at self p c →
  Q tt (Mem (set_objs (delete self (py_objs p)) p) a) → wp (db_dealloc self) Q (Mem p a).
Proof.
  intros Hk [Hg He Hdb] HQ. unfold db_dealloc. wp_simpl. pose proof Hdb as Hdb'. unfold get_db in Hdb'.
  destruct (py_objs p !! self) as [[|l|]|] eqn:Eo; try done. injection Hdb' as <-. wp_simpl.
  unfold on_db. rewrite wp_zoom by exact Hdb. unfold nmdb_free. wp_simpl. apply wp_close_servers; [done|]. wp_simpl.
  apply wp_api; [done|]. wp_simpl. revert HQ. unfold put_db, set_objs, set_pynet. cbn.
  by rewrite delete_insert_eq.
Qed.
End object.
End session.

(** ** Properties *)


(** ** Witnesses: a Python of byte strings, strings and numbers *)

Definition toy_unit (u : funit) (x : pyval Empty_set) : cval + pyexc :=
  match u, x with
  | U_bytes, PyBytes b | U_bytes, PyStr b => inl (VBytes b)
  | U_str, PyStr b => if decide (Byte.x00 ∈ b) then inr ValueError else inl (VBytes b)
  | U_int, PyInt n => if decide (- 2 ^ 31 ≤ n < 2 ^ 31) then inl (VInt n) else inr OverflowError
  | U_longlong, PyInt n => if decide (- 2 ^ 63 ≤ n < 2 ^ 63) then inl (VInt n) else inr OverflowError
  | _, _ => inr TypeError
  end.

Fixpoint toy_parse (us : list funit) (xs : list (pyval Empty_set)) : list cval + pyexc :=
  match us, xs with
  | [], [] => inl []
  | u :: us, x :: xs =>
      match toy_unit u x with
      | inr e => inr e
      | inl v => match toy_parse us xs with inl vs => inl (v :: vs) | inr e => inr e end
      end
  | _, _ => inr TypeError
  end.

(** A pickle: a letter for the type, the content, a full stop. *)
Definition toy_pickle (t : byte) (b : bytes) : bytes := t :: b ++ [Byte.x2e].
Definition toy_dumps (x : pyval Empty_set) : bytes + pyexc :=
  match x with
  | PyInt n =>
      if decide (INT64_MIN ≤ n ≤ INT64_MAX) then inl (toy_pickle Byte.x49 (le_split 8 (w64 n)))
      else inr OverflowError
  | PyBytes b => inl (toy_pickle Byte.x42 b)
  | PyStr b => inl (toy_pickle Byte.x55 b)
  | PyPair _ _ => inr PicklingError
  | PyOther o => match o with end
  end.
Definition toy_loads (b : bytes) : pyval Empty_set + pyexc :=
  match b with
  | [] => inr PicklingError
  | t :: b =>
      let b := take (length b - 1) b in
      if decide (t = Byte.x49) then inl (PyInt (s64 (le_combine b)))
      else if decide (t = Byte.x42) then inl (PyBytes b)
      else inl (PyStr b)
  end.

#[export] Instance toy_python : Python Empty_set := {|
  py_parse := toy_parse;
  py_dumps := toy_dumps;
  py_loads := toy_loads;
  py_true o := match o with end;
  va_high n := if n <? 0 then 2 ^ 32 - 1 else 0;
|}.

Lemma toy_loads_pickle t b :
  toy_loads (toy_pickle t b) =
    if decide (t = Byte.x49) then inl (PyInt (s64 (le_combine b)))
    else if decide (t = Byte.x42) then inl (PyBytes b) else inl (PyStr b).
Proof.
  unfold toy_loads, toy_pickle.
  assert (take (length (b ++ [Byte.x2e]) - 1) (b ++ [Byte.x2e]) = b) as ->; [|done].
  rewrite length_app. cbn [length]. apply take_app_full. lia.
Qed.

#[export] Instance toy_laws : PythonLaws Empty_set.
Proof.
  split.
  - intros us xs vs Hx. cbn. induction Hx as [|u x v us xs vs Hu Hx IH]; [done|]. cbn [toy_parse]. rewrite IH.
    destruct u, x, v; cbn in Hu; destruct_and?; simplify_eq; try done; cbn [toy_unit];
      rewrite ?decide_False, ?decide_True by done; done.
  - intros us. cbn. induction us as [|u us IH]; intros [|x xs] vs Hx; cbn [toy_parse] in Hx; try done.
    { injection Hx as <-. constructor. }
    destruct (toy_unit u x) as [v|] eqn:Eu; [|done]. destruct (toy_parse us xs) as [vs'|] eqn:Ex; [|done].
    injection Hx as <-. constructor; [|by eapply IH].
    destruct u, x; cbn in Eu; repeat case_decide; by simplify_eq.
  - intros [n|b|b|? ?|[]] b' Hb; cbn [py_dumps py_loads toy_python toy_dumps] in Hb |- *;
      try done; [case_decide; [|done]|..]; injection Hb as <-;
      rewrite toy_loads_pickle; rewrite ?decide_False, ?decide_True by done; [|done..].
    rewrite le_combine_split. change (2 ^ (Z.of_nat 8 * 8)) with (2 ^ 64). rewrite Z.mod_small by apply w64_range.
    by rewrite s64_w64, s64_small.
  - intros [n|b|b|? ?|[]] b' Hb; cbn [py_dumps toy_python toy_dumps] in Hb;
      try done; [case_decide; [|done]|..]; injection Hb as <-;
      unfold toy_pickle; rewrite app_comm_cons; apply last_snoc.
Qed.

Definition fresh_python : pyenv (host store) := PyEnv true None ∅ 0 empty_host.
Definition toy_key : pyval Empty_set := PyStr [Byte.x6b].
Definition toy_ops : list (dict_op Empty_set) :=
  [OSet toy_key (PyInt 1); OGet toy_key; OIn toy_key; OCas toy_key (PyInt 1) (PyInt 0); OIn toy_key;
   OIncr toy_key 1; ODel toy_key; OGet toy_key; ODel toy_key].

Lemma toy_ops_fit : Forall (op_fits true true (8 + 12 + max_size)) toy_ops.
Proof.
  unfold toy_ops. repeat (apply Forall_cons; split); [..|by apply Forall_nil];
    (split; [split; vm_compute; try done; by repeat split|by vm_compute]).
Qed.

(** The item that counts as false is not [in] the dictionary. *)
Lemma toy_results : (dict_run true true toy_ops ∅).1 =
  [RInt 1; RObj (PyInt 1); RBool true; RInt 2; RBool false; RRaise TypeError; RInt 1;
   RRaise KeyError; RRaise KeyError].
Proof. by vm_compute. Qed.


(** An increment, of a server that sends noise, with an allocator that fails at
    every other call. *)
Definition noisy_python : pyenv () := PyEnv true None {[ 0%nat := Db (c_servers flood_client) ]} 1 tt.
Definition incr_args : list (pyval Empty_set) := [PyBytes [Byte.x61]; PyInt 5].

Lemma incr_args_short : args_short incr_args.
Proof.
  intros us vs Hp. cbn in Hp. destruct us as [|u1 [|u2 [|u3 us]]]; cbn in Hp; try done;
    destruct u1; cbn in Hp; try done; destruct u2; cbn in Hp; try done; repeat case_decide; simplify_eq; cbn; lia.
Qed.

Lemma python_contract_witness :
  let k := flood noise in
  ∃ r t, db_incr 0 incr_args (Mem noisy_python flaky_alloc) = Some (r, t) ∧ contract 0 noisy_python r t.
Proof.
  intros k.
  apply (@python_contract () Empty_set (flood noise) noise_sane toy_python toy_laws (λ _, None) "incr"%string
    db_incr 0 incr_args noisy_python flood_client flaky_alloc);
    [by split|apply incr_args_short|reflexivity|by apply (bool_decide_unpack _)].
Defined.
