(* ===== verification/Ruby.v ===== *)
(** * The Ruby module (bindings/ruby/nmdb_ll.c, nmdb.rb)

    [Nmdb_ll::DB] wraps a connection of the library; its methods convert their
    arguments, call the library and make a Ruby value of the result. An error in
    a conversion or an allocation leaves the C function at once. [Nmdb] has the
    classes on top of it. *)

From S2P Require Import Prelude Words Text Chain Net Client.
From stdpp Require Import strings.

#[local] Open Scope Z_scope.

(** ** Ruby's values and exceptions *)

Inductive rbexc :=
  | NoMemory | TypeErr | RangeErr | ArgumentErr | NoMethodErr | NetworkException | AnyException.

#[export] Instance rbexc_eq_decision : EqDecision rbexc.
Proof. solve_decision. Defined.

(** The values that the module makes and takes, and any other ([VOther]). *)
Inductive rbval (R : Type) :=
  | VNil
  | VNum (n : Z)
  | VStr (b : bytes)
  | VPair (a b : Z)
  | VOther (r : R).
Arguments VNil {R}.
Arguments VNum {R}.
Arguments VStr {R}.
Arguments VPair {R}.
Arguments VOther {R}.

#[export] Instance rbval_eq_decision {R} `{EqDecision R} : EqDecision (rbval R).
Proof. solve_decision. Defined.

(** What the code uses of Ruby: [NUM2INT], [rb_num2ll], [StringValuePtr] and
    [rb_str2cstr] (the bytes of a string), [Marshal], and the operator [==]. *)
Class Ruby (R : Type) := {
  num2int : rbval R → Z + rbexc;
  num2ll : rbval R → Z + rbexc;
  str2cstr : rbval R → bytes + rbexc;
  marshal_dump : rbval R → bytes + rbexc;
  marshal_load : bytes → rbval R + rbexc;
  rb_equal : rbval R → rbval R → bool;
}.

(** ** The interpreter's state *)

(** The objects of the class [Nmdb_ll::DB] by identity: the pointer each wraps,
    [None] for NULL; and the kernel behind all connections. *)
Record rbenv (E : Type) := RbEnv {
  rb_objs : gmap nat (option (list nmdb_srv));
  rb_next : nat;
  rb_net : E;
}.
Arguments RbEnv {E}.
Arguments rb_objs {E}.
Arguments rb_next {E}.
Arguments rb_net {E}.

Abbreviation rb E := (exc (mem (rbenv E)) rbexc).

Section nmdb_ll.
Context {E R : Type} `{Kernel E} `{Ruby R} (gethostbyname : bytes → option Z).

(** A call of the library on the pointer that [Data_Get_Struct] gives. *)
Definition rb_get_db (self : nat) (p : rbenv E) : option (client E) :=
  match rb_objs p !! self with Some (Some srvs) => Some (Client srvs (rb_net p)) | _ => None end.
Definition rb_put_db (self : nat) (c : client E) (p : rbenv E) : rbenv E :=
  RbEnv (<[self := Some (c_servers c)]> (rb_objs p)) (rb_next p) (c_net c).
Definition with_db {A} (self : nat) (m : MT (client E) A) : rb E A :=
  lifted (zoom (rb_get_db self) (rb_put_db self) m).

(** Memory from Ruby, which raises when there is none. *)
Definition ALLOC_N (n : Z) : rb E cptr :=
  p ← lifted (malloc n); match p with Null => raise NoMemory | _ => mret p end.

(** The memory of a value, whatever its type. *)
Definition SIZEOF_RVALUE : Z := 40.

(** [rb_str_new(v, n)] *)
Definition rb_str_new (v : bytes) (n : Z) : rb E (rbval R) :=
  d ← lifted (read_at v 0 n); ALLOC_N SIZEOF_RVALUE;; mret (VStr d).

(** ** nmdb_ll.c: memory *)

(** [Data_Wrap_Struct]: a new object that wraps what [nmdb_init] returned,
    NULL or not. *)
Definition mm_db_allocate : rb E nat :=
  ok ← lifted (zoom (λ p, Some (Client [] (rb_net p))) (λ c p, RbEnv (rb_objs p) (rb_next p) (c_net c)) nmdb_init);
  ALLOC_N SIZEOF_RVALUE;;
  p ← lifted get_obj;
  lifted (mod_obj (λ p, RbEnv (<[rb_next p := if ok : bool then Some [] else None]> (rb_objs p))
    (S (rb_next p)) (rb_net p)));;
  mret (rb_next p).

(** What the collector calls for an object that is not used any more, when it
    wraps a pointer that is not NULL; the object is then gone. *)
Definition mm_db_free (self : nat) : rb E () :=
  with_db self nmdb_free;;
  lifted (mod_obj (λ p, RbEnv (delete self (rb_objs p)) (rb_next p) (rb_net p))).

(** ** nmdb_ll.c: connections *)

Definition m_add_tipc_server (self : nat) (port : rbval R) : rb E (rbval R) :=
  port ← of_sum (num2int port);
  rv ← with_db self (nmdb_add_tipc_server port);
  mret (VNum rv).

(** The name of a host ends at its first NUL. *)
Definition m_add_tcp_server (self : nat) (hostname port : rbval R) : rb E (rbval R) :=
  hostname ← of_sum (str2cstr hostname);
  port ← of_sum (num2int port);
  rv ← with_db self (nmdb_add_tcp_server gethostbyname (upto_nul hostname) port);
  mret (VNum rv).

Definition m_add_udp_server (self : nat) (hostname port : rbval R) : rb E (rbval R) :=
  hostname ← of_sum (str2cstr hostname);
  port ← of_sum (num2int port);
  rv ← with_db self (nmdb_add_udp_server gethostbyname (upto_nul hostname) port);
  mret (VNum rv).

Definition m_add_sctp_server (self : nat) (hostname port : rbval R) : rb E (rbval R) :=
  hostname ← of_sum (str2cstr hostname);
  port ← of_sum (num2int port);
  rv ← with_db self (nmdb_add_sctp_server gethostbyname (upto_nul hostname) port);
  mret (VNum rv).

(** ** nmdb_ll.c: operations *)

Definition c_generic_set (self : nat) (key val : rbval R)
    (set_func : bytes → bytes → MT (client E) Z) : rb E (rbval R) :=
  k ← of_sum (str2cstr key);
  v ← of_sum (str2cstr val);
  rv ← with_db self (set_func k v);
  mret (VNum rv).
Definition m_set (self : nat) (key val : rbval R) := c_generic_set self key val nmdb_set.
Definition m_set_sync (self : nat) (key val : rbval R) := c_generic_set self key val nmdb_set_sync.
Definition m_cache_set (self : nat) (key val : rbval R) := c_generic_set self key val nmdb_cache_set.

(** [bufsize] is 68 * 1024. *)
Definition get_into (self : nat) (bufsize : Z) (get_func : Z → MT (client E) (Z * bytes)) : rb E (rbval R) :=
  v ← ALLOC_N bufsize;
  r ← with_db self (get_func bufsize);
  let '(rv, d) := r : Z * bytes in
  buf ← lifted (deref v);
  buf ← lifted (memcpy_at buf 0 d (Z.of_nat (length d)));
  retval ← (if 0 <=? rv then rb_str_new buf rv else mret (VNum rv));
  lifted (free (Block buf));;
  mret retval.
Definition c_generic_get (self : nat) (key : rbval R)
    (get_func : bytes → Z → MT (client E) (Z * bytes)) : rb E (rbval R) :=
  k ← of_sum (str2cstr key); get_into self (68 * 1024) (get_func k).
Definition m_get (self : nat) (key : rbval R) := c_generic_get self key nmdb_get.
Definition m_cache_get (self : nat) (key : rbval R) := c_generic_get self key nmdb_cache_get.

Definition c_generic_del (self : nat) (key : rbval R) (del_func : bytes → MT (client E) Z) : rb E (rbval R) :=
  k ← of_sum (str2cstr key);
  rv ← with_db self (del_func k);
  mret (VNum rv).
Definition m_del (self : nat) (key : rbval R) := c_generic_del self key nmdb_del.
Definition m_del_sync (self : nat) (key : rbval R) := c_generic_del self key nmdb_del_sync.
Definition m_cache_del (self : nat) (key : rbval R) := c_generic_del self key nmdb_cache_del.

Definition c_generic_cas (self : nat) (key oldval newval : rbval R)
    (cas_func : bytes → bytes → bytes → MT (client E) Z) : rb E (rbval R) :=
  k ← of_sum (str2cstr key);
  ov ← of_sum (str2cstr oldval);
  nv ← of_sum (str2cstr newval);
  rv ← with_db self (cas_func k ov nv);
  mret (VNum rv).
Definition m_cas (self : nat) (key oldval newval : rbval R) := c_generic_cas self key oldval newval nmdb_cas.
Definition m_cache_cas (self : nat) (key oldval newval : rbval R) :=
  c_generic_cas self key oldval newval nmdb_cache_cas.

(** [newval] is a local variable that the library writes only when the value
    was incremented. *)
Definition rb_uninitialised : rb E Z :=
  lifted (gets (λ s, s64 (le_combine (replicate 8 (al_junk (heap s)))))).

Definition c_generic_incr (self : nat) (key increment : rbval R)
    (incr_func : bytes → Z → bool → MT (client E) (Z * option Z)) : rb E (rbval R) :=
  k ← of_sum (str2cstr key);
  cincr ← of_sum (num2ll increment);
  r ← with_db self (incr_func k cincr true);
  let '(rv, newval) := r : Z * option Z in
  newval ← match newval with Some n => mret n | None => rb_uninitialised end;
  ALLOC_N SIZEOF_RVALUE;;
  mret (VPair rv newval).
Definition m_incr (self : nat) (key increment : rbval R) := c_generic_incr self key increment nmdb_incr.
Definition m_cache_incr (self : nat) (key increment : rbval R) := c_generic_incr self key increment nmdb_cache_incr.

(** [Init_nmdb_ll]: the methods by name; a call with another number of
    arguments than was declared raises. *)
Definition rmethod : Type := nat → list (rbval R) → rb E (rbval R).
Definition arity1 (f : nat → rbval R → rb E (rbval R)) : rmethod := λ self args,
  match args with [x] => f self x | _ => raise ArgumentErr end.
Definition arity2 (f : nat → rbval R → rbval R → rb E (rbval R)) : rmethod := λ self args,
  match args with [x; y] => f self x y | _ => raise ArgumentErr end.
Definition arity3 (f : nat → rbval R → rbval R → rbval R → rb E (rbval R)) : rmethod := λ self args,
  match args with [x; y; z] => f self x y z | _ => raise ArgumentErr end.

Definition Init_nmdb_ll : list (string * rmethod) := [
  ("add_tipc_server", arity1 m_add_tipc_server);
  ("add_tcp_server", arity2 m_add_tcp_server);
  ("add_udp_server", arity2 m_add_udp_server);
  ("add_sctp_server", arity2 m_add_sctp_server);
  ("set", arity2 m_set);
  ("set_sync", arity2 m_set_sync);
  ("cache_set", arity2 m_cache_set);
  ("get", arity1 m_get);
  ("cache_get", arity1 m_cache_get);
  ("del", arity1 m_del);
  ("del_sync", arity1 m_del_sync);
  ("cache_del", arity1 m_cache_del);
  ("cas", arity3 m_cas);
  ("cache_cas", arity3 m_cache_cas);
  ("incr", arity2 m_incr);
  ("cache_incr", arity2 m_cache_incr)
]%string.

Fixpoint method_named (name : string) (l : list (string * rmethod)) : option rmethod :=
  match l with
  | [] => None
  | (n, f) :: l => if decide (n = name) then Some f else method_named name l
  end.

(** [@db.name(args)] *)
Definition rb_call (db : nat) (name : string) (args : list (rbval R)) : rb E (rbval R) :=
  match method_named name Init_nmdb_ll with
  | None => raise NoMethodErr
  | Some f => f db args
  end.

(** ** nmdb.rb: GenericDB *)

Record GenericDB := GenericDb { rdb : nat; automarshal : bool; default_value : rbval R }.

Definition initialize (default : rbval R) : rb E GenericDB :=
  db ← mm_db_allocate; mret (GenericDb db true default).

Definition add_tipc_server (d : GenericDB) (port : rbval R) := rb_call (rdb d) "add_tipc_server" [port].
Definition add_tcp_server (d : GenericDB) (host port : rbval R) := rb_call (rdb d) "add_tcp_server" [host; port].
Definition add_udp_server (d : GenericDB) (host port : rbval R) := rb_call (rdb d) "add_udp_server" [host; port].
Definition add_sctp_server (d : GenericDB) (host port : rbval R) := rb_call (rdb d) "add_sctp_server" [host; port].

(** [if @automarshal then x = Marshal.dump(x) end] *)
Definition dumped (d : GenericDB) (x : rbval R) : rb E (rbval R) :=
  if automarshal d then b ← of_sum (marshal_dump x); mret (VStr b) else mret x.

Definition store_with (name : string) (d : GenericDB) (key val : rbval R) : rb E (rbval R) :=
  key ← dumped d key; val ← dumped d val; rb_call (rdb d) name [key; val].
Definition normal_set := store_with "set".
Definition set_sync := store_with "set_sync".
Definition cache_set := store_with "cache_set".

(** A number where one is compared. *)
Definition as_num (r : rbval R) : rb E Z :=
  match r with VNum n => mret n | _ => raise NoMethodErr end.

Definition generic_get (gfunc : string) (d : GenericDB) (key : rbval R) : rb E (rbval R) :=
  key ← dumped d key;
  r ← rb_call (rdb d) gfunc [key];
  match r with
  | VStr b => if automarshal d then of_sum (marshal_load b) else mret (VStr b)
  | _ =>
      n ← as_num r;
      if n =? -1 then mret (default_value d)
      else if n <=? 2 then raise NetworkException
      else raise AnyException
  end.
Definition normal_get := generic_get "get".
Definition cache_get := generic_get "cache_get".

Definition delete_with (name : string) (d : GenericDB) (key : rbval R) : rb E (rbval R) :=
  key ← dumped d key; rb_call (rdb d) name [key].
Definition normal_delete := delete_with "del".
Definition cache_delete := delete_with "cache_del".
Definition delete_sync := delete_with "del_sync".

Definition generic_cas (gfunc : string) (d : GenericDB) (key old new : rbval R) : rb E (rbval R) :=
  key ← dumped d key; old ← dumped d old; new ← dumped d new;
  r ← rb_call (rdb d) gfunc [key; old; new];
  n ← as_num r;
  if n =? 0 then mret VNil
  else if n <? 0 then raise NetworkException
  else mret r.
Definition normal_cas := generic_cas "cas".
Definition cache_cas := generic_cas "cache_cas".

Definition generic_incr (gfunc : string) (d : GenericDB) (key increment : rbval R) : rb E (rbval R) :=
  key ← dumped d key;
  rv ← rb_call (rdb d) gfunc [key; increment];
  match rv with
  | VPair r v =>
      if r =? 0 then mret VNil
      else if (r =? 1) || (r <? 0) then raise NetworkException
      else mret (VNum v)
  | _ => raise NoMethodErr
  end.
Definition normal_incr := generic_incr "incr".
Definition cache_incr := generic_incr "cache_incr".

(** ** nmdb.rb: the classes

    A class is its methods by name; each takes the arguments it is called
    with. *)

Definition imethod : Type := GenericDB → list (rbval R) → rb E (rbval R).
Definition takes1 (f : GenericDB → rbval R → rb E (rbval R)) : imethod := λ d args,
  match args with [x] => f d x | _ => raise ArgumentErr end.
Definition takes2 (f : GenericDB → rbval R → rbval R → rb E (rbval R)) : imethod := λ d args,
  match args with [x; y] => f d x y | _ => raise ArgumentErr end.
Definition takes3 (f : GenericDB → rbval R → rbval R → rbval R → rb E (rbval R)) : imethod := λ d args,
  match args with [x; y; z] => f d x y z | _ => raise ArgumentErr end.

Record rbclass := RbClass { set : imethod; get : imethod; delete : imethod; cas : imethod; incr : imethod }.
Definition DB : rbclass :=
  RbClass (takes2 normal_set) (takes1 normal_get) (takes1 normal_delete) (takes3 normal_cas) (takes2 normal_incr).
Definition Cache : rbclass :=
  RbClass (takes2 cache_set) (takes1 cache_get) (takes1 cache_delete) (takes3 cache_cas) (takes3 cache_cas).
Definition Sync : rbclass :=
  RbClass (takes2 set_sync) (takes1 normal_get) (takes1 delete_sync) (takes3 normal_cas) (takes3 normal_cas).

(** [include?], [[]=] and [[]] *)
Definition include (cls : rbclass) (d : GenericDB) (key : rbval R) : rb E bool :=
  r ← get cls d [key]; mret (rb_equal r (default_value d)).
Definition assign (cls : rbclass) (d : GenericDB) (key val : rbval R) := set cls d [key; val].
Definition fetch (cls : rbclass) (d : GenericDB) (key : rbval R) := get cls d [key].
End nmdb_ll.
