(* ===== verification/RubySpec.v ===== *)
(** * What the Ruby classes do

    A [Nmdb::DB] or [Nmdb::Sync] with a connection to a server that stands for a
    map is a dictionary of marshalled objects, with the surprises that the code
    has: [include?] says the opposite, and [incr] of [Sync] is another method. *)

From S2P Require Import Prelude Words Text Chain ChainSpec Cache Net Queue Backend Server Parse ParseSpec DbLoop DbSpec Transport System Client ClientSpec Dict Host Ruby.
From stdpp Require Import strings.

#[local] Open Scope Z_scope.

(** ** What the code relies on *)

(** Strings and numbers are converted to what they are, and [Marshal.load]
    undoes [Marshal.dump]. *)
Class RubyLaws (R : Type) `{Ruby R} := {
  str2cstr_str b : str2cstr (VStr b) = inl b;
  num2int_num n : - 2 ^ 31 ≤ n < 2 ^ 31 → num2int (VNum n) = inl n;
  num2ll_num n : INT64_MIN ≤ n ≤ INT64_MAX → num2ll (VNum n) = inl n;
  load_dump x b : marshal_dump x = inl b → marshal_load b = inl x;
}.

Section laws.
Context {R : Type} `{RubyLaws R} `{!EqDecision R}.

(** The bytes that stand for an object on the server: its dump, or the string
    itself when [automarshal] is off. *)
Definition marshalled (auto : bool) (x : rbval R) : option bytes :=
  if auto then match marshal_dump x with inl b => Some b | inr _ => None end
  else match x with VStr b => Some b | _ => None end.

Lemma marshalled_inj auto x y b : marshalled auto x = Some b → marshalled auto y = Some b → x = y.
Proof.
  unfold marshalled. destruct auto; [|destruct x, y; naive_solver].
  destruct (marshal_dump x) as [b1|] eqn:E1, (marshal_dump y) as [b2|] eqn:E2; try done. intros [= ->] [= ->].
  apply load_dump in E1, E2. congruence.
Qed.

(** A number in a string that is stored as it is. *)
Definition number_str (v : rbval R) : option bytes :=
  match v with VStr b => if ends_nul b then Some b else None | _ => None end.

Lemma number_str_enc v b : marshalled false v = Some b → number_str v = if ends_nul b then Some b else None.
Proof. destruct v; try done. cbn. by intros [= ->]. Qed.
Lemma number_str_bytes v b b' : number_str v = Some b → marshalled false (VStr b') = Some b'.
Proof. done. Qed.
End laws.

(** ** The C functions, on a server that stands for a map *)

Section functions.
Context {E R : Type} `{Kernel E} `{RubyLaws R} (gethostbyname : bytes → option Z).
Context (s : nmdb_srv) `{!MapService E s}.

(** [self] is connected to [s], which stands for [M]; the other objects are
    those of [p]. *)
Definition rb_connected (self : nat) (p : rbenv E) (M : store) (t : mem (rbenv E)) : Prop :=
  never_fails (heap t) ∧
  (rb_next (obj t) = rb_next p ∧ delete self (rb_objs (obj t)) = delete self (rb_objs p)) ∧
  ∃ c, rb_get_db self (obj t) = Some c ∧ c_servers c = [s] ∧ svc_is (c_net c) M.

Lemma rb_connected_trans self p M M' t t' :
  rb_connected self p M t → rb_connected self (obj t) M' t' → rb_connected self p M' t'.
Proof. intros (_ & [Hn Ho] & _) (Ha & [Hn' Ho'] & Hc). split; [done|]. split; [split; congruence|done]. Qed.

Lemma wp_with_db {A} self (m : MT (client E) A) p a c (Q : A + rbexc → mem (rbenv E) → Prop) :
  rb_get_db self p = Some c →
  wp m (λ x t, Q (inl x) (Mem (rb_put_db self (obj t) p) (heap t))) (Mem c a) →
  wp (with_db self m) Q (Mem p a).
Proof. intros Hdb Hm. unfold with_db. rewrite wp_lifted, wp_zoom by exact Hdb. exact Hm. Qed.

Lemma wp_ALLOC_N n p a (Q : cptr + rbexc → mem (rbenv E) → Prop) :
  never_fails a → Q (inl (Block (replicate (Z.to_nat n) (al_junk a)))) (Mem p (al_tick a)) →
  wp (ALLOC_N n) Q (Mem p a).
Proof. intros Ha HQ. unfold ALLOC_N. wp_simpl. by apply wp_malloc. Qed.

Section call.
Context (self : nat) (p : rbenv E) (c : client E) (a : alloc) (M : store).
Context (Ha : never_fails a) (Hp : rb_get_db self p = Some c) (Hc : c_servers c = [s]) (HM : svc_is (c_net c) M).

Lemma served_rb_connected M' t : served s c M' t → rb_connected self p M' (Mem (rb_put_db self (obj t) p) (heap t)).
Proof.
  intros (Ha' & Hc' & HM'). split; [done|]. split; [split; [done|apply delete_insert_eq]|].
  exists (obj t). split; [|by rewrite Hc']. unfold rb_get_db. cbn. rewrite lookup_insert_eq. by destruct (obj t).
Qed.

Lemma rb_sel key : server_for (c_servers c) key = Some s.
Proof. rewrite Hc. apply server_for_one. Qed.

Lemma rb_connected_tick M' p' a' : rb_connected self p M' (Mem p' a') → rb_connected self p M' (Mem p' (al_tick a')).
Proof. intros [Ha' Hrest]. split; [by auto with nmdb|exact Hrest]. Qed.

(** What a get gives for a value, or for none. *)
Definition got (v : option bytes) : rbval R := match v with Some v => VStr v | None => VNum (-1) end.

Lemma wp_get_into bufsize (f : Z → MT (client E) (Z * bytes)) v (Q : rbval R + rbexc → mem (rbenv E) → Prop) :
  (∀ v', v = Some v' → Z.of_nat (length v') ≤ bufsize) → 0 ≤ bufsize →
  (∀ a, never_fails a → wp (f bufsize) (λ r t,
    r = match v with Some v => (Z.of_nat (length v), v) | None => (-1, []) end ∧ served s c M t) (Mem c a)) →
  (∀ t, rb_connected self p M t → Q (inl (got v)) t) →
  wp (get_into self bufsize f) Q (Mem p a).
Proof.
  intros Hv Hvs Hf HQ. unfold get_into. wp_simpl. apply wp_ALLOC_N; [done|]. wp_simpl.
  eapply wp_with_db; [done|]. eapply wp_mono; [apply Hf; by auto with nmdb|].
  intros r t [-> Ht%served_rb_connected]. cbn [deref].
  set (b := replicate _ _). assert (length b = Z.to_nat bufsize) as Hb by apply length_replicate. clearbody b.
  destruct v as [v|]; cbn iota; wp_simpl.
  - specialize (Hv v eq_refl). apply (wp_memcpy_at [] b); [done|done|lia|]. intros t' Ht'. cbn [app].
    rewrite (proj2 (Z.leb_le 0 _)) by lia. unfold rb_str_new. wp_simpl. apply wp_read_prefix; [done|]. wp_simpl.
    apply wp_ALLOC_N; [apply Ht|]. cbn [free]. wp_simpl. by apply HQ, rb_connected_tick.
  - apply (wp_memcpy_at [] b); [done|done|cbn; lia|]. intros t' Ht'.
    cbn [Z.leb Z.compare]. cbn [free]. wp_simpl. by apply HQ.
Qed.

Lemma wp_rb_call_get k (Q : rbval R + rbexc → mem (rbenv E) → Prop) :
  call_ok (CGet k (68 * 1024)) → call_fits svc_limit (CGet k (68 * 1024)) →
  (∀ t, rb_connected self p M t → Q (inl (got (M !! k))) t) →
  wp (rb_call gethostbyname self "get" [VStr k]) Q (Mem p a).
Proof.
  intros Hok Hlim HQ. change (rb_call gethostbyname self "get" [VStr k]) with (m_get (E := E) (R := R) self (VStr k)).
  unfold m_get, c_generic_get. wp_simpl. rewrite str2cstr_str.
  assert (∀ v, M !! k = Some v → Z.of_nat (length v) ≤ 68 * 1024) as Hv.
  { intros v Hv. pose proof (svc_fits _ _ HM _ _ Hv) as (_ & _ & Hl). unfold db_buf_size in Hl. lia. }
  eapply (wp_get_into _ _ (M !! k)); [exact Hv|lia| |exact HQ].
  intros a' Ha'. eapply wp_mono; [by apply (wp_do_get s c a' M Ha' HM k (rb_sel k) _ 0)|].
  intros r t [Hr Ht]. split; [|done]. destruct (M !! k) as [v|]; [|done].
  destruct Hr as [-> | [[=] _]]. unfold fetched. by rewrite (proj2 (Z.ltb_ge _ _)) by by apply Hv.
Qed.

Lemma wp_rb_call_set sync k v (Q : rbval R + rbexc → mem (rbenv E) → Prop) :
  call_ok (CSet sync k v) → call_fits svc_limit (CSet sync k v) →
  (∀ t, rb_connected self p (<[k := v]> M) t → Q (inl (VNum 1)) t) →
  wp (rb_call gethostbyname self (if sync then "set_sync" else "set")%string [VStr k; VStr v]) Q (Mem p a).
Proof.
  intros Hok Hlim HQ.
  assert (∀ f, wp (f k v) (λ rv t, rv = 1 ∧ served s c (<[k := v]> M) t) (Mem c a) →
    wp (c_generic_set (R := R) self (VStr k) (VStr v) f) Q (Mem p a)) as Hf.
  { intros f Hw. unfold c_generic_set. wp_simpl. rewrite !str2cstr_str. wp_simpl. eapply wp_with_db; [done|].
    eapply wp_mono; [exact Hw|]. intros rv t [-> Ht]. wp_simpl. by apply HQ, served_rb_connected. }
  destruct sync; apply Hf; apply (wp_do_set s c a M Ha HM k (rb_sel k) v); try done; by eapply sendable_flags.
Qed.

Lemma wp_rb_call_del sync k (Q : rbval R + rbexc → mem (rbenv E) → Prop) :
  call_ok (CDel sync k) → call_fits svc_limit (CDel sync k) →
  (∀ t, rb_connected self p (delete k M) t →
     Q (inl (VNum (if sync && bool_decide (M !! k = None) then 0 else 1))) t) →
  wp (rb_call gethostbyname self (if sync then "del_sync" else "del")%string [VStr k]) Q (Mem p a).
Proof.
  intros Hok Hlim HQ.
  assert (∀ f n, wp (f k) (λ rv t, rv = n ∧ served s c (delete k M) t) (Mem c a) →
    n = (if sync && bool_decide (M !! k = None) then 0 else 1) →
    wp (c_generic_del (R := R) self (VStr k) f) Q (Mem p a)) as Hf.
  { intros f n Hw ->. unfold c_generic_del. wp_simpl. rewrite !str2cstr_str. wp_simpl. eapply wp_with_db; [done|].
    eapply wp_mono; [exact Hw|]. intros rv t [-> Ht]. wp_simpl. by apply HQ, served_rb_connected. }
  destruct sync; (eapply Hf; [|reflexivity]).
  - apply (wp_do_del s c a M Ha HM k (rb_sel k) NMDB_SYNC); try done. by eapply sendable_flags.
  - apply (wp_do_del s c a M Ha HM k (rb_sel k) 0); done.
Qed.

Lemma wp_rb_call_cas k o n (Q : rbval R + rbexc → mem (rbenv E) → Prop) :
  call_ok (CCas k o n) → call_fits svc_limit (CCas k o n) →
  (∀ t, rb_connected self p (effect (ACas k o n) M) t →
     Q (inl (VNum (match M !! k with None => 0 | Some v => if decide (v = o) then 2 else 1 end))) t) →
  wp (rb_call gethostbyname self "cas" [VStr k; VStr o; VStr n]) Q (Mem p a).
Proof.
  intros Hok Hlim HQ.
  change (rb_call gethostbyname self "cas" [VStr k; VStr o; VStr n]) with
    (m_cas (E := E) (R := R) self (VStr k) (VStr o) (VStr n)).
  unfold m_cas, c_generic_cas. wp_simpl. rewrite !str2cstr_str. wp_simpl. eapply wp_with_db; [done|].
  eapply wp_mono; [by apply (wp_do_cas s c a M Ha HM k (rb_sel k) o n 0)|].
  intros rv t [-> Ht]. wp_simpl. by apply HQ, served_rb_connected.
Qed.

Lemma wp_rb_call_incr k n (Q : rbval R + rbexc → mem (rbenv E) → Prop) :
  call_ok (CIncr k n) → call_fits svc_limit (CIncr k n) →
  (∀ t x, rb_connected self p (effect (AIncr k n) M) t →
     (∀ v, M !! k = Some v → ends_nul v = true → x = incr_num v n) →
     Q (inl (VPair (incr_code M k) x)) t) →
  wp (rb_call gethostbyname self "incr" [VStr k; VNum n]) Q (Mem p a).
Proof.
  intros Hok Hlim HQ. pose proof (sd_store _ _ Hok) as Hn. cbn in Hn.
  change (rb_call gethostbyname self "incr" [VStr k; VNum n]) with (m_incr (E := E) (R := R) self (VStr k) (VNum n)).
  unfold m_incr, c_generic_incr. wp_simpl. rewrite !str2cstr_str. wp_simpl. rewrite num2ll_num by done. wp_simpl. eapply wp_with_db; [done|].
  eapply wp_mono; [by apply (wp_do_incr s c a M Ha HM k (rb_sel k) n true 0)|].
  intros r t [-> Ht%served_rb_connected]. revert HQ. unfold incr_code.
  destruct (M !! k) as [v|]; [destruct (ends_nul v) eqn:Ev|]; cbn iota; intros HQ; unfold rb_uninitialised; wp_simpl;
    (apply wp_ALLOC_N; [apply Ht|]); wp_simpl; (apply HQ; [by apply rb_connected_tick|]); intros v' [=]; congruence.
Qed.
End call.
End functions.

(** ** The classes DB and Sync *)

(** What a program does with a dictionary, and how it ends. *)
Inductive rb_op (R : Type) :=
  | RGet (k : rbval R)
  | RSet (k v : rbval R)
  | RDel (k : rbval R)
  | RIn (k : rbval R)
  | RCas (k old new : rbval R)
  | RIncr (k : rbval R) (n : Z).
Arguments RGet {R}.
Arguments RSet {R}.
Arguments RDel {R}.
Arguments RIn {R}.
Arguments RCas {R}.
Arguments RIncr {R}.

Inductive rb_result (R : Type) := RVal (v : rbval R) | RBool (b : bool) | RRaise (e : rbexc).
Arguments RVal {R}.
Arguments RBool {R}.
Arguments RRaise {R}.

Section classes.
Context {E R : Type} `{Kernel E} `{RubyLaws R} `{!EqDecision R} (gethostbyname : bytes → option Z).

Definition outcome {A} (f : A → rb_result R) (m : rb E A) : MT (rbenv E) (rb_result R) := λ t,
  match m t with
  | Some (inl x, t') => Some (f x, t')
  | Some (inr e, t') => Some (RRaise e, t')
  | None => None
  end.

Lemma wp_rb_outcome {A} f (m : rb E A) (Q : rb_result R → mem (rbenv E) → Prop) t :
  wp m (λ r t, Q match r with inl x => f x | inr e => RRaise e end t) t → wp (outcome f m) Q t.
Proof.
  rewrite !wp_exec. unfold outcome. by intros (r & t' & -> & HQ); destruct r; eexists _, _.
Qed.

Definition class_of (sync : bool) : rbclass := if sync then Sync gethostbyname else DB gethostbyname.

Definition run_op (sync : bool) (d : GenericDB) (x : rb_op R) : MT (rbenv E) (rb_result R) :=
  let cls := class_of sync in
  match x with
  | RGet k => outcome RVal (fetch cls d k)
  | RSet k v => outcome RVal (assign cls d k v)
  | RDel k => outcome RVal (Ruby.delete cls d [k])
  | RIn k => outcome RBool (include cls d k)
  | RCas k o n => outcome RVal (cas cls d [k; o; n])
  | RIncr k n => outcome RVal (incr cls d [k; VNum n])
  end.

Fixpoint run_ops (sync : bool) (d : GenericDB) (xs : list (rb_op R)) : MT (rbenv E) (list (rb_result R)) :=
  match xs with
  | [] => mret []
  | x :: xs => r ← run_op sync d x; rs ← run_ops sync d xs; mret (r :: rs)
  end.

(** ** Dictionaries *)

Definition rb_key (x : rb_op R) : rbval R :=
  match x with RGet k | RSet k _ | RDel k | RIn k | RCas k _ _ | RIncr k _ => k end.

(** The operations on a dictionary, the key being [k] as bytes. [include?] is
    true for a key that is not there; [incr] of [Sync] takes three arguments. *)
Definition rb_result_of (sync : bool) (d : GenericDB) (x : rb_op R) (k : bytes) (P : gmap bytes (rbval R))
    : rb_result R :=
  match x with
  | RGet _ => RVal (default (default_value d) (P !! k))
  | RSet _ _ => RVal (VNum 1)
  | RDel _ => RVal (VNum (if sync && bool_decide (P !! k = None) then 0 else 1))
  | RIn _ => RBool (rb_equal (default (default_value d) (P !! k)) (default_value d))
  | RCas _ old _ =>
      RVal match P !! k with Some v => VNum (if decide (v = old) then 2 else 1) | None => VNil end
  | RIncr _ n =>
      if sync then RRaise ArgumentErr else
      match P !! k with
      | Some v => match number_str v with Some b => RVal (VNum (incr_num b n)) | None => RRaise NetworkException end
      | None => RVal VNil
      end
  end.

Definition rb_after (sync : bool) (x : rb_op R) (k : bytes) (P : gmap bytes (rbval R)) : gmap bytes (rbval R) :=
  match x with
  | RSet _ v => <[k := v]> P
  | RDel _ => delete k P
  | RCas _ old new => if decide (P !! k = Some old) then <[k := new]> P else P
  | RIncr _ n => if sync then P else incremented number_str VStr P k n
  | _ => P
  end.

(** The call that an operation makes of the library; an increment is of strings
    that are stored as they are. *)
Definition rb_op_call (sync auto : bool) (x : rb_op R) : option call :=
  k ← marshalled auto (rb_key x);
  match x with
  | RGet _ | RIn _ => Some (CGet k (68 * 1024))
  | RSet _ v => v ← marshalled auto v; Some (CSet sync k v)
  | RDel _ => Some (CDel sync k)
  | RCas _ o n => o ← marshalled auto o; n ← marshalled auto n; Some (CCas k o n)
  | RIncr _ n => if sync || auto then None else Some (CIncr k n)
  end.

Lemma rb_stands_effect sync auto x k0 y P M :
  rb_op_call sync auto x = Some y → marshalled auto (rb_key x) = Some k0 → stands (marshalled auto) P M →
  stands (marshalled auto) (rb_after sync x k0 P) (effect (call_msg y) M).
Proof.
  unfold rb_op_call. intros Hy Hk HP. rewrite Hk in Hy. cbn in Hy.
  destruct x as [k|k v|k|k|k o n|k n]; cbn in Hy.
  - by injection Hy as <-.
  - destruct (marshalled auto v) as [b|] eqn:Ev; [|done]. injection Hy as <-. by apply stands_insert.
  - injection Hy as <-. by apply stands_delete.
  - by injection Hy as <-.
  - destruct (marshalled auto o) as [bo|] eqn:Eo, (marshalled auto n) as [bn|] eqn:En; try done.
    injection Hy as <-. apply stands_cas; [apply marshalled_inj|done..].
  - destruct sync, auto; try done. injection Hy as <-.
    apply stands_incr; [apply number_str_enc|apply number_str_bytes|done].
Qed.

Lemma wp_dumped d x b (Q : rbval R + rbexc → mem (rbenv E) → Prop) t :
  marshalled (automarshal d) x = Some b → Q (inl (VStr b)) t → wp (dumped d x) Q t.
Proof.
  unfold marshalled, dumped. intros Hx HQ. destruct (automarshal d).
  - destruct (marshal_dump x) as [b'|]; [|done]. injection Hx as ->. by wp_simpl.
  - destruct x; try done. injection Hx as ->. by wp_simpl.
Qed.

Context (s : nmdb_srv) `{!MapService E s}.

Section op.
Context (sync : bool) (d : GenericDB (R := R)) (p : rbenv E) (c : client E) (a : alloc) (M : store) (P : gmap bytes (rbval R)).
Context (Ha : never_fails a) (Hp : rb_get_db (rdb d) p = Some c) (Hc : c_servers c = [s]) (HM : svc_is (c_net c) M).
Context (HP : stands (marshalled (automarshal d)) P M).
Context (k : rbval R) (kb : bytes) (Hk : marshalled (automarshal d) k = Some kb).

Lemma wp_rb_fetch (Q : rbval R + rbexc → mem (rbenv E) → Prop) :
  call_ok (CGet kb (68 * 1024)) → call_fits svc_limit (CGet kb (68 * 1024)) →
  (∀ t, rb_connected s (rdb d) p M t → Q (inl (default (default_value d) (P !! kb))) t) →
  wp (get (class_of sync) d [k]) Q (Mem p a).
Proof.
  intros Hok Hlim HQ. assert (get (class_of sync) d [k] = normal_get gethostbyname d k) as -> by by destruct sync.
  unfold normal_get, generic_get. wp_simpl. eapply wp_dumped; [done|]. wp_simpl.
  eapply (wp_rb_call_get gethostbyname s _ p c a M Ha Hp Hc HM); [done|done|]. intros t Ht. specialize (HQ t Ht).
  destruct (P !! kb) as [v|] eqn:Ev.
  - destruct (stands_some _ _ _ _ _ HP Ev) as (b & -> & Eb). cbn [got default] in *.
    unfold marshalled in Eb. destruct (automarshal d).
    + destruct (marshal_dump v) as [b'|] eqn:Ed; [|done]. injection Eb as ->. wp_simpl.
      by rewrite (load_dump _ _ Ed).
    + destruct v; try done. injection Eb as ->. by wp_simpl.
  - rewrite (stands_none _ _ _ _ HP Ev). cbn [got as_num Z.eqb Pos.eqb]. by wp_simpl.
Qed.

Lemma wp_rb_assign v vb (Q : rbval R + rbexc → mem (rbenv E) → Prop) :
  marshalled (automarshal d) v = Some vb → call_ok (CSet sync kb vb) → call_fits svc_limit (CSet sync kb vb) →
  (∀ t, rb_connected s (rdb d) p (<[kb := vb]> M) t → Q (inl (VNum 1)) t) →
  wp (assign (class_of sync) d k v) Q (Mem p a).
Proof.
  intros Hv Hok Hlim HQ. assert (assign (class_of sync) d k v =
    store_with gethostbyname (if sync then "set_sync" else "set")%string d k v) as -> by by destruct sync.
  unfold store_with. wp_simpl. eapply wp_dumped; [done|]. wp_simpl. eapply wp_dumped; [done|]. wp_simpl.
  by eapply (wp_rb_call_set gethostbyname s _ p c a M Ha Hp Hc HM).
Qed.

Lemma wp_rb_delete (Q : rbval R + rbexc → mem (rbenv E) → Prop) :
  call_ok (CDel sync kb) → call_fits svc_limit (CDel sync kb) →
  (∀ t, rb_connected s (rdb d) p (delete kb M) t →
     Q (inl (VNum (if sync && bool_decide (P !! kb = None) then 0 else 1))) t) →
  wp (Ruby.delete (class_of sync) d [k]) Q (Mem p a).
Proof.
  intros Hok Hlim HQ. assert (Ruby.delete (class_of sync) d [k] =
    delete_with gethostbyname (if sync then "del_sync" else "del")%string d k) as -> by by destruct sync.
  unfold delete_with. wp_simpl. eapply wp_dumped; [done|]. wp_simpl.
  eapply (wp_rb_call_del gethostbyname s _ p c a M Ha Hp Hc HM); [done|done|].
  intros t Ht. rewrite (stands_absent _ _ _ _ HP). by apply HQ.
Qed.

Lemma wp_rb_cas o n ob nb (Q : rbval R + rbexc → mem (rbenv E) → Prop) :
  marshalled (automarshal d) o = Some ob → marshalled (automarshal d) n = Some nb →
  call_ok (CCas kb ob nb) → call_fits svc_limit (CCas kb ob nb) →
  (∀ t, rb_connected s (rdb d) p (effect (ACas kb ob nb) M) t →
     Q (inl match P !! kb with Some v => VNum (if decide (v = o) then 2 else 1) | None => VNil end) t) →
  wp (cas (class_of sync) d [k; o; n]) Q (Mem p a).
Proof.
  intros Ho Hn Hok Hlim HQ.
  assert (cas (class_of sync) d [k; o; n] = normal_cas gethostbyname d k o n) as -> by by destruct sync.
  unfold normal_cas, generic_cas. wp_simpl. do 3 (eapply wp_dumped; [done|]; wp_simpl).
  eapply (wp_rb_call_cas gethostbyname s _ p c a M Ha Hp Hc HM); [done|done|]. intros t Ht.
  specialize (HQ t Ht). rewrite (cas_answer _ (marshalled_inj _) _ _ _ _ _ HP Ho).
  destruct (P !! kb) as [v|]; [destruct (decide (v = o))|]; cbn [as_num Z.eqb Pos.eqb Z.ltb Z.compare];
    by wp_simpl.
Qed.

Lemma wp_rb_incr n (Q : rbval R + rbexc → mem (rbenv E) → Prop) :
  sync = false → automarshal d = false → call_ok (CIncr kb n) → call_fits svc_limit (CIncr kb n) →
  (∀ t, rb_connected s (rdb d) p (effect (AIncr kb n) M) t →
     Q match P !! kb with
       | Some v => match number_str v with Some b => inl (VNum (incr_num b n)) | None => inr NetworkException end
       | None => inl VNil
       end t) →
  wp (incr (class_of sync) d [k; VNum n]) Q (Mem p a).
Proof.
  intros -> Hauto Hok Hlim HQ. cbn [class_of incr DB takes2]. unfold normal_incr, generic_incr. wp_simpl.
  eapply wp_dumped; [done|]. wp_simpl.
  eapply (wp_rb_call_incr gethostbyname s _ p c a M Ha Hp Hc HM); [done|done|]. intros t z Ht Hz.
  specialize (HQ t Ht). unfold incr_code. rewrite Hauto in HP. destruct (P !! kb) as [v|] eqn:Ev.
  - destruct (stands_some _ _ _ _ _ HP Ev) as (b & Eb' & Eb). rewrite Eb' in Hz |- *.
    rewrite (number_str_enc _ _ Eb) in HQ. destruct (ends_nul b) eqn:En; cbn; wp_simpl; [|done].
    by rewrite (Hz b eq_refl En).
  - rewrite (stands_none _ _ _ _ HP Ev). cbn. by wp_simpl.
Qed.
End op.

(** ** Sequences of operations *)

Lemma wp_rb_run_op sync (d : GenericDB (R := R)) p c a M P x y kb (Q : rb_result R → mem (rbenv E) → Prop) :
  never_fails a → rb_get_db (rdb d) p = Some c → c_servers c = [s] → svc_is (c_net c) M →
  stands (marshalled (automarshal d)) P M →
  marshalled (automarshal d) (rb_key x) = Some kb → rb_op_call sync (automarshal d) x = Some y →
  call_ok y → call_fits svc_limit y →
  (∀ t, rb_connected s (rdb d) p (effect (call_msg y) M) t → Q (rb_result_of sync d x kb P) t) →
  wp (run_op sync d x) Q (Mem p a).
Proof.
  intros Ha Hp Hc HM HP Hk Hy Hok Hlim HQ. unfold rb_op_call in Hy. rewrite Hk in Hy. cbn in Hy.
  destruct x as [k|k v|k|k|k o n|k n]; cbn [rb_key] in Hk; cbn in Hy; apply wp_rb_outcome.
  - injection Hy as <-. by eapply wp_rb_fetch.
  - destruct (marshalled (automarshal d) v) as [b|] eqn:Ev; [|done]. injection Hy as <-. by eapply wp_rb_assign.
  - injection Hy as <-. by eapply wp_rb_delete.
  - injection Hy as <-. unfold include. wp_simpl. eapply wp_rb_fetch; [done..|]. intros t Ht. wp_simpl. by apply HQ.
  - destruct (marshalled (automarshal d) o) as [bo|] eqn:Eo, (marshalled (automarshal d) n) as [bn|] eqn:En; try done.
    injection Hy as <-. by eapply wp_rb_cas.
  - destruct sync; [done|]. destruct (automarshal d) eqn:Eauto; [done|]. injection Hy as <-.
    eapply (wp_rb_incr false d); rewrite ?Eauto; try done. intros t Ht. specialize (HQ t Ht). cbn in HQ.
    destruct (P !! kb) as [v|]; [|done]. by destruct (number_str v).
Qed.

(** The bytes of a key. *)
Definition rb_key_of (auto : bool) (x : rb_op R) : bytes := default [] (marshalled auto (rb_key x)).

(** A sequence of operations on a dictionary. *)
Fixpoint rb_run (sync : bool) (d : GenericDB) (xs : list (rb_op R)) (P : gmap bytes (rbval R))
    : list (rb_result R) * gmap bytes (rbval R) :=
  match xs with
  | [] => ([], P)
  | x :: xs =>
      let k := rb_key_of (automarshal d) x in
      let '(rs, P') := rb_run sync d xs (rb_after sync x k P) in
      (rb_result_of sync d x k P :: rs, P')
  end.

(** Keys and values can be encoded, and the server takes the packet. *)
Definition rb_op_fits (sync auto : bool) (limit : Z) (x : rb_op R) : Prop :=
  match rb_op_call sync auto x with Some y => call_ok y ∧ call_fits limit y | None => False end.

Lemma wp_rb_run_ops sync d xs p M P t (Q : list (rb_result R) → mem (rbenv E) → Prop) :
  rb_connected s (rdb d) p M t → stands (marshalled (automarshal d)) P M →
  Forall (rb_op_fits sync (automarshal d) svc_limit) xs →
  (∀ M' t, rb_connected s (rdb d) p M' t → stands (marshalled (automarshal d)) (rb_run sync d xs P).2 M' →
     Q (rb_run sync d xs P).1 t) →
  wp (run_ops sync d xs) Q t.
Proof.
  intros Ht HP Hxs. revert M P t Q Ht HP. induction Hxs as [|x xs Hx Hxs IH]; intros M P t Q Ht HP HQ;
    cbn [run_ops].
  - wp_simpl. by eapply HQ.
  - destruct t as [p1 a1]. pose proof Ht as (Ha & Hk & c & Hp & Hc & HM). cbn [obj heap] in *.
    unfold rb_op_fits in Hx. destruct (rb_op_call sync (automarshal d) x) as [y|] eqn:Ey; [|done].
    destruct Hx as [Hok Hlim]. assert (marshalled (automarshal d) (rb_key x) = Some (rb_key_of (automarshal d) x)) as Ekb
      by (unfold rb_op_call in Ey; unfold rb_key_of; by destruct (marshalled _ _)).
    apply wp_bind. eapply (wp_rb_run_op sync d p1 c a1 M P); [done..|].
    intros t1 Ht1. apply wp_bind. eapply IH; [by eapply rb_connected_trans|by eapply rb_stands_effect|].
    intros M' t2 Ht2 HP2. wp_simpl. revert HP2 HQ. cbn [rb_run]. cbn zeta.
    destruct (rb_run _ _ _ _) as [rs P']. cbn. intros HP2 HQ. by eapply HQ.
Qed.
End classes.

(** ** Properties *)


(** [incr] of [Sync] and of [Cache] is their [cas], which takes three
    arguments: it raises whatever the key, and asks no server. *)
Theorem ruby_incr_alias {E R} `{Kernel E} `{Ruby R} (gethostbyname : bytes → option Z)
  (d : GenericDB (R := R)) (k n : rbval R) (t : mem (rbenv E)) :
  incr (Sync gethostbyname) d [k; n] t = Some (inr ArgumentErr, t) ∧
  incr (Cache gethostbyname) d [k; n] t = Some (inr ArgumentErr, t).
Proof. done. Qed.

(** When [nmdb_init] has no memory but Ruby has, the new object wraps NULL, and
    its first method dereferences it. *)
Theorem ruby_null_connection {E R} `{Kernel E} `{RubyLaws R} (gethostbyname : bytes → option Z)
  (k v : bytes) (default : rbval R) (p : rbenv E) (a : alloc)
  (Hno : al_ok a (al_next a) = false) (Hok : al_ok a (S (al_next a)) = true) :
  ∃ db t, initialize default (Mem p a) = Some (inl db, t) ∧
    rb_call gethostbyname (rdb db) "set" [VStr k; VStr v] t = None.
Proof.
  set (p' := RbEnv (<[rb_next p := None]> (rb_objs p)) (S (rb_next p)) (rb_net p)).
  exists (GenericDb (rb_next p) true default), (Mem p' (al_tick (al_tick a))). split.
  - unfold initialize, mm_db_allocate, ALLOC_N, nmdb_init, malloc, zoom, lifted, get_obj, gets, mod_obj, modify,
      mbind, exc_bind, mret, exc_ret, M_bind. cbn. rewrite Hno. cbn. by rewrite Hok.
  - change (rb_call gethostbyname (rdb (GenericDb (rb_next p) true default)) "set" [VStr k; VStr v]) with
      (m_set (E := E) (R := R) (rb_next p) (VStr k) (VStr v)).
    unfold m_set, c_generic_set, of_sum, mbind, exc_bind. rewrite !str2cstr_str. unfold with_db, lifted, zoom. cbn.
    unfold rb_get_db, p'. cbn. by rewrite lookup_insert_eq.
Qed.

(** ** Witnesses: a Ruby of strings and numbers *)

Definition toy_dump (x : rbval Empty_set) : bytes + rbexc :=
  match x with
  | VNum n =>
      if decide (INT64_MIN ≤ n ≤ INT64_MAX) then inl (Byte.x69 :: le_split 8 (w64 n)) else inr RangeErr
  | VStr b => inl (Byte.x22 :: b)
  | _ => inr TypeErr
  end.
Definition toy_load (b : bytes) : rbval Empty_set + rbexc :=
  match b with
  | [] => inr TypeErr
  | t :: b => if decide (t = Byte.x69) then inl (VNum (s64 (le_combine b))) else inl (VStr b)
  end.
Definition toy_num (lo hi : Z) (x : rbval Empty_set) : Z + rbexc :=
  match x with VNum n => if decide (lo ≤ n ≤ hi) then inl n else inr RangeErr | _ => inr TypeErr end.

#[export] Instance toy_ruby : Ruby Empty_set := {|
  num2int := toy_num (- 2 ^ 31) (2 ^ 31 - 1);
  num2ll := toy_num INT64_MIN INT64_MAX;
  str2cstr x := match x with VStr b => inl b | _ => inr TypeErr end;
  marshal_dump := toy_dump;
  marshal_load := toy_load;
  rb_equal x y := bool_decide (x = y);
|}.

#[export] Instance toy_ruby_laws : RubyLaws Empty_set.
Proof.
  split; [done| | |].
  - intros n Hn. cbn. by rewrite decide_True by lia.
  - intros n Hn. cbn. by rewrite decide_True.
  - intros [|n|b| |] b' Hb; cbn [marshal_dump marshal_load toy_ruby toy_dump] in *; try done.
    + case_decide; [|done]. injection Hb as <-. unfold toy_load. rewrite decide_True by done.
      rewrite le_combine_split. change (2 ^ (Z.of_nat 8 * 8)) with (2 ^ 64). rewrite Z.mod_small by apply w64_range.
      by rewrite s64_w64, s64_small.
    + by injection Hb as <-.
Qed.

Definition toy_db : GenericDB (R := Empty_set) := GenericDb 0 false (VNum 0).
Definition toy_env : rbenv (host store) := RbEnv {[ 0%nat := Some [sample_srv] ]} 1 empty_host.
Definition toy_rb_ops : list (rb_op Empty_set) :=
  [RIn (VStr [Byte.x6b]); RSet (VStr [Byte.x6b]) (VStr [Byte.x37; Byte.x00]); RIncr (VStr [Byte.x6b]) 5;
   RIn (VStr [Byte.x6b]); RDel (VStr [Byte.x6b]); RGet (VStr [Byte.x6b])].

Lemma toy_rb_ops_fit : Forall (rb_op_fits false false (8 + 12 + max_size)) toy_rb_ops.
Proof.
  unfold toy_rb_ops. repeat (apply Forall_cons; split); [..|by apply Forall_nil];
    (split; [split; vm_compute; try done; by repeat split|by vm_compute]).
Qed.

(** [include?] is true before the key is there, and false when it is. *)
Lemma toy_rb_results : (rb_run false toy_db toy_rb_ops ∅).1 =
  [RBool true; RVal (VNum 1); RVal (VNum 12); RBool false; RVal (VNum 1); RVal (VNum 0)].
Proof. by vm_compute. Qed.

Definition sample_service : MapService (host store) sample_srv :=
  dgram_map (s := sample_srv) ltac:(by right; left) (DgramService0 := host_service store_reliable sample_srv).

